(** * TabFern view/model.js: the item-consistency layer

    A shallow embedding of the routines that keep the jstree nodes and the
    multidex detail records of TabFern in step (view/model.js, with the
    constants of view/const.js), and the properties of the design document
    proved about them.

    JavaScript strings are sequences of UTF-16 code units; detail records are
    objects compared by identity, so they live in a heap and are referred to
    by location. *)

From Stdlib Require Import ZArith List Ascii String Lia Bool.
From stdpp Require Import base option list gmap countable.

Open Scope Z_scope.

(** ** JavaScript values *)

(** A JavaScript string: its UTF-16 code units. *)
Definition jsstring := list Z.

(** The code units of an ASCII literal of the source. *)
Definition lit (s : string) : jsstring :=
  List.map (fun c => Z.of_nat (nat_of_ascii c)) (list_ascii_of_string s).

(** The dynamically-typed values the routines are handed ("mixed"). Numbers
    are the integers, ids and indices: [VNum n] is the Number value that the
    integer [n] denotes, which is [n] itself up to [2^53]. *)
Inductive jsval :=
| VUndef
| VNull
| VBool (b : bool)
| VNum (n : Z)
| VStr (s : jsstring).

#[global] Instance jsval_eq_dec : EqDecision jsval.
Proof. solve_decision. Defined.

#[global] Instance jsval_countable : Countable jsval.
Proof.
  refine (inj_countable'
    (fun v => match v with
              | VUndef => inl (inl true)
              | VNull => inl (inl false)
              | VBool b => inl (inr b)
              | VNum n => inr (inl n)
              | VStr s => inr (inr s)
              end)
    (fun x => match x with
              | inl (inl true) => VUndef
              | inl (inl false) => VNull
              | inl (inr b) => VBool b
              | inr (inl n) => VNum n
              | inr (inr s) => VStr s
              end) _).
  intros []; reflexivity.
Defined.

(** ToBoolean: [!v] is [negb (truthy v)]. *)
Definition truthy (v : jsval) : bool :=
  match v with
  | VUndef | VNull => false
  | VBool b => b
  | VNum n => negb (n =? 0)
  | VStr s => match s with [] => false | _ => true end
  end.

Definition falsy (v : jsval) : bool := negb (truthy v).

(** Decimal digits of a natural number, most significant first. *)
Fixpoint digits_fuel (fuel : nat) (n : Z) (acc : jsstring) : jsstring :=
  match fuel with
  | O => acc
  | S f =>
      let acc' := (48 + n mod 10) :: acc in
      if n / 10 =? 0 then acc' else digits_fuel f (n / 10) acc'
  end.

(** A number has at most as many decimal digits as binary ones. *)
Definition digits (n : Z) : jsstring :=
  digits_fuel (S (Z.to_nat (Z.log2 n))) n [].

(** The Number value of a natural number: the number itself below [2^53],
    and above it the nearest number with 53 significant bits, the even one
    of two that are equally near. *)
Definition to_double (a : Z) : Z :=
  if a <? 2 ^ 53 then a
  else
    let e := Z.log2 a - 52 in
    let q := Z.shiftr a e in
    let r := a - Z.shiftl q e in
    let half := Z.shiftl 1 (e - 1) in
    let q' := if half <? r then q + 1
              else if r <? half then q
              else if Z.even q then q else q + 1 in
    Z.shiftl q' e.

(** The [k] digits [s] with [to_double (s * 10 ^ (n - k)) = x], if there are
    any: of two such, the nearer to [x], and the even one if both are as
    near. *)
Definition digits_at (x n k : Z) : option Z :=
  let scale := 10 ^ (n - k) in
  let s0 := x / scale in
  let s1 := s0 + 1 in
  let ok (s : Z) :=
    (10 ^ (k - 1) <=? s) && (s <? 10 ^ k) && (to_double (s * scale) =? x) in
  match ok s0, ok s1 with
  | true, true =>
      let d0 := x - s0 * scale in
      let d1 := s1 * scale - x in
      if d0 <? d1 then Some s0
      else if d1 <? d0 then Some s1
      else if Z.even s0 then Some s0 else Some s1
  | true, false => Some s0
  | false, true => Some s1
  | false, false => None
  end.

(** Number::toString, step 5: the least [k], and with it [s] and [n], such
    that [s] has [k] digits and [s * 10 ^ (n - k)] is the number [x]. For a
    whole number [n] is the number of its digits, or one more when [x] is the
    Number value of the next power of ten. Seventeen digits tell any two
    numbers apart. *)
Fixpoint shortest_from (fuel : nat) (x n k : Z) : Z * Z :=
  match fuel with
  | O => (x, n)
  | S fuel =>
      if n <? k then (x, n)
      else match digits_at x n k with
           | Some s => (s, n)
           | None => shortest_from fuel x n (k + 1)
           end
  end.

Definition shortest (x : Z) : Z * Z :=
  let n := Z.of_nat (length (digits x)) in
  if to_double (10 ^ n) =? x then (1, n + 1)
  else shortest_from 17 x n 1.

(** Number::toString of a positive whole number [x]: up to 21 digits the
    digits of [s] and then zeros; above that the exponent form. *)
Definition pos_to_string (x : Z) : jsstring :=
  let '(s, n) := shortest x in
  let ds := digits s in
  let k := Z.of_nat (length ds) in
  if n <=? 21 then ds ++ repeat 48 (Z.to_nat (n - k))
  else
    match ds with
    | [] => []
    | d :: rest =>
        d :: (match rest with [] => [] | _ => 46 :: rest end)
          ++ lit "e+" ++ digits (n - 1)
    end.

(** Number.prototype.toString on the Number value of an integer. Below
    [2^53] the number is its own Number value and has at most 16 digits, so
    that the digits of [s] and the zeros after them are the digits of the
    number. *)
Definition num_to_string (n : Z) : jsstring :=
  let a := Z.abs n in
  (if n <? 0 then [45] else [])
    ++ (if a <? 2 ^ 53 then digits a
        else
          let x := to_double a in
          if 2 ^ 1024 <=? x then lit "Infinity" else pos_to_string x).

(** ToString. *)
Definition to_string (v : jsval) : jsstring :=
  match v with
  | VUndef => lit "undefined"
  | VNull => lit "null"
  | VBool true => lit "true"
  | VBool false => lit "false"
  | VNum n => num_to_string n
  | VStr s => s
  end.

(** ** UTF-8 encoding: [Buffer.from(str, 'utf8')] *)

Definition is_high_surrogate (c : Z) : bool := (0xD800 <=? c) && (c <=? 0xDBFF).
Definition is_low_surrogate (c : Z) : bool := (0xDC00 <=? c) && (c <=? 0xDFFF).

(** U+FFFD, written for a surrogate without its partner. *)
Definition utf8_replacement : list Z := [0xEF; 0xBF; 0xBD].

Definition utf8_2 (c : Z) : list Z :=
  [Z.lor 0xC0 (Z.shiftr c 6); Z.lor 0x80 (Z.land c 0x3F)].

Definition utf8_3 (c : Z) : list Z :=
  [Z.lor 0xE0 (Z.shiftr c 12);
   Z.lor 0x80 (Z.land (Z.shiftr c 6) 0x3F);
   Z.lor 0x80 (Z.land c 0x3F)].

Definition utf8_4 (cp : Z) : list Z :=
  [Z.lor 0xF0 (Z.shiftr cp 18);
   Z.lor 0x80 (Z.land (Z.shiftr cp 12) 0x3F);
   Z.lor 0x80 (Z.land (Z.shiftr cp 6) 0x3F);
   Z.lor 0x80 (Z.land cp 0x3F)].

Definition surrogate_pair (hi lo : Z) : Z :=
  0x10000 + Z.shiftl (hi - 0xD800) 10 + (lo - 0xDC00).

Fixpoint utf8 (s : jsstring) : list Z :=
  match s with
  | [] => []
  | c :: r =>
      if c <? 0x80 then c :: utf8 r
      else if c <? 0x800 then utf8_2 c ++ utf8 r
      else if is_high_surrogate c then
        match r with
        | lo :: r' =>
            if is_low_surrogate lo
            then utf8_4 (surrogate_pair c lo) ++ utf8 r'
            else utf8_replacement ++ utf8 r
        | [] => utf8_replacement
        end
      else if is_low_surrogate c then utf8_replacement ++ utf8 r
      else utf8_3 c ++ utf8 r
  end.

(** ** The BLAKE2s hash object *)

(** Modelled from the spec: the [blake2s] package the module imports is not
    part of the sources; the design document names the function (BLAKE2s with
    a 256-bit digest, fed incrementally, then finalized). The definitions
    follow RFC 7693: 32-bit words as [Z] with the wrap-around written out,
    unkeyed, sequential mode. *)
Module BLAKE2s.

Definition w32 (x : Z) : Z := x mod 2 ^ 32.

Definition rotr (x n : Z) : Z :=
  Z.lor (Z.shiftr x n) (w32 (Z.shiftl x (32 - n))).

Definition IV : list Z :=
  [0x6A09E667; 0xBB67AE85; 0x3C6EF372; 0xA54FF53A;
   0x510E527F; 0x9B05688C; 0x1F83D9AB; 0x5BE0CD19].

Definition SIGMA : list (list nat) :=
  [[0; 1; 2; 3; 4; 5; 6; 7; 8; 9; 10; 11; 12; 13; 14; 15];
   [14; 10; 4; 8; 9; 15; 13; 6; 1; 12; 0; 2; 11; 7; 5; 3];
   [11; 8; 12; 0; 5; 2; 15; 13; 10; 14; 3; 6; 7; 1; 9; 4];
   [7; 9; 3; 1; 13; 12; 11; 14; 2; 6; 5; 10; 4; 0; 15; 8];
   [9; 0; 5; 7; 2; 4; 10; 15; 14; 1; 11; 12; 6; 8; 3; 13];
   [2; 12; 6; 10; 0; 11; 8; 3; 4; 13; 7; 5; 15; 14; 1; 9];
   [12; 5; 1; 15; 14; 13; 4; 10; 0; 7; 6; 3; 9; 2; 8; 11];
   [13; 11; 7; 14; 12; 1; 3; 9; 5; 0; 15; 4; 8; 6; 2; 10];
   [6; 15; 14; 9; 11; 3; 0; 8; 12; 2; 13; 7; 1; 4; 10; 5];
   [10; 2; 8; 4; 7; 6; 1; 5; 15; 11; 9; 14; 3; 12; 13; 0]]%nat.

Definition get (v : list Z) (i : nat) : Z := nth i v 0.
Definition put (v : list Z) (i : nat) (x : Z) : list Z := <[i := x]> v.

(** The mixing function G. *)
Definition G (v : list Z) (a b c d : nat) (x y : Z) : list Z :=
  let v := put v a (w32 (get v a + get v b + x)) in
  let v := put v d (rotr (Z.lxor (get v d) (get v a)) 16) in
  let v := put v c (w32 (get v c + get v d)) in
  let v := put v b (rotr (Z.lxor (get v b) (get v c)) 12) in
  let v := put v a (w32 (get v a + get v b + y)) in
  let v := put v d (rotr (Z.lxor (get v d) (get v a)) 8) in
  let v := put v c (w32 (get v c + get v d)) in
  put v b (rotr (Z.lxor (get v b) (get v c)) 7).

Definition round (m : list Z) (v : list Z) (s : list nat) : list Z :=
  let ms i := get m (nth i s 0%nat) in
  let v := G v 0 4 8 12 (ms 0%nat) (ms 1%nat) in
  let v := G v 1 5 9 13 (ms 2%nat) (ms 3%nat) in
  let v := G v 2 6 10 14 (ms 4%nat) (ms 5%nat) in
  let v := G v 3 7 11 15 (ms 6%nat) (ms 7%nat) in
  let v := G v 0 5 10 15 (ms 8%nat) (ms 9%nat) in
  let v := G v 1 6 11 12 (ms 10%nat) (ms 11%nat) in
  let v := G v 2 7 8 13 (ms 12%nat) (ms 13%nat) in
  G v 3 4 9 14 (ms 14%nat) (ms 15%nat).

(** Sixteen little-endian words of a 64-byte block. *)
Fixpoint words (n : nat) (block : list Z) : list Z :=
  match n with
  | O => []
  | S n' =>
      let b i := nth i block 0 in
      (b 0%nat + Z.shiftl (b 1%nat) 8 + Z.shiftl (b 2%nat) 16
       + Z.shiftl (b 3%nat) 24) :: words n' (skipn 4 block)
  end.

(** The compression function F: chain value [h], block, offset counter [t],
    final-block flag. *)
Definition F (h : list Z) (block : list Z) (t : Z) (final : bool) : list Z :=
  let m := words 16 block in
  let v := h ++ IV in
  let v := put v 12 (Z.lxor (get v 12) (w32 t)) in
  let v := put v 13 (Z.lxor (get v 13) (w32 (Z.shiftr t 32))) in
  let v := if final then put v 14 (Z.lxor (get v 14) 0xFFFFFFFF) else v in
  let v := fold_left (round m) SIGMA v in
  List.map (fun i => Z.lxor (Z.lxor (get h i) (get v i)) (get v (i + 8)))
           (seq 0 8).

(** The hash object: chain value, bytes compressed so far, pending bytes
    (at most one block). *)
Record state := mkState { h : list Z; t : Z; buf : list Z }.

(** [new BLAKE2s(32)]: no key, [nn]-byte digest. *)
Definition init (nn : Z) : state :=
  mkState (put IV 0 (Z.lxor (get IV 0) (Z.lxor 0x01010000 nn))) 0 [].

(** A full pending block is compressed only when more input arrives, so
    that the last block is left for [digest]. *)
Definition update_byte (st : state) (b : Z) : state :=
  if (length (buf st) =? 64)%nat
  then mkState (F (h st) (buf st) (t st + 64) false) (t st + 64) [b]
  else mkState (h st) (t st) (buf st ++ [b]).

Definition update (st : state) (data : list Z) : state :=
  fold_left update_byte data st.

Definition word_bytes (x : Z) : list Z :=
  [Z.land x 0xFF; Z.land (Z.shiftr x 8) 0xFF;
   Z.land (Z.shiftr x 16) 0xFF; Z.land (Z.shiftr x 24) 0xFF].

Definition digest (nn : nat) (st : state) : list Z :=
  let n := Z.of_nat (length (buf st)) in
  let block := buf st ++ repeat 0 (64 - length (buf st)) in
  let hf := F (h st) block (t st + n) true in
  firstn nn (flat_map word_bytes hf).

Definition hex_digit (d : Z) : Z := if d <? 10 then 48 + d else 87 + d.

Definition hex (bytes : list Z) : jsstring :=
  flat_map (fun b => [hex_digit (Z.shiftr b 4); hex_digit (Z.land b 0xF)])
           bytes.

Definition hexDigest (nn : nat) (st : state) : jsstring :=
  hex (digest nn st).

(** The one-shot function of RFC 7693 on a whole message. *)
Definition blake2s_256 (msg : list Z) : list Z :=
  digest 32 (update (init 32) msg).

End BLAKE2s.

(** ** Regular expressions

    The two regular-expression literals of the module, as syntax trees with
    their language, and a matcher by derivatives to run them. *)

Inductive regex :=
| REmpty
| REps
| RClass (f : Z -> bool)
| RSeq (a b : regex)
| RAlt (a b : regex)
| RStar (a : regex).

Definition RPlus (a : regex) : regex := RSeq a (RStar a).

Inductive lang : regex -> jsstring -> Prop :=
| L_eps : lang REps []
| L_class f c : f c = true -> lang (RClass f) [c]
| L_seq a b s1 s2 : lang a s1 -> lang b s2 -> lang (RSeq a b) (s1 ++ s2)
| L_alt_l a b s : lang a s -> lang (RAlt a b) s
| L_alt_r a b s : lang b s -> lang (RAlt a b) s
| L_star_nil a : lang (RStar a) []
| L_star_cons a s1 s2 :
    lang a s1 -> lang (RStar a) s2 -> lang (RStar a) (s1 ++ s2).

Fixpoint nullable (r : regex) : bool :=
  match r with
  | REmpty => false
  | REps => true
  | RClass _ => false
  | RSeq a b => nullable a && nullable b
  | RAlt a b => nullable a || nullable b
  | RStar _ => true
  end.

Fixpoint deriv (c : Z) (r : regex) : regex :=
  match r with
  | REmpty => REmpty
  | REps => REmpty
  | RClass f => if f c then REps else REmpty
  | RSeq a b =>
      if nullable a then RAlt (RSeq (deriv c a) b) (deriv c b)
      else RSeq (deriv c a) b
  | RAlt a b => RAlt (deriv c a) (deriv c b)
  | RStar a => RSeq (deriv c a) (RStar a)
  end.

(** Whether the whole of [s] is in the language of [r]. *)
Fixpoint matches (r : regex) (s : jsstring) : bool :=
  match s with
  | [] => nullable r
  | c :: s' => matches (deriv c r) s'
  end.

(** [str.match(re).index] for an expression [re = body$] without the global
    and multiline flags: the first position from which the rest of the string,
    up to its end, matches [body]; [None] when [match] returns null. *)
Fixpoint match_index_from (body : regex) (s : jsstring) (i : nat) : option nat :=
  if matches body s then Some i
  else match s with
       | [] => None
       | _ :: s' => match_index_from body s' (S i)
       end.

Definition match_index (body : regex) (s : jsstring) : option nat :=
  match_index_from body s 0.

(** The class [\s]: WhiteSpace and LineTerminator code units. *)
Definition is_space (c : Z) : bool :=
  ((9 <=? c) && (c <=? 13)) || (c =? 32) || (c =? 0xA0) || (c =? 0x1680)
  || ((0x2000 <=? c) && (c <=? 0x200A)) || (c =? 0x2028) || (c =? 0x2029)
  || (c =? 0x202F) || (c =? 0x205F) || (c =? 0x3000) || (c =? 0xFEFF).

(** Canonicalize of the [i] flag, on the ASCII range. A code unit outside
    ASCII never canonicalizes to an ASCII one, so against the ASCII pattern
    characters used here it is left as it is. *)
Definition canonicalize (c : Z) : Z :=
  if (97 <=? c) && (c <=? 122) then c - 32 else c.

Definition ci_eq (p c : Z) : bool := canonicalize p =? canonicalize c.

(** A literal pattern string under the [i] flag. *)
Fixpoint RLit_ci (p : jsstring) : regex :=
  match p with
  | [] => REps
  | c :: p' => RSeq (RClass (ci_eq c)) (RLit_ci p')
  end.

(** A literal pattern string, case-sensitive. *)
Fixpoint RLit (p : jsstring) : regex :=
  match p with
  | [] => REps
  | c :: p' => RSeq (RClass (Z.eqb c)) (RLit p')
  end.

Definition RSpace : regex := RClass is_space.

(** [/(\s+\(Unsaved\)){1,}\s*$/i], without the final [$]. *)
Definition re_unsaved : regex :=
  RSeq (RPlus (RSeq (RPlus RSpace) (RLit_ci (lit "(Unsaved)")))) (RStar RSpace).

(** [/\.pdf$/i], without the final [$]. *)
Definition re_pdf : regex := RLit_ci (lit ".pdf").

(** [_.test(v)]: the argument is converted to a string first. *)
Definition regex_test (body : regex) (v : jsval) : bool :=
  match match_index body (to_string v) with Some _ => true | None => false end.

(** ** Constants: view/const.js *)

(** Item-type enumeration ([K.IT_WIN], [K.IT_TAB]); each is a truthy string,
    used as the [ty] of a detail record and as a node type. *)
Inductive item_type := IT_WIN | IT_TAB.

#[global] Instance item_type_eq_dec : EqDecision item_type.
Proof. solve_decision. Defined.

Module K.
Definition BULLET_CLASS : jsstring := lit "tf-bullet".
Definition WIN_KEEP : jsval := VBool true.
Definition WIN_NOKEEP : jsval := VBool false.
(** [chrome.windows.WINDOW_ID_NONE], which the Chrome API fixes at -1. *)
Definition NONE : jsval := VNum (-1).
Definition type_name (ty : item_type) : jsstring :=
  match ty with IT_WIN => lit "win" | IT_TAB => lit "tab" end.
Definition NST_OPEN : jsstring := lit "open".
Definition NST_SAVED : jsstring := lit "saved".
Definition NST_RECOVERED : jsstring := lit "recovered".
Definition NST_TOP_BORDER : jsstring := lit "top-bordered".
End K.

(** ** Detail records *)

(** The part of a Chrome window object the module reads. *)
Record cwin := mkCwin { cw_id : jsval }.

(** The part of a Chrome tab object the module reads. *)
Record ctab := mkCtab {
  ct_id : jsval;
  ct_windowId : jsval;
  ct_index : jsval;
  ct_url : jsval;
  ct_title : jsval;
  ct_favIconUrl : jsval;
  ct_pinned : jsval }.

(** A detail record. Records of both kinds are JavaScript objects and the
    routines read them by field name whatever their [ty], so one record type
    carries the fields of both; a field the kind does not have reads as
    undefined ([VUndef], or [None] for the Chrome objects). *)
Record item_val := mkItem {
  ty : item_type;
  node_id : jsstring;
  win_id : jsval;
  tab_id : jsval;
  index : jsval;
  win : option cwin;
  tab : option ctab;
  raw_title : jsval;
  raw_bullet : jsval;
  raw_url : jsval;
  raw_favicon_url : jsval;
  isOpen : bool;
  isPinned : jsval;
  keep : jsval;
  ordered_url_hash : jsval }.

Definition set_win_id (x : jsval) (v : item_val) : item_val :=
  mkItem (ty v) (node_id v) x (tab_id v) (index v) (win v) (tab v)
    (raw_title v) (raw_bullet v) (raw_url v) (raw_favicon_url v) (isOpen v)
    (isPinned v) (keep v) (ordered_url_hash v).
Definition set_tab_id (x : jsval) (v : item_val) : item_val :=
  mkItem (ty v) (node_id v) (win_id v) x (index v) (win v) (tab v)
    (raw_title v) (raw_bullet v) (raw_url v) (raw_favicon_url v) (isOpen v)
    (isPinned v) (keep v) (ordered_url_hash v).
Definition set_index (x : jsval) (v : item_val) : item_val :=
  mkItem (ty v) (node_id v) (win_id v) (tab_id v) x (win v) (tab v)
    (raw_title v) (raw_bullet v) (raw_url v) (raw_favicon_url v) (isOpen v)
    (isPinned v) (keep v) (ordered_url_hash v).
Definition set_win (x : option cwin) (v : item_val) : item_val :=
  mkItem (ty v) (node_id v) (win_id v) (tab_id v) (index v) x (tab v)
    (raw_title v) (raw_bullet v) (raw_url v) (raw_favicon_url v) (isOpen v)
    (isPinned v) (keep v) (ordered_url_hash v).
Definition set_tab (x : option ctab) (v : item_val) : item_val :=
  mkItem (ty v) (node_id v) (win_id v) (tab_id v) (index v) (win v) x
    (raw_title v) (raw_bullet v) (raw_url v) (raw_favicon_url v) (isOpen v)
    (isPinned v) (keep v) (ordered_url_hash v).
Definition set_raw_title (x : jsval) (v : item_val) : item_val :=
  mkItem (ty v) (node_id v) (win_id v) (tab_id v) (index v) (win v) (tab v)
    x (raw_bullet v) (raw_url v) (raw_favicon_url v) (isOpen v)
    (isPinned v) (keep v) (ordered_url_hash v).
Definition set_raw_bullet (x : jsval) (v : item_val) : item_val :=
  mkItem (ty v) (node_id v) (win_id v) (tab_id v) (index v) (win v) (tab v)
    (raw_title v) x (raw_url v) (raw_favicon_url v) (isOpen v)
    (isPinned v) (keep v) (ordered_url_hash v).
Definition set_raw_url (x : jsval) (v : item_val) : item_val :=
  mkItem (ty v) (node_id v) (win_id v) (tab_id v) (index v) (win v) (tab v)
    (raw_title v) (raw_bullet v) x (raw_favicon_url v) (isOpen v)
    (isPinned v) (keep v) (ordered_url_hash v).
Definition set_raw_favicon_url (x : jsval) (v : item_val) : item_val :=
  mkItem (ty v) (node_id v) (win_id v) (tab_id v) (index v) (win v) (tab v)
    (raw_title v) (raw_bullet v) (raw_url v) x (isOpen v)
    (isPinned v) (keep v) (ordered_url_hash v).
Definition set_isOpen (x : bool) (v : item_val) : item_val :=
  mkItem (ty v) (node_id v) (win_id v) (tab_id v) (index v) (win v) (tab v)
    (raw_title v) (raw_bullet v) (raw_url v) (raw_favicon_url v) x
    (isPinned v) (keep v) (ordered_url_hash v).
Definition set_isPinned (x : jsval) (v : item_val) : item_val :=
  mkItem (ty v) (node_id v) (win_id v) (tab_id v) (index v) (win v) (tab v)
    (raw_title v) (raw_bullet v) (raw_url v) (raw_favicon_url v) (isOpen v)
    x (keep v) (ordered_url_hash v).
Definition set_keep (x : jsval) (v : item_val) : item_val :=
  mkItem (ty v) (node_id v) (win_id v) (tab_id v) (index v) (win v) (tab v)
    (raw_title v) (raw_bullet v) (raw_url v) (raw_favicon_url v) (isOpen v)
    (isPinned v) x (ordered_url_hash v).
Definition set_ordered_url_hash (x : jsval) (v : item_val) : item_val :=
  mkItem (ty v) (node_id v) (win_id v) (tab_id v) (index v) (win v) (tab v)
    (raw_title v) (raw_bullet v) (raw_url v) (raw_favicon_url v) (isOpen v)
    (isPinned v) (keep v) x.

(** A detail record is a JavaScript object: it is referred to by its
    location in the heap, and [Object.is] on two records compares locations.
    Objects are never freed; a record taken out of its store stays readable
    by whoever still holds it. *)
Abbreviation loc := nat (only parsing).

(** ** The Keyed Store: view/item_details.js *)

(** The key fields of a record that can be re-keyed. *)
Inductive key_field := F_win_id | F_tab_id | F_ordered_url_hash.

#[global] Instance key_field_eq_dec : EqDecision key_field.
Proof. solve_decision. Defined.

#[global] Instance key_field_countable : Countable key_field.
Proof.
  refine (inj_countable'
    (fun f => match f with
              | F_win_id => 0%nat | F_tab_id => 1%nat
              | F_ordered_url_hash => 2%nat end)
    (fun n => match n with
              | O => F_win_id | S O => F_tab_id
              | _ => F_ordered_url_hash end) _).
  intros []; reflexivity.
Defined.

Definition get_key (f : key_field) (v : item_val) : jsval :=
  match f with
  | F_win_id => win_id v
  | F_tab_id => tab_id v
  | F_ordered_url_hash => ordered_url_hash v
  end.

Definition set_key (f : key_field) (x : jsval) (v : item_val) : item_val :=
  match f with
  | F_win_id => set_win_id x v
  | F_tab_id => set_tab_id x v
  | F_ordered_url_hash => set_ordered_url_hash x v
  end.

(** Modelled from the spec: view/item_details.js and the multidex package it
    builds the two stores from are not part of the sources. Following the
    design document, a store is two maps: the primary index by node id and a
    secondary index by the mutable key fields (the browser-assigned id and,
    for windows, the content hash). The NONE sentinel, null and undefined
    stand for "no key" and are not indexed. *)
Record multidex := mkMultidex {
  md_fields : list key_field;
  by_node : gmap jsstring loc;
  by_field : gmap (key_field * jsval) loc }.

Definition indexable (x : jsval) : bool :=
  match x with
  | VUndef | VNull => false
  | _ => negb (bool_decide (x = K.NONE))
  end.

Definition index_field (l : loc) (v : item_val)
    (idx : gmap (key_field * jsval) loc) (f : key_field)
    : gmap (key_field * jsval) loc :=
  if indexable (get_key f v) then <[(f, get_key f v) := l]> idx else idx.

Definition unindex_field (v : item_val)
    (idx : gmap (key_field * jsval) loc) (f : key_field)
    : gmap (key_field * jsval) loc :=
  delete (f, get_key f v) idx.

(** Modelled from the spec: [add(fields) -> value|false]. The new record
    object is allocated and indexed under each of its keys; the insert fails,
    allocating nothing, when the node id is already a key of the store. *)
Definition md_add (v : item_val) (heap : list item_val) (md : multidex)
    : option loc * list item_val * multidex :=
  match by_node md !! node_id v with
  | Some _ => (None, heap, md)
  | None =>
      let l := length heap in
      (Some l, heap ++ [v],
       mkMultidex (md_fields md)
         (<[node_id v := l]> (by_node md))
         (fold_left (index_field l v) (md_fields md) (by_field md)))
  end.

(** Modelled from the spec: [remove_value(value)] takes the record out of
    every index, under the keys it currently has. *)
Definition md_remove_value (l : loc) (heap : list item_val) (md : multidex)
    : multidex :=
  match heap !! l with
  | None => md
  | Some v =>
      mkMultidex (md_fields md)
        (delete (node_id v) (by_node md))
        (fold_left (unindex_field v) (md_fields md) (by_field md))
  end.

(** Modelled from the spec: [change_key(value, field_name, new_value)]
    assigns the field and moves the record to its new key in the secondary
    index. *)
Definition md_change_key (l : loc) (f : key_field) (x : jsval)
    (heap : list item_val) (md : multidex) : list item_val * multidex :=
  match heap !! l with
  | None => (heap, md)
  | Some v =>
      let v' := set_key f x v in
      (<[l := v']> heap,
       mkMultidex (md_fields md) (by_node md)
         (index_field l v' (unindex_field v (by_field md) f) f))
  end.

(** ** The Tree View: view/item_tree.js *)

(** Node markup: the label strings are assembled from literal markup and
    from [Esc.escape] applied to record fields. *)
Inductive html_piece :=
| Markup (s : jsstring)
| Escaped (v : jsval).

Definition html := list html_piece.

(** What [set_icon] is given: [true] (the theme's icon), a class name, or
    [encodeURI] of a URL. *)
Inductive icon :=
| IconTrue
| IconClass (s : jsstring)
| IconEncodedURI (v : jsval).

(** Modelled from the spec: the jstree instance [T.treeobj] (with the
    multitype plugin) is not part of the sources. A node has an id, a parent
    (none for the root), an ordered list of children, a label, an icon, a set
    of type tags, and is expanded or not. *)
Record tnode := mkNode {
  n_parent : option jsstring;
  n_children : list jsstring;
  n_text : html;
  n_icon : icon;
  n_types : gset jsstring;
  n_opened : bool }.

Record tree := mkTree {
  nodes : gmap jsstring tnode;
  cnt : Z }.

(** [$.jstree.root] *)
Definition jstree_root : jsstring := lit "#".

Inductive position := PosLast | PosIndex (n : nat).

(** Ids of nodes created without one: a prefix and a running counter. *)
Definition gen_id (n : Z) : jsstring := lit "j1_" ++ num_to_string n.

Definition insert_at {A} (pos : position) (x : A) (l : list A) : list A :=
  match pos with
  | PosLast => l ++ [x]
  | PosIndex n => firstn n l ++ x :: skipn n l
  end.

(** Modelled from the spec: [get_node(ref) -> node_record|false]; the record
    exposes [id], [parent] and the ordered [children]. The record is the
    tree's own object, and [children] is the array that [delete_node] edits
    in place: [get_node] gives the node as it is at the time of the call,
    and a routine that goes on reading the record while the tree changes
    ([eraseWin]) reads it again. *)
Definition get_node (id : jsstring) (t : tree) : option tnode := nodes t !! id.

Definition set_children (c : list jsstring) (n : tnode) : tnode :=
  mkNode (n_parent n) c (n_text n) (n_icon n) (n_types n) (n_opened n).
Definition set_text (x : html) (n : tnode) : tnode :=
  mkNode (n_parent n) (n_children n) x (n_icon n) (n_types n) (n_opened n).
Definition set_node_icon (x : icon) (n : tnode) : tnode :=
  mkNode (n_parent n) (n_children n) (n_text n) x (n_types n) (n_opened n).
Definition set_types (x : gset jsstring) (n : tnode) : tnode :=
  mkNode (n_parent n) (n_children n) (n_text n) (n_icon n) x (n_opened n).
Definition set_opened (x : bool) (n : tnode) : tnode :=
  mkNode (n_parent n) (n_children n) (n_text n) (n_icon n) (n_types n) x.

(** Modelled from the spec: [create_node(parent, initial_label, position) ->
    node_id|false]. The node gets a generated id and no children, tags or
    custom icon; creation fails when the parent is not in the tree or the id
    is taken. *)
Definition create_node (parent : jsstring) (text : html) (pos : position)
    (t : tree) : option jsstring * tree :=
  let id := gen_id (cnt t + 1) in
  match nodes t !! parent, nodes t !! id with
  | Some p, None =>
      let child := mkNode (Some parent) [] text IconTrue ∅ false in
      let p' := set_children (insert_at pos id (n_children p)) p in
      (Some id, mkTree (<[id := child]> (<[parent := p']> (nodes t))) (cnt t + 1))
  | _, _ => (None, t)
  end.

(** The node [id] and everything below it. *)
Fixpoint subtree (fuel : nat) (ns : gmap jsstring tnode) (id : jsstring)
    : list jsstring :=
  match fuel with
  | O => [id]
  | S f =>
      match ns !! id with
      | None => [id]
      | Some n => id :: flat_map (subtree f ns) (n_children n)
      end
  end.

Definition remove_child (id : jsstring) (n : tnode) : tnode :=
  set_children (List.filter (fun c => negb (bool_decide (c = id))) (n_children n)) n.

(** Modelled from the spec: [delete_node(node_id)] removes the node, with
    what is below it, from the tree and from its parent's children. The root
    is not deleted. *)
Definition delete_node (id : jsstring) (t : tree) : tree :=
  match nodes t !! id with
  | None => t
  | Some n =>
      match n_parent n with
      | None => t
      | Some p =>
          let gone := subtree (size (nodes t)) (nodes t) id in
          mkTree (alter (remove_child id) p
                    (fold_right (fun i ns => delete i ns) (nodes t) gone))
                 (cnt t)
      end
  end.

Definition alter_node (f : tnode -> tnode) (id : jsstring) (t : tree) : tree :=
  mkTree (alter f id (nodes t)) (cnt t).

(** Modelled from the spec: [rename_node(node_id, markup) -> bool]. *)
Definition rename_node (id : jsstring) (text : html) (t : tree) : bool * tree :=
  match nodes t !! id with
  | None => (false, t)
  | Some _ => (true, alter_node (set_text text) id t)
  end.

(** Modelled from the spec: [set_icon(node_record, icon_key)]. *)
Definition set_icon (id : jsstring) (i : icon) (t : tree) : tree :=
  alter_node (set_node_icon i) id t.

(** Modelled from the spec: [open_node(node_id)] expands the node; a node
    without children has nothing to expand. *)
Definition open_node (id : jsstring) (t : tree) : tree :=
  alter_node (fun n => match n_children n with
                       | [] => n
                       | _ => set_opened true n
                       end) id t.

(** Modelled from the spec: [add_multitype(node_id, tag)],
    [del_multitype(node_id, tag)], [has_multitype(node_id, tag) -> bool] of
    the multitype plugin. *)
Definition add_multitype (id : jsstring) (tag : jsstring) (t : tree) : tree :=
  alter_node (fun n => set_types ({[tag]} ∪ n_types n) n) id t.

Definition del_multitype (id : jsstring) (tag : jsstring) (t : tree) : tree :=
  alter_node (fun n => set_types (n_types n ∖ {[tag]}) n) id t.

Definition has_multitype (id : jsstring) (tag : jsstring) (t : tree) : bool :=
  match nodes t !! id with
  | None => false
  | Some n => bool_decide (tag ∈ n_types n)
  end.

(** ** The model state *)

(** What [log.info] is given. *)
Inductive log_entry :=
| LogInfo (msg : string) (val : loc).

(** Everything the routines of the module read and write: the record objects,
    the two stores [D.windows] and [D.tabs], the tree [T.treeobj], and the
    diagnostics written to the log. *)
Record model := mkModel {
  heap : list item_val;
  windows : multidex;
  tabs : multidex;
  treeobj : tree;
  log : list log_entry }.

Definition with_tree (f : tree -> tree) (m : model) : model :=
  mkModel (heap m) (windows m) (tabs m) (f (treeobj m)) (log m).

Definition with_heap (f : list item_val -> list item_val) (m : model) : model :=
  mkModel (f (heap m)) (windows m) (tabs m) (treeobj m) (log m).

Definition log_info (msg : string) (l : loc) (m : model) : model :=
  mkModel (heap m) (windows m) (tabs m) (treeobj m) (log m ++ [LogInfo msg l]).

(** [D.windows] or [D.tabs]. *)
Definition store (ty : item_type) (m : model) : multidex :=
  match ty with IT_WIN => windows m | IT_TAB => tabs m end.

Definition with_store (ty : item_type) (h : list item_val) (md : multidex)
    (m : model) : model :=
  match ty with
  | IT_WIN => mkModel h md (tabs m) (treeobj m) (log m)
  | IT_TAB => mkModel h (windows m) md (treeobj m) (log m)
  end.

(** [D.windows.add], [D.tabs.add] *)
Definition D_add (ty : item_type) (v : item_val) (m : model)
    : option loc * model :=
  let '(r, h, md) := md_add v (heap m) (store ty m) in
  (r, with_store ty h md m).

(** [D.windows.remove_value], [D.tabs.remove_value] *)
Definition D_remove_value (ty : item_type) (l : loc) (m : model) : model :=
  with_store ty (heap m) (md_remove_value l (heap m) (store ty m)) m.

(** [D.windows.change_key], [D.tabs.change_key] *)
Definition D_change_key (ty : item_type) (l : loc) (f : key_field) (x : jsval)
    (m : model) : model :=
  let '(h, md) := md_change_key l f x (heap m) (store ty m) in
  with_store ty h md m.

(** [D.windows.by_node_id(node_id)], [D.tabs.by_node_id(node_id)]: the record,
    or [false] ([None]). *)
Definition D_by_node_id (ty : item_type) (id : jsstring) (m : model)
    : option loc :=
  by_node (store ty m) !! id.

(** [D.tabs.by_node_id(node_id, field)]: the field of the record, or
    [false]. *)
Definition D_by_node_id_field (ty : item_type) (id : jsstring)
    (field : item_val -> jsval) (m : model) : jsval :=
  match D_by_node_id ty id m with
  | None => VBool false
  | Some l => match heap m !! l with
              | None => VBool false
              | Some v => field v
              end
  end.

(** [D.windows.by_ordered_url_hash(hash)] *)
Definition D_by_ordered_url_hash (h : jsstring) (m : model) : option loc :=
  by_field (windows m) !! (F_ordered_url_hash, VStr h).

(** Modelled from the spec: [D.val_by_node_id(node_id)], the lookup spanning
    both kinds. *)
Definition D_val_by_node_id (id : jsstring) (m : model) : option loc :=
  match D_by_node_id IT_WIN id m with
  | Some l => Some l
  | None => D_by_node_id IT_TAB id m
  end.

(** The stores and the tree before anything is added: two empty stores with
    their key fields, and a tree with its root. *)
Definition empty_model : model :=
  mkModel []
    (mkMultidex [F_win_id; F_ordered_url_hash] ∅ ∅)
    (mkMultidex [F_tab_id] ∅ ∅)
    (mkTree {[jstree_root := mkNode None [] [] IconTrue ∅ true]} 0)
    [].

(** ** view/model.js: querying the model *)

(** A [{val, node_id}] pair. [val] is [None] when it is falsy. *)
Record vn := mkVn { vn_val : option loc; vn_node_id : jsstring }.

(** [module.VN_NONE]: both members are falsy. *)
Definition VN_NONE : vn := mkVn None [].

(** What a routine may be handed as an item (a "vorny"): a primitive value
    (a node id when it is a string), a jstree node record with its [id] and
    [parent], or a detail record. *)
Inductive vorny :=
| Vy (v : jsval)
| VyNode (id : jsstring) (parent : option jsstring)
| VyVal (l : loc).

(** [!vorny]: objects are truthy. *)
Definition vorny_truthy (x : vorny) : bool :=
  match x with
  | Vy v => truthy v
  | VyNode _ _ | VyVal _ => true
  end.

Definition str_truthy (s : jsstring) : bool := truthy (VStr s).

Definition vn_by_vorny (val_or_nodey : vorny) (item_type : option item_type)
    (m : model) : vn :=
  match val_or_nodey with
  | Vy v =>
      if negb (truthy v) then VN_NONE
      else match v with
           | VStr node_id =>
               let val := match item_type with
                          | Some IT_WIN => D_by_node_id IT_WIN node_id m
                          | Some IT_TAB => D_by_node_id IT_TAB node_id m
                          | None => D_val_by_node_id node_id m
                          end in
               mkVn val node_id
           | _ => VN_NONE
           end
  | VyNode id parent =>
      if str_truthy id && match parent with
                          | Some p => str_truthy p
                          | None => false
                          end
      then mkVn (D_val_by_node_id id m) id
      else VN_NONE
  | VyVal l =>
      match heap m !! l with
      | Some val =>
          if negb (str_truthy (node_id val)) then VN_NONE
          else mkVn (Some l) (node_id val)
      | None => VN_NONE
      end
  end.

(** ** view/model.js: data access *)

Definition get_win_raw_text (val : item_val) : jsval :=
  if negb (bool_decide (raw_title val = VNull)) then raw_title val
  else if truthy (keep val) then VStr (lit "Saved tabs")
  else VStr (lit "Unsaved").

Definition remove_unsaved_markers (str : jsval) : jsval :=
  if negb (truthy str) then str
  else
    let s := to_string str in
    match match_index re_unsaved s with
    | Some index => if (0 <? index)%nat then VStr (firstn index s) else VStr s
    | None => VStr s
    end.

(** The double-quote character of the markup literals. *)
Definition dquote : jsstring := [34].

Definition get_html_label (val : item_val) : html :=
  let retval := [] in
  let retval :=
    if truthy (isPinned val)
    then retval ++ [Markup (lit "&#x1f4cc;&nbsp;")] else retval in
  let raw_text := get_win_raw_text val in
  let retval :=
    if truthy (raw_bullet val)
       && match raw_bullet val with VStr _ => true | _ => false end
    then
      let retval :=
        retval ++ [Markup (lit "<span class=" ++ dquote ++ K.BULLET_CLASS
                           ++ dquote ++ lit ">")] in
      let retval := retval ++ [Escaped (raw_bullet val)] in
      let retval :=
        if truthy raw_text && negb (bool_decide (raw_text = VStr [0xFEFF]))
        then retval ++ [Markup (lit " &#x2726; ")] else retval in
      retval ++ [Markup (lit "</span>")]
    else retval in
  retval ++ [Escaped raw_text].

(** Assignment to the fields of the record object at [l]. *)
Definition assign (l : loc) (f : item_val -> item_val) (m : model) : model :=
  with_heap (alter f l) m.

(** ** view/model.js: item manipulation *)

Definition refresh_label (node_id : jsstring) (m : model) : bool * model :=
  if negb (str_truthy node_id) then (false, m)
  else match D_val_by_node_id node_id m with
       | None => (false, m)
       | Some l =>
           match heap m !! l with
           | None => (false, m)
           | Some val =>
               let '(retval, t) :=
                 rename_node node_id (get_html_label val) (treeobj m) in
               (retval, with_tree (fun _ => t) m)
           end
       end.

(** A surrogate code unit without its partner: a high surrogate that no low
    surrogate follows, or a low surrogate that follows no high one. *)
Fixpoint lone_surrogate (s : jsstring) : bool :=
  match s with
  | [] => false
  | c :: rest =>
      if is_high_surrogate c then
        match rest with
        | d :: rest' =>
            if is_low_surrogate d then lone_surrogate rest' else true
        | [] => true
        end
      else if is_low_surrogate c then true
      else lone_surrogate rest
  end.

(** [encodeURI(v)] converts [v] to a string and throws [URIError] when the
    string has a surrogate without its partner; otherwise it returns the
    encoded string. *)
Definition encodeURI_throws (v : jsval) : bool := lone_surrogate (to_string v).

(** [refresh_icon] reaches [encodeURI] for the record of a tab with a truthy
    [raw_favicon_url], and nowhere else: the call, and the routine that made
    it, throw when this holds of the record. *)
Definition icon_throws (val : item_val) : bool :=
  match ty val with
  | IT_TAB =>
      truthy (raw_favicon_url val) && encodeURI_throws (raw_favicon_url val)
  | IT_WIN => false
  end.

(** [refresh_icon(vorny)], for a call that returns. The icon of a tab with a
    favicon is [encodeURI] of the URL, kept as [IconEncodedURI]; the call
    returns when [encodeURI] does, that is unless [icon_throws] holds of the
    record. What is stated of a call on the record of a tab, or of
    [markTabAsOpen], which makes one, is stated of a call that returned or
    under [icon_throws val = false]. *)
Definition refresh_icon (x : vorny) (m : model) : bool * model :=
  let r := vn_by_vorny x None m in
  let node := get_node (vn_node_id r) (treeobj m) in
  match vn_val r, node with
  | Some l, Some _ =>
      if negb (str_truthy (vn_node_id r)) then (false, m)
      else match heap m !! l with
           | None => (false, m)
           | Some val =>
               let icon :=
                 match ty val with
                 | IT_TAB =>
                     if truthy (raw_favicon_url val)
                     then IconEncodedURI (raw_favicon_url val)
                     else if regex_test re_pdf (raw_url val)
                     then IconClass (lit "fff-page-white-with-red-banner")
                     else IconClass (lit "fff-page")
                 | IT_WIN =>
                     if isOpen val && truthy (keep val)
                     then IconClass (lit "fff-monitor-add")
                     else if isOpen val then IconClass (lit "fff-monitor")
                     else IconTrue
                 end in
               (true, with_tree (set_icon (vn_node_id r) icon) m)
           end
  | _, _ => (false, m)
  end.

(** [val + ' (Unsaved)']: the left operand is converted to a string. *)
Definition js_concat (v : jsval) (s : jsstring) : jsval :=
  VStr (to_string v ++ s).

Definition mark_win_as_unsaved (val : option loc) (adjust_title : bool)
    (m : model) : bool * model :=
  match val with
  | None => (false, m)
  | Some l =>
      match heap m !! l with
      | None => (false, m)
      | Some v =>
          if negb (bool_decide (ty v = IT_WIN)) || negb (str_truthy (node_id v))
          then (false, m)
          else
            let m := assign l (set_keep K.WIN_NOKEEP) m in
            let m := with_tree (del_multitype (node_id v) K.NST_SAVED) m in
            let m :=
              if adjust_title && negb (bool_decide (raw_title v = VNull))
              then assign l (set_raw_title
                               (js_concat (remove_unsaved_markers (raw_title v))
                                          (lit " (Unsaved)"))) m
              else m in
            let m := snd (refresh_label (node_id v) m) in
            let m := snd (refresh_icon (VyVal l) m) in
            (true, m)
      end
  end.

Definition remember (win_node_id : jsstring) (cleanup_title : bool)
    (m : model) : bool * model :=
  if negb (str_truthy win_node_id) then (false, m)
  else match D_by_node_id IT_WIN win_node_id m with
       | None => (false, m)
       | Some l =>
           let m := assign l (set_keep K.WIN_KEEP) m in
           let m := with_tree (add_multitype win_node_id K.NST_SAVED) m in
           let m :=
             if cleanup_title
             then assign l (fun val =>
                    set_raw_title
                      (remove_unsaved_markers (get_win_raw_text val)) val) m
             else m in
           let m := snd (refresh_label win_node_id m) in
           let m := snd (refresh_icon (VyVal l) m) in
           (true, m)
       end.

(** ** view/model.js: hashing *)

(** The argument of [orderedHashOfStrings]: a string or an array of them. *)
Inductive strs_arg :=
| Single (str : jsval)
| Array (strs : list jsval).

(** [new Uint8Array(Buffer.from(str + '\0', 'utf8'))] *)
Definition databuf (str : jsval) : list Z := utf8 (to_string str ++ [0]).

Definition orderedHashOfStrings (strs : strs_arg) : jsstring :=
  let strs := match strs with Single str => [str] | Array strs => strs end in
  let blake := BLAKE2s.init 32 in
  let blake :=
    fold_left (fun blake str => BLAKE2s.update blake (databuf str)) strs blake in
  BLAKE2s.hexDigest 32 blake.

(** The loop over [parent_node.children]: the URLs collected, or [None] when
    a child has no truthy [raw_url] in [D.tabs]. *)
Fixpoint child_urls (children : list jsstring) (m : model)
    : option (list jsval) :=
  match children with
  | [] => Some []
  | child_node_id :: rest =>
      let child_url := D_by_node_id_field IT_TAB child_node_id raw_url m in
      if negb (truthy child_url) then None
      else match child_urls rest m with
           | None => None
           | Some urls => Some (child_url :: urls)
           end
  end.

Definition updateOrderedURLHash (vornyParent : vorny) (m : model)
    : bool * model :=
  let r := vn_by_vorny vornyParent (Some IT_WIN) m in
  let parent_node := get_node (vn_node_id r) (treeobj m) in
  match vn_val r, parent_node with
  | Some parent_val, Some node =>
      if negb (str_truthy (vn_node_id r)) then (false, m)
      else
        match child_urls (n_children node) m with
        | None =>
            (false, D_change_key IT_WIN parent_val F_ordered_url_hash VNull m)
        | Some urls =>
            let ordered_url_hash := orderedHashOfStrings (Array urls) in
            match D_by_ordered_url_hash ordered_url_hash m with
            | Some other_win_val =>
                if bool_decide (parent_val = other_win_val) then (true, m)
                else (false, D_change_key IT_WIN parent_val
                               F_ordered_url_hash VNull m)
            | None =>
                (true, D_change_key IT_WIN parent_val F_ordered_url_hash
                         (VStr ordered_url_hash) m)
            end
        end
  | _, _ => (false, m)
  end.

(** ** view/model.js: adding model items *)

(** A record with every field undefined, as [add] completes the fields it is
    not given. *)
Definition blank (ty : item_type) (node_id : jsstring) : item_val :=
  mkItem ty node_id VUndef VUndef VUndef None None VUndef VUndef VUndef VUndef
         false VUndef VUndef VUndef.

Definition vnRezWin (isFirstChild : bool) (m : model) : vn * model :=
  let '(created, t) :=
    create_node jstree_root [Markup (lit "Window")]
      (if isFirstChild then PosIndex 1 else PosLast) (treeobj m) in
  match created with
  | None => (VN_NONE, m)
  | Some node_id =>
      let m := with_tree (fun _ => t) m in
      let m := with_tree (add_multitype node_id (K.type_name IT_WIN)) m in
      let '(val, m) :=
        D_add IT_WIN
          (set_win_id K.NONE
            (set_raw_title VNull
              (set_raw_bullet VNull (blank IT_WIN node_id)))) m in
      match val with
      | None => (VN_NONE, with_tree (delete_node node_id) m)
      | Some l =>
          let m := snd (refresh_label node_id m) in
          let m := snd (refresh_icon (VyVal l) m) in
          (mkVn (Some l) node_id, m)
      end
  end.

Definition vnRezTab (vornyParent : vorny) (m : model) : vn * model :=
  let r := vn_by_vorny vornyParent None m in
  match vn_val r with
  | None => (VN_NONE, m)
  | Some _ =>
      if negb (str_truthy (vn_node_id r)) then (VN_NONE, m)
      else match get_node (vn_node_id r) (treeobj m) with
           | None => (VN_NONE, m)
           | Some _ =>
               let '(created, t) :=
                 create_node (vn_node_id r) [Markup (lit "Tab")] PosLast
                             (treeobj m) in
               match created with
               | None => (VN_NONE, m)
               | Some node_id =>
                   let m := with_tree (fun _ => t) m in
                   let m :=
                     with_tree (add_multitype node_id (K.type_name IT_TAB)) m in
                   let '(val, m) :=
                     D_add IT_TAB
                       (set_tab_id K.NONE
                         (set_win_id K.NONE
                           (set_index K.NONE
                             (set_isPinned (VBool false)
                               (blank IT_TAB node_id))))) m in
                   match val with
                   | None => (VN_NONE, with_tree (delete_node node_id) m)
                   | Some l =>
                       let m := snd (refresh_label node_id m) in
                       let m := snd (refresh_icon (VyVal l) m) in
                       (mkVn (Some l) node_id, m)
                   end
               end
           end
  end.

(** ** view/model.js: attaching Chrome widgets to model items *)

Definition handle_truthy {A} (h : option A) : bool :=
  match h with Some _ => true | None => false end.

Definition markWinAsOpen (win_vorny : vorny) (cwin : option cwin) (m : model)
    : bool * model :=
  match cwin with
  | None => (false, m)
  | Some cw =>
      if negb (vorny_truthy win_vorny) || negb (truthy (cw_id cw))
      then (false, m)
      else
        let r := vn_by_vorny win_vorny (Some IT_WIN) m in
        match vn_val r with
        | None => (false, m)
        | Some l =>
            match heap m !! l with
            | None => (false, m)
            | Some val =>
                let node_id := vn_node_id r in
                if negb (str_truthy node_id) then (false, m)
                else if isOpen val || handle_truthy (win val) then
                  (false,
                   log_info "Refusing to re-mark already-open window as open"
                            l m)
                else match get_node node_id (treeobj m) with
                     | None => (false, m)
                     | Some _ =>
                         let m := with_tree (open_node node_id) m in
                         let m := D_change_key IT_WIN l F_win_id (cw_id cw) m in
                         let m := assign l (set_win (Some cw)) m in
                         let m := assign l (set_isOpen true) m in
                         let m :=
                           with_tree (add_multitype node_id K.NST_OPEN) m in
                         let m := snd (refresh_label node_id m) in
                         let m := snd (refresh_icon (VyVal l) m) in
                         (true, m)
                     end
            end
        end
  end.

Definition markTabAsOpen (tab_vorny : vorny) (ctab : option ctab) (m : model)
    : bool * model :=
  match ctab with
  | None => (false, m)
  | Some ct =>
      if negb (vorny_truthy tab_vorny) || negb (truthy (ct_id ct))
      then (false, m)
      else
        let r := vn_by_vorny tab_vorny (Some IT_TAB) m in
        match vn_val r with
        | None => (false, m)
        | Some l =>
            match heap m !! l with
            | None => (false, m)
            | Some val =>
                let node_id := vn_node_id r in
                if negb (str_truthy node_id) then (false, m)
                else if isOpen val || handle_truthy (tab val) then
                  (false,
                   log_info "Refusing to re-mark already-open tab as open" l m)
                else match get_node node_id (treeobj m) with
                     | None => (false, m)
                     | Some node =>
                         let m := D_change_key IT_TAB l F_tab_id (ct_id ct) m in
                         let m := assign l (set_win_id (ct_windowId ct)) m in
                         let m := assign l (set_index (ct_index ct)) m in
                         let m := assign l (set_tab (Some ct)) m in
                         let m := assign l (set_raw_url (ct_url ct)) m in
                         let m := assign l (set_raw_title (ct_title ct)) m in
                         let m := assign l (set_isOpen true) m in
                         let m :=
                           assign l (set_raw_favicon_url (ct_favIconUrl ct)) m in
                         let m :=
                           assign l (set_isPinned
                                       (VBool (truthy (ct_pinned ct)))) m in
                         let m :=
                           with_tree (add_multitype node_id K.NST_OPEN) m in
                         let m := snd (refresh_label node_id m) in
                         let m := snd (refresh_icon (VyVal l) m) in
                         let m :=
                           match n_parent node with
                           | Some p => with_tree (open_node p) m
                           | None => m
                           end in
                         (true, m)
                     end
            end
        end
  end.

(** ** view/model.js: removing Chrome widgets from model items *)

Definition markWinAsClosed (win_vorny : vorny) (m : model) : bool * model :=
  if negb (vorny_truthy win_vorny) then (false, m)
  else
    let r := vn_by_vorny win_vorny (Some IT_WIN) m in
    match vn_val r with
    | None => (false, m)
    | Some l =>
        match heap m !! l with
        | None => (false, m)
        | Some val =>
            let node_id := vn_node_id r in
            if negb (str_truthy node_id) then (false, m)
            else if negb (isOpen val) || negb (handle_truthy (win val)) then
              (false,
               log_info "Refusing to re-mark already-closed window as closed"
                        l m)
            else
              let m := D_change_key IT_WIN l F_win_id K.NONE m in
              let m := assign l (set_win None) m in
              let m := assign l (set_isOpen false) m in
              let m := with_tree (del_multitype node_id K.NST_OPEN) m in
              let m := snd (refresh_label node_id m) in
              let m := snd (refresh_icon (VyVal l) m) in
              (true, m)
        end
    end.

Definition markTabAsClosed (tab_vorny : vorny) (m : model) : bool * model :=
  if negb (vorny_truthy tab_vorny) then (false, m)
  else
    let r := vn_by_vorny tab_vorny (Some IT_TAB) m in
    match vn_val r with
    | None => (false, m)
    | Some l =>
        match heap m !! l with
        | None => (false, m)
        | Some val =>
            let node_id := vn_node_id r in
            if negb (str_truthy node_id) then (false, m)
            else match get_node node_id (treeobj m) with
                 | None => (false, m)
                 | Some _ =>
                     if negb (isOpen val) || negb (handle_truthy (tab val)) then
                       (false,
                        log_info
                          "Refusing to re-mark already-closed tab as closed"
                          l m)
                     else
                       let m := D_change_key IT_TAB l F_tab_id K.NONE m in
                       let m := assign l (set_win_id K.NONE) m in
                       let m := assign l (set_index K.NONE) m in
                       let m := assign l (set_tab None) m in
                       let m := assign l (set_isOpen false) m in
                       let m :=
                         with_tree (del_multitype node_id K.NST_OPEN) m in
                       let m := snd (refresh_label node_id m) in
                       (true, m)
                 end
        end
    end.

(** ** view/model.js: removing model items *)

Definition eraseTab (tab_vorny : vorny) (m : model) : bool * model :=
  let r := vn_by_vorny tab_vorny (Some IT_TAB) m in
  let node := get_node (vn_node_id r) (treeobj m) in
  match vn_val r, node with
  | Some val, Some _ =>
      if negb (str_truthy (vn_node_id r)) then (false, m)
      else
        let m := D_remove_value IT_TAB val m in
        let m := with_tree (delete_node (vn_node_id r)) m in
        (true, m)
  | _, _ => (false, m)
  end.

(** The array [node.children] that the loop of [eraseWin] reads, after the
    state has become [m]: the children the node has then. A node that has
    left the tree keeps the children it had, here [children]. *)
Definition live_children (node_id : jsstring) (children : list jsstring)
    (m : model) : list jsstring :=
  match get_node node_id (treeobj m) with
  | Some node => n_children node
  | None => children
  end.

(** The loop [for(let child_node_id of node.children)] of [eraseWin]. The
    iterator keeps a position [i] in the array and reads the array at each
    step, and [eraseTab] takes the child it erases out of that same array
    (through [delete_node]): the step after a child was erased reads
    position [i + 1] of the array as it is then. The loop stops at the first
    child whose [eraseTab] fails, or when the position is past the end of the
    array. Each step advances the position and the array never grows, so
    the steps are at most as many as the children: [fuel] counts them. *)
Fixpoint erase_children (fuel : nat) (node_id : jsstring)
    (children : list jsstring) (i : nat) (m : model) : bool * model :=
  match children !! i with
  | None => (true, m)
  | Some child_node_id =>
      match fuel with
      | O => (true, m)
      | S fuel =>
          let '(ok, m) := eraseTab (Vy (VStr child_node_id)) m in
          if negb ok then (false, m)
          else erase_children fuel node_id
                 (live_children node_id children m) (S i) m
      end
  end.

Definition eraseWin (win_vorny : vorny) (m : model) : bool * model :=
  let r := vn_by_vorny win_vorny (Some IT_WIN) m in
  match vn_val r with
  | None => (false, m)
  | Some val =>
      if negb (str_truthy (vn_node_id r)) then (false, m)
      else match get_node (vn_node_id r) (treeobj m) with
           | None => (false, m)
           | Some node =>
               let '(ok, m) :=
                 erase_children (length (n_children node)) (vn_node_id r)
                   (n_children node) 0 m in
               if negb ok then (false, m)
               else
                 let m := D_remove_value IT_WIN val m in
                 let m := with_tree (delete_node (vn_node_id r)) m in
                 (true, m)
           end
  end.

(** ** view/model.js: subtypes and node values *)

(** [has_subtype(vorny, ...tys)]. The rest parameter [tys] is the array of
    the type names the caller lists, so [!tys] never holds. *)
Definition has_subtype (x : vorny) (tys : list jsstring) (m : model) : bool :=
  if negb (vorny_truthy x) then false
  else if (length tys <? 1)%nat then false
  else
    let node_id := vn_node_id (vn_by_vorny x None m) in
    if negb (str_truthy node_id) then false
    else forallb (fun ty => has_multitype node_id ty (treeobj m)) tys.

Definition add_subtype (x : vorny) (tys : list jsstring) (m : model)
    : bool * model :=
  if negb (vorny_truthy x) then (false, m)
  else if (length tys <? 1)%nat then (false, m)
  else
    let node_id := vn_node_id (vn_by_vorny x None m) in
    if negb (str_truthy node_id) then (false, m)
    else
      (true,
       fold_left (fun m ty => with_tree (add_multitype node_id ty) m) tys m).

Definition del_subtype (x : vorny) (tys : list jsstring) (m : model)
    : bool * model :=
  if negb (vorny_truthy x) then (false, m)
  else if (length tys <? 1)%nat then (false, m)
  else
    let node_id := vn_node_id (vn_by_vorny x None m) in
    if negb (str_truthy node_id) then (false, m)
    else
      (true,
       fold_left (fun m ty => with_tree (del_multitype node_id ty) m) tys m).

(** What [get_node_val] is handed: a node id, or a jstree node record (which
    [get_node] looks up by its [id]). *)
Inductive node_ref :=
| RefId (node_id : jsstring)
| RefNode (id : jsstring).

(** [get_node_val(node_ref)]: the record, or [false] ([None]). A string is
    taken as the node id without asking the tree. *)
Definition get_node_val (r : node_ref) (m : model) : option loc :=
  match r with
  | RefId node_id => D_val_by_node_id node_id m
  | RefNode id =>
      match get_node id (treeobj m) with
      | None => None
      | Some _ => D_val_by_node_id id m
      end
  end.

(** * Vocabulary of the properties *)

(** The marker text [mark_win_as_unsaved] appends, and the marker itself. *)
Definition unsaved_suffix : jsstring := lit " (Unsaved)".
Definition unsaved_marker : jsstring := lit "(Unsaved)".

(** [p] read under the [i] flag is a prefix of [s]. *)
Fixpoint prefix_ci (p s : jsstring) : bool :=
  match p, s with
  | [], _ => true
  | pc :: p', c :: s' => ci_eq pc c && prefix_ci p' s'
  | _ :: _, [] => false
  end.

(** [s] contains the marker somewhere, in any letter case. *)
Fixpoint has_marker (s : jsstring) : bool :=
  prefix_ci unsaved_marker s
  || match s with
     | [] => false
     | _ :: s' => has_marker s'
     end.

(** [s] contains [p] letter for letter. *)
Fixpoint prefix_of (p s : jsstring) : bool :=
  match p, s with
  | [], _ => true
  | pc :: p', c :: s' => (pc =? c) && prefix_of p' s'
  | _ :: _, [] => false
  end.

Fixpoint occurs_in (p s : jsstring) : bool :=
  prefix_of p s
  || match s with
     | [] => false
     | _ :: s' => occurs_in p s'
     end.

(** The byte stream the design document describes for [hash_sequence]: each
    string's UTF-8 bytes followed by one NUL byte, in sequence order. *)
Definition nul_terminated_stream (strs : list jsstring) : list Z :=
  flat_map (fun s => utf8 s ++ [0]) strs.

(** [x] is a truthy reference that the resolver maps, for kind [ty], to the
    record [v] at [l] with the truthy node id [id]. *)
Definition resolved (x : vorny) (ty : item_type) (m : model)
    : option (loc * item_val * jsstring) :=
  if vorny_truthy x then
    let r := vn_by_vorny x (Some ty) m in
    match vn_val r with
    | Some l =>
        match heap m !! l with
        | Some v =>
            if str_truthy (vn_node_id r) then Some (l, v, vn_node_id r)
            else None
        | None => None
        end
    | None => None
    end
  else None.

(** The two states differ at most in the log. *)
Definition same_but_log (m m' : model) : Prop :=
  heap m' = heap m /\ windows m' = windows m /\ tabs m' = tabs m
  /\ treeobj m' = treeobj m.

(** ** A running example: one window with one tab *)

Module Scenario.

Definition win1 : jsstring := gen_id 1.
Definition tab1 : jsstring := gen_id 2.

(** A live Chrome tab and window. *)
Definition live_tab : ctab :=
  mkCtab (VNum 7) (VNum 5) (VNum 0) (VStr (lit "http://a"))
         (VStr (lit "A page")) VUndef (VBool false).
Definition live_win : cwin := mkCwin (VNum 5).

(** Rez a window, then a tab under it. *)
Definition rezzed : model :=
  snd (vnRezTab (Vy (VStr win1)) (snd (vnRezWin false empty_model))).

(** ... then attach the live tab and the live window. *)
Definition tab_open : model :=
  snd (markTabAsOpen (Vy (VStr tab1)) (Some live_tab) rezzed).
Definition both_open : model :=
  snd (markWinAsOpen (Vy (VStr win1)) (Some live_win) tab_open).

End Scenario.

(** From [m] to [m'] no record entered or left a primary index or changed
    its node id, and no node entered or left the tree. *)
Definition same_items (m m' : model) : Prop :=
  by_node (windows m') = by_node (windows m)
  /\ by_node (tabs m') = by_node (tabs m)
  /\ (forall l, node_id <$> heap m' !! l = node_id <$> heap m !! l)
  /\ dom (nodes (treeobj m')) = dom (nodes (treeobj m)).

(** The record of a tab after [markTabAsClosed]. *)
Definition closed_tab (v : item_val) : item_val :=
  set_isOpen false
    (set_tab None (set_index K.NONE (set_win_id K.NONE (set_tab_id K.NONE v)))).

(** The record of a tab after [markTabAsOpen] with the Chrome tab [ct]. *)
Definition opened_tab (ct : ctab) (v : item_val) : item_val :=
  set_isPinned (VBool (truthy (ct_pinned ct)))
    (set_raw_favicon_url (ct_favIconUrl ct)
      (set_isOpen true
        (set_raw_title (ct_title ct)
          (set_raw_url (ct_url ct)
            (set_tab (Some ct)
              (set_index (ct_index ct)
                (set_win_id (ct_windowId ct)
                  (set_tab_id (ct_id ct) v)))))))).

(** [x] names a tab item whose node [nd] hangs under the node of the window
    item [lw]: the setting of the operations on a tab of a window. *)
Definition tab_of_window (x : vorny) (m : model)
    (l : loc) (v : item_val) (id : jsstring) (nd : tnode)
    (lw : loc) (w : item_val) : Prop :=
  resolved x IT_TAB m = Some (l, v, id)
  /\ ty v = IT_TAB
  /\ get_node id (treeobj m) = Some nd
  /\ (exists pid, n_parent nd = Some pid
                  /\ D_by_node_id IT_WIN pid m = Some lw)
  /\ heap m !! lw = Some w
  /\ ty w = IT_WIN.

(** ** Consistency of the content-hash index of [D.windows] *)

(** Every entry of the hash index leads to a record that has that hash. *)
Definition hash_sound (m : model) : Prop :=
  forall h o, D_by_ordered_url_hash h m = Some o ->
    exists vo, heap m !! o = Some vo /\ ordered_url_hash vo = VStr h.

(** Every window of the store that has a hash is found under it. *)
Definition hash_complete (m : model) : Prop :=
  forall id o vo h,
    D_by_node_id IT_WIN id m = Some o -> heap m !! o = Some vo ->
    ordered_url_hash vo = VStr h ->
    D_by_ordered_url_hash h m = Some o.

Definition hash_sound_b (m : model) : bool :=
  forallb (fun e : key_field * jsval * loc =>
             match e with
             | (F_ordered_url_hash, VStr h, o) =>
                 match heap m !! o with
                 | Some vo => bool_decide (ordered_url_hash vo = VStr h)
                 | None => false
                 end
             | _ => true
             end)
          (map_to_list (by_field (windows m))).

Definition hash_complete_b (m : model) : bool :=
  forallb (fun e : jsstring * loc =>
             match heap m !! e.2 with
             | Some vo =>
                 match ordered_url_hash vo with
                 | VStr h =>
                     bool_decide (D_by_ordered_url_hash h m = Some e.2)
                 | _ => true
                 end
             | None => true
             end)
          (map_to_list (by_node (windows m))).

(** The window record at [o] is in the store and holds the hash [h]. *)
Definition holds_hash (m : model) (o : loc) (h : jsstring) : Prop :=
  exists id vo, D_by_node_id IT_WIN id m = Some o
                /\ heap m !! o = Some vo
                /\ ordered_url_hash vo = VStr h.

(** [x] names a window item: it resolves to the record [v] at [l], which the
    store has under the node id [id], and the tree has the node [nd] of that
    id. *)
Definition window_item (x : vorny) (m : model)
    (l : loc) (v : item_val) (id : jsstring) (nd : tnode) : Prop :=
  resolved x IT_WIN m = Some (l, v, id)
  /\ D_by_node_id IT_WIN id m = Some l
  /\ get_node id (treeobj m) = Some nd.

(** The hash field of the record at [l]. *)
Definition hash_of (m : model) (l : loc) : option jsval :=
  ordered_url_hash <$> heap m !! l.

(** Of the records at [l1] and [l2], one has the hash [h] and the other has
    null. *)
Definition exactly_one_holds (m : model) (l1 l2 : loc) (h : jsstring) : Prop :=
  (hash_of m l1 = Some (VStr h) /\ hash_of m l2 = Some VNull)
  \/ (hash_of m l1 = Some VNull /\ hash_of m l2 = Some (VStr h)).

(** ** A second example: windows with the same tabs *)

Module SameTabs.

Definition chrome_tab (id : Z) (url : jsstring) : ctab :=
  mkCtab (VNum id) (VNum 1) (VNum 0) (VStr url) (VStr (lit "page")) VUndef
         VUndef.

(** Rez a tab under [parent] and attach a live tab showing [url]. *)
Definition add_tab (parent : jsstring) (m : model) (url : jsstring) : model :=
  let '(t, m) := vnRezTab (Vy (VStr parent)) m in
  snd (markTabAsOpen (Vy (VStr (vn_node_id t)))
         (Some (chrome_tab (cnt (treeobj m)) url)) m).

(** Rez a window with one open tab for each of [urls]. *)
Definition add_window (urls : list jsstring) (m : model) : model :=
  let '(w, m) := vnRezWin false m in
  fold_left (add_tab (vn_node_id w)) urls m.

Definition xy : list jsstring := [lit "http://x"; lit "http://y"].

(** Node ids and record locations of the windows, in order of creation. *)
Definition w0 : jsstring := gen_id 1.
Definition w1 : jsstring := gen_id 4.
Definition w2 : jsstring := gen_id 7.

(** Two windows with the tabs [xy], no hash computed yet. *)
Definition two : model := add_window xy (add_window xy empty_model).

(** Three windows with the tabs [xy]; the hash of the first is up to date. *)
Definition three : model :=
  snd (updateOrderedURLHash (Vy (VStr w0)) (add_window xy two)).

(** The hash the windows with the tabs [xy] share. *)
Definition xy_urls : list jsval := List.map VStr xy.
Definition xy_hash : jsstring := orderedHashOfStrings (Array xy_urls).

(** The update run on the first and then on the second of [two]. *)
Definition two_updated : model :=
  snd (updateOrderedURLHash (Vy (VStr w1))
         (snd (updateOrderedURLHash (Vy (VStr w0)) two))).

(** The update run on the second and then on the third of [three]. *)
Definition three_updated : model :=
  snd (updateOrderedURLHash (Vy (VStr w2))
         (snd (updateOrderedURLHash (Vy (VStr w1)) three))).

End SameTabs.









(** ** Consistency of a store with the records *)

(** Each entry of an index leads to a record that has the entry's key. *)
Definition store_sound (h : list item_val) (md : multidex) : Prop :=
  (forall id l, by_node md !! id = Some l ->
      exists v, h !! l = Some v /\ node_id v = id)
  /\ (forall f x l, by_field md !! (f, x) = Some l ->
        f ∈ md_fields md /\ exists v, h !! l = Some v /\ get_key f v = x).

Definition store_sound_b (h : list item_val) (md : multidex) : bool :=
  forallb (fun e : jsstring * loc =>
             match h !! e.2 with
             | Some v => bool_decide (node_id v = e.1)
             | None => false
             end)
          (map_to_list (by_node md))
  && forallb (fun e : key_field * jsval * loc =>
                bool_decide (e.1.1 ∈ md_fields md)
                && match h !! e.2 with
                   | Some v => bool_decide (get_key e.1.1 v = e.1.2)
                   | None => false
                   end)
             (map_to_list (by_field md)).

(** Some index of the store still leads to the record at [l]. *)
Definition in_store (md : multidex) (l : loc) : Prop :=
  (exists id, by_node md !! id = Some l)
  \/ (exists k, by_field md !! k = Some l).

(** The item of kind [k] that had the node id [id] and the record at [l] is
    gone: the store has nothing under [id], no index leads to the record, and
    the tree has no node [id]. *)
Definition erased (k : item_type) (m : model) (id : jsstring) (l : loc)
    : Prop :=
  D_by_node_id k id m = None
  /\ ~ in_store (store k m) l
  /\ get_node id (treeobj m) = None.

(** From [m] to [m'] records and nodes were only taken away: the record
    objects and [D.windows] are the same, [D.tabs] lost entries, and every
    node that is left was there, under the same parent. *)
Definition shrinks (m m' : model) : Prop :=
  heap m' = heap m
  /\ windows m' = windows m
  /\ md_fields (tabs m') = md_fields (tabs m)
  /\ by_node (tabs m') ⊆ by_node (tabs m)
  /\ by_field (tabs m') ⊆ by_field (tabs m)
  /\ (forall i n', nodes (treeobj m') !! i = Some n' ->
        exists n, nodes (treeobj m) !! i = Some n
                  /\ n_parent n' = n_parent n).

(** The children of the window node [id] are distinct, are not the window
    itself, and those in the tree are leaves under [id]. *)
Definition children_ok (m : model) (id : jsstring) (children : list jsstring)
    : Prop :=
  NoDup children
  /\ (id ∉ children)
  /\ forall c nc, c ∈ children -> get_node c (treeobj m) = Some nc ->
       n_children nc = [] /\ n_parent nc = Some id.

Definition children_ok_b (m : model) (id : jsstring)
    (children : list jsstring) : bool :=
  bool_decide (NoDup children)
  && bool_decide (id ∉ children)
  && forallb (fun c => match get_node c (treeobj m) with
                       | Some nc =>
                           bool_decide (n_children nc = [])
                           && bool_decide (n_parent nc = Some id)
                       | None => true
                       end) children.

(** ** Titles and their markers *)

(** What [remove_unsaved_markers] makes of a string. *)
Definition strip_markers (t : jsstring) : jsstring :=
  match match_index re_unsaved t with
  | Some i => if (0 <? i)%nat then firstn i t else t
  | None => t
  end.

(** The string ends with a run of markers (possibly followed by white
    space): the expression of [remove_unsaved_markers] matches it. *)
Definition has_trailing_markers (t : jsstring) : bool :=
  match match_index re_unsaved t with Some _ => true | None => false end.

(** The title ends with exactly one [" (Unsaved)"]: it ends with the suffix,
    and what comes before does not end with a run of markers. *)
Definition ends_with_one_marker (t : jsstring) : bool :=
  let k := (length t - length unsaved_suffix)%nat in
  bool_decide (skipn k t = unsaved_suffix)
  && negb (has_trailing_markers (firstn k t)).

(** A title with something in it besides white space and markers: it is not
    blank, and it is not a run of markers from its first character on. *)
Definition plain_title (t : jsstring) : bool :=
  negb (forallb is_space t) && negb (matches re_unsaved t).

(** The two operations on the saved state of a window, with their default
    arguments, and a sequence of them on the window with node id [id] and
    record [l]. *)
Inductive title_op := OpRemember | OpMarkUnsaved.

Definition run_op (id : jsstring) (l : loc) (m : model) (op : title_op)
    : model :=
  match op with
  | OpRemember => snd (remember id true m)
  | OpMarkUnsaved => snd (mark_win_as_unsaved (Some l) true m)
  end.

Definition run_ops (id : jsstring) (l : loc) (ops : list title_op) (m : model)
    : model :=
  fold_left (run_op id l) ops m.

(** The window of the running example, given the custom title [t]. *)
Definition titled (t : jsstring) : model :=
  assign 0%nat (set_raw_title (VStr t)) Scenario.rezzed.

(** One marker with the white space before it: [\s+\(Unsaved\)] under the
    [i] flag. [re_unsaved] is one or more of these, then [\s*]. *)
Definition re_unit : regex :=
  RSeq (RPlus RSpace) (RLit_ci (lit "(Unsaved)")).

(** A run of one or more markers, built from the left. *)
Inductive marker_run : jsstring -> Prop :=
| run_one x : lang re_unit x -> marker_run x
| run_snoc r x : marker_run r -> lang re_unit x -> marker_run (r ++ x).

(** The record of a window after [remember] and after
    [mark_win_as_unsaved]. *)
Definition remembered (cleanup_title : bool) (v : item_val) : item_val :=
  let v1 := set_keep K.WIN_KEEP v in
  if cleanup_title
  then set_raw_title (remove_unsaved_markers (get_win_raw_text v1)) v1
  else v1.

Definition marked_unsaved (adjust_title : bool) (v : item_val) : item_val :=
  let v1 := set_keep K.WIN_NOKEEP v in
  if adjust_title && negb (bool_decide (raw_title v = VNull))
  then set_raw_title
         (js_concat (remove_unsaved_markers (raw_title v)) unsaved_suffix) v1
  else v1.

(** What holds of the title [t] and the [keep] flag [k] after the last
    operation of a sequence. *)
Definition after_last_op (ops : list title_op) (t : jsstring) (k : jsval)
    : Prop :=
  match rev ops with
  | OpMarkUnsaved :: _ => ends_with_one_marker t = true /\ k = VBool false
  | OpRemember :: _ => has_trailing_markers t = false /\ k = VBool true
  | [] => True
  end.

(** ** Subtypes *)

(** The two states differ at most in the tags of the node [id]: the records,
    the stores, the log and every other node are the same, and the node [id]
    is there or not as before, with the same fields but its tags. *)
Definition same_but_tags (id : jsstring) (m m' : model) : Prop :=
  heap m' = heap m /\ windows m' = windows m /\ tabs m' = tabs m
  /\ log m' = log m
  /\ cnt (treeobj m') = cnt (treeobj m)
  /\ (forall i, i <> id -> nodes (treeobj m') !! i = nodes (treeobj m) !! i)
  /\ set_types ∅ <$> nodes (treeobj m') !! id
     = set_types ∅ <$> nodes (treeobj m) !! id.

(** The window of the running example, tagged and untagged again. *)
Module Tagged.

Definition win : vorny := Vy (VStr Scenario.win1).
Definition two_tags : list jsstring := [K.NST_RECOVERED; K.NST_TOP_BORDER].
Definition recovered : model := snd (add_subtype win two_tags Scenario.rezzed).
Definition cleared : model := snd (del_subtype win [K.NST_RECOVERED] recovered).

End Tagged.

(** ** The running example, marked again and closed *)

Module Closing.

Definition win_closed : model :=
  snd (markWinAsClosed (Vy (VStr Scenario.win1)) Scenario.both_open).
Definition tab_closed : model :=
  snd (markTabAsClosed (Vy (VStr Scenario.tab1)) Scenario.both_open).

(** The window kept, and then forgotten. *)
Definition kept : model := snd (remember Scenario.win1 true Scenario.rezzed).
Definition forgotten : model :=
  snd (mark_win_as_unsaved (Some 0%nat) true kept).

(** Marking twice. *)
Definition reopened_win : model :=
  snd (markWinAsOpen (Vy (VStr Scenario.win1)) (Some Scenario.live_win)
         Scenario.both_open).
Definition reopened_tab : model :=
  snd (markTabAsOpen (Vy (VStr Scenario.tab1)) (Some Scenario.live_tab)
         Scenario.both_open).
Definition reclosed_win : model :=
  snd (markWinAsClosed (Vy (VStr Scenario.win1)) Scenario.rezzed).
Definition reclosed_tab : model :=
  snd (markTabAsClosed (Vy (VStr Scenario.tab1)) Scenario.rezzed).

(** The tab showing a PDF, and its record. *)
Definition pdf_tab : model :=
  snd (markTabAsOpen (Vy (VStr Scenario.tab1))
         (Some (SameTabs.chrome_tab 9 (lit "http://x/doc.PDF")))
         Scenario.rezzed).
Definition pdf_rec : item_val :=
  default (blank IT_TAB []) (heap pdf_tab !! 1%nat).

(** A pinned window with a bullet and a title. *)
Definition bulleted : item_val :=
  set_raw_bullet (VStr (lit "*"))
    (set_isPinned (VBool true)
      (set_raw_title (VStr (lit "<b>")) (blank IT_WIN Scenario.win1))).

End Closing.

(** ** What the tree shows of a record *)

(** The icon of a record, as [refresh_icon] chooses it for the two kinds. *)
Definition icon_for (val : item_val) : icon :=
  match ty val with
  | IT_TAB =>
      if truthy (raw_favicon_url val)
      then IconEncodedURI (raw_favicon_url val)
      else if regex_test re_pdf (raw_url val)
      then IconClass (lit "fff-page-white-with-red-banner")
      else IconClass (lit "fff-page")
  | IT_WIN =>
      if isOpen val && truthy (keep val)
      then IconClass (lit "fff-monitor-add")
      else if isOpen val then IconClass (lit "fff-monitor")
      else IconTrue
  end.

(** The node [id] carries the label of the record at [l]. *)
Definition shows_label (m : model) (id : jsstring) (l : loc) : Prop :=
  exists nd v, get_node id (treeobj m) = Some nd /\ heap m !! l = Some v
               /\ n_text nd = get_html_label v.

(** The node [id] carries the label and the icon of the record at [l]. *)
Definition shows (m : model) (id : jsstring) (l : loc) : Prop :=
  exists nd v, get_node id (treeobj m) = Some nd /\ heap m !! l = Some v
               /\ n_text nd = get_html_label v /\ n_icon nd = icon_for v.

(** The record at [l] and the node [id] make an item that [x] names: [x]
    resolves, for the kind [k], to the record and the node id, the record has
    that node id, the generic lookup leads from the node id to the record,
    and the node is in the tree. *)
Definition names_item (x : vorny) (k : item_type) (m : model)
    (l : loc) (id : jsstring) : Prop :=
  (exists v, resolved x k m = Some (l, v, id) /\ node_id v = id)
  /\ D_val_by_node_id id m = Some l
  /\ is_Some (get_node id (treeobj m)).

(** [s] ends with [p], read under the [i] flag. *)
Definition ends_with_ci (p s : jsstring) : bool :=
  (length p <=? length s)%nat
  && bool_decide (length (skipn (length s - length p) s) = length p)
  && prefix_ci p (skipn (length s - length p) s).

(** The literal markup of a label: the pushpin, the opening of the bullet
    span, the dingbat between bullet and text, and the closing of the span. *)
Definition label_markup : list jsstring :=
  [lit "&#x1f4cc;&nbsp;";
   lit "<span class=" ++ dquote ++ K.BULLET_CLASS ++ dquote ++ lit ">";
   lit " &#x2726; ";
   lit "</span>"].

(** ** The hash and its input *)

(** A lower-case hexadecimal digit. *)
Definition is_hex_char (c : Z) : bool :=
  ((48 <=? c) && (c <=? 57)) || ((97 <=? c) && (c <=? 102)).

(** The bytes the hash object is fed for a sequence of values. *)
Definition hash_input (strs : list jsval) : list Z := flat_map databuf strs.

(** A string without the NUL code unit. *)
Definition nul_free (s : jsstring) : Prop := Forall (fun c => c <> 0) s.

(** From [m] to [m'] nothing changed but the content hash of window records
    and the entries of the hash index: the tree, [D.tabs], the log, the
    primary index of [D.windows] and its index by window id are the same,
    and each record is the same up to its [ordered_url_hash]. *)
Definition same_but_hash (m m' : model) : Prop :=
  treeobj m' = treeobj m /\ tabs m' = tabs m /\ log m' = log m
  /\ by_node (windows m') = by_node (windows m)
  /\ md_fields (windows m') = md_fields (windows m)
  /\ (forall k, by_field (windows m') !! (F_win_id, k)
                = by_field (windows m) !! (F_win_id, k))
  /\ (forall l, set_ordered_url_hash VNull <$> heap m' !! l
                = set_ordered_url_hash VNull <$> heap m !! l).

(** The hash index has no entry under null. *)
Definition no_null_hash_key (m : model) : Prop :=
  by_field (windows m) !! (F_ordered_url_hash, VNull) = None.

(** ** New items *)

(** The records [vnRezWin] and [vnRezTab] hand to the stores for the node
    [id]. *)
Definition new_win (id : jsstring) : item_val :=
  set_win_id K.NONE (set_raw_title VNull (set_raw_bullet VNull (blank IT_WIN id))).

Definition new_tab (id : jsstring) : item_val :=
  set_tab_id K.NONE
    (set_win_id K.NONE
      (set_index K.NONE (set_isPinned (VBool false) (blank IT_TAB id)))).


(** From [m] to [m'] one item of kind [k] was added under the node [pid]:
    the record [rec], at the new location [l], and the node [id]. The
    records there were are untouched, the store gained the one entry of its
    primary index, the other store and the log are as before, and of the
    nodes there were only [pid] changed, in its children alone. *)
Definition added_item (k : item_type) (pid id : jsstring) (l : loc)
    (rec : item_val) (m m' : model) : Prop :=
  heap m' = heap m ++ [rec] /\ l = length (heap m)
  /\ by_node (store k m') = <[id := l]> (by_node (store k m))
  /\ by_field (store k m') = by_field (store k m)
  /\ md_fields (store k m') = md_fields (store k m)
  /\ (forall k', k' <> k -> store k' m' = store k' m)
  /\ log m' = log m
  /\ cnt (treeobj m') = cnt (treeobj m) + 1
  /\ nodes (treeobj m) !! id = None
  /\ (forall i, i <> id -> i <> pid ->
        nodes (treeobj m') !! i = nodes (treeobj m) !! i)
  /\ set_children [] <$> nodes (treeobj m') !! pid
     = set_children [] <$> nodes (treeobj m) !! pid.

(** The index by key field has entries under keys only: none under a value
    that stands for "no key". *)
Definition only_keys (md : multidex) : Prop :=
  forall f x, indexable x = false -> by_field md !! (f, x) = None.

Definition only_keys_b (md : multidex) : bool :=
  forallb (fun e : key_field * jsval * loc => indexable e.1.2)
          (map_to_list (by_field md)).

(** The first steps of the running example. *)
Module Rezzing.

Definition one_win : model := snd (vnRezWin false empty_model).

(** A third window put first among the two of [SameTabs.two]. *)
Definition w2 : jsstring := gen_id 7.
Definition three_wins : model := snd (vnRezWin true SameTabs.two).

End Rezzing.

(** ** Lookups by Chrome id *)

(** [D.windows.by_win_id(x)], [D.tabs.by_tab_id(x)]: the lookup in the index
    by key field that [change_key] maintains. *)
Definition D_by_key (k : item_type) (f : key_field) (x : jsval) (m : model)
    : option loc :=
  by_field (store k m) !! (f, x).

(** What [open_node] makes of the expansion of a node. *)
Definition expanded (n : tnode) : bool :=
  match n_children n with
  | [] => n_opened n
  | _ => true
  end.

(** From [m] to [m'] the tab item with the record [v] and the leaf node [id]
    under [p] was taken away, and nothing else: the record objects,
    [D.windows] and the log are the same, the primary index of [D.tabs] lost
    the entry of the record's node id, the node is gone from the tree and
    from the children of [p], whose other children keep their order, and all
    other nodes are as they were. *)
Definition removed_tab (v : item_val) (id p : jsstring) (m m' : model) : Prop :=
  heap m' = heap m /\ windows m' = windows m /\ log m' = log m
  /\ by_node (tabs m') = delete (node_id v) (by_node (tabs m))
  /\ by_field (tabs m') ⊆ by_field (tabs m)
  /\ cnt (treeobj m') = cnt (treeobj m)
  /\ nodes (treeobj m')
     = alter (remove_child id) p (delete id (nodes (treeobj m))).

(** The window of the running example, opened while its tab is closed. *)
Module Opening.

Definition win_opened : model :=
  snd (markWinAsOpen (Vy (VStr Scenario.win1)) (Some Scenario.live_win)
         Scenario.rezzed).

End Opening.

(** ** The stores agree with the records *)

(** The key fields of the two stores. *)
Definition key_fields (k : item_type) : list key_field :=
  match k with
  | IT_WIN => [F_win_id; F_ordered_url_hash]
  | IT_TAB => [F_tab_id]
  end.

(** The store of the kind [k] agrees with the records: it has the key fields
    of its kind, each entry of an index leads to a record that has the
    entry's key, the records of its primary index are of the kind [k], and
    the index by key field leads only to records of the primary index. *)
Definition store_ok (k : item_type) (m : model) : Prop :=
  md_fields (store k m) = key_fields k
  /\ store_sound (heap m) (store k m)
  /\ (forall id l, by_node (store k m) !! id = Some l ->
        exists v, heap m !! l = Some v /\ ty v = k)
  /\ (forall key l, by_field (store k m) !! key = Some l ->
        exists id, by_node (store k m) !! id = Some l).

Definition consistent (m : model) : Prop := forall k, store_ok k m.

(** The record at [l] is in the store of the kind [k]. *)
Definition stored (k : item_type) (l : loc) (m : model) : Prop :=
  exists id, by_node (store k m) !! id = Some l.

(** The stores agree with the records, and the record at [l] is in the store
    of the kind [k]. *)
Definition consistent_at (k : item_type) (l : loc) (m : model) : Prop :=
  consistent m /\ stored k l m.

(** The record the resolver finds for [x], asked for the kind [k], is the
    one the store of that kind has under the node id found. This holds of
    every node id; it can fail for a node record or a detail record of the
    other kind. *)
Definition names_stored (x : vorny) (k : item_type) (m : model) : Prop :=
  forall l, vn_val (vn_by_vorny x (Some k) m) = Some l ->
            D_by_node_id k (vn_node_id (vn_by_vorny x (Some k) m)) m = Some l.

(** The same, as a check that can be run. *)
Definition store_ok_b (k : item_type) (m : model) : bool :=
  bool_decide (md_fields (store k m) = key_fields k)
  && store_sound_b (heap m) (store k m)
  && forallb (fun e : jsstring * loc =>
                match heap m !! e.2 with
                | Some v => bool_decide (ty v = k)
                | None => false
                end)
             (map_to_list (by_node (store k m)))
  && forallb (fun e : key_field * jsval * loc =>
                existsb (fun e' : jsstring * loc => bool_decide (e'.2 = e.2))
                        (map_to_list (by_node (store k m))))
             (map_to_list (by_field (store k m))).

Definition consistent_b (m : model) : bool :=
  store_ok_b IT_WIN m && store_ok_b IT_TAB m.

(** ** Erasing the children of a window *)

(** The array of the loop agrees with the tree. *)
Definition array_of (id : jsstring) (m : model) (arr : list jsstring) : Prop :=
  forall nd, get_node id (treeobj m) = Some nd -> n_children nd = arr.

(** Every second element of a list, from the first ([take]) or from the
    second. *)
Fixpoint alternate {A} (take : bool) (cs : list A) : list A :=
  match cs with
  | [] => []
  | c :: rest =>
      if take then c :: alternate false rest else alternate true rest
  end.

(** The children that the loop of [eraseWin] visits, and those it passes
    over. *)
Definition visited (cs : list jsstring) : list jsstring := alternate true cs.
Definition passed_over (cs : list jsstring) : list jsstring :=
  alternate false cs.

(** Every child in [cs] is a tab item. *)
Definition tab_items (m : model) (cs : list jsstring) : Prop :=
  forall c, c ∈ cs ->
    str_truthy c = true
    /\ is_Some (D_by_node_id IT_TAB c m)
    /\ is_Some (get_node c (treeobj m)).

(** * Properties *)

(** ** Numbers and strings of the language *)

(** Whole numbers print digit for digit up to [2^53]; above it the digits
    are those of the nearest Number value, the fewest that tell it apart,
    and from [1e21] on the form has an exponent. *)
Example num_to_string_small :
  num_to_string 0 = lit "0" /\ num_to_string (-1) = lit "-1"
  /\ num_to_string 1200 = lit "1200"
  /\ num_to_string (2 ^ 53) = lit "9007199254740992".
Proof.
  repeat match goal with |- _ /\ _ => split end; vm_compute; reflexivity.
Qed.

Example num_to_string_rounds :
  num_to_string (2 ^ 53 + 1) = lit "9007199254740992"
  /\ num_to_string (2 ^ 64) = lit "18446744073709552000".
Proof.
  repeat match goal with |- _ /\ _ => split end; vm_compute; reflexivity.
Qed.

Example num_to_string_exponent :
  num_to_string (10 ^ 21) = lit "1e+21"
  /\ num_to_string (2 ^ 70) = lit "1.1805916207174113e+21"
  /\ num_to_string (- 2 ^ 1023) = lit "-8.98846567431158e+307"
  /\ num_to_string (2 ^ 1024) = lit "Infinity".
Proof.
  repeat match goal with |- _ /\ _ => split end; vm_compute; reflexivity.
Qed.

(** [encodeURI] accepts a surrogate pair and refuses either half alone. *)
Example encodeURI_throws_on_lone_surrogate :
  encodeURI_throws (VStr [0x68; 0xD83D; 0xDE00]) = false
  /\ encodeURI_throws (VStr [0xD800]) = true
  /\ encodeURI_throws (VStr [0x68; 0xDE00]) = true
  /\ encodeURI_throws (VStr [0xD83D; 0x68]) = true
  /\ encodeURI_throws (VNum 7) = false.
Proof.
  repeat match goal with |- _ /\ _ => split end; vm_compute; reflexivity.
Qed.

(** ** The matcher decides the language of an expression *)

Section RegexFacts.

Lemma nullable_lang r : nullable r = true <-> lang r [].
Proof.
  split.
  - induction r; simpl; intros Hn; try discriminate.
    + constructor.
    + apply andb_true_iff in Hn as [Ha Hb].
      change (@nil Z) with (@nil Z ++ @nil Z). constructor; auto.
    + apply orb_true_iff in Hn as [Ha | Hb];
        [apply L_alt_l | apply L_alt_r]; auto.
    + constructor.
  - intros Hl. remember (@nil Z) as s eqn:Hs.
    induction Hl; simpl; auto; try discriminate.
    + apply app_eq_nil in Hs as [-> ->].
      rewrite IHHl1, IHHl2; auto.
    + rewrite IHHl; auto.
    + rewrite IHHl; auto. apply orb_true_r.
Qed.

Lemma seq_inv a b s :
  lang (RSeq a b) s ->
  exists s1 s2, s = s1 ++ s2 /\ lang a s1 /\ lang b s2.
Proof. intros H. inversion H; subst. eauto. Qed.

Lemma star_cons_inv a c s :
  lang (RStar a) (c :: s) ->
  exists s1 s2, s = s1 ++ s2 /\ lang a (c :: s1) /\ lang (RStar a) s2.
Proof.
  intros Hl. remember (RStar a) as r eqn:Hr.
  remember (c :: s) as cs eqn:Hcs.
  revert s Hcs.
  induction Hl; intros s0 Hcs; try discriminate.
  inversion Hr; subst a0.
  destruct s1 as [| c' s1'].
  - simpl in Hcs. apply IHHl2; auto.
  - simpl in Hcs. inversion Hcs; subst.
    exists s1', s2. auto.
Qed.

Lemma deriv_lang c r : forall s, lang (deriv c r) s <-> lang r (c :: s).
Proof.
  induction r; intros s; simpl.
  - split; intros H; inversion H.
  - split; intros H; inversion H.
  - destruct (f c) eqn:Hf; split; intros H; inversion H; subst.
    + constructor; auto.
    + constructor.
    + congruence.
  - split.
    + intros H.
      assert (Hseq : forall s, lang (RSeq (deriv c r1) r2) s ->
                               lang (RSeq r1 r2) (c :: s)).
      { intros s' H'. inversion H'; subst.
        change (c :: s1 ++ s2) with ((c :: s1) ++ s2).
        constructor; auto. apply IHr1; auto. }
      destruct (nullable r1) eqn:Hn; auto.
      inversion H; subst; auto.
      change (c :: s) with ([] ++ c :: s).
      constructor; [apply nullable_lang; auto | apply IHr2; auto].
    + intros H. apply seq_inv in H as (s1 & s2 & Heq & H1 & H2).
      destruct s1 as [| c' s1'].
      * simpl in Heq; subst s2.
        apply nullable_lang in H1. rewrite H1.
        apply L_alt_r. apply IHr2; auto.
      * simpl in Heq. injection Heq as Hc Hs. subst c' s.
        assert (Hd : lang (RSeq (deriv c r1) r2) (s1' ++ s2)).
        { constructor; auto. apply IHr1; auto. }
        destruct (nullable r1); auto. apply L_alt_l; auto.
  - split; intros H; inversion H; subst.
    + apply L_alt_l. apply IHr1; auto.
    + apply L_alt_r. apply IHr2; auto.
    + apply L_alt_l. apply IHr1; auto.
    + apply L_alt_r. apply IHr2; auto.
  - split.
    + intros H. inversion H; subst.
      change (c :: s1 ++ s2) with ((c :: s1) ++ s2).
      constructor; auto. apply IHr; auto.
    + intros H. apply star_cons_inv in H as (s1 & s2 & -> & H1 & H2).
      constructor; auto. apply IHr; auto.
Qed.

Lemma matches_lang s : forall r, matches r s = true <-> lang r s.
Proof.
  induction s as [| c s IH]; intros r; simpl.
  - apply nullable_lang.
  - rewrite IH. apply deriv_lang.
Qed.

(** [match_index] returns the first position whose suffix matches. *)
Lemma match_index_from_Some body s : forall i j,
  match_index_from body s i = Some j ->
  exists k, j = (i + k)%nat /\ (k <= length s)%nat
            /\ matches body (skipn k s) = true
            /\ forall k', (k' < k)%nat -> matches body (skipn k' s) = false.
Proof.
  induction s as [| c s IH]; intros i j; simpl.
  - destruct (nullable body) eqn:Hn; intros H; inversion H; subst.
    exists 0%nat. simpl. repeat split; auto; try lia.
  - destruct (matches (deriv c body) s) eqn:Hm; intros H.
    + inversion H; subst. exists 0%nat. simpl. repeat split; auto; lia.
    + apply IH in H as (k & -> & Hk & Hmk & Hmin).
      exists (S k). simpl. repeat split; auto; try lia.
      intros [| k'] Hlt; simpl; auto. apply Hmin. lia.
Qed.

Lemma match_index_from_None body s : forall i,
  match_index_from body s i = None ->
  forall k, matches body (skipn k s) = false.
Proof.
  induction s as [| c s IH]; intros i; simpl.
  - destruct (nullable body) eqn:Hn; intros H; [discriminate |].
    intros [| k]; simpl; auto.
  - destruct (matches (deriv c body) s) eqn:Hm; intros H; [discriminate |].
    intros [| k]; simpl; auto. eapply IH; eauto.
Qed.

Lemma match_index_from_found body s : forall i k,
  matches body (skipn k s) = true ->
  exists j, match_index_from body s i = Some j.
Proof.
  intros i k Hk.
  destruct (match_index_from body s i) eqn:E; eauto.
  rewrite (match_index_from_None _ _ _ E k) in Hk. discriminate.
Qed.

End RegexFacts.


(** ** Hashing *)

Section HashFacts.

(** The model of the hash against the test vector of RFC 7693, appendix B,
    and against the digest of the empty message. *)
Example blake2s_256_abc :
  BLAKE2s.hex (BLAKE2s.blake2s_256 (lit "abc"))
  = lit "508c5e8c327c14e2e1a72ba34eeb452f37458b209ed63a294d999b4c86675982".
Proof. vm_compute. reflexivity. Qed.

Example blake2s_256_empty :
  BLAKE2s.hex (BLAKE2s.blake2s_256 [])
  = lit "69217a3079908094e11121d042354a7c1f55b6482ca1a51e1b250dfd1ed0eef9".
Proof. vm_compute. reflexivity. Qed.

(** A message longer than one block goes through the non-final compression. *)
Example blake2s_256_two_blocks :
  BLAKE2s.hex (BLAKE2s.blake2s_256 (repeat 97 130))
  = lit "4069a8b0f230ff6ca77a0e4e7d4e0f2dca349e4cdfc77a6c01277d9bc9b2d912".
Proof. vm_compute. reflexivity. Qed.

(** The euro sign, a surrogate pair, a lone surrogate and two Latin
    letters. *)
Example utf8_sample :
  utf8 [0x20AC; 0xD83D; 0xDE00; 0xD800; 65; 233]
  = [226; 130; 172; 240; 159; 152; 128; 239; 191; 189; 65; 195; 169].
Proof. reflexivity. Qed.

Lemma utf8_nul_bounded n : forall s,
  (length s <= n)%nat -> utf8 (s ++ [0]) = utf8 s ++ [0].
Proof.
  induction n as [| n IH]; intros s Hlen.
  - destruct s; [reflexivity | simpl in Hlen; lia].
  - destruct s as [| c r]; [reflexivity |].
    simpl in Hlen. assert (Hr : (length r <= n)%nat) by lia.
    change ((c :: r) ++ [0]) with (c :: (r ++ [0])).
    cbn [utf8].
    destruct (c <? 128); [rewrite IH by auto; reflexivity |].
    destruct (c <? 2048); [rewrite IH by auto; rewrite <- app_assoc; reflexivity |].
    destruct (is_high_surrogate c).
    + destruct r as [| lo r']; [reflexivity |].
      change ((lo :: r') ++ [0]) with (lo :: (r' ++ [0])).
      cbv iota.
      destruct (is_low_surrogate lo).
      * simpl in Hr. rewrite IH by lia. rewrite <- app_assoc. reflexivity.
      * change (lo :: (r' ++ [0])) with ((lo :: r') ++ [0]).
        rewrite IH by auto. rewrite <- app_assoc. reflexivity.
    + destruct (is_low_surrogate c);
        rewrite IH by auto; rewrite <- app_assoc; reflexivity.
Qed.

(** Appending the NUL to the string before encoding is the same as appending
    a NUL byte to the encoded string: the terminator never pairs up with a
    trailing surrogate. *)
Lemma utf8_nul s : utf8 (s ++ [0]) = utf8 s ++ [0].
Proof. apply (utf8_nul_bounded (length s)). lia. Qed.

Lemma update_app st a b :
  BLAKE2s.update (BLAKE2s.update st a) b = BLAKE2s.update st (a ++ b).
Proof. unfold BLAKE2s.update. rewrite fold_left_app. reflexivity. Qed.

Lemma update_all strs : forall st,
  fold_left (fun blake str => BLAKE2s.update blake (databuf str))
            (List.map VStr strs) st
  = BLAKE2s.update st (nul_terminated_stream strs).
Proof.
  induction strs as [| s strs IH]; intros st; simpl.
  - reflexivity.
  - rewrite IH. unfold databuf. simpl to_string. rewrite utf8_nul.
    rewrite update_app. reflexivity.
Qed.

End HashFacts.

(** C5. [orderedHashOfStrings] on an array of strings is the hex form of the
    BLAKE2s-256 digest of the strings' UTF-8 bytes, each followed by one NUL
    byte, in sequence order; a single string is hashed as the one-element
    array; the digest is a function of the ordered sequence alone, and it
    tells [["a","b"]] from [["ab"]] and from [["a","bc"]]. *)
Theorem orderedHashOfStrings_blake2s_nul :
  (forall strs : list jsstring,
      orderedHashOfStrings (Array (List.map VStr strs))
      = BLAKE2s.hex (BLAKE2s.blake2s_256 (nul_terminated_stream strs)))
  /\ (forall s : jsstring,
        orderedHashOfStrings (Single (VStr s))
        = orderedHashOfStrings (Array [VStr s]))
  /\ (forall strs1 strs2 : list jsstring,
        nul_terminated_stream strs1 = nul_terminated_stream strs2 ->
        orderedHashOfStrings (Array (List.map VStr strs1))
        = orderedHashOfStrings (Array (List.map VStr strs2)))
  /\ orderedHashOfStrings (Array [VStr (lit "a"); VStr (lit "b")])
     <> orderedHashOfStrings (Array [VStr (lit "ab")])
  /\ orderedHashOfStrings (Array [VStr (lit "a"); VStr (lit "b")])
     <> orderedHashOfStrings (Array [VStr (lit "a"); VStr (lit "bc")]).
Proof.
  assert (Href : forall strs : list jsstring,
      orderedHashOfStrings (Array (List.map VStr strs))
      = BLAKE2s.hex (BLAKE2s.blake2s_256 (nul_terminated_stream strs))).
  { intros strs. unfold orderedHashOfStrings, BLAKE2s.hexDigest,
      BLAKE2s.blake2s_256.
    rewrite update_all. reflexivity. }
  split; [exact Href |].
  split; [reflexivity |].
  split; [intros strs1 strs2 Heq; rewrite !Href, Heq; reflexivity |].
  split; vm_compute; discriminate.
Qed.

(** The hypothesis of the third part of C5 at two equal sequences. *)
Lemma orderedHashOfStrings_blake2s_nul_witness :
  orderedHashOfStrings (Array (List.map VStr [lit "http://x"; lit "http://y"]))
  = orderedHashOfStrings (Array (List.map VStr [lit "http://x"; lit "http://y"])).
Proof.
  apply (proj1 (proj2 (proj2 orderedHashOfStrings_blake2s_nul))).
  reflexivity.
Defined.

(** ** Unsaved markers *)

Section MarkerFacts.

Example match_index_two_markers :
  match_index re_unsaved (lit "Foo (Unsaved) (Unsaved)") = Some 3%nat.
Proof. reflexivity. Qed.

Example match_index_no_space_before :
  match_index re_unsaved (lit "Foo(Unsaved)") = None.
Proof. reflexivity. Qed.

(** The expression carries the [i] flag: a marker in another letter case is
    removed as well. *)
Example remove_unsaved_markers_any_case :
  remove_unsaved_markers (VStr (lit "Foo (UNSAVED)  ")) = VStr (lit "Foo").
Proof. reflexivity. Qed.

(** A run of markers that starts the string is left in place. *)
Example remove_unsaved_markers_at_start :
  remove_unsaved_markers (VStr (lit " (Unsaved)")) = VStr (lit " (Unsaved)").
Proof. reflexivity. Qed.

Lemma class_inv f s : lang (RClass f) s -> exists c, s = [c] /\ f c = true.
Proof. intros H. inversion H; subst. eauto. Qed.

Lemma lang_RLit_ci_prefix p : forall m post,
  lang (RLit_ci p) m -> prefix_ci p (m ++ post) = true.
Proof.
  induction p as [| pc p IH]; intros m post H; simpl in *.
  - reflexivity.
  - apply seq_inv in H as (s1 & s2 & -> & H1 & H2).
    apply class_inv in H1 as (c & -> & Hc).
    simpl. rewrite Hc. simpl. apply IH; auto.
Qed.

Lemma has_marker_unfold s :
  has_marker s
  = prefix_ci unsaved_marker s
    || match s with [] => false | _ :: s' => has_marker s' end.
Proof. destruct s; reflexivity. Qed.

Lemma has_marker_intro pre : forall s,
  prefix_ci unsaved_marker s = true -> has_marker (pre ++ s) = true.
Proof.
  induction pre as [| c pre IH]; intros s Hs.
  - simpl app. rewrite has_marker_unfold, Hs. reflexivity.
  - simpl app. rewrite has_marker_unfold, IH by auto. apply orb_true_r.
Qed.

Lemma has_marker_skipn k : forall s,
  has_marker (skipn k s) = true -> has_marker s = true.
Proof.
  induction k as [| k IH]; intros s H.
  - exact H.
  - destruct s as [| c s]; [exact H |].
    simpl in H. apply IH in H.
    rewrite has_marker_unfold, H. apply orb_true_r.
Qed.

(** Whatever the expression matches contains a marker. *)
Lemma re_unsaved_has_marker s : lang re_unsaved s -> has_marker s = true.
Proof.
  unfold re_unsaved, RPlus. intros H.
  apply seq_inv in H as (s1 & tail & -> & H & _).
  apply seq_inv in H as (x & more & -> & H & _).
  apply seq_inv in H as (ws & m & -> & _ & H).
  rewrite <- !app_assoc.
  apply has_marker_intro.
  apply lang_RLit_ci_prefix. exact H.
Qed.

Lemma no_marker_no_match s :
  has_marker s = false -> match_index re_unsaved s = None.
Proof.
  intros Hno. unfold match_index.
  destruct (match_index_from re_unsaved s 0) as [j |] eqn:E; [| reflexivity].
  apply match_index_from_Some in E as (k & _ & _ & Hm & _).
  apply matches_lang in Hm. apply re_unsaved_has_marker in Hm.
  apply has_marker_skipn in Hm. congruence.
Qed.

End MarkerFacts.

(** C9. [remove_unsaved_markers("Foo (Unsaved) (Unsaved)")] is ["Foo"]; a
    string that contains no "(Unsaved)" marker (in any letter case) is
    returned unchanged; a falsy input is returned as it is. *)
Theorem remove_unsaved_markers_spec :
  remove_unsaved_markers (VStr (lit "Foo (Unsaved) (Unsaved)"))
  = VStr (lit "Foo")
  /\ (forall s : jsstring,
        has_marker s = false -> remove_unsaved_markers (VStr s) = VStr s)
  /\ (forall v : jsval, truthy v = false -> remove_unsaved_markers v = v).
Proof.
  split; [vm_compute; reflexivity |].
  split.
  - intros s Hno. unfold remove_unsaved_markers.
    destruct (truthy (VStr s)); [| reflexivity].
    simpl. rewrite no_marker_no_match by auto. reflexivity.
  - intros v Hv. unfold remove_unsaved_markers. rewrite Hv. reflexivity.
Qed.

(** The hypotheses of C9 at a title without marker and at [null]. *)
Lemma remove_unsaved_markers_spec_witness :
  (has_marker (lit "Saved tabs") = false
   /\ remove_unsaved_markers (VStr (lit "Saved tabs")) = VStr (lit "Saved tabs"))
  /\ (truthy VNull = false /\ remove_unsaved_markers VNull = VNull).
Proof.
  split; split.
  - reflexivity.
  - apply (proj1 (proj2 remove_unsaved_markers_spec)). reflexivity.
  - reflexivity.
  - apply (proj2 (proj2 remove_unsaved_markers_spec)). reflexivity.
Defined.

(** C9 as stated fails for a marker in another letter case: the string
    ["Foo (UNSAVED)"] has the text [(Unsaved)] nowhere, and the routine,
    whose expression carries the [i] flag, cuts it down to ["Foo"]. *)
Lemma unsaved_marker_in_capitals :
  occurs_in unsaved_marker (lit "Foo (UNSAVED)") = false
  /\ has_marker (lit "Foo (UNSAVED)") = true
  /\ remove_unsaved_markers (VStr (lit "Foo (UNSAVED)")) = VStr (lit "Foo")
  /\ remove_unsaved_markers (VStr (lit "Foo (UNSAVED)"))
     <> VStr (lit "Foo (UNSAVED)").
Proof.
  split; [reflexivity |]. split; [reflexivity |].
  split; [reflexivity |]. vm_compute. discriminate.
Qed.

(** ** Which part of the state each primitive touches *)

Section ModelFacts.

Lemma rename_node_dom id text t :
  dom (nodes (snd (rename_node id text t))) = dom (nodes t).
Proof.
  unfold rename_node. destruct (nodes t !! id); simpl; [| reflexivity].
  apply dom_alter_L.
Qed.

Lemma refresh_label_tree id m :
  exists t, snd (refresh_label id m) = with_tree (fun _ => t) m
            /\ dom (nodes t) = dom (nodes (treeobj m)).
Proof.
  assert (Hid : m = with_tree (fun _ => treeobj m) m) by (destruct m; reflexivity).
  unfold refresh_label.
  destruct (negb (str_truthy id)); [exists (treeobj m); auto |].
  destruct (D_val_by_node_id id m) as [l |]; [| exists (treeobj m); auto].
  destruct (heap m !! l) as [val |]; [| exists (treeobj m); auto].
  pose proof (rename_node_dom id (get_html_label val) (treeobj m)) as Hd.
  destruct (rename_node id (get_html_label val) (treeobj m)) as [b t].
  exists t. auto.
Qed.

Lemma refresh_icon_tree x m :
  exists t, snd (refresh_icon x m) = with_tree (fun _ => t) m
            /\ dom (nodes t) = dom (nodes (treeobj m)).
Proof.
  assert (Hid : m = with_tree (fun _ => treeobj m) m) by (destruct m; reflexivity).
  unfold refresh_icon.
  destruct (vn_val (vn_by_vorny x None m)) as [l |]; [| exists (treeobj m); auto].
  destruct (get_node _ (treeobj m)); [| exists (treeobj m); auto].
  destruct (negb _); [exists (treeobj m); auto |].
  destruct (heap m !! l) as [val |]; [| exists (treeobj m); auto].
  eexists. split; [reflexivity |]. simpl. apply dom_alter_L.
Qed.

Lemma heap_refresh_label id m : heap (snd (refresh_label id m)) = heap m.
Proof. destruct (refresh_label_tree id m) as (t & -> & _). reflexivity. Qed.

Lemma windows_refresh_label id m :
  windows (snd (refresh_label id m)) = windows m.
Proof. destruct (refresh_label_tree id m) as (t & -> & _). reflexivity. Qed.

Lemma tabs_refresh_label id m : tabs (snd (refresh_label id m)) = tabs m.
Proof. destruct (refresh_label_tree id m) as (t & -> & _). reflexivity. Qed.

Lemma log_refresh_label id m : log (snd (refresh_label id m)) = log m.
Proof. destruct (refresh_label_tree id m) as (t & -> & _). reflexivity. Qed.

Lemma heap_refresh_icon x m : heap (snd (refresh_icon x m)) = heap m.
Proof. destruct (refresh_icon_tree x m) as (t & -> & _). reflexivity. Qed.

Lemma windows_refresh_icon x m :
  windows (snd (refresh_icon x m)) = windows m.
Proof. destruct (refresh_icon_tree x m) as (t & -> & _). reflexivity. Qed.

Lemma tabs_refresh_icon x m : tabs (snd (refresh_icon x m)) = tabs m.
Proof. destruct (refresh_icon_tree x m) as (t & -> & _). reflexivity. Qed.

Lemma log_refresh_icon x m : log (snd (refresh_icon x m)) = log m.
Proof. destruct (refresh_icon_tree x m) as (t & -> & _). reflexivity. Qed.



Lemma dom_alter_node f id t : dom (nodes (alter_node f id t)) = dom (nodes t).
Proof. apply dom_alter_L. Qed.

(** [change_key] on a record that is in the heap. *)
Lemma D_change_key_eq ty l f x m v :
  heap m !! l = Some v ->
  D_change_key ty l f x m
  = with_store ty (<[l := set_key f x v]> (heap m))
      (mkMultidex (md_fields (store ty m)) (by_node (store ty m))
         (index_field l (set_key f x v)
            (unindex_field v (by_field (store ty m)) f) f)) m.
Proof.
  intros Hv. unfold D_change_key, md_change_key. rewrite Hv. reflexivity.
Qed.

Lemma heap_D_change_key ty l f x m v :
  heap m !! l = Some v ->
  heap (D_change_key ty l f x m) = <[l := set_key f x v]> (heap m).
Proof.
  intros Hv. rewrite (D_change_key_eq _ _ _ _ _ _ Hv). destruct ty; reflexivity.
Qed.

Lemma treeobj_D_change_key ty l f x m :
  treeobj (D_change_key ty l f x m) = treeobj m.
Proof.
  unfold D_change_key, md_change_key.
  destruct (heap m !! l); destruct ty; reflexivity.
Qed.

Lemma log_D_change_key ty l f x m : log (D_change_key ty l f x m) = log m.
Proof.
  unfold D_change_key, md_change_key.
  destruct (heap m !! l); destruct ty; reflexivity.
Qed.

Lemma by_node_D_change_key ty ty' l f x m :
  by_node (store ty' (D_change_key ty l f x m)) = by_node (store ty' m).
Proof.
  unfold D_change_key, md_change_key.
  destruct (heap m !! l); destruct ty, ty'; reflexivity.
Qed.

Lemma store_D_change_key_other ty ty' l f x m :
  ty <> ty' -> store ty' (D_change_key ty l f x m) = store ty' m.
Proof.
  intros Hne. unfold D_change_key, md_change_key.
  destruct (heap m !! l); destruct ty, ty'; try reflexivity; congruence.
Qed.

Lemma heap_lookup_insert_same (h : list item_val) l v v' :
  h !! l = Some v -> <[l := v']> h !! l = Some v'.
Proof.
  intros Hv. apply list_lookup_insert_eq. eapply lookup_lt_Some; eauto.
Qed.

Lemma heap_lookup_alter_same (h : list item_val) l f v :
  h !! l = Some v -> alter f l h !! l = Some (f v).
Proof. intros Hv. rewrite list_lookup_alter_eq, Hv. reflexivity. Qed.

End ModelFacts.

(** ** Marking open and closed *)

Lemma resolved_inv x ty m l v id :
  resolved x ty m = Some (l, v, id) ->
  vorny_truthy x = true
  /\ vn_val (vn_by_vorny x (Some ty) m) = Some l
  /\ vn_node_id (vn_by_vorny x (Some ty) m) = id
  /\ heap m !! l = Some v
  /\ str_truthy id = true.
Proof.
  unfold resolved. intros H.
  destruct (vorny_truthy x); [| discriminate].
  destruct (vn_val _) as [l' |]; [| discriminate].
  destruct (heap m !! l') as [v' |] eqn:Hv; [| discriminate].
  destruct (str_truthy _) eqn:Hs; [| discriminate].
  inversion H; subst. auto.
Qed.

Ltac resolve_in H :=
  apply resolved_inv in H as (?Hx & ?Hl & ?Hid & ?Hv & ?Hs).

Section MarkFacts.

Lemma markWinAsOpen_refused m x l v id cwin :
  resolved x IT_WIN m = Some (l, v, id) ->
  isOpen v = true \/ is_Some (win v) ->
  markWinAsOpen x cwin m
  = (false,
     match cwin with
     | Some cw =>
         if truthy (cw_id cw)
         then log_info "Refusing to re-mark already-open window as open" l m
         else m
     | None => m
     end).
Proof.
  intros H Hopen. resolve_in H.
  unfold markWinAsOpen. destruct cwin as [cw |]; [| reflexivity].
  rewrite Hx. simpl. destruct (truthy (cw_id cw)); [| reflexivity].
  simpl. rewrite Hl, Hv, Hid, Hs. simpl.
  destruct Hopen as [-> | [w ->]]; [reflexivity |].
  rewrite orb_true_r. reflexivity.
Qed.

Lemma markTabAsOpen_refused m x l v id ctab :
  resolved x IT_TAB m = Some (l, v, id) ->
  isOpen v = true \/ is_Some (tab v) ->
  markTabAsOpen x ctab m
  = (false,
     match ctab with
     | Some ct =>
         if truthy (ct_id ct)
         then log_info "Refusing to re-mark already-open tab as open" l m
         else m
     | None => m
     end).
Proof.
  intros H Hopen. resolve_in H.
  unfold markTabAsOpen. destruct ctab as [ct |]; [| reflexivity].
  rewrite Hx. simpl. destruct (truthy (ct_id ct)); [| reflexivity].
  simpl. rewrite Hl, Hv, Hid, Hs. simpl.
  destruct Hopen as [-> | [w ->]]; [reflexivity |].
  rewrite orb_true_r. reflexivity.
Qed.

Lemma markWinAsClosed_refused m x l v id :
  resolved x IT_WIN m = Some (l, v, id) ->
  isOpen v = false \/ win v = None ->
  markWinAsClosed x m
  = (false,
     log_info "Refusing to re-mark already-closed window as closed" l m).
Proof.
  intros H Hclosed. resolve_in H.
  unfold markWinAsClosed. rewrite Hx. simpl.
  rewrite Hl, Hv, Hid, Hs. simpl.
  destruct Hclosed as [-> | ->]; [reflexivity |].
  simpl. rewrite orb_true_r. reflexivity.
Qed.

Lemma markTabAsClosed_refused m x l v id :
  resolved x IT_TAB m = Some (l, v, id) ->
  is_Some (get_node id (treeobj m)) ->
  isOpen v = false \/ tab v = None ->
  markTabAsClosed x m
  = (false,
     log_info "Refusing to re-mark already-closed tab as closed" l m).
Proof.
  intros H [nd Hnd] Hclosed. resolve_in H.
  unfold markTabAsClosed. rewrite Hx. simpl.
  rewrite Hl, Hv, Hid, Hs. simpl. rewrite Hnd.
  destruct Hclosed as [-> | ->]; [reflexivity |].
  simpl. rewrite orb_true_r. reflexivity.
Qed.

End MarkFacts.

(** C6. Marking an already-open window or tab as open, or an already-closed
    one as closed, is refused: the call returns false and changes nothing
    but the log, to which (when the Chrome object handed in is usable) it
    adds one informational entry; the record and the node keep every field
    and tag. *)
Theorem remark_refused :
  (forall m x l v id cwin,
      resolved x IT_WIN m = Some (l, v, id) ->
      isOpen v = true \/ is_Some (win v) ->
      fst (markWinAsOpen x cwin m) = false
      /\ same_but_log m (snd (markWinAsOpen x cwin m))
      /\ (forall cw, cwin = Some cw -> truthy (cw_id cw) = true ->
          log (snd (markWinAsOpen x cwin m))
          = log m
            ++ [LogInfo "Refusing to re-mark already-open window as open" l]))
  /\ (forall m x l v id ctab,
      resolved x IT_TAB m = Some (l, v, id) ->
      isOpen v = true \/ is_Some (tab v) ->
      fst (markTabAsOpen x ctab m) = false
      /\ same_but_log m (snd (markTabAsOpen x ctab m))
      /\ (forall ct, ctab = Some ct -> truthy (ct_id ct) = true ->
          log (snd (markTabAsOpen x ctab m))
          = log m
            ++ [LogInfo "Refusing to re-mark already-open tab as open" l]))
  /\ (forall m x l v id,
      resolved x IT_WIN m = Some (l, v, id) ->
      isOpen v = false \/ win v = None ->
      fst (markWinAsClosed x m) = false
      /\ same_but_log m (snd (markWinAsClosed x m))
      /\ log (snd (markWinAsClosed x m))
         = log m
           ++ [LogInfo "Refusing to re-mark already-closed window as closed" l])
  /\ (forall m x l v id,
      resolved x IT_TAB m = Some (l, v, id) ->
      is_Some (get_node id (treeobj m)) ->
      isOpen v = false \/ tab v = None ->
      fst (markTabAsClosed x m) = false
      /\ same_but_log m (snd (markTabAsClosed x m))
      /\ log (snd (markTabAsClosed x m))
         = log m
           ++ [LogInfo "Refusing to re-mark already-closed tab as closed" l]).
Proof.
  split; [| split; [| split]].
  - intros m x l v id cwin H Hopen.
    rewrite (markWinAsOpen_refused _ _ _ _ _ _ H Hopen).
    split; [reflexivity |]. split.
    + destruct cwin as [cw |]; [destruct (truthy (cw_id cw)) |];
        repeat split; reflexivity.
    + intros cw -> ->. reflexivity.
  - intros m x l v id ctab H Hopen.
    rewrite (markTabAsOpen_refused _ _ _ _ _ _ H Hopen).
    split; [reflexivity |]. split.
    + destruct ctab as [ct |]; [destruct (truthy (ct_id ct)) |];
        repeat split; reflexivity.
    + intros ct -> ->. reflexivity.
  - intros m x l v id H Hclosed.
    rewrite (markWinAsClosed_refused _ _ _ _ _ H Hclosed).
    repeat split; reflexivity.
  - intros m x l v id H Hnode Hclosed.
    rewrite (markTabAsClosed_refused _ _ _ _ _ H Hnode Hclosed).
    repeat split; reflexivity.
Qed.

(** The hypotheses of C6 in the running example: the open window and the open
    tab are marked open again, the closed ones closed again. *)
Lemma remark_refused_witness :
  (exists v, resolved (Vy (VStr Scenario.win1)) IT_WIN Scenario.both_open
             = Some (0%nat, v, Scenario.win1)
             /\ isOpen v = true
             /\ fst (markWinAsOpen (Vy (VStr Scenario.win1))
                       (Some Scenario.live_win) Scenario.both_open) = false)
  /\ (exists v, resolved (Vy (VStr Scenario.tab1)) IT_TAB Scenario.both_open
                = Some (1%nat, v, Scenario.tab1)
                /\ isOpen v = true
                /\ fst (markTabAsOpen (Vy (VStr Scenario.tab1))
                          (Some Scenario.live_tab) Scenario.both_open) = false)
  /\ (exists v, resolved (Vy (VStr Scenario.win1)) IT_WIN Scenario.rezzed
                = Some (0%nat, v, Scenario.win1)
                /\ isOpen v = false
                /\ fst (markWinAsClosed (Vy (VStr Scenario.win1))
                          Scenario.rezzed) = false)
  /\ (exists v, resolved (Vy (VStr Scenario.tab1)) IT_TAB Scenario.rezzed
                = Some (1%nat, v, Scenario.tab1)
                /\ is_Some (get_node Scenario.tab1 (treeobj Scenario.rezzed))
                /\ isOpen v = false
                /\ fst (markTabAsClosed (Vy (VStr Scenario.tab1))
                          Scenario.rezzed) = false).
Proof.
  destruct remark_refused as (Hwo & Hto & Hwc & Htc).
  split; [| split; [| split]].
  - eexists. split; [vm_compute; reflexivity |]. split; [reflexivity |].
    eapply Hwo; [vm_compute; reflexivity | left; reflexivity].
  - eexists. split; [vm_compute; reflexivity |]. split; [reflexivity |].
    eapply Hto; [vm_compute; reflexivity | left; reflexivity].
  - eexists. split; [vm_compute; reflexivity |]. split; [reflexivity |].
    eapply Hwc; [vm_compute; reflexivity | left; reflexivity].
  - eexists. split; [vm_compute; reflexivity |].
    split; [vm_compute; eauto |]. split; [reflexivity |].
    eapply Htc; [vm_compute; reflexivity | vm_compute; eauto
                | left; reflexivity].
Defined.

(** ** Steps that keep the items in place *)

Section SameItems.

Lemma same_items_refl m : same_items m m.
Proof. repeat split; reflexivity. Qed.

Lemma same_items_with_tree m m1 f :
  (forall t, dom (nodes (f t)) = dom (nodes t)) ->
  same_items m m1 -> same_items m (with_tree f m1).
Proof.
  intros Hf (Hw & Ht & Hh & Hd). repeat split; simpl; auto.
  rewrite Hf. exact Hd.
Qed.

Lemma same_items_refresh_label m m1 id :
  same_items m m1 -> same_items m (snd (refresh_label id m1)).
Proof.
  intros (Hw & Ht & Hh & Hd).
  destruct (refresh_label_tree id m1) as (t & -> & Hdt).
  repeat split; simpl; auto. congruence.
Qed.

Lemma same_items_refresh_icon m m1 x :
  same_items m m1 -> same_items m (snd (refresh_icon x m1)).
Proof.
  intros (Hw & Ht & Hh & Hd).
  destruct (refresh_icon_tree x m1) as (t & -> & Hdt).
  repeat split; simpl; auto. congruence.
Qed.

Lemma same_items_assign m m1 l f :
  (forall v, node_id (f v) = node_id v) ->
  same_items m m1 -> same_items m (assign l f m1).
Proof.
  intros Hf (Hw & Ht & Hh & Hd). repeat split; simpl; auto.
  intros l'. rewrite <- Hh.
  destruct (decide (l = l')) as [E |]; [subst l' |].
  - rewrite list_lookup_alter_eq.
    destruct (heap m1 !! l) as [v |]; [| reflexivity].
    change (Some (node_id (f v)) = Some (node_id v)).
    rewrite Hf. reflexivity.
  - rewrite list_lookup_alter_ne by auto. reflexivity.
Qed.

Lemma set_key_node_id f x v : node_id (set_key f x v) = node_id v.
Proof. destruct f; reflexivity. Qed.

Lemma same_items_change_key m m1 ty l f x :
  same_items m m1 -> same_items m (D_change_key ty l f x m1).
Proof.
  intros (Hw & Ht & Hh & Hd).
  split; [| split; [| split]].
  - rewrite <- Hw. apply (by_node_D_change_key ty IT_WIN).
  - rewrite <- Ht. apply (by_node_D_change_key ty IT_TAB).
  - intros l'. rewrite <- Hh.
    destruct (heap m1 !! l) as [v |] eqn:Hv.
    + rewrite (heap_D_change_key _ _ _ _ _ _ Hv).
      destruct (decide (l = l')) as [E |]; [subst l' |].
      * rewrite (heap_lookup_insert_same _ _ _ _ Hv), Hv.
        change (Some (node_id (set_key f x v)) = Some (node_id v)).
        rewrite set_key_node_id. reflexivity.
      * rewrite list_lookup_insert_ne by auto. reflexivity.
    + unfold D_change_key, md_change_key. rewrite Hv.
      destruct ty; reflexivity.
  - rewrite treeobj_D_change_key. exact Hd.
Qed.

Lemma same_items_log_info m m1 msg l :
  same_items m m1 -> same_items m (log_info msg l m1).
Proof. intros (Hw & Ht & Hh & Hd). repeat split; simpl; auto. Qed.

(** The resolver only reads the primary indexes and the node ids. *)
Lemma vn_by_vorny_same_items m m' x ty :
  same_items m m' -> vn_by_vorny x ty m' = vn_by_vorny x ty m.
Proof.
  intros (Hw & Ht & Hh & Hd).
  assert (HW : forall id, D_by_node_id IT_WIN id m' = D_by_node_id IT_WIN id m).
  { intros id. unfold D_by_node_id. simpl. rewrite Hw. reflexivity. }
  assert (HT : forall id, D_by_node_id IT_TAB id m' = D_by_node_id IT_TAB id m).
  { intros id. unfold D_by_node_id. simpl. rewrite Ht. reflexivity. }
  assert (HV : forall id, D_val_by_node_id id m' = D_val_by_node_id id m).
  { intros id. unfold D_val_by_node_id. rewrite HW, HT. reflexivity. }
  destruct x as [v | id parent | l]; simpl.
  - destruct (negb (truthy v)); [reflexivity |].
    destruct v; try reflexivity.
    destruct ty as [[|] |]; rewrite ?HW, ?HT, ?HV; reflexivity.
  - destruct (_ && _); [| reflexivity]. rewrite HV. reflexivity.
  - specialize (Hh l).
    destruct (heap m' !! l) as [v' |], (heap m !! l) as [v |];
      simpl in Hh; try discriminate; [| reflexivity].
    injection Hh as ->. reflexivity.
Qed.

Lemma get_node_same_items m m' id :
  same_items m m' ->
  is_Some (get_node id (treeobj m)) -> is_Some (get_node id (treeobj m')).
Proof.
  intros (_ & _ & _ & Hd) Hn. unfold get_node in *.
  apply elem_of_dom. rewrite Hd. apply elem_of_dom. exact Hn.
Qed.

End SameItems.

Ltac conjs := repeat match goal with |- _ /\ _ => split end.

Ltac heap_lookup :=
  repeat (apply heap_lookup_alter_same);
  first [eapply heap_lookup_insert_same; eassumption | eassumption].

Ltac same_items_steps :=
  repeat first
    [ apply same_items_refresh_label
    | apply same_items_refresh_icon
    | apply same_items_change_key
    | apply same_items_log_info
    | apply same_items_assign; [intros; reflexivity |]
    | apply same_items_with_tree; [intros; apply dom_alter_L |] ];
  try apply same_items_refl.

(** ** Closing and opening a tab *)

Section TabFacts.

Lemma resolved_same_items m m' x ty l v v' id :
  same_items m m' ->
  resolved x ty m = Some (l, v, id) ->
  heap m' !! l = Some v' ->
  resolved x ty m' = Some (l, v', id).
Proof.
  intros Hsame H Hv'. resolve_in H.
  unfold resolved. rewrite Hx, (vn_by_vorny_same_items _ _ _ _ Hsame).
  rewrite Hl, Hv', Hid, Hs. reflexivity.
Qed.

Lemma markTabAsClosed_closes m x l v id :
  resolved x IT_TAB m = Some (l, v, id) ->
  is_Some (get_node id (treeobj m)) ->
  isOpen v = true -> is_Some (tab v) ->
  exists m', markTabAsClosed x m = (true, m')
             /\ heap m' !! l = Some (closed_tab v)
             /\ same_items m m'.
Proof.
  intros H [nd Hnd] Hopen [ct Hct]. resolve_in H.
  unfold markTabAsClosed. rewrite Hx. simpl.
  rewrite Hl, Hv, Hid, Hs. simpl. rewrite Hnd, Hopen, Hct. simpl.
  eexists. split; [reflexivity |]. split.
  - rewrite heap_refresh_label. simpl.
    rewrite (heap_D_change_key _ _ _ _ _ _ Hv).
    unfold closed_tab. heap_lookup.
  - same_items_steps.
Qed.

Lemma markTabAsOpen_opens m x l v id ct :
  resolved x IT_TAB m = Some (l, v, id) ->
  is_Some (get_node id (treeobj m)) ->
  isOpen v = false -> tab v = None ->
  truthy (ct_id ct) = true ->
  exists m', markTabAsOpen x (Some ct) m = (true, m')
             /\ heap m' !! l = Some (opened_tab ct v)
             /\ same_items m m'.
Proof.
  intros H [nd Hnd] Hopen Htab Hct. resolve_in H.
  unfold markTabAsOpen. rewrite Hx, Hct. simpl.
  rewrite Hl, Hv, Hid, Hs. simpl. rewrite Hnd, Hopen, Htab. simpl.
  eexists. split; [reflexivity |]. split.
  - assert (Hh : forall p m0,
        heap (match p with
              | Some p0 => with_tree (open_node p0) m0
              | None => m0
              end) = heap m0) by (intros [p0 |] m0; reflexivity).
    rewrite Hh, heap_refresh_icon, heap_refresh_label. simpl.
    rewrite (heap_D_change_key _ _ _ _ _ _ Hv).
    unfold opened_tab. heap_lookup.
  - destruct (n_parent nd); same_items_steps.
Qed.

(** What a true return of [markTabAsOpen] says of the item it was given. *)
Lemma markTabAsOpen_true_hyps m x l v id ct m1 :
  resolved x IT_TAB m = Some (l, v, id) ->
  markTabAsOpen x (Some ct) m = (true, m1) ->
  is_Some (get_node id (treeobj m))
  /\ isOpen v = false /\ tab v = None /\ truthy (ct_id ct) = true.
Proof.
  intros H Hrun. resolve_in H. unfold markTabAsOpen in Hrun.
  rewrite Hx in Hrun. cbn [negb orb] in Hrun.
  destruct (truthy (ct_id ct)); [| discriminate Hrun]. cbn [negb] in Hrun.
  rewrite Hl, Hv, Hid, Hs in Hrun. cbn [negb] in Hrun.
  destruct (isOpen v); [discriminate Hrun |].
  destruct (tab v); [discriminate Hrun |]. cbn [orb handle_truthy] in Hrun.
  destruct (get_node id (treeobj m)); [| discriminate Hrun]. eauto.
Qed.

End TabFacts.

(** C7. [markTabAsClosed] on an open tab item succeeds, sets [isOpen] to
    false, sets [tab_id], [win_id] and [index] to [K.NONE], clears the [tab]
    handle, and leaves [raw_url], [raw_title] and [raw_favicon_url] as they
    were. So once [markTabAsOpen] with a Chrome tab has returned true,
    [markTabAsClosed] on the same item succeeds, the tab is closed, its ids
    are [K.NONE], and its URL, title and favicon URL are those the Chrome
    tab reported. *)
Theorem markTabAsClosed_keeps_metadata :
  (forall m x l v id,
      resolved x IT_TAB m = Some (l, v, id) ->
      is_Some (get_node id (treeobj m)) ->
      isOpen v = true -> is_Some (tab v) ->
      exists m' v',
        markTabAsClosed x m = (true, m')
        /\ heap m' !! l = Some v'
        /\ isOpen v' = false
        /\ tab_id v' = K.NONE /\ win_id v' = K.NONE /\ index v' = K.NONE
        /\ tab v' = None
        /\ raw_url v' = raw_url v
        /\ raw_title v' = raw_title v
        /\ raw_favicon_url v' = raw_favicon_url v)
  /\ (forall m x l v id ct m1,
      resolved x IT_TAB m = Some (l, v, id) ->
      markTabAsOpen x (Some ct) m = (true, m1) ->
      exists v1 m2 v2,
        heap m1 !! l = Some v1
        /\ markTabAsClosed x m1 = (true, m2)
        /\ heap m2 !! l = Some v2
        /\ isOpen v2 = false
        /\ tab_id v2 = K.NONE /\ win_id v2 = K.NONE /\ index v2 = K.NONE
        /\ tab v2 = None
        /\ raw_url v2 = raw_url v1 /\ raw_url v1 = ct_url ct
        /\ raw_title v2 = raw_title v1 /\ raw_title v1 = ct_title ct
        /\ raw_favicon_url v2 = raw_favicon_url v1
        /\ raw_favicon_url v1 = ct_favIconUrl ct).
Proof.
  split.
  - intros m x l v id H Hnode Hopen Htab.
    destruct (markTabAsClosed_closes _ _ _ _ _ H Hnode Hopen Htab)
      as (m' & Hrun & Hv' & _).
    exists m', (closed_tab v).
    split; [exact Hrun |]. split; [exact Hv' |].
    conjs; vm_compute; reflexivity.
  - intros m x l v id ct m1 H Hrun.
    destruct (markTabAsOpen_true_hyps _ _ _ _ _ _ _ H Hrun)
      as (Hnode & Hopen & Htab & Hct).
    destruct (markTabAsOpen_opens _ _ _ _ _ ct H Hnode Hopen Htab Hct)
      as (m1' & Hrun1 & Hv1 & Hsame).
    assert (m1' = m1) by congruence. subst m1'.
    assert (H1 : resolved x IT_TAB m1 = Some (l, opened_tab ct v, id))
      by (eapply resolved_same_items; eauto).
    assert (Hnode1 : is_Some (get_node id (treeobj m1)))
      by (eapply get_node_same_items; eauto).
    destruct (markTabAsClosed_closes _ _ _ _ _ H1 Hnode1 eq_refl
                (ex_intro _ ct eq_refl))
      as (m2 & Hrun2 & Hv2 & _).
    exists (opened_tab ct v), m2, (closed_tab (opened_tab ct v)).
    split; [exact Hv1 |].
    split; [exact Hrun2 |]. split; [exact Hv2 |].
    conjs; vm_compute; reflexivity.
Qed.

(** The hypotheses of C7 in the running example: the open tab is closed, and
    the closed tab is opened and closed again. *)
Lemma markTabAsClosed_keeps_metadata_witness :
  (exists v, resolved (Vy (VStr Scenario.tab1)) IT_TAB Scenario.tab_open
             = Some (1%nat, v, Scenario.tab1)
             /\ is_Some (get_node Scenario.tab1 (treeobj Scenario.tab_open))
             /\ isOpen v = true /\ is_Some (tab v)
             /\ exists m' v',
                 markTabAsClosed (Vy (VStr Scenario.tab1)) Scenario.tab_open
                 = (true, m')
                 /\ heap m' !! 1%nat = Some v'
                 /\ isOpen v' = false
                 /\ raw_url v' = VStr (lit "http://a"))
  /\ (exists v, resolved (Vy (VStr Scenario.tab1)) IT_TAB Scenario.rezzed
                = Some (1%nat, v, Scenario.tab1)
                /\ markTabAsOpen (Vy (VStr Scenario.tab1))
                                 (Some Scenario.live_tab) Scenario.rezzed
                   = (true, Scenario.tab_open)
                /\ exists m2 v2,
                    markTabAsClosed (Vy (VStr Scenario.tab1))
                                    Scenario.tab_open = (true, m2)
                    /\ heap m2 !! 1%nat = Some v2
                    /\ raw_url v2 = VStr (lit "http://a")).
Proof.
  destruct markTabAsClosed_keeps_metadata as (Hclose & Hround).
  split.
  - eexists. split; [vm_compute; reflexivity |].
    split; [vm_compute; eauto |]. split; [reflexivity |].
    split; [vm_compute; eauto |].
    edestruct (Hclose Scenario.tab_open (Vy (VStr Scenario.tab1)))
      as (m' & v' & Hrun & Hv' & Ho & _ & _ & _ & _ & Hurl & _).
    + vm_compute; reflexivity.
    + vm_compute; eauto.
    + reflexivity.
    + vm_compute; eauto.
    + exists m', v'.
      split; [exact Hrun |]. split; [exact Hv' |]. split; [exact Ho |].
      exact Hurl.
  - eexists. split; [vm_compute; reflexivity |].
    split; [vm_compute; reflexivity |].
    edestruct (Hround Scenario.rezzed (Vy (VStr Scenario.tab1)))
      as (v1 & m2 & v2 & Hv1 & Hrun2 & Hv2 & _ & _ & _ & _ & _
          & Hurl2 & Hurl1 & _).
    + vm_compute; reflexivity.
    + instantiate (2 := Scenario.live_tab). vm_compute; reflexivity.
    + exists m2, v2.
      split; [exact Hrun2 |]. split; [exact Hv2 |].
      rewrite Hurl2, Hurl1. reflexivity.
Defined.

(** ** What erasing or opening a tab leaves alone *)

Section TabFrame.

Lemma eraseTab_run m x l v id :
  resolved x IT_TAB m = Some (l, v, id) ->
  is_Some (get_node id (treeobj m)) ->
  eraseTab x m
  = (true, with_tree (delete_node id) (D_remove_value IT_TAB l m)).
Proof.
  intros H [nd Hnd]. resolve_in H.
  unfold eraseTab. rewrite Hl, Hid, Hnd, Hs. reflexivity.
Qed.

Lemma delete_node_gone_fold (gone : list jsstring) (ns : gmap jsstring tnode) i :
  i ∈ gone -> fold_right (fun j acc => delete j acc) ns gone !! i = None.
Proof.
  induction gone as [| j gone IH]; intros Hin.
  - inversion Hin.
  - simpl. destruct (decide (j = i)) as [-> |].
    + apply lookup_delete_eq.
    + rewrite lookup_delete_ne by auto. apply IH.
      apply elem_of_cons in Hin as [? |]; [congruence | auto].
Qed.

Lemma subtree_head fuel ns id : id ∈ subtree fuel ns id.
Proof.
  destruct fuel; simpl; [left |].
  destruct (ns !! id); left.
Qed.

(** A deleted node is no longer in the tree. *)
Lemma delete_node_gone id t nd p :
  nodes t !! id = Some nd -> n_parent nd = Some p ->
  nodes (delete_node id t) !! id = None.
Proof.
  intros Hnd Hp. unfold delete_node. rewrite Hnd, Hp. simpl.
  apply lookup_alter_None.
  apply delete_node_gone_fold, subtree_head.
Qed.

(** No node that remains lists a deleted node among its children, if that
    node was listed by its parent only. *)
Lemma delete_node_unlisted id t nd p nd' :
  nodes t !! id = Some nd -> n_parent nd = Some p ->
  nodes (delete_node id t) !! p = Some nd' ->
  id ∉ n_children nd'.
Proof.
  intros Hnd Hp. unfold delete_node. rewrite Hnd, Hp. simpl.
  rewrite lookup_alter_eq. intros Hl.
  destruct (_ !! p) as [n0 |]; [| discriminate].
  injection Hl as <-. simpl.
  rewrite list_elem_of_In, filter_In, <- list_elem_of_In.
  intros [_ Hneq]. rewrite bool_decide_eq_true_2 in Hneq by reflexivity.
  discriminate.
Qed.

Lemma windows_D_change_key_tab l f x m :
  windows (D_change_key IT_TAB l f x m) = windows m.
Proof. apply (store_D_change_key_other IT_TAB IT_WIN). discriminate. Qed.

Lemma heap_D_change_key_ne ty l f x m l' :
  l <> l' -> heap (D_change_key ty l f x m) !! l' = heap m !! l'.
Proof.
  intros Hne. destruct (heap m !! l) as [v |] eqn:Hv.
  - rewrite (heap_D_change_key _ _ _ _ _ _ Hv).
    apply list_lookup_insert_ne. exact Hne.
  - unfold D_change_key, md_change_key. rewrite Hv. destruct ty; reflexivity.
Qed.

(** [markTabAsOpen], whatever it returns, leaves the windows store and the
    records other than the one it was given as they were. *)
Lemma markTabAsOpen_leaves x ctab m :
  windows (snd (markTabAsOpen x ctab m)) = windows m
  /\ forall l',
       vn_val (vn_by_vorny x (Some IT_TAB) m) <> Some l' ->
       heap (snd (markTabAsOpen x ctab m)) !! l' = heap m !! l'.
Proof.
  unfold markTabAsOpen. destruct ctab as [ct |]; [| auto].
  destruct (negb (vorny_truthy x) || negb (truthy (ct_id ct))); [auto |].
  destruct (vn_val _) as [l |]; [| auto].
  destruct (heap m !! l) as [v |]; [| auto].
  destruct (negb (str_truthy _)); [auto |].
  destruct (isOpen v || handle_truthy (tab v)); [auto |].
  destruct (get_node _ (treeobj m)) as [nd |]; [| auto]. cbn [snd].
  assert (Hh : forall p m0,
      heap (match p with
            | Some p0 => with_tree (open_node p0) m0
            | None => m0
            end) = heap m0) by (intros [p0 |] m0; reflexivity).
  assert (Hw : forall p m0,
      windows (match p with
               | Some p0 => with_tree (open_node p0) m0
               | None => m0
               end) = windows m0) by (intros [p0 |] m0; reflexivity).
  split.
  - rewrite Hw, windows_refresh_icon, windows_refresh_label. simpl.
    apply windows_D_change_key_tab.
  - intros l' Hne. assert (Hne' : l <> l') by congruence.
    rewrite Hh, heap_refresh_icon, heap_refresh_label. simpl.
    rewrite !list_lookup_alter_ne by exact Hne'.
    apply heap_D_change_key_ne. exact Hne'.
Qed.

End TabFrame.

(** C10. For a tab item under a window item, [eraseTab] succeeds, and
    neither it nor [markTabAsOpen], whatever that returns, touches the
    window's record or the windows store: the window's [ordered_url_hash] is
    what it was, although the tab has left the window's children
    ([eraseTab]) or, when [markTabAsOpen] returns true, has taken the URL of
    the Chrome tab. *)
Theorem tab_ops_leave_parent_hash :
  (forall m x l v id nd lw w,
      tab_of_window x m l v id nd lw w ->
      exists m',
        eraseTab x m = (true, m')
        /\ windows m' = windows m
        /\ heap m' !! lw = Some w
        /\ get_node id (treeobj m') = None
        /\ D_by_node_id IT_TAB (node_id v) m' = None
        /\ (forall pid nd',
               n_parent nd = Some pid ->
               get_node pid (treeobj m') = Some nd' ->
               id ∉ n_children nd'))
  /\ (forall m x l v id nd lw w ctab b m',
      tab_of_window x m l v id nd lw w ->
      markTabAsOpen x ctab m = (b, m') ->
      windows m' = windows m
      /\ heap m' !! lw = Some w
      /\ hash_of m' lw = hash_of m lw
      /\ (b = true ->
          exists ct v',
            ctab = Some ct
            /\ heap m' !! l = Some v'
            /\ raw_url v' = ct_url ct)).
Proof.
  split.
  - intros m x l v id nd lw w (H & Hty & Hnd & (pid & Hp & Hlw) & Hw & Htw).
    rewrite (eraseTab_run _ _ _ _ _ H (ex_intro _ nd Hnd)).
    eexists. split; [reflexivity |].
    assert (Hv : heap m !! l = Some v) by (resolve_in H; assumption).
    split; [reflexivity |]. split; [exact Hw |].
    split; [| split].
    + simpl. eapply delete_node_gone; eauto.
    + unfold D_by_node_id, D_remove_value, md_remove_value. simpl.
      rewrite Hv. simpl. apply lookup_delete_eq.
    + intros pid' nd' Hp' Hnd'. simpl in Hnd'.
      rewrite Hp in Hp'. injection Hp' as <-.
      eapply delete_node_unlisted; eauto.
  - intros m x l v id nd lw w ctab b m'
           (H & Hty & Hnd & (pid & Hp & Hlw) & Hw & Htw) Hrun.
    assert (Hne : l <> lw).
    { intros ->. resolve_in H. rewrite Hv in Hw. injection Hw as ->.
      congruence. }
    destruct (markTabAsOpen_leaves x ctab m) as (Hwin & Hframe).
    rewrite Hrun in Hwin, Hframe. cbn [snd] in Hwin, Hframe.
    assert (Hlw' : heap m' !! lw = heap m !! lw).
    { apply Hframe. pose proof H as H'. resolve_in H'. rewrite Hl.
      congruence. }
    split; [exact Hwin |]. split; [rewrite Hlw'; exact Hw |].
    split; [unfold hash_of; rewrite Hlw'; reflexivity |].
    intros ->. destruct ctab as [ct |]; [| discriminate Hrun].
    destruct (markTabAsOpen_true_hyps _ _ _ _ _ _ _ H Hrun)
      as (Hnode & Hopen & Htab & Hct).
    destruct (markTabAsOpen_opens _ _ _ _ _ ct H Hnode Hopen Htab Hct)
      as (m1 & Hrun1 & Hv' & _).
    assert (m1 = m') by congruence. subst m1.
    exists ct, (opened_tab ct v).
    split; [reflexivity |]. split; [exact Hv' |]. vm_compute. reflexivity.
Qed.

(** The hypotheses of C10 in the running example: the tab of the window is
    opened, and the open tab is erased. *)
Lemma tab_ops_leave_parent_hash_witness :
  (exists v nd w m',
      tab_of_window (Vy (VStr Scenario.tab1)) Scenario.tab_open
                    1%nat v Scenario.tab1 nd 0%nat w
      /\ eraseTab (Vy (VStr Scenario.tab1)) Scenario.tab_open = (true, m')
      /\ heap m' !! 0%nat = Some w)
  /\ (exists v nd w,
      tab_of_window (Vy (VStr Scenario.tab1)) Scenario.rezzed
                    1%nat v Scenario.tab1 nd 0%nat w
      /\ markTabAsOpen (Vy (VStr Scenario.tab1)) (Some Scenario.live_tab)
                       Scenario.rezzed = (true, Scenario.tab_open)
      /\ heap Scenario.tab_open !! 0%nat = Some w
      /\ hash_of Scenario.tab_open 0%nat = hash_of Scenario.rezzed 0%nat
      /\ exists v', heap Scenario.tab_open !! 1%nat = Some v'
                    /\ raw_url v' = VStr (lit "http://a")).
Proof.
  destruct tab_ops_leave_parent_hash as (Herase & Hopen).
  split.
  - assert (Hs : exists v nd w,
        tab_of_window (Vy (VStr Scenario.tab1)) Scenario.tab_open
                      1%nat v Scenario.tab1 nd 0%nat w).
    { do 3 eexists. unfold tab_of_window.
      split; [vm_compute; reflexivity |]. split; [reflexivity |].
      split; [vm_compute; reflexivity |].
      split; [eexists; split; [reflexivity | vm_compute; reflexivity] |].
      split; [vm_compute; reflexivity | reflexivity]. }
    destruct Hs as (v & nd & w & Hs).
    destruct (Herase _ _ _ _ _ _ _ _ Hs) as (m' & Hrun & _ & Hw & _).
    exists v, nd, w, m'. split; [exact Hs |]. split; [exact Hrun | exact Hw].
  - assert (Hs : exists v nd w,
        tab_of_window (Vy (VStr Scenario.tab1)) Scenario.rezzed
                      1%nat v Scenario.tab1 nd 0%nat w).
    { do 3 eexists. unfold tab_of_window.
      split; [vm_compute; reflexivity |]. split; [reflexivity |].
      split; [vm_compute; reflexivity |].
      split; [eexists; split; [reflexivity | vm_compute; reflexivity] |].
      split; [vm_compute; reflexivity | reflexivity]. }
    destruct Hs as (v & nd & w & Hs).
    assert (Hrun : markTabAsOpen (Vy (VStr Scenario.tab1))
                     (Some Scenario.live_tab) Scenario.rezzed
                   = (true, Scenario.tab_open)) by (vm_compute; reflexivity).
    destruct (Hopen _ _ _ _ _ _ _ _ _ _ _ Hs Hrun)
      as (_ & Hw & Hhash & Hurl).
    destruct (Hurl eq_refl) as (ct & v' & Hct & Hv' & Hu).
    injection Hct as <-.
    exists v, nd, w. split; [exact Hs |]. split; [exact Hrun |].
    split; [exact Hw |]. split; [exact Hhash |].
    exists v'. split; [exact Hv' | exact Hu].
Defined.

(** ** Updating the ordered URL hash *)

Section HashUpdateFacts.

Lemma hash_sound_b_spec m : hash_sound_b m = true <-> hash_sound m.
Proof.
  unfold hash_sound_b, hash_sound, D_by_ordered_url_hash.
  rewrite forallb_forall. split.
  - intros H h o Ho.
    apply elem_of_map_to_list, list_elem_of_In in Ho.
    specialize (H _ Ho). simpl in H.
    destruct (heap m !! o) as [vo |]; [| discriminate].
    apply bool_decide_eq_true in H. eauto.
  - intros H [[f x] o] Hin.
    apply list_elem_of_In, elem_of_map_to_list in Hin.
    destruct f; try reflexivity. destruct x as [| | | | h]; try reflexivity.
    destruct (H h o Hin) as (vo & -> & Hh).
    apply bool_decide_eq_true. exact Hh.
Qed.

Lemma hash_complete_b_spec m : hash_complete_b m = true <-> hash_complete m.
Proof.
  unfold hash_complete_b, hash_complete, D_by_node_id.
  rewrite forallb_forall. split.
  - intros H id o vo h Ho Hvo Hh. simpl in Ho.
    apply elem_of_map_to_list, list_elem_of_In in Ho.
    specialize (H _ Ho). simpl in H. rewrite Hvo, Hh in H.
    apply bool_decide_eq_true in H. exact H.
  - intros H [id o] Hin. simpl.
    apply list_elem_of_In, elem_of_map_to_list in Hin.
    destruct (heap m !! o) as [vo |] eqn:Hvo; [| reflexivity].
    destruct (ordered_url_hash vo) as [| | | | h] eqn:Hh; try reflexivity.
    apply bool_decide_eq_true. eapply H; eauto.
Qed.

(** With a complete index, a hash has at most one holder. *)
Lemma hash_complete_unique m o1 o2 h :
  hash_complete m -> holds_hash m o1 h -> holds_hash m o2 h -> o1 = o2.
Proof.
  intros Hc (id1 & v1 & Hs1 & Hv1 & Hh1) (id2 & v2 & Hs2 & Hv2 & Hh2).
  pose proof (Hc _ _ _ _ Hs1 Hv1 Hh1) as E1.
  pose proof (Hc _ _ _ _ Hs2 Hv2 Hh2) as E2.
  congruence.
Qed.

(** The loop stops exactly when a child has no truthy URL. *)
Lemma child_urls_None children m :
  child_urls children m = None
  <-> exists c, c ∈ children
                /\ truthy (D_by_node_id_field IT_TAB c raw_url m) = false.
Proof.
  induction children as [| c cs IH]; simpl.
  - split; [discriminate | intros (c & Hin & _); inversion Hin].
  - destruct (truthy (D_by_node_id_field IT_TAB c raw_url m)) eqn:Hc; simpl.
    + destruct (child_urls cs m) as [urls |] eqn:Hcs.
      * split; [discriminate |].
        intros (c' & Hin & Hf). apply elem_of_cons in Hin as [-> | Hin];
          [congruence |].
        assert (Hex : exists c0, c0 ∈ cs
                  /\ truthy (D_by_node_id_field IT_TAB c0 raw_url m) = false)
          by eauto.
        apply IH in Hex. discriminate.
      * split; [| reflexivity]. intros _.
        destruct (proj1 IH eq_refl) as (c' & Hin & Hf).
        exists c'. split; [right; exact Hin | exact Hf].
    + split; [| reflexivity]. intros _. exists c. split; [left | exact Hc].
Qed.

(** What the routine does once the window and its node are found. *)
Lemma updateOrderedURLHash_run m x l v id nd :
  resolved x IT_WIN m = Some (l, v, id) ->
  get_node id (treeobj m) = Some nd ->
  updateOrderedURLHash x m
  = match child_urls (n_children nd) m with
    | None => (false, D_change_key IT_WIN l F_ordered_url_hash VNull m)
    | Some urls =>
        let h := orderedHashOfStrings (Array urls) in
        match D_by_ordered_url_hash h m with
        | Some o =>
            if bool_decide (l = o) then (true, m)
            else (false, D_change_key IT_WIN l F_ordered_url_hash VNull m)
        | None =>
            (true, D_change_key IT_WIN l F_ordered_url_hash (VStr h) m)
        end
    end.
Proof.
  intros H Hnd. resolve_in H.
  unfold updateOrderedURLHash. rewrite Hl, Hid, Hnd, Hs. reflexivity.
Qed.

Lemma hash_of_change_key m l v x :
  heap m !! l = Some v ->
  hash_of (D_change_key IT_WIN l F_ordered_url_hash x m) l = Some x.
Proof.
  intros Hv. unfold hash_of.
  rewrite (heap_D_change_key _ _ _ _ _ _ Hv).
  rewrite (heap_lookup_insert_same _ _ _ _ Hv). reflexivity.
Qed.

(** A record that a caller kept after its window was erased is no window
    item any more: its node is gone, the routine returns false at once, and
    the record keeps the hash it had. *)
Example updateOrderedURLHash_on_erased_record :
  let m := snd (eraseWin (Vy (VStr SameTabs.w0)) SameTabs.three) in
  get_node SameTabs.w0 (treeobj m) = None
  /\ updateOrderedURLHash (VyVal 0%nat) m = (false, m)
  /\ hash_of m 0%nat = Some (VStr SameTabs.xy_hash).
Proof. split; [| split]; vm_compute; reflexivity. Qed.

End HashUpdateFacts.

(** C4. When [updateOrderedURLHash] is called on a window item and a child
    node has no truthy [raw_url] in [D.tabs], the call returns false and the
    window's [ordered_url_hash] is null afterwards; and whenever the call on
    a window item returns false, the window's [ordered_url_hash] is falsy
    afterwards. *)
Theorem updateOrderedURLHash_false_clears :
  (forall m x l v id nd,
      resolved x IT_WIN m = Some (l, v, id) ->
      get_node id (treeobj m) = Some nd ->
      (exists c, c ∈ n_children nd
                 /\ truthy (D_by_node_id_field IT_TAB c raw_url m) = false) ->
      fst (updateOrderedURLHash x m) = false
      /\ hash_of (snd (updateOrderedURLHash x m)) l = Some VNull)
  /\ (forall m x l v id nd,
      resolved x IT_WIN m = Some (l, v, id) ->
      get_node id (treeobj m) = Some nd ->
      fst (updateOrderedURLHash x m) = false ->
      exists hash, hash_of (snd (updateOrderedURLHash x m)) l = Some hash
                   /\ truthy hash = false).
Proof.
  split.
  - intros m x l v id nd H Hnd Hbad.
    rewrite (updateOrderedURLHash_run _ _ _ _ _ _ H Hnd).
    apply child_urls_None in Hbad. rewrite Hbad. simpl.
    split; [reflexivity |].
    resolve_in H. eapply hash_of_change_key; eauto.
  - intros m x l v id nd H Hnd.
    rewrite (updateOrderedURLHash_run _ _ _ _ _ _ H Hnd).
    assert (Hv : heap m !! l = Some v) by (resolve_in H; assumption).
    destruct (child_urls (n_children nd) m) as [urls |]; simpl.
    + destruct (D_by_ordered_url_hash _ m) as [o |]; simpl.
      * destruct (bool_decide (l = o)); simpl; [discriminate |].
        intros _. exists VNull. split; [| reflexivity].
        eapply hash_of_change_key; eauto.
      * discriminate.
    + intros _. exists VNull. split; [| reflexivity].
      eapply hash_of_change_key; eauto.
Qed.

(** The hypotheses of C4 in the running example: the tab just rezzed has no
    URL yet, so the update of its window fails. *)
Lemma updateOrderedURLHash_false_clears_witness :
  exists v nd,
    resolved (Vy (VStr Scenario.win1)) IT_WIN Scenario.rezzed
    = Some (0%nat, v, Scenario.win1)
    /\ get_node Scenario.win1 (treeobj Scenario.rezzed) = Some nd
    /\ (exists c, c ∈ n_children nd
                  /\ truthy (D_by_node_id_field IT_TAB c raw_url
                               Scenario.rezzed) = false)
    /\ fst (updateOrderedURLHash (Vy (VStr Scenario.win1)) Scenario.rezzed)
       = false
    /\ hash_of (snd (updateOrderedURLHash (Vy (VStr Scenario.win1))
                       Scenario.rezzed)) 0%nat = Some VNull
    /\ exists hash,
        hash_of (snd (updateOrderedURLHash (Vy (VStr Scenario.win1))
                        Scenario.rezzed)) 0%nat = Some hash
        /\ truthy hash = false.
Proof.
  destruct updateOrderedURLHash_false_clears as (Hchild & Hfalse).
  assert (Hr : exists v,
      resolved (Vy (VStr Scenario.win1)) IT_WIN Scenario.rezzed
      = Some (0%nat, v, Scenario.win1))
    by (eexists; vm_compute; reflexivity).
  destruct Hr as (v & Hr).
  assert (Hn : exists nd,
      get_node Scenario.win1 (treeobj Scenario.rezzed) = Some nd
      /\ Scenario.tab1 ∈ n_children nd).
  { eexists. split; [vm_compute; reflexivity |]. left. }
  destruct Hn as (nd & Hn & Hin).
  assert (Hbad : exists c, c ∈ n_children nd
                 /\ truthy (D_by_node_id_field IT_TAB c raw_url
                              Scenario.rezzed) = false).
  { exists Scenario.tab1. split; [exact Hin | vm_compute; reflexivity]. }
  destruct (Hchild _ _ _ _ _ _ Hr Hn Hbad) as (Hf & Hh).
  exists v, nd.
  split; [exact Hr |]. split; [exact Hn |]. split; [exact Hbad |].
  split; [exact Hf |]. split; [exact Hh |].
  exact (Hfalse _ _ _ _ _ _ Hr Hn Hf).
Defined.

Section HashIndexFacts.

(** The hash index after [change_key] on the hash of the record at [l]. *)
Lemma change_hash_lookup m l v x h' :
  heap m !! l = Some v ->
  D_by_ordered_url_hash h' (D_change_key IT_WIN l F_ordered_url_hash x m)
  = if bool_decide (x = VStr h') then Some l
    else if bool_decide (ordered_url_hash v = VStr h') then None
    else D_by_ordered_url_hash h' m.
Proof.
  intros Hv. rewrite (D_change_key_eq _ _ _ _ _ _ Hv).
  unfold D_by_ordered_url_hash, index_field, unindex_field. simpl.
  destruct (bool_decide (x = VStr h')) eqn:Hx.
  - apply bool_decide_eq_true in Hx. subst x. simpl.
    apply lookup_insert_eq.
  - apply bool_decide_eq_false in Hx.
    assert (Hdel :
      delete (F_ordered_url_hash, ordered_url_hash v) (by_field (windows m))
        !! (F_ordered_url_hash, VStr h')
      = if bool_decide (ordered_url_hash v = VStr h') then None
        else by_field (windows m) !! (F_ordered_url_hash, VStr h')).
    { destruct (bool_decide (ordered_url_hash v = VStr h')) eqn:Ho.
      - apply bool_decide_eq_true in Ho. rewrite Ho. apply lookup_delete_eq.
      - apply bool_decide_eq_false in Ho.
        apply lookup_delete_ne. congruence. }
    destruct (indexable x); [| exact Hdel].
    rewrite lookup_insert_ne by congruence. exact Hdel.
Qed.

Lemma by_node_change_hash m l x id :
  D_by_node_id IT_WIN id (D_change_key IT_WIN l F_ordered_url_hash x m)
  = D_by_node_id IT_WIN id m.
Proof.
  unfold D_by_node_id. rewrite (by_node_D_change_key IT_WIN IT_WIN).
  reflexivity.
Qed.

Lemma heap_change_hash m l v x o :
  heap m !! l = Some v ->
  heap (D_change_key IT_WIN l F_ordered_url_hash x m) !! o
  = if bool_decide (l = o) then Some (set_ordered_url_hash x v)
    else heap m !! o.
Proof.
  intros Hv. destruct (bool_decide (l = o)) eqn:E.
  - apply bool_decide_eq_true in E. subst o.
    rewrite (heap_D_change_key _ _ _ _ _ _ Hv).
    apply (heap_lookup_insert_same _ _ _ _ Hv).
  - apply bool_decide_eq_false in E. apply heap_D_change_key_ne. exact E.
Qed.

(** Clearing the hash of a window of the store, or giving it a hash that
    nobody owns, keeps the index consistent. *)
Lemma hash_index_change_key m l v id x :
  hash_sound m -> hash_complete m ->
  heap m !! l = Some v ->
  D_by_node_id IT_WIN id m = Some l ->
  x = VNull \/ (exists h, x = VStr h /\ D_by_ordered_url_hash h m = None) ->
  hash_sound (D_change_key IT_WIN l F_ordered_url_hash x m)
  /\ hash_complete (D_change_key IT_WIN l F_ordered_url_hash x m).
Proof.
  intros Hsound Hcomplete Hv Hstored Hx. split.
  - intros h' o. rewrite (change_hash_lookup _ _ _ _ _ Hv).
    rewrite (heap_change_hash _ _ _ _ _ Hv).
    destruct (bool_decide (x = VStr h')) eqn:E1.
    + apply bool_decide_eq_true in E1. intros [= <-].
      rewrite bool_decide_eq_true_2 by reflexivity.
      eexists. split; [reflexivity |]. exact E1.
    + destruct (bool_decide (ordered_url_hash v = VStr h')) eqn:E2;
        [discriminate |].
      apply bool_decide_eq_false in E2. intros Ho.
      destruct (Hsound _ _ Ho) as (vo & Hvo & Hh).
      destruct (bool_decide (l = o)) eqn:E3.
      * apply bool_decide_eq_true in E3. subst o. congruence.
      * eauto.
  - intros id' o vo h'. rewrite by_node_change_hash.
    rewrite (heap_change_hash _ _ _ _ _ Hv).
    rewrite (change_hash_lookup _ _ _ _ _ Hv).
    intros Ho Hvo Hh.
    destruct (bool_decide (l = o)) eqn:E3.
    + apply bool_decide_eq_true in E3. subst o.
      injection Hvo as <-. simpl in Hh.
      rewrite bool_decide_eq_true_2 by exact Hh. reflexivity.
    + apply bool_decide_eq_false in E3.
      pose proof (Hcomplete _ _ _ _ Ho Hvo Hh) as Hidx.
      destruct (bool_decide (x = VStr h')) eqn:E1.
      * apply bool_decide_eq_true in E1.
        destruct Hx as [-> | (h & -> & Hnone)]; [discriminate |].
        injection E1 as ->. congruence.
      * destruct (bool_decide (ordered_url_hash v = VStr h')) eqn:E2;
          [| exact Hidx].
        apply bool_decide_eq_true in E2.
        pose proof (Hcomplete _ _ _ _ Hstored Hv E2). congruence.
Qed.

(** Re-keying a window's hash does not change what the loop over the
    children finds. *)
Lemma child_urls_change_hash m l x children :
  child_urls children (D_change_key IT_WIN l F_ordered_url_hash x m)
  = child_urls children m.
Proof.
  assert (Hf : forall c,
    D_by_node_id_field IT_TAB c raw_url
      (D_change_key IT_WIN l F_ordered_url_hash x m)
    = D_by_node_id_field IT_TAB c raw_url m).
  { intros c. unfold D_by_node_id_field, D_by_node_id.
    rewrite (by_node_D_change_key IT_WIN IT_TAB).
    destruct (by_node (store IT_TAB m) !! c) as [lt |]; [| reflexivity].
    destruct (heap m !! l) as [v |] eqn:Hv.
    - rewrite (heap_change_hash _ _ _ _ _ Hv).
      destruct (bool_decide (l = lt)) eqn:E; [| reflexivity].
      apply bool_decide_eq_true in E. subst lt. rewrite Hv. reflexivity.
    - unfold D_change_key, md_change_key. rewrite Hv. reflexivity. }
  induction children as [| c cs IH]; simpl; [reflexivity |].
  rewrite Hf, IH. reflexivity.
Qed.

End HashIndexFacts.

Section FirstWriterWins.

Lemma window_item_inv x m l v id nd :
  window_item x m l v id nd ->
  resolved x IT_WIN m = Some (l, v, id)
  /\ heap m !! l = Some v
  /\ D_by_node_id IT_WIN id m = Some l
  /\ get_node id (treeobj m) = Some nd.
Proof.
  intros (H & Hstored & Hnd). split; [exact H |].
  resolve_in H. auto.
Qed.

(** Re-keying the hash of another record leaves a window item in place. *)
Lemma window_item_change_hash x m l v id nd l' x' :
  window_item x m l v id nd -> l' <> l ->
  window_item x (D_change_key IT_WIN l' F_ordered_url_hash x' m) l v id nd.
Proof.
  intros Hitem Hne.
  destruct (window_item_inv _ _ _ _ _ _ Hitem) as (H & Hv & Hstored & Hnd).
  split; [| split].
  - eapply resolved_same_items; [| exact H |].
    + apply same_items_change_key, same_items_refl.
    + rewrite heap_D_change_key_ne by exact Hne. exact Hv.
  - rewrite by_node_change_hash. exact Hstored.
  - rewrite treeobj_D_change_key. exact Hnd.
Qed.

Lemma update_three_cases m x l v id nd urls :
  window_item x m l v id nd ->
  child_urls (n_children nd) m = Some urls ->
  (D_by_ordered_url_hash (orderedHashOfStrings (Array urls)) m = Some l ->
   updateOrderedURLHash x m = (true, m))
  /\ (forall o,
        D_by_ordered_url_hash (orderedHashOfStrings (Array urls)) m = Some o ->
        o <> l ->
        updateOrderedURLHash x m
        = (false, D_change_key IT_WIN l F_ordered_url_hash VNull m))
  /\ (D_by_ordered_url_hash (orderedHashOfStrings (Array urls)) m = None ->
      updateOrderedURLHash x m
      = (true, D_change_key IT_WIN l F_ordered_url_hash
                 (VStr (orderedHashOfStrings (Array urls))) m)).
Proof.
  intros Hitem Hurls.
  destruct (window_item_inv _ _ _ _ _ _ Hitem) as (H & Hv & Hstored & Hnd).
  rewrite (updateOrderedURLHash_run _ _ _ _ _ _ H Hnd), Hurls. simpl.
  split; [| split].
  - intros ->. rewrite bool_decide_eq_true_2 by reflexivity. reflexivity.
  - intros o -> Hne. rewrite bool_decide_eq_false_2 by congruence.
    reflexivity.
  - intros ->. reflexivity.
Qed.

Lemma update_keeps_index m x l v id nd :
  window_item x m l v id nd ->
  hash_sound m -> hash_complete m ->
  hash_sound (snd (updateOrderedURLHash x m))
  /\ hash_complete (snd (updateOrderedURLHash x m)).
Proof.
  intros Hitem Hsound Hcomplete.
  destruct (window_item_inv _ _ _ _ _ _ Hitem) as (H & Hv & Hstored & Hnd).
  rewrite (updateOrderedURLHash_run _ _ _ _ _ _ H Hnd).
  destruct (child_urls (n_children nd) m) as [urls |]; simpl.
  - destruct (D_by_ordered_url_hash _ m) as [o |] eqn:Ho; simpl.
    + destruct (bool_decide (l = o)); simpl; [auto |].
      eapply hash_index_change_key; eauto.
    + eapply hash_index_change_key; eauto.
  - eapply hash_index_change_key; eauto.
Qed.

Lemma update_two_windows m x1 l1 v1 id1 nd1 x2 l2 v2 id2 nd2 urls :
  window_item x1 m l1 v1 id1 nd1 ->
  window_item x2 m l2 v2 id2 nd2 ->
  l1 <> l2 ->
  child_urls (n_children nd1) m = Some urls ->
  child_urls (n_children nd2) m = Some urls ->
  hash_sound m ->
  (forall o,
      D_by_ordered_url_hash (orderedHashOfStrings (Array urls)) m = Some o ->
      o = l1 \/ o = l2) ->
  exactly_one_holds
    (snd (updateOrderedURLHash x2 (snd (updateOrderedURLHash x1 m))))
    l1 l2 (orderedHashOfStrings (Array urls)).
Proof.
  intros Hitem1 Hitem2 Hne Hurls1 Hurls2 Hsound Hown.
  set (h := orderedHashOfStrings (Array urls)) in *.
  destruct (window_item_inv _ _ _ _ _ _ Hitem1) as (_ & Hv1 & _ & _).
  destruct (window_item_inv _ _ _ _ _ _ Hitem2) as (_ & Hv2 & _ & _).
  destruct (update_three_cases _ _ _ _ _ _ _ Hitem1 Hurls1)
    as (Hmine1 & Hother1 & Hfree1).
  fold h in Hmine1, Hother1, Hfree1.
  assert (Hstep2 : forall x',
    let m1 := D_change_key IT_WIN l1 F_ordered_url_hash x' m in
    window_item x2 m1 l2 v2 id2 nd2
    /\ child_urls (n_children nd2) m1 = Some urls
    /\ heap m1 !! l2 = Some v2
    /\ hash_of m1 l1 = Some x').
  { intros x' m1. split; [| split; [| split]].
    - apply window_item_change_hash; auto.
    - unfold m1. rewrite child_urls_change_hash. exact Hurls2.
    - unfold m1. rewrite heap_D_change_key_ne by exact Hne. exact Hv2.
    - eapply hash_of_change_key; eauto. }
  assert (Hkeep : forall m1 x',
    hash_of (D_change_key IT_WIN l2 F_ordered_url_hash x' m1) l1
    = hash_of m1 l1).
  { intros m1 x'. unfold hash_of.
    rewrite heap_D_change_key_ne by congruence. reflexivity. }
  destruct (D_by_ordered_url_hash h m) as [o |] eqn:Ho.
  - destruct (Hown o eq_refl) as [-> | ->].
    + (* the first window already owns the hash *)
      rewrite (Hmine1 eq_refl). simpl.
      destruct (update_three_cases _ _ _ _ _ _ _ Hitem2 Hurls2)
        as (_ & Hother2 & _). fold h in Hother2.
      rewrite (Hother2 l1 Ho Hne). simpl. left. split.
      * rewrite Hkeep. destruct (Hsound _ _ Ho) as (vo & Hvo & Hh).
        unfold hash_of. rewrite Hvo. simpl. rewrite Hh. reflexivity.
      * eapply hash_of_change_key; eauto.
    + (* the second window already owns the hash *)
      rewrite (Hother1 l2 eq_refl (not_eq_sym Hne)). simpl.
      destruct (Hstep2 VNull) as (Hitem2' & Hurls2' & Hv2' & Hh1).
      destruct (update_three_cases _ _ _ _ _ _ _ Hitem2' Hurls2')
        as (Hmine2 & _ & Hfree2). fold h in Hmine2, Hfree2.
      rewrite (change_hash_lookup _ _ _ _ _ Hv1) in Hmine2, Hfree2.
      rewrite bool_decide_eq_false_2 in Hmine2, Hfree2 by discriminate.
      destruct (bool_decide (ordered_url_hash v1 = VStr h)).
      * rewrite (Hfree2 eq_refl). simpl. right. split.
        -- rewrite Hkeep. exact Hh1.
        -- eapply hash_of_change_key; eauto.
      * rewrite (Hmine2 Ho). simpl. right. split; [exact Hh1 |].
        destruct (Hsound _ _ Ho) as (vo & Hvo & Hh).
        unfold hash_of. rewrite Hv2'. rewrite Hv2 in Hvo.
        injection Hvo as ->. simpl. rewrite Hh. reflexivity.
  - (* nobody owns the hash *)
    rewrite (Hfree1 eq_refl). simpl.
    destruct (Hstep2 (VStr h)) as (Hitem2' & Hurls2' & Hv2' & Hh1).
    destruct (update_three_cases _ _ _ _ _ _ _ Hitem2' Hurls2')
      as (_ & Hother2 & _). fold h in Hother2.
    rewrite (change_hash_lookup _ _ _ _ _ Hv1) in Hother2.
    rewrite bool_decide_eq_true_2 in Hother2 by reflexivity.
    rewrite (Hother2 l1 eq_refl Hne). simpl. left. split.
    + rewrite Hkeep. exact Hh1.
    + eapply hash_of_change_key; eauto.
Qed.

End FirstWriterWins.

(** C1 (as amended). On a window item whose children all have URLs,
    [updateOrderedURLHash] computes their hash and: returns true, changing
    nothing, when this window owns the hash in the store; sets this window's
    hash to null and returns false when another window owns it; stores the
    hash on this window and returns true when no window owns it. With a
    consistent hash index the index stays consistent and no two windows of
    the store hold the same hash. After calling it on two windows with the
    same child URLs, exactly one of them holds the shared hash and the other
    holds null, provided no third window owns that hash. *)
Theorem updateOrderedURLHash_first_writer_wins :
  (forall m x l v id nd urls,
      window_item x m l v id nd ->
      child_urls (n_children nd) m = Some urls ->
      let h := orderedHashOfStrings (Array urls) in
      let r := updateOrderedURLHash x m in
      (D_by_ordered_url_hash h m = Some l -> r = (true, m))
      /\ (forall o, D_by_ordered_url_hash h m = Some o -> o <> l ->
            fst r = false /\ hash_of (snd r) l = Some VNull)
      /\ (D_by_ordered_url_hash h m = None ->
            fst r = true /\ hash_of (snd r) l = Some (VStr h)
            /\ D_by_ordered_url_hash h (snd r) = Some l))
  /\ (forall m x l v id nd,
      window_item x m l v id nd ->
      hash_sound m -> hash_complete m ->
      let m' := snd (updateOrderedURLHash x m) in
      hash_sound m' /\ hash_complete m'
      /\ forall o1 o2 h, holds_hash m' o1 h -> holds_hash m' o2 h -> o1 = o2)
  /\ (forall m x1 l1 v1 id1 nd1 x2 l2 v2 id2 nd2 urls,
      window_item x1 m l1 v1 id1 nd1 ->
      window_item x2 m l2 v2 id2 nd2 ->
      l1 <> l2 ->
      child_urls (n_children nd1) m = Some urls ->
      child_urls (n_children nd2) m = Some urls ->
      hash_sound m ->
      (forall o,
          D_by_ordered_url_hash (orderedHashOfStrings (Array urls)) m = Some o ->
          o = l1 \/ o = l2) ->
      exactly_one_holds
        (snd (updateOrderedURLHash x2 (snd (updateOrderedURLHash x1 m))))
        l1 l2 (orderedHashOfStrings (Array urls))).
Proof.
  split; [| split].
  - intros m x l v id nd urls Hitem Hurls h r.
    destruct (update_three_cases _ _ _ _ _ _ _ Hitem Hurls)
      as (Hmine & Hother & Hfree).
    destruct (window_item_inv _ _ _ _ _ _ Hitem) as (_ & Hv & _ & _).
    split; [exact Hmine |]. split.
    + intros o Ho Hne. unfold r. rewrite (Hother o Ho Hne). simpl.
      split; [reflexivity |]. eapply hash_of_change_key; eauto.
    + intros Hnone. unfold r. rewrite (Hfree Hnone). simpl.
      split; [reflexivity |].
      split; [eapply hash_of_change_key; eauto |].
      rewrite (change_hash_lookup _ _ _ _ _ Hv).
      rewrite bool_decide_eq_true_2 by reflexivity. reflexivity.
  - intros m x l v id nd Hitem Hsound Hcomplete m'.
    destruct (update_keeps_index _ _ _ _ _ _ Hitem Hsound Hcomplete)
      as (Hs' & Hc').
    split; [exact Hs' |]. split; [exact Hc' |].
    intros o1 o2 h. apply hash_complete_unique. exact Hc'.
  - apply update_two_windows.
Qed.

(** C1 as stated fails when a third window owns the hash: of three windows
    with the same tabs, the first of which holds the hash, the other two
    both end up with null. *)
Lemma shared_hash_third_owner :
  (exists v1 nd1 v2 nd2,
      window_item (Vy (VStr SameTabs.w1)) SameTabs.three
                  3%nat v1 SameTabs.w1 nd1
      /\ window_item (Vy (VStr SameTabs.w2)) SameTabs.three
                     6%nat v2 SameTabs.w2 nd2
      /\ child_urls (n_children nd1) SameTabs.three = Some SameTabs.xy_urls
      /\ child_urls (n_children nd2) SameTabs.three = Some SameTabs.xy_urls)
  /\ hash_sound SameTabs.three /\ hash_complete SameTabs.three
  /\ ~ exactly_one_holds SameTabs.three_updated 3%nat 6%nat SameTabs.xy_hash.
Proof.
  split; [| split; [| split]].
  - do 4 eexists. unfold window_item.
    split; [split; [vm_compute; reflexivity |];
            split; vm_compute; reflexivity |].
    split; [split; [vm_compute; reflexivity |];
            split; vm_compute; reflexivity |].
    split; vm_compute; reflexivity.
  - apply hash_sound_b_spec. vm_compute. reflexivity.
  - apply hash_complete_b_spec. vm_compute. reflexivity.
  - assert (H1 : hash_of SameTabs.three_updated 3%nat = Some VNull)
      by (vm_compute; reflexivity).
    assert (H2 : hash_of SameTabs.three_updated 6%nat = Some VNull)
      by (vm_compute; reflexivity).
    intros [[E _] | [_ E]]; congruence.
Qed.

(** The hypotheses of C1 at two windows with the same tabs and no hash yet:
    the first call stores the hash, the second forfeits. *)
Lemma updateOrderedURLHash_first_writer_wins_witness :
  exists v1 nd1 v2 nd2,
    window_item (Vy (VStr SameTabs.w0)) SameTabs.two 0%nat v1 SameTabs.w0 nd1
    /\ window_item (Vy (VStr SameTabs.w1)) SameTabs.two
                   3%nat v2 SameTabs.w1 nd2
    /\ child_urls (n_children nd1) SameTabs.two = Some SameTabs.xy_urls
    /\ child_urls (n_children nd2) SameTabs.two = Some SameTabs.xy_urls
    /\ hash_sound SameTabs.two /\ hash_complete SameTabs.two
    /\ D_by_ordered_url_hash SameTabs.xy_hash SameTabs.two = None
    /\ hash_of (snd (updateOrderedURLHash (Vy (VStr SameTabs.w0))
                       SameTabs.two)) 0%nat
       = Some (VStr SameTabs.xy_hash)
    /\ hash_complete (snd (updateOrderedURLHash (Vy (VStr SameTabs.w0))
                             SameTabs.two))
    /\ exactly_one_holds SameTabs.two_updated 0%nat 3%nat SameTabs.xy_hash.
Proof.
  destruct updateOrderedURLHash_first_writer_wins as (Hcases & Hinv & Htwo).
  assert (Hi1 : exists v1 nd1,
    window_item (Vy (VStr SameTabs.w0)) SameTabs.two 0%nat v1 SameTabs.w0 nd1
    /\ child_urls (n_children nd1) SameTabs.two = Some SameTabs.xy_urls).
  { do 2 eexists. unfold window_item.
    split; [split; [vm_compute; reflexivity |];
            split; vm_compute; reflexivity |].
    vm_compute; reflexivity. }
  assert (Hi2 : exists v2 nd2,
    window_item (Vy (VStr SameTabs.w1)) SameTabs.two 3%nat v2 SameTabs.w1 nd2
    /\ child_urls (n_children nd2) SameTabs.two = Some SameTabs.xy_urls).
  { do 2 eexists. unfold window_item.
    split; [split; [vm_compute; reflexivity |];
            split; vm_compute; reflexivity |].
    vm_compute; reflexivity. }
  destruct Hi1 as (v1 & nd1 & Hi1 & Hu1).
  destruct Hi2 as (v2 & nd2 & Hi2 & Hu2).
  assert (Hs : hash_sound SameTabs.two)
    by (apply hash_sound_b_spec; vm_compute; reflexivity).
  assert (Hc : hash_complete SameTabs.two)
    by (apply hash_complete_b_spec; vm_compute; reflexivity).
  assert (Hnone : D_by_ordered_url_hash SameTabs.xy_hash SameTabs.two = None)
    by (vm_compute; reflexivity).
  exists v1, nd1, v2, nd2.
  split; [exact Hi1 |]. split; [exact Hi2 |].
  split; [exact Hu1 |]. split; [exact Hu2 |].
  split; [exact Hs |]. split; [exact Hc |]. split; [exact Hnone |].
  split; [| split].
  - destruct (Hcases _ _ _ _ _ _ _ Hi1 Hu1) as (_ & _ & Hfree).
    exact (proj1 (proj2 (Hfree Hnone))).
  - exact (proj1 (proj2 (Hinv _ _ _ _ _ _ Hi1 Hs Hc))).
  - unfold SameTabs.two_updated, SameTabs.xy_hash.
    eapply Htwo; eauto.
    intros o Ho. unfold SameTabs.xy_hash in Hnone.
    rewrite Hnone in Ho. discriminate.
Defined.

(** ** Creating items *)

Section RezFacts.

Lemma gen_id_truthy n : str_truthy (gen_id n) = true.
Proof. reflexivity. Qed.

Lemma create_node_Some parent text pos t id t' :
  create_node parent text pos t = (Some id, t') ->
  id = gen_id (cnt t + 1)
  /\ nodes t !! id = None
  /\ is_Some (nodes t !! parent)
  /\ nodes t' !! id = Some (mkNode (Some parent) [] text IconTrue ∅ false)
  /\ cnt t' = cnt t + 1.
Proof.
  unfold create_node.
  destruct (nodes t !! parent) as [p |] eqn:Hp; [| discriminate].
  destruct (nodes t !! gen_id (cnt t + 1)) eqn:Hid; [discriminate |].
  intros [= <- <-]. simpl.
  split; [reflexivity |]. split; [exact Hid |]. split; [eauto |].
  split; [apply lookup_insert_eq | reflexivity].
Qed.

Lemma create_node_None parent text pos t t' :
  create_node parent text pos t = (None, t') -> t' = t.
Proof.
  unfold create_node.
  destruct (nodes t !! parent); [| intros [= <-]; reflexivity].
  destruct (nodes t !! gen_id (cnt t + 1)); [| discriminate].
  intros [= <-]. reflexivity.
Qed.





End RezFacts.

Section RezCases.






End RezCases.



(** ** Erasing *)

Section StoreFacts.

Lemma store_sound_b_spec h md : store_sound_b h md = true -> store_sound h md.
Proof.
  unfold store_sound_b, store_sound.
  rewrite andb_true_iff, !forallb_forall. intros [Hn Hf]. split.
  - intros id l Hl.
    apply elem_of_map_to_list, list_elem_of_In in Hl.
    specialize (Hn _ Hl). simpl in Hn.
    destruct (h !! l) as [v |]; [| discriminate].
    apply bool_decide_eq_true in Hn. eauto.
  - intros f x l Hl.
    apply elem_of_map_to_list, list_elem_of_In in Hl.
    specialize (Hf _ Hl). simpl in Hf.
    apply andb_true_iff in Hf as [Hin Hk].
    apply bool_decide_eq_true in Hin. split; [exact Hin |].
    destruct (h !! l) as [v |]; [| discriminate].
    apply bool_decide_eq_true in Hk. eauto.
Qed.

Lemma children_ok_b_spec m id children :
  children_ok_b m id children = true -> children_ok m id children.
Proof.
  unfold children_ok_b, children_ok.
  rewrite !andb_true_iff, forallb_forall.
  intros [[Hnd Hid] Hleaf].
  apply bool_decide_eq_true in Hnd, Hid.
  split; [exact Hnd |]. split; [exact Hid |].
  intros c nc Hin Hnc. apply list_elem_of_In in Hin.
  specialize (Hleaf _ Hin). rewrite Hnc in Hleaf.
  apply andb_true_iff in Hleaf as [H1 H2].
  apply bool_decide_eq_true in H1, H2. auto.
Qed.

(** Taking a record out of the secondary index only removes entries, and
    removes the one under each key field. *)
Lemma unindex_fold_subseteq v fs : forall idx,
  fold_left (unindex_field v) fs idx ⊆ idx.
Proof.
  induction fs as [| f fs IH]; intros idx; simpl.
  - reflexivity.
  - etransitivity; [apply IH |]. apply delete_subseteq.
Qed.

Lemma unindex_fold_gone v fs f : forall idx,
  f ∈ fs -> fold_left (unindex_field v) fs idx !! (f, get_key f v) = None.
Proof.
  induction fs as [| g fs IH]; intros idx Hin; simpl.
  - inversion Hin.
  - destruct (decide (f = g)) as [-> |].
    + eapply lookup_weaken_None; [| apply unindex_fold_subseteq].
      apply lookup_delete_eq.
    + apply IH. apply elem_of_cons in Hin as [? |]; [congruence | auto].
Qed.

(** A record taken out of a consistent store is in none of its indexes. *)
Lemma remove_value_not_in_store h md l v :
  store_sound h md -> h !! l = Some v ->
  ~ in_store (md_remove_value l h md) l.
Proof.
  intros [Hn Hf] Hv. unfold md_remove_value. rewrite Hv.
  intros [[id Hid] | [[f x] Hk]]; simpl in *.
  - destruct (decide (node_id v = id)) as [<- |].
    + rewrite lookup_delete_eq in Hid. discriminate.
    + rewrite lookup_delete_ne in Hid by auto.
      destruct (Hn _ _ Hid) as (v' & Hv' & Hid'). congruence.
  - assert (Hk0 : by_field md !! (f, x) = Some l).
    { eapply lookup_weaken; [exact Hk | apply unindex_fold_subseteq]. }
    destruct (Hf _ _ _ Hk0) as (Hin & v' & Hv' & Hkey).
    assert (v' = v) by congruence. subst v'. subst x.
    rewrite unindex_fold_gone in Hk by exact Hin. discriminate.
Qed.

Lemma remove_value_subseteq h md l :
  by_node (md_remove_value l h md) ⊆ by_node md
  /\ by_field (md_remove_value l h md) ⊆ by_field md
  /\ md_fields (md_remove_value l h md) = md_fields md.
Proof.
  unfold md_remove_value. destruct (h !! l) as [v |]; simpl.
  - split; [apply delete_subseteq |].
    split; [apply unindex_fold_subseteq | reflexivity].
  - repeat split; reflexivity.
Qed.

(** Consistency survives the loss of entries. *)
Lemma store_sound_subseteq h md md' :
  store_sound h md ->
  by_node md' ⊆ by_node md -> by_field md' ⊆ by_field md ->
  md_fields md' = md_fields md ->
  store_sound h md'.
Proof.
  intros [Hn Hf] Hsn Hsf Hfs. split.
  - intros id l Hl. apply Hn. eapply lookup_weaken; eauto.
  - intros f x l Hl. rewrite Hfs. apply Hf. eapply lookup_weaken; eauto.
Qed.

Lemma not_in_store_subseteq md md' l :
  by_node md' ⊆ by_node md -> by_field md' ⊆ by_field md ->
  ~ in_store md l -> ~ in_store md' l.
Proof.
  intros Hsn Hsf Hno [[id Hid] | [k Hk]]; apply Hno.
  - left. exists id. eapply lookup_weaken; eauto.
  - right. exists k. eapply lookup_weaken; eauto.
Qed.

End StoreFacts.

Section EraseFacts.

(** Deleting a leaf takes the node out of the tree and out of its parent's
    children, and nothing else. *)
Lemma delete_leaf c t nc p :
  nodes t !! c = Some nc -> n_children nc = [] -> n_parent nc = Some p ->
  nodes (delete_node c t) = alter (remove_child c) p (delete c (nodes t)).
Proof.
  intros Hnc Hleaf Hp. unfold delete_node. rewrite Hnc, Hp. simpl.
  assert (Hsub : subtree (size (nodes t)) (nodes t) c = [c]).
  { destruct (size (nodes t)); simpl; [reflexivity |].
    rewrite Hnc, Hleaf. reflexivity. }
  rewrite Hsub. reflexivity.
Qed.

Lemma eraseTab_true_inv c m :
  fst (eraseTab (Vy (VStr c)) m) = true ->
  exists lc nc,
    D_by_node_id IT_TAB c m = Some lc
    /\ get_node c (treeobj m) = Some nc
    /\ eraseTab (Vy (VStr c)) m
       = (true, with_tree (delete_node c) (D_remove_value IT_TAB lc m)).
Proof.
  unfold eraseTab, vn_by_vorny.
  destruct (negb (truthy (VStr c))) eqn:Ht; simpl.
  - destruct (get_node [] (treeobj m)); discriminate.
  - destruct (D_by_node_id IT_TAB c m) as [lc |]; simpl; [| discriminate].
    destruct (get_node c (treeobj m)) as [nc |]; [| discriminate].
    unfold str_truthy. apply negb_false_iff in Ht. rewrite Ht. simpl.
    intros _. eauto.
Qed.

Lemma eraseTab_false c m :
  fst (eraseTab (Vy (VStr c)) m) = false ->
  eraseTab (Vy (VStr c)) m = (false, m).
Proof.
  unfold eraseTab.
  destruct (vn_val _); [| intros _; reflexivity].
  destruct (get_node _ _); [| intros _; reflexivity].
  destruct (negb _); [intros _; reflexivity | discriminate].
Qed.

(** One successful [eraseTab] on a child of the window node [id]. *)
Lemma eraseTab_step m id c rest :
  fst (eraseTab (Vy (VStr c)) m) = true ->
  store_sound (heap m) (tabs m) ->
  children_ok m id (c :: rest) ->
  exists lc,
    D_by_node_id IT_TAB c m = Some lc
    /\ shrinks m (snd (eraseTab (Vy (VStr c)) m))
    /\ erased IT_TAB (snd (eraseTab (Vy (VStr c)) m)) c lc
    /\ store_sound (heap m) (tabs (snd (eraseTab (Vy (VStr c)) m)))
    /\ children_ok (snd (eraseTab (Vy (VStr c)) m)) id rest
    /\ (forall q, q <> c ->
          D_by_node_id IT_TAB q (snd (eraseTab (Vy (VStr c)) m))
          = D_by_node_id IT_TAB q m)
    /\ (forall q, q <> c -> q <> id ->
          get_node q (treeobj (snd (eraseTab (Vy (VStr c)) m)))
          = get_node q (treeobj m))
    /\ (is_Some (get_node id (treeobj m)) ->
        is_Some (get_node id (treeobj (snd (eraseTab (Vy (VStr c)) m))))).
Proof.
  intros Hok Hsound (Hnodup & Hnotid & Hleaf).
  apply eraseTab_true_inv in Hok as (lc & nc & Hlc & Hnc & ->). simpl.
  destruct (Hleaf c nc ltac:(left) Hnc) as (Hnochild & Hparent).
  destruct (proj1 Hsound _ _ Hlc) as (vc & Hvc & Hidc).
  pose proof (delete_leaf _ _ _ _ Hnc Hnochild Hparent) as Hdel.
  pose proof (remove_value_subseteq (heap m) (tabs m) lc)
    as (Hsn & Hsf & Hfs).
  assert (Hcid : c <> id) by (intros ->; apply Hnotid; left).
  assert (Hbn : by_node (md_remove_value lc (heap m) (tabs m))
                = delete c (by_node (tabs m))).
  { unfold md_remove_value. rewrite Hvc, Hidc. reflexivity. }
  exists lc. split; [exact Hlc |].
  assert (Hframe : forall q, q <> c -> q <> id ->
            nodes (delete_node c (treeobj m)) !! q = nodes (treeobj m) !! q).
  { intros q Hqc Hqid. rewrite Hdel.
    rewrite lookup_alter_ne by auto. apply lookup_delete_ne. auto. }
  split; [| split; [| split; [| split; [| split; [| split]]]]].
  - unfold shrinks. simpl.
    split; [reflexivity |]. split; [reflexivity |].
    split; [exact Hfs |]. split; [exact Hsn |]. split; [exact Hsf |].
    intros i n'. rewrite Hdel.
    destruct (decide (i = id)) as [-> |].
    + rewrite lookup_alter_eq, lookup_delete_ne by auto.
      destruct (nodes (treeobj m) !! id) as [n |]; [| discriminate].
      intros [= <-]. eauto.
    + rewrite lookup_alter_ne by auto.
      destruct (decide (i = c)) as [-> |].
      * rewrite lookup_delete_eq. discriminate.
      * rewrite lookup_delete_ne by auto. eauto.
  - unfold erased. simpl. split; [| split].
    + unfold D_by_node_id. simpl. rewrite Hbn. apply lookup_delete_eq.
    + change (~ in_store (md_remove_value lc (heap m) (tabs m)) lc).
      eapply remove_value_not_in_store; eauto.
    + unfold get_node. eapply delete_node_gone; eauto.
  - simpl. eapply store_sound_subseteq; eauto.
  - split; [inversion Hnodup; assumption |].
    split; [intros Hin; apply Hnotid; right; exact Hin |].
    intros q nq Hq. unfold get_node. simpl.
    assert (Hqc : q <> c).
    { intros ->. inversion Hnodup; subst. contradiction. }
    assert (Hqid : q <> id) by (intros ->; apply Hnotid; right; exact Hq).
    rewrite (Hframe q Hqc Hqid). apply Hleaf. right. exact Hq.
  - intros q Hqc. unfold D_by_node_id. simpl. rewrite Hbn.
    apply lookup_delete_ne. auto.
  - intros q Hqc Hqid. unfold get_node. simpl. apply Hframe; assumption.
  - unfold get_node. simpl. intros [n Hn]. rewrite Hdel.
    rewrite lookup_alter_eq, lookup_delete_ne by auto. rewrite Hn. eauto.
Qed.

End EraseFacts.

Section EraseLoop.

Lemma shrinks_refl m : shrinks m m.
Proof. unfold shrinks. repeat split; try reflexivity. eauto. Qed.

Lemma shrinks_trans m1 m2 m3 : shrinks m1 m2 -> shrinks m2 m3 -> shrinks m1 m3.
Proof.
  intros (Hh & Hw & Hf & Hn & Hk & Ht) (Hh' & Hw' & Hf' & Hn' & Hk' & Ht').
  unfold shrinks.
  split; [congruence |]. split; [congruence |]. split; [congruence |].
  split; [etransitivity; eauto |]. split; [etransitivity; eauto |].
  intros i n3 H3. destruct (Ht' _ _ H3) as (n2 & H2 & Hp2).
  destruct (Ht _ _ H2) as (n1 & H1 & Hp1). exists n1. split; congruence.
Qed.

(** What is erased stays erased while the state shrinks. *)
Lemma erased_shrinks m m' c lc :
  shrinks m m' -> erased IT_TAB m c lc -> erased IT_TAB m' c lc.
Proof.
  intros (Hh & Hw & Hf & Hn & Hk & Ht) (Hidx & Hno & Hnode).
  split; [| split].
  - unfold D_by_node_id in *. simpl in *.
    eapply lookup_weaken_None; eauto.
  - simpl in *. eapply not_in_store_subseteq; eauto.
  - unfold get_node in *.
    destruct (nodes (treeobj m') !! c) as [n' |] eqn:Hn'; [| reflexivity].
    destruct (Ht _ _ Hn') as (n & Hn0 & _). congruence.
Qed.

Lemma fold_delete_subseteq (gone : list jsstring) (ns : gmap jsstring tnode) :
  fold_right (fun j acc => delete j acc) ns gone ⊆ ns.
Proof.
  induction gone as [| j gone IH]; simpl; [reflexivity |].
  etransitivity; [apply delete_subseteq | exact IH].
Qed.

(** [delete_node] brings no node back. *)
Lemma delete_node_None id t c :
  nodes t !! c = None -> nodes (delete_node id t) !! c = None.
Proof.
  intros Hc. unfold delete_node.
  destruct (nodes t !! id) as [n |]; [| exact Hc].
  destruct (n_parent n) as [p |]; [| exact Hc]. simpl.
  apply lookup_alter_None.
  eapply lookup_weaken_None; [exact Hc | apply fold_delete_subseteq].
Qed.

(** A node that [delete_node] leaves in the tree has the children it had, or
    has lost the deleted node from them. *)
Lemma delete_node_children c t i n' :
  nodes (delete_node c t) !! i = Some n' ->
  exists n, nodes t !! i = Some n
            /\ (length (n_children n') <= length (n_children n))%nat.
Proof.
  unfold delete_node.
  destruct (nodes t !! c) as [nc |]; [| intros H; exists n'; auto].
  destruct (n_parent nc) as [p |]; [| intros H; exists n'; auto].
  cbn [nodes]. destruct (decide (i = p)) as [-> | Hne].
  - rewrite lookup_alter_eq.
    destruct (fold_right _ _ _ !! p) as [n |] eqn:Hn; [| discriminate].
    intros [= <-]. exists n. split.
    + eapply lookup_weaken; [exact Hn | apply fold_delete_subseteq].
    + unfold remove_child. cbn [n_children set_children].
      apply List.filter_length_le.
  - rewrite lookup_alter_ne by auto. intros Hn. exists n'. split; [| lia].
    eapply lookup_weaken; [exact Hn | apply fold_delete_subseteq].
Qed.

Lemma eraseTab_tree x m :
  treeobj (snd (eraseTab x m)) = treeobj m
  \/ exists c, treeobj (snd (eraseTab x m)) = delete_node c (treeobj m).
Proof.
  unfold eraseTab.
  destruct (vn_val _) as [l |]; [| left; reflexivity].
  destruct (get_node _ (treeobj m)) as [nd |]; [| left; reflexivity].
  destruct (negb _); [left; reflexivity |]. right. eexists. reflexivity.
Qed.

Lemma array_of_live id arr m : array_of id m (live_children id arr m).
Proof.
  intros nd Hnd. unfold live_children. rewrite Hnd. reflexivity.
Qed.

(** The array does not grow while children are erased. *)
Lemma live_children_length id arr x m :
  array_of id m arr ->
  (length (live_children id arr (snd (eraseTab x m))) <= length arr)%nat.
Proof.
  intros Harr. unfold live_children.
  destruct (get_node id (treeobj (snd (eraseTab x m)))) as [n' |] eqn:Hn';
    [| lia].
  destruct (eraseTab_tree x m) as [Ht | [c Ht]]; rewrite Ht in Hn'.
  - rewrite (Harr _ Hn'). lia.
  - unfold get_node in Hn'.
    apply delete_node_children in Hn' as (n & Hn & Hlen).
    rewrite <- (Harr n Hn). exact Hlen.
Qed.

(** The loop has all the steps it needs: with as many steps as there are
    children left to visit, more steps change nothing. *)
Lemma erase_children_enough_fuel fuel : forall fuel' id arr i m,
  array_of id m arr ->
  (length arr - i <= fuel)%nat -> (length arr - i <= fuel')%nat ->
  erase_children fuel id arr i m = erase_children fuel' id arr i m.
Proof.
  induction fuel as [| fuel IH]; intros fuel' id arr i m Harr Hf Hf'.
  - destruct (arr !! i) as [c |] eqn:Hc.
    + apply lookup_lt_Some in Hc. lia.
    + destruct fuel'; simpl; rewrite Hc; reflexivity.
  - destruct (arr !! i) as [c |] eqn:Hc.
    + pose proof (lookup_lt_Some _ _ _ Hc) as Hlt.
      destruct fuel' as [| fuel']; [lia |].
      simpl. rewrite Hc.
      pose proof (live_children_length id arr (Vy (VStr c)) m Harr) as Hlen.
      destruct (eraseTab (Vy (VStr c)) m) as [[|] m1]; [| reflexivity].
      cbn [negb snd] in *.
      apply IH; [apply array_of_live | lia | lia].
    + destruct fuel'; simpl; rewrite Hc; reflexivity.
Qed.

(** The steps that [eraseWin] gives the loop are enough. *)
Lemma erase_children_total id node m fuel :
  get_node id (treeobj m) = Some node ->
  (length (n_children node) <= fuel)%nat ->
  erase_children fuel id (n_children node) 0 m
  = erase_children (length (n_children node)) id (n_children node) 0 m.
Proof.
  intros Hnd Hfuel. apply erase_children_enough_fuel; [| lia | lia].
  intros nd' Hnd'. congruence.
Qed.

Lemma eraseTab_true_intro c m :
  str_truthy c = true ->
  is_Some (D_by_node_id IT_TAB c m) ->
  is_Some (get_node c (treeobj m)) ->
  fst (eraseTab (Vy (VStr c)) m) = true.
Proof.
  intros Hs [lc Hlc] [nc Hnc]. unfold eraseTab, vn_by_vorny.
  unfold str_truthy in Hs. rewrite Hs. simpl.
  rewrite Hlc. simpl. rewrite Hnc. unfold str_truthy. rewrite Hs. reflexivity.
Qed.

End EraseLoop.

Section EraseAlternates.

Lemma filter_out_middle (c : jsstring) kept rest :
  NoDup (kept ++ c :: rest) ->
  List.filter (fun x => negb (bool_decide (x = c))) (kept ++ c :: rest)
  = kept ++ rest.
Proof.
  intros Hnd.
  assert (Hid : forall l, c ∉ l ->
            List.filter (fun x => negb (bool_decide (x = c))) l = l).
  { induction l as [| a l IH]; intros Hn; simpl; [reflexivity |].
    apply not_elem_of_cons in Hn as [Hne Hn].
    rewrite bool_decide_eq_false_2 by auto. simpl. f_equal. auto. }
  apply list.NoDup_app in Hnd as (_ & Hdisj & Hnd2).
  apply list.NoDup_cons in Hnd2 as [Hc2 _].
  rewrite List.filter_app. simpl.
  rewrite bool_decide_eq_true_2 by reflexivity. simpl.
  rewrite !Hid; [reflexivity | exact Hc2 |].
  intros Hin. apply (Hdisj c Hin). left.
Qed.

Lemma children_ok_middle m id kept c rest :
  children_ok m id (kept ++ c :: rest) ->
  children_ok m id (c :: kept ++ rest).
Proof.
  intros (Hnd & Hid & Hleaf).
  assert (Hp : kept ++ c :: rest ≡ₚ c :: kept ++ rest)
    by (symmetry; apply Permutation_middle).
  split; [rewrite <- Hp; exact Hnd |].
  split; [rewrite <- Hp; exact Hid |].
  intros q nq Hq. apply Hleaf. rewrite Hp. exact Hq.
Qed.

(** One step of the loop that erases the child [c] of the node [id]: the
    array loses [c]. *)
Lemma eraseTab_child m id nd kept c rest :
  get_node id (treeobj m) = Some nd ->
  n_children nd = kept ++ c :: rest ->
  children_ok m id (kept ++ c :: rest) ->
  store_sound (heap m) (tabs m) ->
  tab_items m (c :: rest) ->
  exists m1 lc nd1,
    eraseTab (Vy (VStr c)) m = (true, m1)
    /\ D_by_node_id IT_TAB c m = Some lc
    /\ shrinks m m1
    /\ erased IT_TAB m1 c lc
    /\ store_sound (heap m1) (tabs m1)
    /\ get_node id (treeobj m1) = Some nd1
    /\ n_children nd1 = kept ++ rest
    /\ children_ok m1 id (kept ++ rest)
    /\ tab_items m1 rest
    /\ (forall q, q <> c ->
          D_by_node_id IT_TAB q m1 = D_by_node_id IT_TAB q m).
Proof.
  intros Hnd Hch Hok Hsound Hall.
  destruct (Hall c ltac:(left)) as (Hs & Hrec & Hnode).
  pose proof (eraseTab_true_intro c m Hs Hrec Hnode) as Hfst.
  pose proof (children_ok_middle _ _ _ _ _ Hok) as Hok'.
  destruct (eraseTab_step m id c (kept ++ rest) Hfst Hsound Hok')
    as (lc & Hlc & Hshr & Hgone & Hsound1 & Hok1 & Hidx1 & Hnode1 & _).
  destruct (eraseTab_true_inv c m Hfst) as (lc' & nc & Hlc' & Hnc & Hrun).
  rewrite Hrun in Hshr, Hgone, Hsound1, Hok1, Hidx1, Hnode1.
  cbn [snd] in Hshr, Hgone, Hsound1, Hok1, Hidx1, Hnode1.
  set (m1 := with_tree (delete_node c) (D_remove_value IT_TAB lc' m)) in *.
  destruct Hok as (Hnodup & Hnotid & Hleaf).
  assert (Hcin : c ∈ kept ++ c :: rest)
    by (apply elem_of_app; right; left).
  destruct (Hleaf c nc Hcin Hnc) as (Hnochild & Hparent).
  assert (Hcid : c <> id) by (intros ->; contradiction).
  exists m1, lc, (remove_child c nd).
  split; [exact Hrun |]. split; [exact Hlc |]. split; [exact Hshr |].
  split; [exact Hgone |].
  split; [replace (heap m1) with (heap m) by (symmetry; apply Hshr);
          exact Hsound1 |].
  split.
  { unfold get_node, m1. cbn [treeobj with_tree].
    change (treeobj (D_remove_value IT_TAB lc' m)) with (treeobj m).
    rewrite (delete_leaf _ _ _ _ Hnc Hnochild Hparent).
    rewrite lookup_alter_eq, lookup_delete_ne by auto.
    unfold get_node in Hnd. rewrite Hnd. reflexivity. }
  split.
  { unfold remove_child. cbn [n_children set_children]. rewrite Hch.
    apply filter_out_middle. exact Hnodup. }
  split; [exact Hok1 |].
  split.
  { intros q Hq. destruct (Hall q ltac:(right; exact Hq)) as (Hqs & Hqr & Hqn).
    assert (Hqc : q <> c).
    { intros ->. apply list.NoDup_app in Hnodup as (_ & _ & Hnd2).
      apply list.NoDup_cons in Hnd2 as [Hc2 _]. contradiction. }
    assert (Hqid : q <> id).
    { intros ->. apply Hnotid. apply elem_of_app. right. right. exact Hq. }
    split; [exact Hqs |].
    rewrite Hidx1 by exact Hqc. rewrite Hnode1 by assumption. auto. }
  exact Hidx1.
Qed.

End EraseAlternates.

Section EraseAlternates2.

Lemma alternate_subset {A} (cs : list A) : forall take x,
  x ∈ alternate take cs -> x ∈ cs.
Proof.
  induction cs as [| c cs IH]; intros take x Hx; simpl in Hx.
  - inversion Hx.
  - destruct take.
    + apply elem_of_cons in Hx as [-> | Hx]; [left | right; eauto].
    + right. eauto.
Qed.

(** The loop of [eraseWin] over distinct leaf children that are tab items:
    from a position at the head of [rest] ([take]) or one past it, the loop
    erases every second child and leaves the others in the array. *)
Lemma erase_children_alternates (rest : list jsstring) :
  forall (take : bool) (kept : list jsstring) (fuel : nat) (m : model)
         (nd : tnode) (id : jsstring),
  get_node id (treeobj m) = Some nd ->
  n_children nd = kept ++ rest ->
  children_ok m id (kept ++ rest) ->
  store_sound (heap m) (tabs m) ->
  tab_items m rest ->
  (length rest <= fuel)%nat ->
  let r := erase_children fuel id (kept ++ rest)
             (length kept + (if take then 0 else 1)) m in
  fst r = true
  /\ shrinks m (snd r)
  /\ (exists nd', get_node id (treeobj (snd r)) = Some nd'
                  /\ n_children nd' = kept ++ alternate (negb take) rest)
  /\ (forall c lc, c ∈ alternate take rest ->
        D_by_node_id IT_TAB c m = Some lc -> erased IT_TAB (snd r) c lc)
  /\ (forall q, q ∉ alternate take rest ->
        D_by_node_id IT_TAB q (snd r) = D_by_node_id IT_TAB q m).
Proof.
  induction rest as [| c rest IH];
    intros take kept fuel m nd id Hnd Hch Hok Hsound Hall Hfuel r.
  - assert (Hnone : (kept ++ []) !! (length kept + (if take then 0 else 1))%nat
                    = @None jsstring).
    { apply lookup_ge_None. rewrite app_nil_r. lia. }
    assert (Hr : r = (true, m)).
    { unfold r. destruct fuel; simpl; rewrite Hnone; reflexivity. }
    rewrite Hr. cbn [fst snd]. split; [reflexivity |].
    split; [apply shrinks_refl |].
    split; [exists nd; split; [exact Hnd |];
            destruct take; exact Hch |].
    split; [intros c lc Hin; destruct take; inversion Hin |].
    intros q _. reflexivity.
  - destruct take.
    + (* the loop is at [c]: it is erased *)
      assert (Hlook : (kept ++ c :: rest) !! (length kept + 0)%nat = Some c).
      { rewrite Nat.add_0_r. apply list_lookup_middle. reflexivity. }
      destruct fuel as [| fuel]; [simpl in Hfuel; lia |].
      destruct (eraseTab_child m id nd kept c rest Hnd Hch Hok Hsound Hall)
        as (m1 & lc & nd1 & Hrun & Hlc & Hshr & Hgone & Hsound1 & Hnd1
            & Hch1 & Hok1 & Hall1 & Hidx1).
      assert (Hr : r = erase_children fuel id (kept ++ rest)
                         (length kept + 1) m1).
      { unfold r. simpl. rewrite Hlook, Hrun. cbn [negb].
        unfold live_children. rewrite Hnd1, Hch1.
        replace (S (length kept + 0)) with (length kept + 1)%nat by lia.
        reflexivity. }
      rewrite Hr.
      assert (Hfuel1 : (length rest <= fuel)%nat) by (simpl in Hfuel; lia).
      destruct (IH false kept fuel m1 nd1 id Hnd1 Hch1 Hok1 Hsound1 Hall1
                  Hfuel1) as (Htrue & Hshr' & Hnodes & Herased & Hkept).
      destruct Hok as (Hnodup & _ & _).
      assert (Hcrest : c ∉ rest).
      { apply list.NoDup_app in Hnodup as (_ & _ & Hnd2).
        apply list.NoDup_cons in Hnd2 as [Hc2 _]. exact Hc2. }
      split; [exact Htrue |].
      split; [eapply shrinks_trans; eauto |].
      split; [exact Hnodes |].
      split.
      * intros c' lc' Hin Hlc'. simpl in Hin.
        apply elem_of_cons in Hin as [-> | Hin].
        -- assert (lc' = lc) by congruence. subst lc'.
           eapply erased_shrinks; eauto.
        -- apply Herased; [exact Hin |].
           rewrite Hidx1; [exact Hlc' |].
           intros ->. apply Hcrest. eapply alternate_subset. exact Hin.
      * intros q Hq. simpl in Hq. apply not_elem_of_cons in Hq as [Hqc Hq].
        rewrite (Hkept q Hq). apply Hidx1. exact Hqc.
    + (* the loop is one past [c]: it is passed over *)
      assert (Hr : r = erase_children fuel id ((kept ++ [c]) ++ rest)
                         (length (kept ++ [c]) + 0) m).
      { unfold r. rewrite <- app_assoc, length_app. simpl.
        replace (length kept + 1 + 0)%nat with (length kept + 1)%nat by lia.
        reflexivity. }
      rewrite Hr.
      assert (Hch' : n_children nd = (kept ++ [c]) ++ rest)
        by (rewrite <- app_assoc; exact Hch).
      assert (Hok' : children_ok m id ((kept ++ [c]) ++ rest))
        by (rewrite <- app_assoc; exact Hok).
      assert (Hall' : tab_items m rest)
        by (intros q Hq; apply Hall; right; exact Hq).
      assert (Hfuel' : (length rest <= fuel)%nat) by (simpl in Hfuel; lia).
      destruct (IH true (kept ++ [c]) fuel m nd id Hnd Hch' Hok' Hsound Hall'
                  Hfuel') as (Htrue & Hshr' & Hnodes & Herased & Hkept).
      split; [exact Htrue |]. split; [exact Hshr' |].
      split; [| split; [exact Herased | exact Hkept]].
      destruct Hnodes as (nd' & Hnd' & Hch''). exists nd'.
      split; [exact Hnd' |]. rewrite Hch'', <- app_assoc. reflexivity.
Qed.

End EraseAlternates2.

Section EraseWin.

Lemma eraseWin_run m x l v id nd :
  window_item x m l v id nd ->
  eraseWin x m
  = if fst (erase_children (length (n_children nd)) id (n_children nd) 0 m)
    then (true,
          with_tree (delete_node id)
            (D_remove_value IT_WIN l
               (snd (erase_children (length (n_children nd)) id
                       (n_children nd) 0 m))))
    else (false,
          snd (erase_children (length (n_children nd)) id
                 (n_children nd) 0 m)).
Proof.
  intros Hitem.
  destruct (window_item_inv _ _ _ _ _ _ Hitem) as (H & Hv & Hstored & Hnd).
  resolve_in H. unfold eraseWin. rewrite Hl, Hid, Hs, Hnd. simpl.
  destruct (erase_children _ _ _ _ m) as [[|] mk]; reflexivity.
Qed.

(** What the last two steps of [eraseWin] do to the window and to the tabs
    already erased. *)
Lemma eraseWin_finish m mk l v id nd :
  heap m !! l = Some v -> node_id v = id ->
  store_sound (heap m) (windows m) ->
  shrinks m mk ->
  nodes (treeobj m) !! id = Some nd -> is_Some (n_parent nd) ->
  is_Some (get_node id (treeobj mk)) ->
  erased IT_WIN (with_tree (delete_node id) (D_remove_value IT_WIN l mk)) id l
  /\ forall c lc,
       erased IT_TAB mk c lc ->
       erased IT_TAB (with_tree (delete_node id) (D_remove_value IT_WIN l mk))
              c lc.
Proof.
  intros Hv Hid Hsound Hshr Hnd [p Hp] [nk Hnk].
  destruct Hshr as (Hh & Hw & _ & _ & _ & Ht).
  split.
  - split; [| split]; simpl.
    + unfold D_by_node_id, D_remove_value, md_remove_value. simpl.
      rewrite Hh, Hv, Hid. simpl. apply lookup_delete_eq.
    + rewrite Hh, Hw. eapply remove_value_not_in_store; eauto.
    + unfold get_node in *.
      destruct (Ht _ _ Hnk) as (n0 & Hn0 & Hpk).
      rewrite Hnd in Hn0. injection Hn0 as <-.
      eapply delete_node_gone; [exact Hnk |]. rewrite Hpk. exact Hp.
  - intros c lc (Hidx & Hno & Hnode). split; [| split]; simpl.
    + exact Hidx.
    + exact Hno.
    + apply delete_node_None. exact Hnode.
Qed.

(** The children of a deleted node leave the tree with it. *)
Lemma delete_node_child id t nd p c :
  nodes t !! id = Some nd -> n_parent nd = Some p -> c ∈ n_children nd ->
  nodes (delete_node id t) !! c = None.
Proof.
  intros Hnd Hp Hc. unfold delete_node. rewrite Hnd, Hp. cbn [nodes].
  apply lookup_alter_None, delete_node_gone_fold.
  assert (Hsize : size (nodes t) <> 0%nat).
  { intros Hz. apply map_size_empty_iff in Hz. rewrite Hz in Hnd.
    rewrite lookup_empty in Hnd. discriminate. }
  destruct (size (nodes t)) as [| f]; [contradiction |].
  simpl. rewrite Hnd. right.
  apply list_elem_of_In, in_flat_map. exists c.
  split; [apply list_elem_of_In; exact Hc |].
  apply list_elem_of_In, subtree_head.
Qed.

Lemma alternate_disjoint {A} (cs : list A) : forall take x,
  NoDup cs -> x ∈ alternate take cs -> x ∉ alternate (negb take) cs.
Proof.
  induction cs as [| c cs IH]; intros take x Hnd Hx; simpl in *.
  - inversion Hx.
  - apply list.NoDup_cons in Hnd as [Hc Hnd]. destruct take; simpl.
    + apply elem_of_cons in Hx as [-> | Hx].
      * intros Hin. apply Hc. eapply alternate_subset. exact Hin.
      * apply (IH false x Hnd Hx).
    + apply not_elem_of_cons. split.
      * intros ->. apply Hc. eapply alternate_subset. exact Hx.
      * apply (IH true x Hnd Hx).
Qed.

End EraseWin.

(** C3. [eraseWin] on a window with two tabs. The loop erases the first
    tab, which takes it out of the array of children that the loop is
    reading, so that the position of the loop is past the end of the array
    and the second tab is never visited. The call returns true; the window
    and the first tab are gone from the stores and the tree, and so is the
    node of the second tab, but [D.tabs] still holds the record of the second
    tab under its node id. *)
Theorem eraseWin_leaves_second_tab :
  n_children <$> get_node SameTabs.w0 (treeobj SameTabs.two)
  = Some [gen_id 2; gen_id 3]
  /\ D_by_node_id IT_TAB (gen_id 2) SameTabs.two = Some 1%nat
  /\ D_by_node_id IT_TAB (gen_id 3) SameTabs.two = Some 2%nat
  /\ exists m',
       eraseWin (Vy (VStr SameTabs.w0)) SameTabs.two = (true, m')
       /\ D_by_node_id IT_WIN SameTabs.w0 m' = None
       /\ get_node SameTabs.w0 (treeobj m') = None
       /\ D_by_node_id IT_TAB (gen_id 2) m' = None
       /\ get_node (gen_id 2) (treeobj m') = None
       /\ D_by_node_id IT_TAB (gen_id 3) m' = Some 2%nat
       /\ get_node (gen_id 3) (treeobj m') = None.
Proof.
  split; [vm_compute; reflexivity |].
  split; [vm_compute; reflexivity |].
  split; [vm_compute; reflexivity |].
  eexists. split; [vm_compute; reflexivity |].
  repeat split; vm_compute; reflexivity.
Qed.

(** ** Runs of markers *)

Section MarkerRuns.

Lemma lang_star_space s :
  lang (RStar RSpace) s <-> forallb is_space s = true.
Proof.
  split.
  - intros H. remember (RStar RSpace) as r eqn:Hr.
    induction H; try discriminate; [reflexivity |].
    injection Hr as ->. apply class_inv in H as (c & -> & Hc).
    simpl. rewrite Hc. auto.
  - induction s as [| c s IH]; simpl; intros H; [constructor |].
    apply andb_true_iff in H as [Hc Hs].
    change (c :: s) with ([c] ++ s).
    constructor; [constructor; exact Hc | auto].
Qed.

Lemma lang_plus_space s :
  lang (RPlus RSpace) s <-> forallb is_space s = true /\ s <> [].
Proof.
  unfold RPlus. split.
  - intros H. apply seq_inv in H as (s1 & s2 & -> & H1 & H2).
    apply class_inv in H1 as (c & -> & Hc).
    apply lang_star_space in H2. simpl. rewrite Hc, H2. split; [auto | discriminate].
  - intros [Hs Hne]. destruct s as [| c s]; [contradiction |].
    simpl in Hs. apply andb_true_iff in Hs as [Hc Hs].
    change (c :: s) with ([c] ++ s).
    constructor; [constructor; exact Hc | apply lang_star_space; exact Hs].
Qed.

Lemma lang_RLit_ci_length p : forall m,
  lang (RLit_ci p) m -> length m = length p.
Proof.
  induction p as [| pc p IH]; intros m H; simpl in *.
  - inversion H. reflexivity.
  - apply seq_inv in H as (s1 & s2 & -> & H1 & H2).
    apply class_inv in H1 as (c & -> & _). simpl. f_equal. auto.
Qed.

(** A unit is non-empty white space followed by the nine characters of a
    marker. *)
Lemma re_unit_inv x :
  lang re_unit x <->
  exists ws mk, x = ws ++ mk /\ forallb is_space ws = true /\ ws <> []
                /\ lang (RLit_ci unsaved_marker) mk.
Proof.
  unfold re_unit. split.
  - intros H. apply seq_inv in H as (ws & mk & -> & Hws & Hmk).
    apply lang_plus_space in Hws as [Hs Hne]. eauto 6.
  - intros (ws & mk & -> & Hs & Hne & Hmk).
    constructor; [apply lang_plus_space; auto | exact Hmk].
Qed.

Lemma star_snoc a s x :
  lang (RStar a) s -> lang a x -> lang (RStar a) (s ++ x).
Proof.
  intros Hs Hx. remember (RStar a) as r eqn:Hr.
  induction Hs; try discriminate.
  - injection Hr as ->. simpl.
    rewrite <- (app_nil_r x). constructor; [exact Hx | constructor].
  - injection Hr as ->. rewrite <- app_assoc.
    constructor; [exact Hs1 | apply IHHs2; reflexivity].
Qed.

Lemma star_marker_run rest :
  lang (RStar re_unit) rest ->
  forall r, marker_run r -> marker_run (r ++ rest).
Proof.
  intros H. remember (RStar re_unit) as e eqn:He.
  induction H; try discriminate; intros r Hr.
  - rewrite app_nil_r. exact Hr.
  - injection He as ->. rewrite app_assoc.
    apply IHlang2; [reflexivity |]. apply run_snoc; assumption.
Qed.

Lemma marker_run_plus r : marker_run r <-> lang (RPlus re_unit) r.
Proof.
  unfold RPlus. split.
  - induction 1 as [x Hx | r x Hr IH Hx].
    + rewrite <- (app_nil_r x). constructor; [exact Hx | constructor].
    + apply seq_inv in IH as (x0 & rest & -> & Hx0 & Hrest).
      rewrite <- app_assoc. constructor; [exact Hx0 |].
      apply star_snoc; assumption.
  - intros H. apply seq_inv in H as (x & rest & -> & Hx & Hrest).
    apply star_marker_run; [exact Hrest | apply run_one; exact Hx].
Qed.

(** The language of the expression: a run of markers, then white space. *)
Lemma re_unsaved_runs s :
  lang re_unsaved s <->
  exists r tail, s = r ++ tail /\ marker_run r
                 /\ forallb is_space tail = true.
Proof.
  change re_unsaved with (RSeq (RPlus re_unit) (RStar RSpace)). split.
  - intros H. apply seq_inv in H as (r & tail & -> & Hr & Ht).
    exists r, tail. split; [reflexivity |].
    split; [apply marker_run_plus; exact Hr | apply lang_star_space; exact Ht].
  - intros (r & tail & -> & Hr & Ht).
    constructor; [apply marker_run_plus; exact Hr
                 | apply lang_star_space; exact Ht].
Qed.

Lemma marker_run_app a b : marker_run a -> marker_run b -> marker_run (a ++ b).
Proof.
  intros Ha Hb. induction Hb as [x Hx | r x Hr IH Hx].
  - apply run_snoc; assumption.
  - rewrite app_assoc. apply run_snoc; assumption.
Qed.

Lemma re_unit_prepend tl x :
  forallb is_space tl = true -> lang re_unit x -> lang re_unit (tl ++ x).
Proof.
  intros Htl Hx. apply re_unit_inv in Hx as (ws & mk & -> & Hs & Hne & Hmk).
  apply re_unit_inv. exists (tl ++ ws), mk.
  split; [apply app_assoc |]. split; [| split; [| exact Hmk]].
  - rewrite forallb_app, Htl, Hs. reflexivity.
  - intros E. apply app_eq_nil in E as [_ ->]. contradiction.
Qed.

Lemma marker_run_prepend tl r :
  forallb is_space tl = true -> marker_run r -> marker_run (tl ++ r).
Proof.
  intros Htl Hr. induction Hr as [x Hx | r x Hr IH Hx].
  - apply run_one, re_unit_prepend; assumption.
  - rewrite app_assoc. apply run_snoc; assumption.
Qed.

(** White space, or a match, in front of a match is a match. *)
Lemma re_unsaved_prepend tl s :
  forallb is_space tl = true -> lang re_unsaved s -> lang re_unsaved (tl ++ s).
Proof.
  intros Htl Hs. apply re_unsaved_runs in Hs as (r & tail & -> & Hr & Ht).
  apply re_unsaved_runs. exists (tl ++ r), tail.
  split; [apply app_assoc |].
  split; [apply marker_run_prepend; assumption | exact Ht].
Qed.

Lemma re_unsaved_app a b :
  lang re_unsaved a -> lang re_unsaved b -> lang re_unsaved (a ++ b).
Proof.
  intros Ha Hb.
  apply re_unsaved_runs in Ha as (r1 & t1 & -> & Hr1 & Ht1).
  apply re_unsaved_runs in Hb as (r2 & t2 & -> & Hr2 & Ht2).
  apply re_unsaved_runs. exists (r1 ++ t1 ++ r2), t2.
  split; [rewrite <- !app_assoc; reflexivity |].
  split; [| exact Ht2].
  apply marker_run_app; [exact Hr1 | apply marker_run_prepend; assumption].
Qed.

End MarkerRuns.

Section TitleFacts.

Lemma match_index_None_iff s :
  match_index re_unsaved s = None
  <-> forall k, matches re_unsaved (skipn k s) = false.
Proof.
  unfold match_index. split.
  - apply match_index_from_None.
  - intros Hno.
    destruct (match_index_from re_unsaved s 0) as [j |] eqn:E; [| reflexivity].
    apply match_index_from_Some in E as (k & _ & _ & Hk & _).
    rewrite Hno in Hk. discriminate.
Qed.

Lemma remove_unsaved_markers_strip t :
  remove_unsaved_markers (VStr t) = VStr (strip_markers t).
Proof.
  unfold remove_unsaved_markers, strip_markers. simpl.
  destruct t as [| c t]; [reflexivity |]. simpl.
  destruct (match_index re_unsaved (c :: t)) as [i |]; [| reflexivity].
  destruct (0 <? i)%nat; reflexivity.
Qed.

Lemma skipn_firstn_skipn (t : jsstring) k i :
  (k <= i)%nat -> (i <= length t)%nat ->
  skipn k t = skipn k (firstn i t) ++ skipn i t.
Proof.
  intros Hk Hi. rewrite <- (firstn_skipn i t) at 1.
  rewrite skipn_app, length_firstn.
  replace (k - Nat.min i (length t))%nat with 0%nat by lia. reflexivity.
Qed.

(** What is left after the markers are removed has none at its end, and is
    still a plain title. *)
Lemma strip_plain t :
  plain_title t = true ->
  match_index re_unsaved (strip_markers t) = None
  /\ plain_title (strip_markers t) = true.
Proof.
  unfold plain_title. rewrite andb_true_iff, !negb_true_iff.
  intros [Hblank Hrun]. unfold strip_markers, match_index.
  destruct (match_index_from re_unsaved t 0) as [i |] eqn:E.
  - apply match_index_from_Some in E as (k & -> & Hlen & Hk & Hmin).
    simpl. destruct k as [| k].
    + change (matches re_unsaved t = true) in Hk. congruence.
    + change (0 <? S k)%nat with true. cbv iota.
      set (b := firstn (S k) t).
      assert (Hb : length b = S k) by (unfold b; rewrite length_firstn; lia).
      assert (Hnone : forall j, matches re_unsaved (skipn j b) = false).
      { intros j. destruct (matches re_unsaved (skipn j b)) eqn:Hj;
          [| reflexivity].
        destruct (le_lt_dec (S k) j) as [Hge | Hlt].
        - rewrite skipn_all2 in Hj by lia. discriminate.
        - rewrite <- (Hmin j Hlt).
          rewrite (skipn_firstn_skipn t j (S k)) by lia. fold b.
          symmetry. apply matches_lang. apply matches_lang in Hj, Hk.
          apply re_unsaved_app; assumption. }
      split; [apply match_index_None_iff; exact Hnone |].
      rewrite andb_true_iff, !negb_true_iff. split; [| apply (Hnone 0%nat)].
      destruct (forallb is_space b) eqn:Hsp; [| reflexivity].
      rewrite <- (Hmin 0%nat) by lia. simpl.
      rewrite <- (firstn_skipn (S k) t). fold b.
      symmetry. apply matches_lang. apply matches_lang in Hk.
      apply re_unsaved_prepend; assumption.
  - split; [exact E |].
    rewrite andb_true_iff, !negb_true_iff. auto.
Qed.

Lemma suffix_is_space_marker : unsaved_suffix = [32] ++ unsaved_marker.
Proof. reflexivity. Qed.

(** A match that ends with the suffix [" (Unsaved)"] is the suffix after a
    blank or after a match. *)
Lemma re_unsaved_before_suffix w :
  lang re_unsaved (w ++ unsaved_suffix) ->
  forallb is_space w = true \/ lang re_unsaved w.
Proof.
  intros H. apply re_unsaved_runs in H as (r & tail & Heq & Hr & Ht).
  assert (Htail : tail = []).
  { destruct tail as [| c0 tail0] using rev_ind; [reflexivity |].
    rewrite forallb_app in Ht. apply andb_true_iff in Ht as [_ Hc].
    simpl in Hc. rewrite andb_true_r in Hc.
    change unsaved_suffix with (lit " (Unsave" ++ lit "d" ++ [41]) in Heq.
    rewrite !app_assoc in Heq. apply app_inj_tail in Heq as [_ <-].
    discriminate. }
  subst tail. rewrite app_nil_r in Heq. subst r.
  rewrite suffix_is_space_marker, app_assoc in Hr.
  remember ((w ++ [32]) ++ unsaved_marker) as s eqn:Hs.
  destruct Hr as [x Hx | r x Hr Hx].
  - apply re_unit_inv in Hx as (ws & mk & -> & Hsp & Hne & Hmk).
    apply lang_RLit_ci_length in Hmk.
    apply app_inj_2 in Hs as [Hs _]; [| exact Hmk].
    left. subst ws. rewrite forallb_app in Hsp.
    apply andb_true_iff in Hsp as [Hw _]. exact Hw.
  - apply re_unit_inv in Hx as (ws & mk & -> & Hsp & Hne & Hmk).
    apply lang_RLit_ci_length in Hmk.
    rewrite app_assoc in Hs.
    apply app_inj_2 in Hs as [Hs _]; [| exact Hmk].
    destruct ws as [| c0 ws0] using rev_ind; [contradiction |].
    rewrite app_assoc in Hs. apply app_inj_tail in Hs as [Hs _].
    rewrite forallb_app in Hsp. apply andb_true_iff in Hsp as [Hsp0 _].
    right. apply re_unsaved_runs. exists r, ws0. auto.
Qed.

(** Appending the suffix to a plain title gives a plain title. *)
Lemma plain_suffix b :
  plain_title b = true -> plain_title (b ++ unsaved_suffix) = true.
Proof.
  unfold plain_title. rewrite !andb_true_iff, !negb_true_iff.
  intros [Hblank Hrun]. split.
  - rewrite forallb_app, Hblank. reflexivity.
  - destruct (matches re_unsaved (b ++ unsaved_suffix)) eqn:Hm; [| reflexivity].
    apply matches_lang, re_unsaved_before_suffix in Hm as [Hsp | Hl].
    + congruence.
    + apply matches_lang in Hl. congruence.
Qed.

(** Appending the suffix to a string without trailing markers gives a string
    with exactly one. *)
Lemma one_marker_after b :
  match_index re_unsaved b = None ->
  ends_with_one_marker (b ++ unsaved_suffix) = true.
Proof.
  intros Hnone. unfold ends_with_one_marker, has_trailing_markers.
  rewrite length_app.
  replace (length b + length unsaved_suffix - length unsaved_suffix)%nat
    with (length b) by lia.
  rewrite skipn_app, skipn_all, Nat.sub_diag. simpl skipn.
  rewrite firstn_app, firstn_all, Nat.sub_diag. simpl firstn.
  rewrite app_nil_r, Hnone.
  rewrite bool_decide_eq_true_2 by reflexivity. reflexivity.
Qed.

End TitleFacts.

(** ** Remembering and forgetting a window *)

Section KeepFacts.

Lemma remember_run m id l v cleanup :
  str_truthy id = true ->
  D_by_node_id IT_WIN id m = Some l ->
  heap m !! l = Some v ->
  exists m',
    remember id cleanup m = (true, m')
    /\ heap m' !! l = Some (remembered cleanup v)
    /\ same_items m m'.
Proof.
  intros Hs Hl Hv. unfold remember. rewrite Hs, Hl. simpl.
  eexists. split; [reflexivity |]. split.
  - rewrite heap_refresh_icon, heap_refresh_label.
    unfold remembered. destruct cleanup; simpl.
    + rewrite list_lookup_alter_eq, list_lookup_alter_eq, Hv. reflexivity.
    + rewrite list_lookup_alter_eq, Hv. reflexivity.
  - destruct cleanup; same_items_steps.
Qed.

Lemma mark_win_as_unsaved_run m l v adjust :
  heap m !! l = Some v ->
  ty v = IT_WIN -> str_truthy (node_id v) = true ->
  exists m',
    mark_win_as_unsaved (Some l) adjust m = (true, m')
    /\ heap m' !! l = Some (marked_unsaved adjust v)
    /\ same_items m m'.
Proof.
  intros Hv Hty Hs. unfold mark_win_as_unsaved. rewrite Hv, Hty, Hs. simpl.
  eexists. split; [reflexivity |]. split.
  - rewrite heap_refresh_icon, heap_refresh_label.
    unfold marked_unsaved.
    destruct (adjust && negb (bool_decide (raw_title v = VNull))); simpl.
    + rewrite list_lookup_alter_eq, list_lookup_alter_eq, Hv. reflexivity.
    + rewrite list_lookup_alter_eq, Hv. reflexivity.
  - destruct (adjust && negb (bool_decide (raw_title v = VNull)));
      same_items_steps.
Qed.

Lemma remembered_title v t :
  raw_title v = VStr t ->
  raw_title (remembered true v) = VStr (strip_markers t)
  /\ keep (remembered true v) = VBool true
  /\ node_id (remembered true v) = node_id v
  /\ ty (remembered true v) = ty v.
Proof.
  intros Ht. unfold remembered, get_win_raw_text. simpl. rewrite Ht.
  rewrite bool_decide_eq_false_2 by discriminate. simpl.
  rewrite remove_unsaved_markers_strip. auto.
Qed.

Lemma marked_unsaved_title v t :
  raw_title v = VStr t ->
  raw_title (marked_unsaved true v)
  = VStr (strip_markers t ++ unsaved_suffix)
  /\ keep (marked_unsaved true v) = VBool false
  /\ node_id (marked_unsaved true v) = node_id v
  /\ ty (marked_unsaved true v) = ty v.
Proof.
  intros Ht. unfold marked_unsaved. rewrite Ht.
  rewrite bool_decide_eq_false_2 by discriminate. simpl.
  rewrite remove_unsaved_markers_strip. auto.
Qed.

(** One operation on a window with a plain custom title: the window stays
    where it is, the title stays plain, and title and flag are as the
    operation leaves them. *)
Lemma run_op_plain m id l v t op :
  str_truthy id = true ->
  D_by_node_id IT_WIN id m = Some l ->
  heap m !! l = Some v ->
  node_id v = id -> ty v = IT_WIN ->
  raw_title v = VStr t -> plain_title t = true ->
  exists v' t',
    D_by_node_id IT_WIN id (run_op id l m op) = Some l
    /\ heap (run_op id l m op) !! l = Some v'
    /\ node_id v' = id /\ ty v' = IT_WIN
    /\ raw_title v' = VStr t' /\ plain_title t' = true
    /\ after_last_op [op] t' (keep v').
Proof.
  intros Hs Hl Hv Hid Hty Ht Hplain.
  destruct (strip_plain t Hplain) as (Hnone & Hplain').
  destruct op; cbn [run_op].
  - destruct (remember_run m id l v true Hs Hl Hv)
      as (m' & -> & Hv' & Hsame). simpl.
    destruct (remembered_title v t Ht) as (Ht' & Hk & Hid' & Hty').
    exists (remembered true v), (strip_markers t).
    split; [| split; [exact Hv' |]; split; [congruence |];
              split; [congruence |]; split; [exact Ht' |];
              split; [exact Hplain' |]].
    + unfold D_by_node_id in *. simpl in *.
      rewrite (proj1 Hsame). exact Hl.
    + unfold after_last_op, has_trailing_markers. simpl.
      rewrite Hnone. auto.
  - rewrite <- Hid in Hs.
    destruct (mark_win_as_unsaved_run m l v true Hv Hty Hs)
      as (m' & -> & Hv' & Hsame). simpl.
    destruct (marked_unsaved_title v t Ht) as (Ht' & Hk & Hid' & Hty').
    exists (marked_unsaved true v), (strip_markers t ++ unsaved_suffix).
    split; [| split; [exact Hv' |]; split; [congruence |];
              split; [congruence |]; split; [exact Ht' |];
              split; [apply plain_suffix; exact Hplain' |]].
    + unfold D_by_node_id in *. simpl in *.
      rewrite (proj1 Hsame). exact Hl.
    + unfold after_last_op. simpl.
      split; [apply one_marker_after; exact Hnone | exact Hk].
Qed.

Lemma run_ops_plain ops : forall m id l v t,
  str_truthy id = true ->
  D_by_node_id IT_WIN id m = Some l ->
  heap m !! l = Some v ->
  node_id v = id -> ty v = IT_WIN ->
  raw_title v = VStr t -> plain_title t = true ->
  exists v' t',
    D_by_node_id IT_WIN id (run_ops id l ops m) = Some l
    /\ heap (run_ops id l ops m) !! l = Some v'
    /\ node_id v' = id /\ ty v' = IT_WIN
    /\ raw_title v' = VStr t' /\ plain_title t' = true
    /\ after_last_op ops t' (keep v').
Proof.
  induction ops as [| op ops IH] using rev_ind;
    intros m id l v t Hs Hl Hv Hid Hty Ht Hplain.
  - exists v, t. simpl. unfold after_last_op. simpl. auto 10.
  - unfold run_ops. rewrite fold_left_app. simpl. fold (run_ops id l ops m).
    destruct (IH m id l v t Hs Hl Hv Hid Hty Ht Hplain)
      as (v1 & t1 & Hl1 & Hv1 & Hid1 & Hty1 & Ht1 & Hplain1 & _).
    destruct (run_op_plain _ id l v1 t1 op Hs Hl1 Hv1 Hid1 Hty1 Ht1 Hplain1)
      as (v' & t' & Hl' & Hv' & Hid' & Hty' & Ht' & Hplain' & Hlast).
    exists v', t'. unfold after_last_op in *. rewrite rev_unit.
    simpl in Hlast. auto 10.
Qed.

End KeepFacts.

(** C8 (as amended). [remember] on a window of the store sets [keep] to true
    and, with title cleanup, replaces a custom title by what
    [remove_unsaved_markers] makes of it; [mark_win_as_unsaved] on a window
    record sets [keep] to false and, with title adjustment, replaces a custom
    title by that, followed by [" (Unsaved)"]. When the custom title is
    plain (it is not blank and is not made of markers only), the title after
    [remember] has no trailing marker and the title after
    [mark_win_as_unsaved] ends with exactly one [" (Unsaved)"], and this
    holds after any sequence of the two operations. *)
Theorem remember_and_forget_titles :
  (forall m id l v cleanup,
      str_truthy id = true ->
      D_by_node_id IT_WIN id m = Some l ->
      heap m !! l = Some v ->
      exists m' v',
        remember id cleanup m = (true, m')
        /\ heap m' !! l = Some v'
        /\ keep v' = VBool true
        /\ (cleanup = true -> forall t,
              raw_title v = VStr t ->
              raw_title v' = VStr (strip_markers t)
              /\ (plain_title t = true ->
                  has_trailing_markers (strip_markers t) = false)))
  /\ (forall m l v adjust,
      heap m !! l = Some v ->
      ty v = IT_WIN -> str_truthy (node_id v) = true ->
      exists m' v',
        mark_win_as_unsaved (Some l) adjust m = (true, m')
        /\ heap m' !! l = Some v'
        /\ keep v' = VBool false
        /\ (adjust = true -> forall t,
              raw_title v = VStr t ->
              raw_title v' = VStr (strip_markers t ++ unsaved_suffix)
              /\ (plain_title t = true ->
                  ends_with_one_marker (strip_markers t ++ unsaved_suffix)
                  = true)))
  /\ (forall m id l v t ops,
      str_truthy id = true ->
      D_by_node_id IT_WIN id m = Some l ->
      heap m !! l = Some v ->
      node_id v = id -> ty v = IT_WIN ->
      raw_title v = VStr t -> plain_title t = true ->
      exists v' t',
        heap (run_ops id l ops m) !! l = Some v'
        /\ raw_title v' = VStr t'
        /\ plain_title t' = true
        /\ after_last_op ops t' (keep v')).
Proof.
  split; [| split].
  - intros m id l v cleanup Hs Hl Hv.
    destruct (remember_run m id l v cleanup Hs Hl Hv) as (m' & Hrun & Hv' & _).
    exists m', (remembered cleanup v).
    split; [exact Hrun |]. split; [exact Hv' |].
    split; [unfold remembered; destruct cleanup; reflexivity |].
    intros -> t Ht. destruct (remembered_title v t Ht) as (Ht' & _).
    split; [exact Ht' |]. intros Hplain.
    unfold has_trailing_markers.
    rewrite (proj1 (strip_plain t Hplain)). reflexivity.
  - intros m l v adjust Hv Hty Hs.
    destruct (mark_win_as_unsaved_run m l v adjust Hv Hty Hs)
      as (m' & Hrun & Hv' & _).
    exists m', (marked_unsaved adjust v).
    split; [exact Hrun |]. split; [exact Hv' |].
    split.
    { unfold marked_unsaved.
      destruct (adjust && negb (bool_decide (raw_title v = VNull)));
        reflexivity. }
    intros -> t Ht. destruct (marked_unsaved_title v t Ht) as (Ht' & _).
    split; [exact Ht' |]. intros Hplain.
    apply one_marker_after. exact (proj1 (strip_plain t Hplain)).
  - intros m id l v t ops Hs Hl Hv Hid Hty Ht Hplain.
    destruct (run_ops_plain ops m id l v t Hs Hl Hv Hid Hty Ht Hplain)
      as (v' & t' & _ & Hv' & _ & _ & Ht' & Hplain' & Hlast).
    exists v', t'. auto.
Qed.

(** C8 as stated fails for a custom title that is empty: the marker that
    [mark_win_as_unsaved] appends to it starts at the first character, so
    [remember] does not strip it and the next [mark_win_as_unsaved] appends
    a second one. It also fails at once for the title [" (Unsaved)"]. *)
Lemma unsaved_markers_accumulate :
  (raw_title <$> heap (titled []) !! 0%nat = Some (VStr [])
   /\ keep <$> heap (titled []) !! 0%nat = Some VUndef
   /\ raw_title <$> heap (run_ops Scenario.win1 0%nat
                            [OpMarkUnsaved; OpRemember] (titled []))
                      !! 0%nat
      = Some (VStr (lit " (Unsaved)"))
   /\ has_trailing_markers (lit " (Unsaved)") = true
   /\ raw_title <$> heap (run_ops Scenario.win1 0%nat
                            [OpMarkUnsaved; OpRemember; OpMarkUnsaved]
                            (titled [])) !! 0%nat
      = Some (VStr (lit " (Unsaved) (Unsaved)")))
  /\ raw_title <$> heap (run_ops Scenario.win1 0%nat [OpMarkUnsaved]
                           (titled (lit " (Unsaved)"))) !! 0%nat
     = Some (VStr (lit " (Unsaved) (Unsaved)"))
  /\ ends_with_one_marker (lit " (Unsaved) (Unsaved)") = false.
Proof. conjs; vm_compute; reflexivity. Qed.

(** The hypotheses of C8 at the window of the running example, titled
    ["Foo (Unsaved) (Unsaved)"]. *)
Lemma remember_and_forget_titles_witness :
  exists v,
    str_truthy Scenario.win1 = true
    /\ D_by_node_id IT_WIN Scenario.win1
         (titled (lit "Foo (Unsaved) (Unsaved)")) = Some 0%nat
    /\ heap (titled (lit "Foo (Unsaved) (Unsaved)")) !! 0%nat = Some v
    /\ node_id v = Scenario.win1 /\ ty v = IT_WIN
    /\ raw_title v = VStr (lit "Foo (Unsaved) (Unsaved)")
    /\ plain_title (lit "Foo (Unsaved) (Unsaved)") = true
    /\ (exists m' v',
          remember Scenario.win1 true (titled (lit "Foo (Unsaved) (Unsaved)"))
          = (true, m')
          /\ heap m' !! 0%nat = Some v' /\ raw_title v' = VStr (lit "Foo"))
    /\ (exists m' v',
          mark_win_as_unsaved (Some 0%nat) true
            (titled (lit "Foo (Unsaved) (Unsaved)")) = (true, m')
          /\ heap m' !! 0%nat = Some v'
          /\ raw_title v' = VStr (lit "Foo (Unsaved)"))
    /\ (exists v' t',
          heap (run_ops Scenario.win1 0%nat
                  [OpRemember; OpMarkUnsaved; OpMarkUnsaved]
                  (titled (lit "Foo (Unsaved) (Unsaved)"))) !! 0%nat = Some v'
          /\ raw_title v' = VStr t'
          /\ ends_with_one_marker t' = true).
Proof.
  destruct remember_and_forget_titles as (Hrem & Hmark & Hops).
  set (m := titled (lit "Foo (Unsaved) (Unsaved)")).
  assert (Hl : D_by_node_id IT_WIN Scenario.win1 m = Some 0%nat)
    by (vm_compute; reflexivity).
  assert (Hv : exists v,
    heap m !! 0%nat = Some v
    /\ node_id v = Scenario.win1 /\ ty v = IT_WIN
    /\ raw_title v = VStr (lit "Foo (Unsaved) (Unsaved)")).
  { eexists. split; [vm_compute; reflexivity |].
    split; [reflexivity |]. split; reflexivity. }
  destruct Hv as (v & Hv & Hid & Hty & Ht).
  assert (Hplain : plain_title (lit "Foo (Unsaved) (Unsaved)") = true)
    by (vm_compute; reflexivity).
  assert (Hs : str_truthy (node_id v) = true) by (rewrite Hid; reflexivity).
  exists v.
  split; [reflexivity |]. split; [exact Hl |]. split; [exact Hv |].
  split; [exact Hid |]. split; [exact Hty |]. split; [exact Ht |].
  split; [exact Hplain |].
  split; [| split].
  - destruct (Hrem m Scenario.win1 0%nat v true eq_refl Hl Hv)
      as (m' & v' & Hrun & Hv' & _ & Htitle).
    exists m', v'. split; [exact Hrun |]. split; [exact Hv' |].
    rewrite (proj1 (Htitle eq_refl _ Ht)). vm_compute. reflexivity.
  - destruct (Hmark m 0%nat v true Hv Hty Hs)
      as (m' & v' & Hrun & Hv' & _ & Htitle).
    exists m', v'. split; [exact Hrun |]. split; [exact Hv' |].
    rewrite (proj1 (Htitle eq_refl _ Ht)). vm_compute. reflexivity.
  - destruct (Hops m Scenario.win1 0%nat v _
                [OpRemember; OpMarkUnsaved; OpMarkUnsaved]
                eq_refl Hl Hv Hid Hty Ht Hplain)
      as (v' & t' & Hv' & Ht' & _ & Hlast).
    exists v', t'. split; [exact Hv' |]. split; [exact Ht' |].
    exact (proj1 Hlast).
Defined.

(** * Further properties of the routines *)

(** ** What the tree operations leave alone *)

Section TreeFields.

Lemma vn_node_id_any_type x ty ty' m :
  vn_node_id (vn_by_vorny x ty m) = vn_node_id (vn_by_vorny x ty' m).
Proof.
  destruct x as [v | id parent | l]; simpl; [| reflexivity | reflexivity].
  destruct (negb (truthy v)); [reflexivity |].
  destruct v; reflexivity.
Qed.

Lemma vn_by_vorny_with_tree x ty f m :
  vn_by_vorny x ty (with_tree f m) = vn_by_vorny x ty m.
Proof. reflexivity. Qed.

Lemma lookup_alter_node_proj {A} (p : tnode -> A) f id t i :
  (forall n, p (f n) = p n) ->
  p <$> nodes (alter_node f id t) !! i = p <$> nodes t !! i.
Proof.
  intros Hp. simpl. destruct (decide (id = i)) as [-> |].
  - rewrite lookup_alter_eq. destruct (nodes t !! i); simpl; [| reflexivity].
    rewrite Hp. reflexivity.
  - rewrite lookup_alter_ne by auto. reflexivity.
Qed.

Lemma refresh_label_proj {A} (p : tnode -> A) id m i :
  (forall x n, p (set_text x n) = p n) ->
  p <$> nodes (treeobj (snd (refresh_label id m))) !! i
  = p <$> nodes (treeobj m) !! i.
Proof.
  intros Hp. unfold refresh_label.
  destruct (negb (str_truthy id)); [reflexivity |].
  destruct (D_val_by_node_id id m) as [l |]; [| reflexivity].
  destruct (heap m !! l) as [val |]; [| reflexivity].
  unfold rename_node. destruct (nodes (treeobj m) !! id); [| reflexivity].
  simpl. apply (lookup_alter_node_proj p). intros n. apply Hp.
Qed.

Lemma refresh_icon_proj {A} (p : tnode -> A) x m i :
  (forall c n, p (set_node_icon c n) = p n) ->
  p <$> nodes (treeobj (snd (refresh_icon x m))) !! i
  = p <$> nodes (treeobj m) !! i.
Proof.
  intros Hp. unfold refresh_icon.
  destruct (vn_val (vn_by_vorny x None m)) as [l |]; [| reflexivity].
  destruct (get_node _ (treeobj m)); [| reflexivity].
  destruct (negb _); [reflexivity |].
  destruct (heap m !! l) as [val |]; [| reflexivity].
  simpl. apply (lookup_alter_node_proj p). intros n. apply Hp.
Qed.

Lemma has_multitype_spec id tag t :
  has_multitype id tag t = true
  <-> exists nd, nodes t !! id = Some nd /\ tag ∈ n_types nd.
Proof.
  unfold has_multitype. destruct (nodes t !! id) as [nd |].
  - rewrite bool_decide_eq_true. split; [eauto | intros (? & [= <-] & ?); auto].
  - split; [discriminate | intros (? & ? & _); discriminate].
Qed.

End TreeFields.


Section Subtypes.

(** A loop that re-tags the node [id] once for each of [tys]. *)
Lemma retag_fold (g : jsstring -> gset jsstring -> gset jsstring) id tys m i :
  nodes (treeobj
    (fold_left (fun m ty =>
       with_tree (alter_node (fun n => set_types (g ty (n_types n)) n) id) m)
       tys m)) !! i
  = (fun n => if bool_decide (i = id)
              then set_types (fold_left (fun S ty => g ty S) tys (n_types n)) n
              else n) <$> nodes (treeobj m) !! i.
Proof.
  revert m. induction tys as [| ty tys IH]; intros m; simpl.
  - destruct (nodes (treeobj m) !! i) as [n |]; simpl; [| reflexivity].
    destruct (bool_decide (i = id)); [destruct n |]; reflexivity.
  - rewrite IH. simpl. destruct (decide (id = i)) as [-> |].
    + rewrite lookup_alter_eq.
      destruct (nodes (treeobj m) !! i) as [n |]; simpl; [| reflexivity].
      rewrite bool_decide_eq_true_2 by reflexivity. reflexivity.
    + rewrite lookup_alter_ne by auto.
      destruct (nodes (treeobj m) !! i) as [n0 |]; simpl; [| reflexivity].
      rewrite bool_decide_eq_false_2 by auto. reflexivity.
Qed.

Lemma retag_fold_rest (g : jsstring -> gset jsstring -> gset jsstring) id tys m :
  let m' := fold_left (fun m ty =>
       with_tree (alter_node (fun n => set_types (g ty (n_types n)) n) id) m)
       tys m in
  heap m' = heap m /\ windows m' = windows m /\ tabs m' = tabs m
  /\ log m' = log m /\ cnt (treeobj m') = cnt (treeobj m).
Proof.
  revert m. induction tys as [| ty tys IH]; intros m; simpl; [auto 10 |].
  exact (IH (with_tree
    (alter_node (fun n => set_types (g ty (n_types n)) n) id) m)).
Qed.

Lemma elem_of_tags_added (tys : list jsstring) (S : gset jsstring) ty :
  ty ∈ fold_left (fun S ty => {[ty]} ∪ S) tys S <-> ty ∈ tys \/ ty ∈ S.
Proof.
  revert S. induction tys as [| t tys IH]; intros S; simpl.
  - split; [auto | intros [H | H]; [inversion H | exact H]].
  - rewrite IH, elem_of_cons, elem_of_union, elem_of_singleton. tauto.
Qed.

Lemma elem_of_tags_removed (tys : list jsstring) (S : gset jsstring) ty :
  ty ∈ fold_left (fun S ty => S ∖ {[ty]}) tys S <-> (ty ∉ tys) /\ ty ∈ S.
Proof.
  revert S. induction tys as [| t tys IH]; intros S; simpl.
  - split; [intros H; split; [intros H'; inversion H' | exact H] | tauto].
  - rewrite IH, elem_of_cons, elem_of_difference, elem_of_singleton. tauto.
Qed.

Lemma has_subtype_spec x tys m :
  has_subtype x tys m = true
  <-> vorny_truthy x = true /\ tys <> []
      /\ str_truthy (vn_node_id (vn_by_vorny x None m)) = true
      /\ exists nd,
           get_node (vn_node_id (vn_by_vorny x None m)) (treeobj m) = Some nd
           /\ forall ty, ty ∈ tys -> ty ∈ n_types nd.
Proof.
  unfold has_subtype, get_node.
  destruct (vorny_truthy x); simpl; [| split; [discriminate | tauto]].
  destruct tys as [| ty0 tys]; simpl; [split; [discriminate | tauto] |].
  destruct (str_truthy _); simpl;
    [| split; [discriminate | intros (_ & _ & ? & _); discriminate]].
  rewrite andb_true_iff, forallb_forall, has_multitype_spec. split.
  - intros [(nd & Hnd & H0) Hall]. do 3 (split; [done |]).
    exists nd. split; [exact Hnd |]. intros ty [-> | Hin]%elem_of_cons; [exact H0 |].
    apply list_elem_of_In, Hall, has_multitype_spec in Hin.
    destruct Hin as (nd' & Hnd' & Hty). congruence.
  - intros (_ & _ & _ & nd & Hnd & Hall). split.
    + exists nd. split; [exact Hnd |]. apply Hall. left.
    + intros ty Hin. apply has_multitype_spec. exists nd.
      split; [exact Hnd |]. apply Hall. right. apply list_elem_of_In. exact Hin.
Qed.

End Subtypes.


Section SubtypeFacts.

Lemma vn_by_vorny_ext x ty m m' :
  heap m' = heap m -> windows m' = windows m -> tabs m' = tabs m ->
  vn_by_vorny x ty m' = vn_by_vorny x ty m.
Proof.
  destruct m, m'; simpl. intros -> -> ->. reflexivity.
Qed.

Lemma length_lt_1 {A} (l : list A) : l <> [] -> (length l <? 1)%nat = false.
Proof. destruct l; [congruence | reflexivity]. Qed.

Lemma model_eq m m' :
  heap m' = heap m -> windows m' = windows m -> tabs m' = tabs m ->
  log m' = log m -> cnt (treeobj m') = cnt (treeobj m) ->
  (forall i, nodes (treeobj m') !! i = nodes (treeobj m) !! i) ->
  m' = m.
Proof.
  destruct m as [h w t [ns c] lg], m' as [h' w' t' [ns' c'] lg']; simpl.
  intros -> -> -> -> -> Hn. f_equal. f_equal. apply map_eq. exact Hn.
Qed.

Lemma retag_fold_same_but_tags
    (g : jsstring -> gset jsstring -> gset jsstring) id tys m :
  same_but_tags id m
    (fold_left (fun m ty =>
       with_tree (alter_node (fun n => set_types (g ty (n_types n)) n) id) m)
       tys m).
Proof.
  destruct (retag_fold_rest g id tys m) as (Hh & Hw & Ht & Hl & Hc).
  unfold same_but_tags. do 5 (split; [assumption |]). split.
  - intros i Hne. rewrite retag_fold.
    destruct (nodes (treeobj m) !! i) as [n |]; simpl; [| reflexivity].
    rewrite bool_decide_eq_false_2 by exact Hne. reflexivity.
  - rewrite retag_fold.
    destruct (nodes (treeobj m) !! id) as [n |]; simpl; [| reflexivity].
    rewrite bool_decide_eq_true_2 by reflexivity. reflexivity.
Qed.

Lemma same_but_tags_refl id m : same_but_tags id m m.
Proof. unfold same_but_tags. auto 10. Qed.

Lemma subtype_ops_frame x tys m b m' :
  add_subtype x tys m = (b, m') \/ del_subtype x tys m = (b, m') ->
  same_but_tags (vn_node_id (vn_by_vorny x None m)) m m'.
Proof.
  unfold add_subtype, del_subtype.
  destruct (negb (vorny_truthy x));
    [intros [[= _ <-] | [= _ <-]]; apply same_but_tags_refl |].
  destruct (length tys <? 1)%nat;
    [intros [[= _ <-] | [= _ <-]]; apply same_but_tags_refl |].
  destruct (negb (str_truthy _));
    [intros [[= _ <-] | [= _ <-]]; apply same_but_tags_refl |].
  intros [[= _ <-] | [= _ <-]].
  - apply (retag_fold_same_but_tags (fun ty S => {[ty]} ∪ S)).
  - apply (retag_fold_same_but_tags (fun ty S => S ∖ {[ty]})).
Qed.

End SubtypeFacts.

(** X1. [add_subtype] on a truthy reference whose node is in the tree, with
    at least one type, succeeds; afterwards [has_subtype] holds of the types
    added, and of every list of types of which it held before. *)
Theorem add_subtype_then_has_subtype x tys m :
  vorny_truthy x = true -> tys <> [] ->
  str_truthy (vn_node_id (vn_by_vorny x None m)) = true ->
  is_Some (get_node (vn_node_id (vn_by_vorny x None m)) (treeobj m)) ->
  exists m', add_subtype x tys m = (true, m')
             /\ has_subtype x tys m' = true
             /\ forall tys', has_subtype x tys' m = true ->
                             has_subtype x tys' m' = true.
Proof.
  intros Hx Hne Hs [nd Hnd].
  unfold add_subtype. rewrite Hx, (length_lt_1 _ Hne), Hs. simpl.
  set (id := vn_node_id (vn_by_vorny x None m)) in *.
  set (g := fun (ty : jsstring) (S : gset jsstring) => {[ty]} ∪ S).
  eexists. split; [reflexivity |].
  change (fold_left _ tys m) with
    (fold_left (fun m ty =>
       with_tree (alter_node (fun n => set_types (g ty (n_types n)) n) id) m)
       tys m).
  set (m' := fold_left _ tys m).
  destruct (retag_fold_rest g id tys m) as (Hh & Hw & Ht & _ & _).
  fold m' in Hh, Hw, Ht.
  assert (Hvn : vn_by_vorny x None m' = vn_by_vorny x None m)
    by (apply vn_by_vorny_ext; assumption).
  assert (Hnd' : get_node id (treeobj m')
                 = Some (set_types
                     (fold_left (fun S ty => g ty S) tys (n_types nd)) nd)).
  { unfold get_node, m'. rewrite retag_fold. unfold get_node in Hnd.
    rewrite Hnd. simpl. rewrite bool_decide_eq_true_2 by reflexivity.
    reflexivity. }
  split.
  - apply has_subtype_spec. rewrite Hvn. fold id.
    do 3 (split; [assumption |]). eexists. split; [exact Hnd' |].
    intros ty Hty. simpl. apply elem_of_tags_added. left. exact Hty.
  - intros tys' (_ & Hne' & _ & nd0 & Hnd0 & Hall)%has_subtype_spec.
    fold id in Hnd0. assert (nd0 = nd) as -> by congruence.
    apply has_subtype_spec. rewrite Hvn. fold id.
    do 3 (split; [assumption |]). eexists. split; [exact Hnd' |].
    intros ty Hty. simpl. apply elem_of_tags_added. right. auto.
Qed.

Lemma add_subtype_then_has_subtype_witness :
  exists m',
    add_subtype Tagged.win Tagged.two_tags Scenario.rezzed = (true, m')
    /\ has_subtype Tagged.win Tagged.two_tags m' = true
    /\ forall tys', has_subtype Tagged.win tys' Scenario.rezzed = true ->
                    has_subtype Tagged.win tys' m' = true.
Proof.
  apply add_subtype_then_has_subtype.
  - reflexivity.
  - discriminate.
  - vm_compute. reflexivity.
  - vm_compute. eexists. reflexivity.
Defined.

(** X2. After a successful [del_subtype], [has_subtype] fails for every list
    of types that names one of the types removed, and still holds for the
    lists that name none of them and of which it held before. *)
Theorem del_subtype_then_not_has_subtype x tys m m' :
  del_subtype x tys m = (true, m') ->
  (forall ty tys', ty ∈ tys -> ty ∈ tys' -> has_subtype x tys' m' = false)
  /\ (forall tys', has_subtype x tys' m = true ->
                   (forall ty, ty ∈ tys' -> ty ∉ tys) ->
                   has_subtype x tys' m' = true).
Proof.
  unfold del_subtype.
  destruct (vorny_truthy x) eqn:Hx; simpl; [| discriminate].
  destruct (length tys <? 1)%nat; [discriminate |].
  destruct (str_truthy _) eqn:Hs; simpl; [| discriminate].
  set (id := vn_node_id (vn_by_vorny x None m)) in *.
  set (g := fun (ty : jsstring) (S : gset jsstring) => S ∖ {[ty]}).
  change (fold_left _ tys m) with
    (fold_left (fun m ty =>
       with_tree (alter_node (fun n => set_types (g ty (n_types n)) n) id) m)
       tys m).
  intros [= <-]. set (m' := fold_left _ tys m).
  destruct (retag_fold_rest g id tys m) as (Hh & Hw & Ht & _ & _).
  fold m' in Hh, Hw, Ht.
  assert (Hvn : vn_by_vorny x None m' = vn_by_vorny x None m)
    by (apply vn_by_vorny_ext; assumption).
  assert (Hnd' : forall nd, get_node id (treeobj m) = Some nd ->
             get_node id (treeobj m')
             = Some (set_types
                 (fold_left (fun S ty => g ty S) tys (n_types nd)) nd)).
  { intros nd Hnd. unfold get_node, m'. rewrite retag_fold.
    unfold get_node in Hnd. rewrite Hnd. simpl.
    rewrite bool_decide_eq_true_2 by reflexivity. reflexivity. }
  split.
  - intros ty tys' Hty Hty'.
    destruct (has_subtype x tys' m') eqn:Hhas; [| reflexivity].
    apply has_subtype_spec in Hhas as (_ & _ & _ & nd' & Hn' & Hall).
    rewrite Hvn in Hn'. fold id in Hn'.
    destruct (get_node id (treeobj m)) as [nd |] eqn:Hnd.
    + rewrite (Hnd' nd eq_refl) in Hn'. injection Hn' as <-.
      apply Hall in Hty'. simpl in Hty'.
      apply elem_of_tags_removed in Hty' as [Hno _]. contradiction.
    + exfalso. unfold get_node, m' in Hn'. rewrite retag_fold in Hn'.
      unfold get_node in Hnd. rewrite Hnd in Hn'. discriminate.
  - intros tys' (_ & Hne' & _ & nd & Hnd & Hall)%has_subtype_spec Hout.
    fold id in Hnd. apply has_subtype_spec. rewrite Hvn. fold id.
    do 3 (split; [assumption |]). eexists. split; [exact (Hnd' nd Hnd) |].
    intros ty Hty. simpl. apply elem_of_tags_removed. auto.
Qed.


Lemma del_subtype_then_not_has_subtype_witness :
  (forall ty tys', ty ∈ [K.NST_RECOVERED] -> ty ∈ tys' ->
                   has_subtype Tagged.win tys' Tagged.cleared = false)
  /\ (forall tys', has_subtype Tagged.win tys' Tagged.recovered = true ->
                   (forall ty, ty ∈ tys' -> ty ∉ [K.NST_RECOVERED]) ->
                   has_subtype Tagged.win tys' Tagged.cleared = true).
Proof.
  apply (del_subtype_then_not_has_subtype Tagged.win [K.NST_RECOVERED]
           Tagged.recovered Tagged.cleared).
  vm_compute. reflexivity.
Defined.

(** X3. [add_subtype] and [del_subtype], whatever they return, change nothing
    but the tags of the node of the item: the records, both stores, the log
    and all other nodes are as before, and the node keeps its parent,
    children, label, icon and expansion. *)
Theorem subtype_ops_touch_only_tags x tys m b m' :
  add_subtype x tys m = (b, m') \/ del_subtype x tys m = (b, m') ->
  same_but_tags (vn_node_id (vn_by_vorny x None m)) m m'.
Proof. apply subtype_ops_frame. Qed.

Lemma subtype_ops_touch_only_tags_witness :
  same_but_tags (vn_node_id (vn_by_vorny Tagged.win None Scenario.rezzed))
    Scenario.rezzed Tagged.recovered.
Proof.
  apply (subtype_ops_touch_only_tags Tagged.win Tagged.two_tags
           Scenario.rezzed true Tagged.recovered).
  left. vm_compute. reflexivity.
Defined.

(** X4. Adding types that the node did not carry and then removing the same
    types restores the model: [del_subtype] after [add_subtype] succeeds and
    gives back the state before the two calls. *)
Theorem add_then_del_subtype_restores x tys m m1 :
  add_subtype x tys m = (true, m1) ->
  (forall ty, ty ∈ tys -> has_subtype x [ty] m = false) ->
  del_subtype x tys m1 = (true, m).
Proof.
  intros Hadd Hfresh. pose proof Hadd as Hadd'.
  unfold add_subtype in Hadd.
  destruct (vorny_truthy x) eqn:Hx; simpl in Hadd; [| discriminate].
  destruct (length tys <? 1)%nat eqn:Hlen; [discriminate |].
  destruct (str_truthy _) eqn:Hs; simpl in Hadd; [| discriminate].
  set (id := vn_node_id (vn_by_vorny x None m)) in *.
  pose proof (subtype_ops_frame x tys m true m1 (or_introl Hadd'))
    as (Hh & Hw & Ht & Hl & Hc & Hother & Hid).
  fold id in Hother, Hid.
  assert (Hvn : vn_by_vorny x None m1 = vn_by_vorny x None m)
    by (apply vn_by_vorny_ext; assumption).
  unfold del_subtype. rewrite Hx, Hlen, Hvn. fold id. rewrite Hs. simpl.
  f_equal.
  set (ga := fun (ty : jsstring) (S : gset jsstring) => {[ty]} ∪ S).
  set (gd := fun (ty : jsstring) (S : gset jsstring) => S ∖ {[ty]}).
  change (fold_left _ tys m1) with
    (fold_left (fun m ty =>
       with_tree (alter_node (fun n => set_types (gd ty (n_types n)) n) id) m)
       tys m1).
  destruct (retag_fold_rest gd id tys m1) as (Hh2 & Hw2 & Ht2 & Hl2 & Hc2).
  apply model_eq; try congruence.
  intros i. rewrite retag_fold.
  injection Hadd as <-.
  change (fold_left _ tys m) with
    (fold_left (fun m ty =>
       with_tree (alter_node (fun n => set_types (ga ty (n_types n)) n) id) m)
       tys m).
  rewrite retag_fold.
  destruct (nodes (treeobj m) !! i) as [n |] eqn:Hn; simpl; [| reflexivity].
  destruct (bool_decide (i = id)) eqn:Hi; [| reflexivity].
  apply bool_decide_eq_true in Hi. subst i. f_equal.
  assert (HS : fold_left (fun S ty => gd ty S) tys
                 (fold_left (fun S ty => ga ty S) tys (n_types n))
               = n_types n).
  { unfold gd, ga. cbv beta. apply set_eq. intros ty.
    rewrite elem_of_tags_removed, elem_of_tags_added. split; [tauto |].
    intros Hty. split; [| tauto]. intros Hin.
    specialize (Hfresh ty Hin).
    assert (has_subtype x [ty] m = true); [| congruence].
    apply has_subtype_spec. fold id.
    split; [assumption |]. split; [discriminate |]. split; [assumption |].
    exists n. split; [exact Hn |]. intros ty' ->%list_elem_of_singleton.
    exact Hty. }
  simpl. rewrite HS. destruct n; reflexivity.
Qed.

Lemma add_then_del_subtype_restores_witness :
  del_subtype Tagged.win Tagged.two_tags Tagged.recovered
  = (true, Scenario.rezzed).
Proof.
  apply add_then_del_subtype_restores.
  - vm_compute. reflexivity.
  - intros ty Hty. unfold Tagged.two_tags in Hty.
    apply elem_of_cons in Hty as [-> | Hty]; [vm_compute; reflexivity |].
    apply list_elem_of_singleton in Hty as ->. vm_compute. reflexivity.
Defined.

(** ** What a call that returns true, or false, has done *)

Section Outcomes.

Lemma resolved_intro x ty m l v :
  vorny_truthy x = true ->
  vn_val (vn_by_vorny x (Some ty) m) = Some l ->
  heap m !! l = Some v ->
  str_truthy (vn_node_id (vn_by_vorny x (Some ty) m)) = true ->
  resolved x ty m = Some (l, v, vn_node_id (vn_by_vorny x (Some ty) m)).
Proof.
  intros Hx Hl Hv Hs. unfold resolved. rewrite Hx, Hl, Hv, Hs. reflexivity.
Qed.

Lemma markWinAsOpen_true_inv x cwin m m' :
  markWinAsOpen x cwin m = (true, m') ->
  exists cw l v id nd,
    cwin = Some cw /\ truthy (cw_id cw) = true
    /\ resolved x IT_WIN m = Some (l, v, id)
    /\ isOpen v = false /\ win v = None
    /\ get_node id (treeobj m) = Some nd
    /\ m' = snd (refresh_icon (VyVal l)
              (snd (refresh_label id
                (with_tree (add_multitype id K.NST_OPEN)
                  (assign l (set_isOpen true)
                    (assign l (set_win (Some cw))
                      (D_change_key IT_WIN l F_win_id (cw_id cw)
                        (with_tree (open_node id) m)))))))).
Proof.
  unfold markWinAsOpen. destruct cwin as [cw |]; [| discriminate].
  destruct (vorny_truthy x) eqn:Hx; [| discriminate].
  destruct (truthy (cw_id cw)) eqn:Hcw; [| discriminate].
  cbn [negb orb].
  destruct (vn_val _) as [l |] eqn:Hl; [| discriminate].
  destruct (heap m !! l) as [v |] eqn:Hv; [| discriminate].
  destruct (str_truthy _) eqn:Hs; [| discriminate]. cbn [negb].
  destruct (isOpen v) eqn:Ho; [discriminate |].
  destruct (win v) as [w |] eqn:Hw; [discriminate |]. cbn [orb handle_truthy].
  destruct (get_node _ (treeobj m)) as [nd |] eqn:Hnd; [| discriminate].
  intros [= <-].
  exists cw, l, v, (vn_node_id (vn_by_vorny x (Some IT_WIN) m)), nd.
  split; [reflexivity |]. split; [exact Hcw |].
  split; [apply resolved_intro; assumption |].
  split; [exact Ho |]. split; [exact Hw |].
  split; [exact Hnd |]. reflexivity.
Qed.

Lemma markWinAsOpen_false x cwin m m' :
  markWinAsOpen x cwin m = (false, m') ->
  m' = m \/ exists msg l, m' = log_info msg l m.
Proof.
  unfold markWinAsOpen. destruct cwin as [cw |]; [| intros [= <-]; auto].
  destruct (negb (vorny_truthy x) || negb (truthy (cw_id cw)));
    [intros [= <-]; auto |].
  destruct (vn_val _) as [l |]; [| intros [= <-]; auto].
  destruct (heap m !! l) as [v |]; [| intros [= <-]; auto].
  destruct (negb (str_truthy _)); [intros [= <-]; auto |].
  destruct (isOpen v || handle_truthy (win v)); [intros [= <-]; eauto |].
  destruct (get_node _ (treeobj m)) as [nd |]; [discriminate | intros [= <-]; auto].
Qed.

Lemma markTabAsOpen_true_inv x ctab m m' :
  markTabAsOpen x ctab m = (true, m') ->
  exists ct l v id nd,
    ctab = Some ct /\ truthy (ct_id ct) = true
    /\ resolved x IT_TAB m = Some (l, v, id)
    /\ isOpen v = false /\ tab v = None
    /\ get_node id (treeobj m) = Some nd
    /\ m' = (match n_parent nd with
             | Some p => with_tree (open_node p)
             | None => fun m => m
             end)
            (snd (refresh_icon (VyVal l)
              (snd (refresh_label id
                (with_tree (add_multitype id K.NST_OPEN)
                  (assign l (set_isPinned (VBool (truthy (ct_pinned ct))))
                  (assign l (set_raw_favicon_url (ct_favIconUrl ct))
                  (assign l (set_isOpen true)
                  (assign l (set_raw_title (ct_title ct))
                  (assign l (set_raw_url (ct_url ct))
                  (assign l (set_tab (Some ct))
                  (assign l (set_index (ct_index ct))
                  (assign l (set_win_id (ct_windowId ct))
                    (D_change_key IT_TAB l F_tab_id (ct_id ct) m)))))))))))))).
Proof.
  unfold markTabAsOpen. destruct ctab as [ct |]; [| discriminate].
  destruct (vorny_truthy x) eqn:Hx; [| discriminate].
  destruct (truthy (ct_id ct)) eqn:Hct; [| discriminate].
  cbn [negb orb].
  destruct (vn_val _) as [l |] eqn:Hl; [| discriminate].
  destruct (heap m !! l) as [v |] eqn:Hv; [| discriminate].
  destruct (str_truthy _) eqn:Hs; [| discriminate]. cbn [negb].
  destruct (isOpen v) eqn:Ho; [discriminate |].
  destruct (tab v) as [w |] eqn:Hw; [discriminate |]. cbn [orb handle_truthy].
  destruct (get_node _ (treeobj m)) as [nd |] eqn:Hnd; [| discriminate].
  intros [= <-].
  exists ct, l, v, (vn_node_id (vn_by_vorny x (Some IT_TAB) m)), nd.
  split; [reflexivity |]. split; [exact Hct |].
  split; [apply resolved_intro; assumption |].
  split; [exact Ho |]. split; [exact Hw |].
  split; [exact Hnd |]. destruct (n_parent nd); reflexivity.
Qed.

Lemma markTabAsOpen_false x ctab m m' :
  markTabAsOpen x ctab m = (false, m') ->
  m' = m \/ exists msg l, m' = log_info msg l m.
Proof.
  unfold markTabAsOpen. destruct ctab as [ct |]; [| intros [= <-]; auto].
  destruct (negb (vorny_truthy x) || negb (truthy (ct_id ct)));
    [intros [= <-]; auto |].
  destruct (vn_val _) as [l |]; [| intros [= <-]; auto].
  destruct (heap m !! l) as [v |]; [| intros [= <-]; auto].
  destruct (negb (str_truthy _)); [intros [= <-]; auto |].
  destruct (isOpen v || handle_truthy (tab v)); [intros [= <-]; eauto |].
  destruct (get_node _ (treeobj m)) as [nd |]; [discriminate | intros [= <-]; auto].
Qed.

Lemma markWinAsClosed_true_inv x m m' :
  markWinAsClosed x m = (true, m') ->
  exists l v id cw,
    resolved x IT_WIN m = Some (l, v, id)
    /\ isOpen v = true /\ win v = Some cw
    /\ m' = snd (refresh_icon (VyVal l)
              (snd (refresh_label id
                (with_tree (del_multitype id K.NST_OPEN)
                  (assign l (set_isOpen false)
                    (assign l (set_win None)
                      (D_change_key IT_WIN l F_win_id K.NONE m))))))).
Proof.
  unfold markWinAsClosed.
  destruct (vorny_truthy x) eqn:Hx; [| discriminate]. cbn [negb].
  destruct (vn_val _) as [l |] eqn:Hl; [| discriminate].
  destruct (heap m !! l) as [v |] eqn:Hv; [| discriminate].
  destruct (str_truthy _) eqn:Hs; [| discriminate]. cbn [negb].
  destruct (isOpen v) eqn:Ho; [| discriminate].
  destruct (win v) as [cw |] eqn:Hw; [| discriminate].
  cbn [negb orb handle_truthy].
  intros [= <-].
  exists l, v, (vn_node_id (vn_by_vorny x (Some IT_WIN) m)), cw.
  split; [apply resolved_intro; assumption |].
  split; [exact Ho |]. split; [exact Hw |]. reflexivity.
Qed.

Lemma markWinAsClosed_false x m m' :
  markWinAsClosed x m = (false, m') ->
  m' = m \/ exists msg l, m' = log_info msg l m.
Proof.
  unfold markWinAsClosed.
  destruct (negb (vorny_truthy x)); [intros [= <-]; auto |].
  destruct (vn_val _) as [l |]; [| intros [= <-]; auto].
  destruct (heap m !! l) as [v |]; [| intros [= <-]; auto].
  destruct (negb (str_truthy _)); [intros [= <-]; auto |].
  destruct (negb (isOpen v) || negb (handle_truthy (win v)));
    [intros [= <-]; eauto | discriminate].
Qed.

Lemma markTabAsClosed_true_inv x m m' :
  markTabAsClosed x m = (true, m') ->
  exists l v id nd ct,
    resolved x IT_TAB m = Some (l, v, id)
    /\ get_node id (treeobj m) = Some nd
    /\ isOpen v = true /\ tab v = Some ct
    /\ m' = snd (refresh_label id
              (with_tree (del_multitype id K.NST_OPEN)
                (assign l (set_isOpen false)
                (assign l (set_tab None)
                (assign l (set_index K.NONE)
                (assign l (set_win_id K.NONE)
                  (D_change_key IT_TAB l F_tab_id K.NONE m))))))).
Proof.
  unfold markTabAsClosed.
  destruct (vorny_truthy x) eqn:Hx; [| discriminate]. cbn [negb].
  destruct (vn_val _) as [l |] eqn:Hl; [| discriminate].
  destruct (heap m !! l) as [v |] eqn:Hv; [| discriminate].
  destruct (str_truthy _) eqn:Hs; [| discriminate]. cbn [negb].
  destruct (get_node _ (treeobj m)) as [nd |] eqn:Hnd; [| discriminate].
  destruct (isOpen v) eqn:Ho; [| discriminate].
  destruct (tab v) as [ct |] eqn:Hw; [| discriminate].
  cbn [negb orb handle_truthy].
  intros [= <-].
  exists l, v, (vn_node_id (vn_by_vorny x (Some IT_TAB) m)), nd, ct.
  split; [apply resolved_intro; assumption |].
  split; [exact Hnd |].
  split; [exact Ho |]. split; [exact Hw |]. reflexivity.
Qed.

Lemma markTabAsClosed_false x m m' :
  markTabAsClosed x m = (false, m') ->
  m' = m \/ exists msg l, m' = log_info msg l m.
Proof.
  unfold markTabAsClosed.
  destruct (negb (vorny_truthy x)); [intros [= <-]; auto |].
  destruct (vn_val _) as [l |]; [| intros [= <-]; auto].
  destruct (heap m !! l) as [v |]; [| intros [= <-]; auto].
  destruct (negb (str_truthy _)); [intros [= <-]; auto |].
  destruct (get_node _ (treeobj m)) as [nd |]; [| intros [= <-]; auto].
  destruct (negb (isOpen v) || negb (handle_truthy (tab v)));
    [intros [= <-]; eauto | discriminate].
Qed.

Lemma remember_true_inv id c m m' :
  remember id c m = (true, m') ->
  exists l,
    str_truthy id = true /\ D_by_node_id IT_WIN id m = Some l
    /\ m' = snd (refresh_icon (VyVal l)
              (snd (refresh_label id
                ((if c
                  then assign l (fun val =>
                         set_raw_title
                           (remove_unsaved_markers (get_win_raw_text val)) val)
                  else fun m => m)
                 (with_tree (add_multitype id K.NST_SAVED)
                    (assign l (set_keep K.WIN_KEEP) m)))))).
Proof.
  unfold remember. destruct (str_truthy id) eqn:Hs; [| discriminate].
  cbn [negb].
  destruct (D_by_node_id IT_WIN id m) as [l |] eqn:Hl; [| discriminate].
  intros [= <-]. exists l. split; [reflexivity |]. split; [reflexivity |].
  destruct c; reflexivity.
Qed.

Lemma mark_win_as_unsaved_true_inv val a m m' :
  mark_win_as_unsaved val a m = (true, m') ->
  exists l v,
    val = Some l /\ heap m !! l = Some v /\ ty v = IT_WIN
    /\ str_truthy (node_id v) = true
    /\ m' = snd (refresh_icon (VyVal l)
              (snd (refresh_label (node_id v)
                ((if a && negb (bool_decide (raw_title v = VNull))
                  then assign l (set_raw_title
                         (js_concat (remove_unsaved_markers (raw_title v))
                                    (lit " (Unsaved)")))
                  else fun m => m)
                 (with_tree (del_multitype (node_id v) K.NST_SAVED)
                    (assign l (set_keep K.WIN_NOKEEP) m)))))).
Proof.
  unfold mark_win_as_unsaved. destruct val as [l |]; [| discriminate].
  destruct (heap m !! l) as [v |] eqn:Hv; [| discriminate].
  destruct (bool_decide (ty v = IT_WIN)) eqn:Hty; [| discriminate].
  destruct (str_truthy (node_id v)) eqn:Hs; [| discriminate].
  cbn [negb orb]. intros [= <-]. exists l, v.
  split; [reflexivity |]. split; [exact Hv |].
  split; [apply bool_decide_eq_true in Hty; exact Hty |].
  split; [exact Hs |].
  destruct (a && _); reflexivity.
Qed.

Lemma unchanged_refresh_label id m m' :
  refresh_label id m = (false, m') -> m' = m.
Proof.
  unfold refresh_label. destruct (negb (str_truthy id)); [intros [= <-]; auto |].
  destruct (D_val_by_node_id id m) as [l |]; [| intros [= <-]; auto].
  destruct (heap m !! l) as [val |]; [| intros [= <-]; auto].
  unfold rename_node. destruct (nodes (treeobj m) !! id); [discriminate |].
  intros [= <-]. destruct m; reflexivity.
Qed.

Lemma unchanged_refresh_icon x m m' :
  refresh_icon x m = (false, m') -> m' = m.
Proof.
  unfold refresh_icon.
  destruct (vn_val _) as [l |]; [| intros [= <-]; auto].
  destruct (get_node _ (treeobj m)); [| intros [= <-]; auto].
  destruct (negb _); [intros [= <-]; auto |].
  destruct (heap m !! l) as [val |]; [discriminate | intros [= <-]; auto].
Qed.

Lemma unchanged_eraseTab x m m' : eraseTab x m = (false, m') -> m' = m.
Proof.
  unfold eraseTab.
  destruct (vn_val _) as [l |]; [| intros [= <-]; auto].
  destruct (get_node _ (treeobj m)); [| intros [= <-]; auto].
  destruct (negb _); [intros [= <-]; auto | discriminate].
Qed.

Lemma unchanged_remember id c m m' : remember id c m = (false, m') -> m' = m.
Proof.
  unfold remember. destruct (negb (str_truthy id)); [intros [= <-]; auto |].
  destruct (D_by_node_id IT_WIN id m); [discriminate | intros [= <-]; auto].
Qed.

Lemma unchanged_mark_win_as_unsaved val a m m' :
  mark_win_as_unsaved val a m = (false, m') -> m' = m.
Proof.
  unfold mark_win_as_unsaved. destruct val as [l |]; [| intros [= <-]; auto].
  destruct (heap m !! l) as [v |]; [| intros [= <-]; auto].
  destruct (_ || _); [intros [= <-]; auto | discriminate].
Qed.

Lemma unchanged_subtype x tys m m' :
  add_subtype x tys m = (false, m') \/ del_subtype x tys m = (false, m') ->
  m' = m.
Proof.
  unfold add_subtype, del_subtype.
  destruct (negb (vorny_truthy x)); [intros [[= <-] | [= <-]]; auto |].
  destruct (length tys <? 1)%nat; [intros [[= <-] | [= <-]]; auto |].
  destruct (negb (str_truthy _)); [intros [[= <-] | [= <-]]; auto |].
  intros [|]; discriminate.
Qed.

End Outcomes.

Ltac tree_proj :=
  repeat first
    [ rewrite refresh_icon_proj by (intros; reflexivity)
    | rewrite refresh_label_proj by (intros; reflexivity) ];
  cbn [treeobj with_tree assign with_heap];
  rewrite ?treeobj_D_change_key;
  cbn [treeobj with_tree assign with_heap].

Section TagFacts.

Lemma lookup_alter_node f id t :
  nodes (alter_node f id t) !! id = f <$> nodes t !! id.
Proof. apply lookup_alter_eq. Qed.

Lemma resolved_node_id x ty m l v id :
  resolved x ty m = Some (l, v, id) ->
  vorny_truthy x = true /\ str_truthy id = true
  /\ vn_node_id (vn_by_vorny x None m) = id.
Proof.
  intros H. resolve_in H. split; [assumption |]. split; [assumption |].
  rewrite <- Hid. apply vn_node_id_any_type.
Qed.

Lemma has_subtype_same_items x tys m m' :
  same_items m m' ->
  has_subtype x tys m'
  = if negb (vorny_truthy x) then false
    else if (length tys <? 1)%nat then false
    else if negb (str_truthy (vn_node_id (vn_by_vorny x None m))) then false
    else forallb (fun ty =>
           has_multitype (vn_node_id (vn_by_vorny x None m)) ty (treeobj m'))
           tys.
Proof.
  intros Hsame. unfold has_subtype.
  rewrite (vn_by_vorny_same_items _ _ _ _ Hsame). reflexivity.
Qed.

Lemma has_multitype_proj id tag t :
  has_multitype id tag t
  = match n_types <$> nodes t !! id with
    | Some tags => bool_decide (tag ∈ tags)
    | None => false
    end.
Proof. unfold has_multitype. destruct (nodes t !! id); reflexivity. Qed.

Lemma has_subtype_one x tag m m' id :
  same_items m m' ->
  vorny_truthy x = true -> str_truthy id = true ->
  vn_node_id (vn_by_vorny x None m) = id ->
  has_subtype x [tag] m'
  = match n_types <$> nodes (treeobj m') !! id with
    | Some tags => bool_decide (tag ∈ tags)
    | None => false
    end.
Proof.
  intros Hsame Hx Hs Hid.
  rewrite (has_subtype_same_items _ _ m) by exact Hsame.
  rewrite Hx, Hid, Hs. simpl. rewrite andb_true_r. apply has_multitype_proj.
Qed.

Lemma types_after_add id tag t :
  n_types <$> nodes (add_multitype id tag t) !! id
  = (fun n => {[tag]} ∪ n_types n) <$> nodes t !! id.
Proof.
  unfold add_multitype. rewrite lookup_alter_node.
  destruct (nodes t !! id); reflexivity.
Qed.

Lemma types_after_del id tag t :
  n_types <$> nodes (del_multitype id tag t) !! id
  = (fun n => n_types n ∖ {[tag]}) <$> nodes t !! id.
Proof.
  unfold del_multitype. rewrite lookup_alter_node.
  destruct (nodes t !! id); reflexivity.
Qed.

Lemma types_after_open_node id i t :
  n_types <$> nodes (open_node id t) !! i = n_types <$> nodes t !! i.
Proof.
  apply (lookup_alter_node_proj n_types). intros n.
  destruct (n_children n); reflexivity.
Qed.

Lemma tagged_true (o : option tnode) tag :
  is_Some o ->
  match (fun n => {[tag]} ∪ n_types n) <$> o with
  | Some tags => bool_decide (tag ∈ tags)
  | None => false
  end = true.
Proof.
  intros [n Hn]. rewrite Hn. simpl. apply bool_decide_eq_true. set_solver.
Qed.

Lemma untagged_false (o : option tnode) tag :
  match (fun n => n_types n ∖ {[tag]}) <$> o with
  | Some tags => bool_decide (tag ∈ tags)
  | None => false
  end = false.
Proof.
  destruct o as [n |]; simpl; [| reflexivity].
  apply bool_decide_eq_false. intros [_ H]%elem_of_difference.
  apply H, elem_of_singleton. reflexivity.
Qed.

Lemma open_parent_types (p : option jsstring) m i :
  n_types <$> nodes (treeobj
     ((match p with
       | Some p => with_tree (open_node p)
       | None => fun m => m
       end) m)) !! i
  = n_types <$> nodes (treeobj m) !! i.
Proof. destruct p; [apply types_after_open_node | reflexivity]. Qed.

Lemma same_items_open_parent (p : option jsstring) m m1 :
  same_items m m1 ->
  same_items m ((match p with
                 | Some p => with_tree (open_node p)
                 | None => fun m => m
                 end) m1).
Proof. intros H. destruct p; [same_items_steps; exact H | exact H]. Qed.

Lemma vn_node_id_string id ty m :
  str_truthy id = true -> vn_node_id (vn_by_vorny (Vy (VStr id)) ty m) = id.
Proof.
  intros Hs. unfold vn_by_vorny. unfold str_truthy in Hs. rewrite Hs.
  reflexivity.
Qed.

Lemma vn_node_id_record l v m ty :
  heap m !! l = Some v -> str_truthy (node_id v) = true ->
  vn_node_id (vn_by_vorny (VyVal l) ty m) = node_id v.
Proof. intros Hv Hs. simpl. rewrite Hv, Hs. reflexivity. Qed.

End TagFacts.

(** X5. The [open] tag follows the marking: after [markWinAsOpen] or
    [markTabAsOpen] returns true, [has_subtype] of the item and [K.NST_OPEN]
    is true; after [markWinAsClosed] or [markTabAsClosed] returns true, it is
    false. *)
Theorem open_tag_tracks_marking :
  (forall x cwin m m',
      markWinAsOpen x cwin m = (true, m') ->
      has_subtype x [K.NST_OPEN] m' = true)
  /\ (forall x ctab m m',
      markTabAsOpen x ctab m = (true, m') ->
      has_subtype x [K.NST_OPEN] m' = true)
  /\ (forall x m m',
      markWinAsClosed x m = (true, m') ->
      has_subtype x [K.NST_OPEN] m' = false)
  /\ (forall x m m',
      markTabAsClosed x m = (true, m') ->
      has_subtype x [K.NST_OPEN] m' = false).
Proof.
  split; [| split; [| split]].
  - intros x cwin m m'
      (cw & l & v & id & nd & -> & Hcw & Hres & Ho & Hw & Hnd & Hm')
      %markWinAsOpen_true_inv.
    apply resolved_node_id in Hres as (Hx & Hs & Hid).
    rewrite (has_subtype_one x _ m m' id); try assumption;
      [| subst m'; same_items_steps].
    subst m'. tree_proj. rewrite types_after_add.
    apply tagged_true. unfold open_node. rewrite lookup_alter_node.
    unfold get_node in Hnd. rewrite Hnd. eexists. reflexivity.
  - intros x ctab m m'
      (ct & l & v & id & nd & -> & Hct & Hres & Ho & Hw & Hnd & Hm')
      %markTabAsOpen_true_inv.
    apply resolved_node_id in Hres as (Hx & Hs & Hid).
    rewrite (has_subtype_one x _ m m' id); try assumption;
      [| subst m'; apply same_items_open_parent; same_items_steps].
    subst m'. rewrite open_parent_types. tree_proj. rewrite types_after_add.
    apply tagged_true. exists nd. exact Hnd.
  - intros x m m' (l & v & id & cw & Hres & Ho & Hw & Hm')%markWinAsClosed_true_inv.
    apply resolved_node_id in Hres as (Hx & Hs & Hid).
    rewrite (has_subtype_one x _ m m' id); try assumption;
      [| subst m'; same_items_steps].
    subst m'. tree_proj. rewrite types_after_del. apply untagged_false.
  - intros x m m'
      (l & v & id & nd & ct & Hres & Hnd & Ho & Hw & Hm')%markTabAsClosed_true_inv.
    apply resolved_node_id in Hres as (Hx & Hs & Hid).
    rewrite (has_subtype_one x _ m m' id); try assumption;
      [| subst m'; same_items_steps].
    subst m'. tree_proj. rewrite types_after_del. apply untagged_false.
Qed.

Lemma open_tag_tracks_marking_witness :
  has_subtype (Vy (VStr Scenario.win1)) [K.NST_OPEN] Scenario.both_open = true
  /\ has_subtype (Vy (VStr Scenario.tab1)) [K.NST_OPEN] Scenario.tab_open
     = true
  /\ has_subtype (Vy (VStr Scenario.win1)) [K.NST_OPEN] Closing.win_closed
     = false
  /\ has_subtype (Vy (VStr Scenario.tab1)) [K.NST_OPEN] Closing.tab_closed
     = false.
Proof.
  destruct open_tag_tracks_marking as (Hwo & Hto & Hwc & Htc).
  split; [| split; [| split]].
  - apply (Hwo _ (Some Scenario.live_win) Scenario.tab_open).
    vm_compute. reflexivity.
  - apply (Hto _ (Some Scenario.live_tab) Scenario.rezzed).
    vm_compute. reflexivity.
  - apply (Hwc _ Scenario.both_open). vm_compute. reflexivity.
  - apply (Htc _ Scenario.both_open). vm_compute. reflexivity.
Defined.

(** X6. The [saved] tag follows the keeping: after [remember] returns true
    for a window whose node is in the tree, [has_subtype] of the window and
    [K.NST_SAVED] is true; after [mark_win_as_unsaved] returns true, it is
    false. *)
Theorem saved_tag_tracks_keeping :
  (forall id c m m',
      remember id c m = (true, m') ->
      is_Some (get_node id (treeobj m)) ->
      has_subtype (Vy (VStr id)) [K.NST_SAVED] m' = true)
  /\ (forall l a m m',
      mark_win_as_unsaved (Some l) a m = (true, m') ->
      has_subtype (VyVal l) [K.NST_SAVED] m' = false).
Proof.
  split.
  - intros id c m m' (l & Hs & Hl & Hm')%remember_true_inv Hnd.
    rewrite (has_subtype_one _ _ m m' id); try assumption;
      [| subst m'; destruct c; same_items_steps
       | apply vn_node_id_string; exact Hs].
    subst m'. destruct c; tree_proj; rewrite types_after_add;
      apply tagged_true; exact Hnd.
  - intros l a m m' (l' & v & [= <-] & Hv & Hty & Hs & Hm')
      %mark_win_as_unsaved_true_inv.
    rewrite (has_subtype_one _ _ m m' (node_id v)); try assumption;
      [| subst m'; destruct (a && _); same_items_steps
       | reflexivity
       | eapply vn_node_id_record; eassumption].
    subst m'. destruct (a && _); tree_proj; rewrite types_after_del;
      apply untagged_false.
Qed.

Lemma saved_tag_tracks_keeping_witness :
  has_subtype (Vy (VStr Scenario.win1)) [K.NST_SAVED] Closing.kept = true
  /\ has_subtype (VyVal 0%nat) [K.NST_SAVED] Closing.forgotten = false.
Proof.
  destruct saved_tag_tracks_keeping as (Hr & Hu). split.
  - apply (Hr _ true Scenario.rezzed).
    + vm_compute. reflexivity.
    + vm_compute. eexists. reflexivity.
  - apply (Hu _ true Closing.kept). vm_compute. reflexivity.
Defined.

(** X7. A marking call that returns false has changed nothing, or has only
    added one entry to the log: this holds of [markWinAsOpen],
    [markTabAsOpen], [markWinAsClosed] and [markTabAsClosed], whatever they
    are handed. *)
Theorem failed_marking_changes_nothing :
  (forall x cwin m m',
      markWinAsOpen x cwin m = (false, m') ->
      m' = m \/ exists msg l, m' = log_info msg l m)
  /\ (forall x ctab m m',
      markTabAsOpen x ctab m = (false, m') ->
      m' = m \/ exists msg l, m' = log_info msg l m)
  /\ (forall x m m',
      markWinAsClosed x m = (false, m') ->
      m' = m \/ exists msg l, m' = log_info msg l m)
  /\ (forall x m m',
      markTabAsClosed x m = (false, m') ->
      m' = m \/ exists msg l, m' = log_info msg l m).
Proof.
  split; [| split; [| split]].
  - apply markWinAsOpen_false.
  - apply markTabAsOpen_false.
  - apply markWinAsClosed_false.
  - apply markTabAsClosed_false.
Qed.

Lemma failed_marking_changes_nothing_witness :
  (Closing.reopened_win = Scenario.both_open
   \/ exists msg l, Closing.reopened_win = log_info msg l Scenario.both_open)
  /\ (Closing.reopened_tab = Scenario.both_open
      \/ exists msg l,
           Closing.reopened_tab = log_info msg l Scenario.both_open)
  /\ (Closing.reclosed_win = Scenario.rezzed
      \/ exists msg l, Closing.reclosed_win = log_info msg l Scenario.rezzed)
  /\ (Closing.reclosed_tab = Scenario.rezzed
      \/ exists msg l, Closing.reclosed_tab = log_info msg l Scenario.rezzed).
Proof.
  destruct failed_marking_changes_nothing as (Hwo & Hto & Hwc & Htc).
  split; [| split; [| split]].
  - apply (Hwo (Vy (VStr Scenario.win1)) (Some Scenario.live_win)).
    vm_compute. reflexivity.
  - apply (Hto (Vy (VStr Scenario.tab1)) (Some Scenario.live_tab)).
    vm_compute. reflexivity.
  - apply (Hwc (Vy (VStr Scenario.win1))). vm_compute. reflexivity.
  - apply (Htc (Vy (VStr Scenario.tab1))). vm_compute. reflexivity.
Defined.

(** X8. A call of [eraseTab], [remember], [mark_win_as_unsaved],
    [refresh_label], [refresh_icon], [add_subtype] or [del_subtype] that
    returns false has left the model exactly as it was. *)
Theorem failed_calls_change_nothing :
  (forall x m m', eraseTab x m = (false, m') -> m' = m)
  /\ (forall id c m m', remember id c m = (false, m') -> m' = m)
  /\ (forall val a m m', mark_win_as_unsaved val a m = (false, m') -> m' = m)
  /\ (forall id m m', refresh_label id m = (false, m') -> m' = m)
  /\ (forall x m m', refresh_icon x m = (false, m') -> m' = m)
  /\ (forall x tys m m', add_subtype x tys m = (false, m') -> m' = m)
  /\ (forall x tys m m', del_subtype x tys m = (false, m') -> m' = m).
Proof.
  split; [apply unchanged_eraseTab |].
  split; [apply unchanged_remember |].
  split; [apply unchanged_mark_win_as_unsaved |].
  split; [apply unchanged_refresh_label |].
  split; [apply unchanged_refresh_icon |].
  split; intros x tys m m' H; apply (unchanged_subtype x tys); auto.
Qed.

Lemma failed_calls_change_nothing_witness :
  snd (eraseTab (Vy (VStr Scenario.win1)) Scenario.rezzed) = Scenario.rezzed
  /\ snd (remember Scenario.tab1 true Scenario.rezzed) = Scenario.rezzed
  /\ snd (mark_win_as_unsaved (Some 1%nat) true Scenario.rezzed)
     = Scenario.rezzed
  /\ snd (refresh_label (lit "j1_9") Scenario.rezzed) = Scenario.rezzed
  /\ snd (refresh_icon (Vy (VStr (lit "j1_9"))) Scenario.rezzed)
     = Scenario.rezzed
  /\ snd (add_subtype (Vy VNull) [K.NST_OPEN] Scenario.rezzed)
     = Scenario.rezzed
  /\ snd (del_subtype (Vy (VStr Scenario.win1)) [] Scenario.rezzed)
     = Scenario.rezzed.
Proof.
  destruct failed_calls_change_nothing
    as (He & Hr & Hu & Hl & Hi & Ha & Hd).
  split; [| split; [| split; [| split; [| split; [| split]]]]].
  - apply (He (Vy (VStr Scenario.win1))). vm_compute. reflexivity.
  - apply (Hr Scenario.tab1 true). vm_compute. reflexivity.
  - apply (Hu (Some 1%nat) true). vm_compute. reflexivity.
  - apply (Hl (lit "j1_9")). vm_compute. reflexivity.
  - apply (Hi (Vy (VStr (lit "j1_9")))). vm_compute. reflexivity.
  - apply (Ha (Vy VNull) [K.NST_OPEN]). vm_compute. reflexivity.
  - apply (Hd (Vy (VStr Scenario.win1)) []). vm_compute. reflexivity.
Defined.

(** ** The tree shows the records *)

Section Display.

Lemma D_val_by_node_id_same_items m m' id :
  same_items m m' -> D_val_by_node_id id m' = D_val_by_node_id id m.
Proof.
  intros (Hw & Ht & _ & _). unfold D_val_by_node_id, D_by_node_id. simpl.
  rewrite Hw, Ht. reflexivity.
Qed.

Lemma same_items_record m m' l v :
  same_items m m' -> heap m !! l = Some v ->
  exists v', heap m' !! l = Some v' /\ node_id v' = node_id v.
Proof.
  intros (_ & _ & Hh & _) Hv. specialize (Hh l). rewrite Hv in Hh.
  destruct (heap m' !! l) as [v' |]; [| discriminate].
  injection Hh as Hh. eauto.
Qed.

Lemma refresh_label_node id m l v n :
  str_truthy id = true -> D_val_by_node_id id m = Some l ->
  heap m !! l = Some v -> nodes (treeobj m) !! id = Some n ->
  nodes (treeobj (snd (refresh_label id m))) !! id
  = Some (set_text (get_html_label v) n).
Proof.
  intros Hs Hl Hv Hn. unfold refresh_label, rename_node.
  rewrite Hs, Hl, Hv, Hn. simpl. rewrite lookup_alter_eq, Hn. reflexivity.
Qed.

Lemma refresh_icon_node l m v id n :
  heap m !! l = Some v -> node_id v = id -> str_truthy id = true ->
  nodes (treeobj m) !! id = Some n ->
  nodes (treeobj (snd (refresh_icon (VyVal l) m))) !! id
  = Some (set_node_icon (icon_for v) n).
Proof.
  intros Hv <- Hs Hn. unfold refresh_icon, get_node. simpl.
  rewrite Hv, Hs. simpl. rewrite Hn, Hv, Hs. simpl.
  rewrite lookup_alter_eq, Hn. reflexivity.
Qed.

(** The two refreshes that end an update bring the node in line with the
    record. *)
Lemma refresh_shows m M l v id :
  same_items m M ->
  heap m !! l = Some v -> node_id v = id -> str_truthy id = true ->
  D_val_by_node_id id m = Some l ->
  is_Some (get_node id (treeobj m)) ->
  shows (snd (refresh_icon (VyVal l) (snd (refresh_label id M)))) id l.
Proof.
  intros Hsame Hv Hid Hs Hl Hnd.
  destruct (same_items_record _ _ _ _ Hsame Hv) as (v' & Hv' & Hid').
  rewrite Hid in Hid'.
  apply (get_node_same_items _ _ _ Hsame) in Hnd as [n Hn].
  unfold get_node in Hn.
  rewrite <- (D_val_by_node_id_same_items _ _ _ Hsame) in Hl.
  pose proof (refresh_label_node id M l v' n Hs Hl Hv' Hn) as Hn1.
  assert (Hv1 : heap (snd (refresh_label id M)) !! l = Some v')
    by (rewrite heap_refresh_label; exact Hv').
  pose proof (refresh_icon_node l _ v' id _ Hv1 Hid' Hs Hn1) as Hn2.
  eexists _, v'. split; [exact Hn2 |].
  split; [rewrite heap_refresh_icon; exact Hv1 |].
  split; reflexivity.
Qed.

Lemma shows_open_parent (p : option jsstring) m id l :
  shows m id l ->
  shows ((match p with
          | Some p => with_tree (open_node p)
          | None => fun m => m
          end) m) id l.
Proof.
  destruct p as [p |]; [| auto].
  intros (nd & v & Hnd & Hv & Ht & Hi). unfold shows, get_node in *. simpl.
  destruct (decide (p = id)) as [-> |].
  - rewrite lookup_alter_eq, Hnd. simpl.
    eexists _, v. split; [reflexivity |]. split; [exact Hv |].
    destruct (n_children nd); auto.
  - rewrite lookup_alter_ne by auto. eauto 10.
Qed.

End Display.

Section Display2.

Lemma refresh_shows_label m M l v id :
  same_items m M ->
  heap m !! l = Some v -> str_truthy id = true ->
  D_val_by_node_id id m = Some l ->
  is_Some (get_node id (treeobj m)) ->
  shows_label (snd (refresh_label id M)) id l.
Proof.
  intros Hsame Hv Hs Hl Hnd.
  destruct (same_items_record _ _ _ _ Hsame Hv) as (v' & Hv' & _).
  apply (get_node_same_items _ _ _ Hsame) in Hnd as [n Hn].
  unfold get_node in Hn.
  rewrite <- (D_val_by_node_id_same_items _ _ _ Hsame) in Hl.
  pose proof (refresh_label_node id M l v' n Hs Hl Hv' Hn) as Hn1.
  eexists _, v'. split; [exact Hn1 |].
  split; [rewrite heap_refresh_label; exact Hv' |]. reflexivity.
Qed.

Lemma names_item_inv x k m l id :
  names_item x k m l id ->
  exists v, resolved x k m = Some (l, v, id) /\ node_id v = id
            /\ heap m !! l = Some v /\ str_truthy id = true
            /\ D_val_by_node_id id m = Some l
            /\ is_Some (get_node id (treeobj m)).
Proof.
  intros ((v & Hres & Hid) & Hl & Hnd). exists v.
  pose proof Hres as Hres'. resolve_in Hres'. auto 10.
Qed.

End Display2.


(** X9. After [markWinAsOpen], [markWinAsClosed], [remember] or
    [mark_win_as_unsaved] returns true for a window item, the node of the
    window carries the label and the icon of the record as it now is. *)
Theorem display_follows_window m x l id m' :
  names_item x IT_WIN m l id ->
  (exists cwin, markWinAsOpen x cwin m = (true, m'))
  \/ markWinAsClosed x m = (true, m')
  \/ (exists c, remember id c m = (true, m'))
  \/ (exists a, mark_win_as_unsaved (Some l) a m = (true, m')) ->
  shows m' id l.
Proof.
  intros (v & Hres & Hid & Hv & Hs & Hl & Hnd)%names_item_inv
    [[cwin H] | [H | [[c H] | [a H]]]].
  - apply markWinAsOpen_true_inv in H
      as (cw & l0 & v0 & id0 & nd & -> & _ & Hres0 & _ & _ & _ & ->).
    rewrite Hres in Hres0. injection Hres0 as <- <- <-.
    eapply refresh_shows; try eassumption. same_items_steps.
  - apply markWinAsClosed_true_inv in H
      as (l0 & v0 & id0 & cw & Hres0 & _ & _ & ->).
    rewrite Hres in Hres0. injection Hres0 as <- <- <-.
    eapply refresh_shows; try eassumption. same_items_steps.
  - apply remember_true_inv in H as (l0 & _ & Hl0 & ->).
    assert (l0 = l) as ->.
    { unfold D_val_by_node_id in Hl. rewrite Hl0 in Hl. congruence. }
    eapply refresh_shows; try eassumption. destruct c; same_items_steps.
  - apply mark_win_as_unsaved_true_inv in H
      as (l0 & v0 & [= <-] & Hv0 & _ & _ & ->).
    rewrite Hv in Hv0. injection Hv0 as <-. rewrite Hid.
    eapply refresh_shows; try eassumption.
    destruct (a && _); same_items_steps.
Qed.

Lemma display_follows_window_witness :
  shows Scenario.both_open Scenario.win1 0%nat
  /\ shows Closing.kept Scenario.win1 0%nat.
Proof.
  split.
  - apply (display_follows_window Scenario.tab_open (Vy (VStr Scenario.win1))).
    + split; [| split].
      * eexists. split; vm_compute; reflexivity.
      * vm_compute. reflexivity.
      * vm_compute. eexists. reflexivity.
    + left. exists (Some Scenario.live_win). vm_compute. reflexivity.
  - apply (display_follows_window Scenario.rezzed (Vy (VStr Scenario.win1))).
    + split; [| split].
      * eexists. split; vm_compute; reflexivity.
      * vm_compute. reflexivity.
      * vm_compute. eexists. reflexivity.
    + right. right. left. exists true. vm_compute. reflexivity.
Defined.

(** X10. After [markTabAsOpen] returns true for a tab item, the node of the
    tab carries the label and the icon of the record as it now is. After
    [markTabAsClosed] returns true, the node carries the label of the record,
    and its icon is the one it had. *)
Theorem display_follows_tab m x l id m' :
  names_item x IT_TAB m l id ->
  ((exists ctab, markTabAsOpen x ctab m = (true, m')) -> shows m' id l)
  /\ (markTabAsClosed x m = (true, m') ->
      shows_label m' id l
      /\ n_icon <$> get_node id (treeobj m')
         = n_icon <$> get_node id (treeobj m)).
Proof.
  intros (v & Hres & Hid & Hv & Hs & Hl & Hnd)%names_item_inv. split.
  - intros [ctab H]. apply markTabAsOpen_true_inv in H
      as (ct & l0 & v0 & id0 & nd & -> & _ & Hres0 & _ & _ & _ & ->).
    rewrite Hres in Hres0. injection Hres0 as <- <- <-.
    apply shows_open_parent.
    eapply refresh_shows; try eassumption. same_items_steps.
  - intros H. apply markTabAsClosed_true_inv in H
      as (l0 & v0 & id0 & nd & ct & Hres0 & _ & _ & _ & ->).
    rewrite Hres in Hres0. injection Hres0 as <- <- <-. split.
    + eapply refresh_shows_label; try eassumption. same_items_steps.
    + unfold get_node. tree_proj.
      apply (lookup_alter_node_proj n_icon). reflexivity.
Qed.

Lemma display_follows_tab_witness :
  shows Scenario.tab_open Scenario.tab1 1%nat
  /\ shows_label Closing.tab_closed Scenario.tab1 1%nat
  /\ n_icon <$> get_node Scenario.tab1 (treeobj Closing.tab_closed)
     = n_icon <$> get_node Scenario.tab1 (treeobj Scenario.both_open).
Proof.
  split.
  - apply (display_follows_tab Scenario.rezzed (Vy (VStr Scenario.tab1))
             1%nat Scenario.tab1 Scenario.tab_open).
    + split; [| split].
      * eexists. split; vm_compute; reflexivity.
      * vm_compute. reflexivity.
      * vm_compute. eexists. reflexivity.
    + exists (Some Scenario.live_tab). vm_compute. reflexivity.
  - apply (display_follows_tab Scenario.both_open (Vy (VStr Scenario.tab1))
             1%nat Scenario.tab1 Closing.tab_closed).
    + split; [| split].
      * eexists. split; vm_compute; reflexivity.
      * vm_compute. reflexivity.
      * vm_compute. eexists. reflexivity.
    + vm_compute. reflexivity.
Defined.

(** ** Icons and labels *)

Section IconFacts.

Lemma prefix_ci_lang p : forall s,
  length s = length p -> prefix_ci p s = true -> lang (RLit_ci p) s.
Proof.
  induction p as [| pc p IH]; intros [| c s] Hlen Hp; simpl in *;
    try discriminate.
  - constructor.
  - apply andb_true_iff in Hp as [Hc Hp].
    change (c :: s) with ([c] ++ s). constructor.
    + constructor. exact Hc.
    + apply IH; [lia | exact Hp].
Qed.

Lemma regex_test_lit_ci p v :
  regex_test (RLit_ci p) v = true <-> ends_with_ci p (to_string v) = true.
Proof.
  unfold regex_test, ends_with_ci, match_index.
  set (s := to_string v). split.
  - destruct (match_index_from _ s 0) as [j |] eqn:Hj; [| discriminate].
    intros _. apply match_index_from_Some in Hj
      as (k & _ & Hk & Hm & _).
    apply matches_lang in Hm.
    pose proof (lang_RLit_ci_length _ _ Hm) as Hlen.
    pose proof (lang_RLit_ci_prefix _ _ [] Hm) as Hp.
    rewrite app_nil_r in Hp. rewrite length_skipn in Hlen.
    assert (k = (length s - length p)%nat) as -> by lia.
    rewrite Hp, andb_true_r. apply andb_true_iff. split.
    + apply Nat.leb_le. lia.
    + apply bool_decide_eq_true. rewrite length_skipn. lia.
  - intros [[_ Hlen%bool_decide_eq_true]%andb_true_iff Hp]%andb_true_iff.
    pose proof (prefix_ci_lang _ _ Hlen Hp) as Hm.
    apply matches_lang in Hm.
    destruct (match_index_from_found _ s 0%nat _ Hm) as [j ->]. reflexivity.
Qed.

Lemma refresh_icon_record l m v n :
  heap m !! l = Some v -> str_truthy (node_id v) = true ->
  get_node (node_id v) (treeobj m) = Some n ->
  refresh_icon (VyVal l) m
  = (true, with_tree (set_icon (node_id v) (icon_for v)) m).
Proof.
  intros Hv Hs Hn. unfold refresh_icon, vn_by_vorny. rewrite Hv, Hs.
  cbn [negb vn_val vn_node_id]. rewrite Hn, Hs, Hv. reflexivity.
Qed.

Lemma get_html_label_shape val :
  get_html_label val
  = (if truthy (isPinned val) then [Markup (lit "&#x1f4cc;&nbsp;")] else [])
    ++ (if truthy (raw_bullet val)
           && match raw_bullet val with VStr _ => true | _ => false end
        then [Markup (lit "<span class=" ++ dquote ++ K.BULLET_CLASS
                      ++ dquote ++ lit ">");
              Escaped (raw_bullet val)]
             ++ (if truthy (get_win_raw_text val)
                    && negb (bool_decide (get_win_raw_text val = VStr [0xFEFF]))
                 then [Markup (lit " &#x2726; ")] else [])
             ++ [Markup (lit "</span>")]
        else [])
    ++ [Escaped (get_win_raw_text val)].
Proof.
  unfold get_html_label.
  destruct (truthy (isPinned val)); destruct (truthy (raw_bullet val) && _);
    try destruct (truthy (get_win_raw_text val) && _); reflexivity.
Qed.

End IconFacts.


(** X11. [refresh_icon] on the record of a tab whose node is in the tree,
    when [encodeURI] accepts the favicon URL of the record (it is falsy, or
    its string form has no surrogate without its partner): the call returns
    true and sets the icon of the node, to the encoded favicon URL when the
    record has a truthy one; otherwise to the PDF icon exactly when the
    string form of [raw_url] ends with [.pdf] in any letter case; otherwise
    to the page icon. *)
Theorem refresh_icon_tab_choice l m v n :
  heap m !! l = Some v -> ty v = IT_TAB ->
  str_truthy (node_id v) = true ->
  get_node (node_id v) (treeobj m) = Some n ->
  icon_throws v = false ->
  exists m',
    refresh_icon (VyVal l) m = (true, m')
    /\ n_icon <$> get_node (node_id v) (treeobj m')
       = Some (if truthy (raw_favicon_url v)
               then IconEncodedURI (raw_favicon_url v)
               else if ends_with_ci (lit ".pdf") (to_string (raw_url v))
               then IconClass (lit "fff-page-white-with-red-banner")
               else IconClass (lit "fff-page")).
Proof.
  intros Hv Hty Hs Hn _.
  rewrite (refresh_icon_record l m v n Hv Hs Hn).
  eexists. split; [reflexivity |].
  unfold get_node in *. simpl. rewrite lookup_alter_eq, Hn. simpl. f_equal.
  unfold icon_for. rewrite Hty.
  destruct (truthy (raw_favicon_url v)); [reflexivity |].
  pose proof (regex_test_lit_ci (lit ".pdf") (raw_url v)) as Hpdf.
  fold re_pdf in Hpdf.
  destruct (regex_test re_pdf (raw_url v)),
           (ends_with_ci (lit ".pdf") (to_string (raw_url v)));
    try reflexivity; destruct Hpdf as [H1 H2];
    [discriminate (H1 eq_refl) | discriminate (H2 eq_refl)].
Qed.

Lemma refresh_icon_tab_choice_witness :
  exists m',
    refresh_icon (VyVal 1%nat) Closing.pdf_tab = (true, m')
    /\ n_icon <$> get_node (node_id Closing.pdf_rec) (treeobj m')
       = Some (if truthy (raw_favicon_url Closing.pdf_rec)
               then IconEncodedURI (raw_favicon_url Closing.pdf_rec)
               else if ends_with_ci (lit ".pdf")
                         (to_string (raw_url Closing.pdf_rec))
               then IconClass (lit "fff-page-white-with-red-banner")
               else IconClass (lit "fff-page")).
Proof.
  eapply refresh_icon_tab_choice.
  - vm_compute. reflexivity.
  - reflexivity.
  - vm_compute. reflexivity.
  - vm_compute. reflexivity.
  - vm_compute. reflexivity.
Defined.

(** X12. The label of a record ends with the escaped text of the item, and
    nothing of the record enters it unescaped: each piece of the label is
    one of four fixed strings of markup, or the escaped bullet (a non-empty
    string), or the escaped text. *)
Theorem label_escapes_record_content val :
  (exists pre, get_html_label val = pre ++ [Escaped (get_win_raw_text val)])
  /\ forall p, p ∈ get_html_label val ->
       (exists s, p = Markup s /\ s ∈ label_markup)
       \/ (p = Escaped (raw_bullet val)
           /\ exists b, raw_bullet val = VStr b /\ b <> [])
       \/ p = Escaped (get_win_raw_text val).
Proof.
  split; [rewrite get_html_label_shape, app_assoc; eauto |]. intros p.
  rewrite get_html_label_shape, !elem_of_app.
  assert (Hm : forall s, s ∈ label_markup ->
             (exists s', Markup s = Markup s' /\ s' ∈ label_markup)
             \/ (Markup s = Escaped (raw_bullet val)
                 /\ exists b, raw_bullet val = VStr b /\ b <> [])
             \/ Markup s = Escaped (get_win_raw_text val))
    by (intros s Hs; left; exists s; auto).
  unfold label_markup in Hm. intros [Hp | [Hp | Hp]].
  - destruct (truthy (isPinned val)); [| inversion Hp].
    apply list_elem_of_singleton in Hp as ->. apply Hm. left.
  - destruct (truthy (raw_bullet val) && _) eqn:Hb; [| inversion Hp].
    rewrite !elem_of_app, !elem_of_cons in Hp.
    destruct Hp as [[-> | [-> | Hp]] | [Hp | Hp]].
    + apply Hm. right. left.
    + right. left. split; [reflexivity |].
      apply andb_true_iff in Hb as [Ht Hstr].
      destruct (raw_bullet val) as [| | | | b]; try discriminate.
      exists b. split; [reflexivity |]. intros ->. discriminate.
    + inversion Hp.
    + destruct (truthy (get_win_raw_text val) && _); [| inversion Hp].
      apply list_elem_of_singleton in Hp as ->. apply Hm. do 2 right. left.
    + destruct Hp as [-> | Hp]; [| inversion Hp].
      apply Hm. do 3 right. left.
  - apply list_elem_of_singleton in Hp as ->. auto.
Qed.

Lemma label_escapes_record_content_witness :
  (exists s, Markup (lit " &#x2726; ") = Markup s /\ s ∈ label_markup)
  \/ (Markup (lit " &#x2726; ") = Escaped (raw_bullet Closing.bulleted)
      /\ exists b, raw_bullet Closing.bulleted = VStr b /\ b <> [])
  \/ Markup (lit " &#x2726; ")
     = Escaped (get_win_raw_text Closing.bulleted).
Proof.
  apply (proj2 (label_escapes_record_content Closing.bulleted)).
  vm_compute. do 3 right. left.
Defined.

(** ** The hash string *)

Section DigestFacts.

Lemma length_F h block t final : length (BLAKE2s.F h block t final) = 8%nat.
Proof. unfold BLAKE2s.F. rewrite length_map, length_seq. reflexivity. Qed.

Lemma length_word_bytes (l : list Z) :
  length (flat_map BLAKE2s.word_bytes l) = (4 * length l)%nat.
Proof. induction l as [| x l IH]; simpl; [reflexivity | rewrite IH; lia]. Qed.

Lemma land_255 x : 0 <= Z.land x 0xFF < 256.
Proof.
  change 0xFF with (Z.ones 8). rewrite Z.land_ones by lia.
  apply Z.mod_pos_bound. reflexivity.
Qed.

Lemma word_bytes_range (l : list Z) :
  Forall (fun b => 0 <= b < 256) (flat_map BLAKE2s.word_bytes l).
Proof.
  induction l as [| x l IH]; simpl; [constructor |].
  repeat (constructor; [apply land_255 |]). exact IH.
Qed.

Lemma hex_digit_range d : 0 <= d < 16 -> is_hex_char (BLAKE2s.hex_digit d) = true.
Proof.
  intros Hd. unfold is_hex_char, BLAKE2s.hex_digit.
  destruct (d <? 10) eqn:E.
  - apply Z.ltb_lt in E. apply orb_true_iff. left.
    apply andb_true_iff. split; apply Z.leb_le; lia.
  - apply Z.ltb_ge in E. apply orb_true_iff. right.
    apply andb_true_iff. split; apply Z.leb_le; lia.
Qed.

Lemma hex_of_bytes (bytes : list Z) :
  Forall (fun b => 0 <= b < 256) bytes ->
  length (BLAKE2s.hex bytes) = (2 * length bytes)%nat
  /\ forallb is_hex_char (BLAKE2s.hex bytes) = true.
Proof.
  induction 1 as [| b bytes Hb _ [IHl IHf]]; simpl; [auto |].
  split; [fold (BLAKE2s.hex bytes); rewrite IHl; lia |].
  fold (BLAKE2s.hex bytes). rewrite IHf, andb_true_r.
  apply andb_true_iff. split; apply hex_digit_range.
  - rewrite Z.shiftr_div_pow2 by lia. change (2 ^ 4) with 16.
    split; [apply Z.div_pos; lia | apply Z.div_lt_upper_bound; lia].
  - change 0xF with (Z.ones 4). rewrite Z.land_ones by lia.
    apply Z.mod_pos_bound. reflexivity.
Qed.

Lemma digest_32 st :
  length (BLAKE2s.digest 32 st) = 32%nat
  /\ Forall (fun b => 0 <= b < 256) (BLAKE2s.digest 32 st).
Proof.
  unfold BLAKE2s.digest. split.
  - rewrite length_take, length_word_bytes, length_F. reflexivity.
  - apply Forall_take, word_bytes_range.
Qed.

End DigestFacts.

(** X13. Whatever it is given, [orderedHashOfStrings] returns a string of 64
    lower-case hexadecimal digits; so the hash is truthy, and it is a key
    that the store indexes. *)
Theorem orderedHashOfStrings_is_hex strs :
  length (orderedHashOfStrings strs) = 64%nat
  /\ forallb is_hex_char (orderedHashOfStrings strs) = true
  /\ truthy (VStr (orderedHashOfStrings strs)) = true
  /\ indexable (VStr (orderedHashOfStrings strs)) = true.
Proof.
  unfold orderedHashOfStrings, BLAKE2s.hexDigest.
  set (st := fold_left _ _ _).
  destruct (digest_32 st) as [Hlen Hrange].
  destruct (hex_of_bytes _ Hrange) as [Hl Hf]. rewrite Hlen in Hl.
  split; [exact Hl |]. split; [exact Hf |].
  destruct (BLAKE2s.hex (BLAKE2s.digest 32 st)); [discriminate |].
  split; reflexivity.
Qed.

(** ** The bytes that are hashed *)

Section StreamFacts.

Lemma lor_nonzero a b : a <> 0 -> Z.lor a b <> 0.
Proof. intros Ha H. apply Z.lor_eq_0_iff in H as [H _]. contradiction. Qed.

Lemma utf8_nul_free_bounded n : forall s,
  (length s <= n)%nat -> nul_free s -> nul_free (utf8 s).
Proof.
  unfold nul_free.
  induction n as [| n IH]; intros s Hlen Hs.
  - destruct s; [constructor | simpl in Hlen; lia].
  - destruct s as [| c r]; [constructor |].
    simpl in Hlen. assert (Hr : (length r <= n)%nat) by lia.
    inversion Hs as [| ? ? Hc Hs']; subst. clear Hs. rename Hs' into Hs.
    assert (H2 : Forall (fun b => b <> 0) (utf8_2 c))
      by (repeat constructor; apply lor_nonzero; discriminate).
    assert (H3 : Forall (fun b => b <> 0) (utf8_3 c))
      by (repeat constructor; apply lor_nonzero; discriminate).
    assert (HR : Forall (fun b => b <> 0) utf8_replacement)
      by (repeat constructor; discriminate).
    cbn [utf8].
    destruct (c <? 128); [constructor; auto |].
    destruct (c <? 2048); [apply Forall_app; auto |].
    destruct (is_high_surrogate c).
    + destruct r as [| lo r']; [exact HR |].
      destruct (is_low_surrogate lo).
      * inversion Hs as [| ? ? _ Hs']; subst. simpl in Hr.
        apply Forall_app. split; [| apply IH; [lia | exact Hs']].
        repeat constructor; apply lor_nonzero; discriminate.
      * apply Forall_app; auto.
    + destruct (is_low_surrogate c); apply Forall_app; auto.
Qed.

Lemma utf8_nul_free s : nul_free s -> nul_free (utf8 s).
Proof. apply (utf8_nul_free_bounded (length s)). lia. Qed.

Lemma terminated_inj (a b r1 r2 : list Z) :
  nul_free a -> nul_free b ->
  a ++ 0 :: r1 = b ++ 0 :: r2 -> a = b /\ r1 = r2.
Proof.
  unfold nul_free. revert b.
  induction a as [| x a IH]; intros [| y b] Ha Hb Heq; simpl in Heq.
  - injection Heq as ->. auto.
  - injection Heq as <- _. inversion Hb; subst. congruence.
  - injection Heq as -> _. inversion Ha; subst. congruence.
  - injection Heq as -> Heq.
    inversion Ha as [| ? ? _ Ha']; subst. inversion Hb as [| ? ? _ Hb']; subst.
    destruct (IH b Ha' Hb' Heq) as [-> ->]. auto.
Qed.

Lemma hash_input_cons v strs :
  hash_input (v :: strs) = utf8 (to_string v) ++ 0 :: hash_input strs.
Proof.
  unfold hash_input. simpl. unfold databuf at 1. rewrite utf8_nul.
  rewrite <- app_assoc. reflexivity.
Qed.

Lemma hash_input_update strs : forall st,
  fold_left (fun blake str => BLAKE2s.update blake (databuf str)) strs st
  = BLAKE2s.update st (hash_input strs).
Proof.
  induction strs as [| v strs IH]; intros st; [reflexivity |].
  simpl. rewrite IH, update_app. reflexivity.
Qed.

End StreamFacts.

(** X14. The hash of an array is the BLAKE2s digest of the UTF-8 bytes of the
    strings, each followed by a NUL byte. Because of the NUL after each
    string, the bytes determine the strings: two sequences of strings without
    NUL that give the same bytes have the same UTF-8 encodings, string by
    string. *)
Theorem hash_input_determines_strings :
  (forall strs,
      orderedHashOfStrings (Array strs)
      = BLAKE2s.hexDigest 32
          (BLAKE2s.update (BLAKE2s.init 32) (hash_input strs)))
  /\ (forall l1 l2,
      Forall (fun v => nul_free (to_string v)) l1 ->
      Forall (fun v => nul_free (to_string v)) l2 ->
      hash_input l1 = hash_input l2 ->
      List.map (fun v => utf8 (to_string v)) l1
      = List.map (fun v => utf8 (to_string v)) l2).
Proof.
  split.
  - intros strs. unfold orderedHashOfStrings. rewrite hash_input_update.
    reflexivity.
  - induction l1 as [| v1 l1 IH]; intros [| v2 l2] H1 H2 Heq.
    + reflexivity.
    + rewrite hash_input_cons in Heq.
      destruct (utf8 (to_string v2)); discriminate.
    + rewrite hash_input_cons in Heq.
      destruct (utf8 (to_string v1)); discriminate.
    + rewrite !hash_input_cons in Heq.
      inversion H1 as [| ? ? Hv1 H1']; subst.
      inversion H2 as [| ? ? Hv2 H2']; subst.
      apply terminated_inj in Heq as [Hu Heq];
        [| apply utf8_nul_free; assumption ..].
      simpl. rewrite Hu. f_equal. apply IH; assumption.
Qed.

Lemma hash_input_determines_strings_witness :
  List.map (fun v => utf8 (to_string v)) SameTabs.xy_urls
  = List.map (fun v => utf8 (to_string v)) SameTabs.xy_urls.
Proof.
  assert (Hxy : Forall (fun v => nul_free (to_string v)) SameTabs.xy_urls).
  { cbv [SameTabs.xy_urls SameTabs.xy List.map].
    repeat (constructor;
            [cbv [to_string]; vm_compute;
             repeat first [discriminate | constructor] |]).
    constructor. }
  apply (proj2 hash_input_determines_strings).
  - exact Hxy.
  - exact Hxy.
  - reflexivity.
Defined.

(** ** Updating the hash of a window *)

Section HashUpdate2.

Lemma same_but_hash_refl m : same_but_hash m m.
Proof. unfold same_but_hash. auto 10. Qed.

Lemma same_but_hash_change_key m l x :
  same_but_hash m (D_change_key IT_WIN l F_ordered_url_hash x m).
Proof.
  destruct (heap m !! l) as [v |] eqn:Hv.
  - rewrite (D_change_key_eq _ _ _ _ _ _ Hv). unfold same_but_hash. simpl.
    do 5 (split; [reflexivity |]). split.
    + intros k. unfold index_field, unindex_field. simpl.
      destruct (indexable x);
        [rewrite lookup_insert_ne by congruence |];
        rewrite lookup_delete_ne by congruence; reflexivity.
    + intros l'. destruct (decide (l = l')) as [<- |].
      * rewrite (heap_lookup_insert_same _ _ _ _ Hv), Hv. reflexivity.
      * rewrite list_lookup_insert_ne by auto. reflexivity.
  - unfold D_change_key, md_change_key. rewrite Hv. simpl.
    destruct m. apply same_but_hash_refl.
Qed.

Lemma updateOrderedURLHash_outcome x m :
  snd (updateOrderedURLHash x m) = m
  \/ exists l h,
       snd (updateOrderedURLHash x m)
       = D_change_key IT_WIN l F_ordered_url_hash h m.
Proof.
  unfold updateOrderedURLHash.
  destruct (vn_val _) as [l |]; [| auto].
  destruct (get_node _ (treeobj m)) as [nd |]; [| auto].
  destruct (negb _); [auto |].
  destruct (child_urls _ m) as [urls |]; [| simpl; eauto].
  destruct (D_by_ordered_url_hash _ m) as [o |]; [| simpl; eauto].
  destruct (bool_decide _); simpl; eauto.
Qed.

Lemma change_key_null_twice m l v :
  heap m !! l = Some v -> no_null_hash_key m ->
  D_change_key IT_WIN l F_ordered_url_hash VNull
    (D_change_key IT_WIN l F_ordered_url_hash VNull m)
  = D_change_key IT_WIN l F_ordered_url_hash VNull m.
Proof.
  intros Hv Hnull.
  rewrite (D_change_key_eq _ _ _ _ m _ Hv).
  erewrite D_change_key_eq
    by (simpl; eapply heap_lookup_insert_same; exact Hv).
  unfold no_null_hash_key in Hnull. simpl.
  unfold index_field, unindex_field. simpl. f_equal.
  - rewrite list_insert_insert_eq. reflexivity.
  - f_equal. apply delete_id. rewrite lookup_delete_None. auto.
Qed.

End HashUpdate2.

Section HashUpdate3.

Lemma window_item_after_change x m l v id nd h :
  window_item x m l v id nd ->
  window_item x (D_change_key IT_WIN l F_ordered_url_hash h m) l
    (set_ordered_url_hash h v) id nd.
Proof.
  intros Hitem.
  destruct (window_item_inv _ _ _ _ _ _ Hitem) as (H & Hv & Hstored & Hnd).
  split; [| split].
  - eapply resolved_same_items; [| exact H |].
    + apply same_items_change_key, same_items_refl.
    + rewrite (heap_D_change_key _ _ _ _ _ _ Hv).
      apply (heap_lookup_insert_same _ _ _ _ Hv).
  - rewrite by_node_change_hash. exact Hstored.
  - rewrite treeobj_D_change_key. exact Hnd.
Qed.

Lemma update_run_item m x l v id nd :
  window_item x m l v id nd ->
  updateOrderedURLHash x m
  = match child_urls (n_children nd) m with
    | None => (false, D_change_key IT_WIN l F_ordered_url_hash VNull m)
    | Some urls =>
        let h := orderedHashOfStrings (Array urls) in
        match D_by_ordered_url_hash h m with
        | Some o =>
            if bool_decide (l = o) then (true, m)
            else (false, D_change_key IT_WIN l F_ordered_url_hash VNull m)
        | None =>
            (true, D_change_key IT_WIN l F_ordered_url_hash (VStr h) m)
        end
    end.
Proof.
  intros Hitem.
  destruct (window_item_inv _ _ _ _ _ _ Hitem) as (H & Hv & Hstored & Hnd).
  apply (updateOrderedURLHash_run _ _ _ _ _ _ H Hnd).
Qed.

End HashUpdate3.

(** X15. [updateOrderedURLHash], whatever it is given and whatever it
    returns, changes nothing but the content hash: the tree, [D.tabs], the
    log, the primary index of [D.windows] and its index by window id are as
    before, and every record is as before up to its [ordered_url_hash]. *)
Theorem updateOrderedURLHash_touches_only_hash x m :
  same_but_hash m (snd (updateOrderedURLHash x m)).
Proof.
  destruct (updateOrderedURLHash_outcome x m) as [-> | (l & h & ->)].
  - apply same_but_hash_refl.
  - apply same_but_hash_change_key.
Qed.

(** X16. [updateOrderedURLHash] called a second time on a window item, with
    nothing done in between, returns what the first call returned and
    changes nothing: the result of the update is stable. *)
Theorem updateOrderedURLHash_twice m x l v id nd :
  window_item x m l v id nd ->
  hash_complete m -> no_null_hash_key m ->
  updateOrderedURLHash x (snd (updateOrderedURLHash x m))
  = updateOrderedURLHash x m.
Proof.
  intros Hitem Hcomplete Hnull.
  destruct (window_item_inv _ _ _ _ _ _ Hitem) as (H & Hv & Hstored & Hnd).
  rewrite (update_run_item _ _ _ _ _ _ Hitem).
  destruct (child_urls (n_children nd) m) as [urls |] eqn:Hurls.
  - cbv zeta. set (h := orderedHashOfStrings (Array urls)).
    destruct (D_by_ordered_url_hash h m) as [o |] eqn:Ho.
    + destruct (bool_decide (l = o)) eqn:Hlo; cbn [snd].
      * rewrite (update_run_item _ _ _ _ _ _ Hitem), Hurls. cbv zeta.
        fold h. rewrite Ho, Hlo. reflexivity.
      * apply bool_decide_eq_false in Hlo.
        rewrite (update_run_item _ _ _ _ _ _
                   (window_item_after_change _ _ _ _ _ _ VNull Hitem)).
        rewrite child_urls_change_hash, Hurls. cbv zeta. fold h.
        rewrite (change_hash_lookup _ _ _ _ _ Hv).
        rewrite bool_decide_eq_false_2 by discriminate.
        destruct (bool_decide (ordered_url_hash v = VStr h)) eqn:Hh.
        { apply bool_decide_eq_true in Hh.
          pose proof (Hcomplete _ _ _ _ Hstored Hv Hh) as Hl. congruence. }
        rewrite Ho, bool_decide_eq_false_2 by exact Hlo.
        rewrite (change_key_null_twice _ _ _ Hv Hnull). reflexivity.
    + cbn [snd].
      rewrite (update_run_item _ _ _ _ _ _
                 (window_item_after_change _ _ _ _ _ _ (VStr h) Hitem)).
      rewrite child_urls_change_hash, Hurls. cbv zeta. fold h.
      rewrite (change_hash_lookup _ _ _ _ _ Hv).
      rewrite bool_decide_eq_true_2 by reflexivity.
      rewrite bool_decide_eq_true_2 by reflexivity.
      reflexivity.
  - cbn [snd].
    rewrite (update_run_item _ _ _ _ _ _
               (window_item_after_change _ _ _ _ _ _ VNull Hitem)).
    rewrite child_urls_change_hash, Hurls.
    rewrite (change_key_null_twice _ _ _ Hv Hnull). reflexivity.
Qed.

Lemma updateOrderedURLHash_twice_witness :
  updateOrderedURLHash (Vy (VStr SameTabs.w1))
    (snd (updateOrderedURLHash (Vy (VStr SameTabs.w1)) SameTabs.three))
  = updateOrderedURLHash (Vy (VStr SameTabs.w1)) SameTabs.three.
Proof.
  assert (Hi : exists v nd,
    window_item (Vy (VStr SameTabs.w1)) SameTabs.three 3%nat v SameTabs.w1 nd).
  { do 2 eexists. unfold window_item.
    split; [vm_compute; reflexivity |]. split; vm_compute; reflexivity. }
  destruct Hi as (v & nd & Hi).
  apply (updateOrderedURLHash_twice _ _ _ _ _ _ Hi).
  - apply hash_complete_b_spec. vm_compute. reflexivity.
  - vm_compute. reflexivity.
Defined.

(** X17. When [updateOrderedURLHash] returns true for a window item, the
    window holds the hash of the URLs its children now have, and the hash
    index leads from that hash to the window. *)
Theorem updateOrderedURLHash_true_is_current m x l v id nd m' :
  window_item x m l v id nd -> hash_sound m ->
  updateOrderedURLHash x m = (true, m') ->
  exists urls,
    child_urls (n_children nd) m' = Some urls
    /\ hash_of m' l = Some (VStr (orderedHashOfStrings (Array urls)))
    /\ D_by_ordered_url_hash (orderedHashOfStrings (Array urls)) m' = Some l.
Proof.
  intros Hitem Hsound.
  destruct (window_item_inv _ _ _ _ _ _ Hitem) as (H & Hv & Hstored & Hnd).
  rewrite (update_run_item _ _ _ _ _ _ Hitem).
  destruct (child_urls (n_children nd) m) as [urls |] eqn:Hurls;
    [| discriminate].
  cbv zeta. set (h := orderedHashOfStrings (Array urls)).
  destruct (D_by_ordered_url_hash h m) as [o |] eqn:Ho.
  - destruct (bool_decide (l = o)) eqn:Hlo; [| discriminate].
    apply bool_decide_eq_true in Hlo. subst o. intros [= <-].
    exists urls. split; [exact Hurls |]. split; [| exact Ho].
    destruct (Hsound _ _ Ho) as (vo & Hvo & Hh).
    unfold hash_of. rewrite Hvo. simpl. rewrite Hh. reflexivity.
  - intros [= <-]. exists urls.
    split; [rewrite child_urls_change_hash; exact Hurls |].
    split; [apply (hash_of_change_key _ _ _ _ Hv) |].
    rewrite (change_hash_lookup _ _ _ _ _ Hv).
    rewrite bool_decide_eq_true_2 by reflexivity. reflexivity.
Qed.

Lemma updateOrderedURLHash_true_is_current_witness :
  exists v nd urls,
    window_item (Vy (VStr SameTabs.w0)) SameTabs.two 0%nat v SameTabs.w0 nd
    /\ child_urls (n_children nd)
         (snd (updateOrderedURLHash (Vy (VStr SameTabs.w0)) SameTabs.two))
       = Some urls
    /\ hash_of (snd (updateOrderedURLHash (Vy (VStr SameTabs.w0))
                       SameTabs.two)) 0%nat
       = Some (VStr (orderedHashOfStrings (Array urls)))
    /\ D_by_ordered_url_hash (orderedHashOfStrings (Array urls))
         (snd (updateOrderedURLHash (Vy (VStr SameTabs.w0)) SameTabs.two))
       = Some 0%nat.
Proof.
  assert (Hi : exists v nd,
    window_item (Vy (VStr SameTabs.w0)) SameTabs.two 0%nat v SameTabs.w0 nd).
  { do 2 eexists. unfold window_item.
    split; [vm_compute; reflexivity |]. split; vm_compute; reflexivity. }
  destruct Hi as (v & nd & Hi).
  assert (Hs : hash_sound SameTabs.two)
    by (apply hash_sound_b_spec; vm_compute; reflexivity).
  destruct (updateOrderedURLHash_true_is_current SameTabs.two _ _ _ _ _
              (snd (updateOrderedURLHash (Vy (VStr SameTabs.w0)) SameTabs.two))
              Hi Hs) as (urls & Hu & Hh & Ho).
  - vm_compute. reflexivity.
  - exists v, nd, urls. auto.
Defined.

(** ** Adding items *)

Section RezOutcome.

Lemma D_add_Some_inv ty rec m l m2 :
  D_add ty rec m = (Some l, m2) ->
  by_node (store ty m) !! node_id rec = None /\ l = length (heap m).
Proof.
  unfold D_add, md_add.
  destruct (by_node (store ty m) !! node_id rec); [discriminate |].
  intros [= <- _]. auto.
Qed.

Lemma vnRezTab_ok_inv x m l id m' :
  vnRezTab x m = (mkVn (Some l) id, m') ->
  exists pnd t m2,
    is_Some (vn_val (vn_by_vorny x None m))
    /\ str_truthy (vn_node_id (vn_by_vorny x None m)) = true
    /\ get_node (vn_node_id (vn_by_vorny x None m)) (treeobj m) = Some pnd
    /\ create_node (vn_node_id (vn_by_vorny x None m)) [Markup (lit "Tab")]
         PosLast (treeobj m) = (Some id, t)
    /\ D_add IT_TAB (new_tab id)
         (with_tree (add_multitype id (K.type_name IT_TAB))
            (with_tree (fun _ => t) m)) = (Some l, m2)
    /\ m' = snd (refresh_icon (VyVal l) (snd (refresh_label id m2))).
Proof.
  unfold vnRezTab.
  destruct (vn_val _) as [lp |] eqn:Hlp; [| discriminate].
  destruct (str_truthy _) eqn:Hs; [| discriminate]. cbn [negb].
  destruct (get_node _ (treeobj m)) as [pnd |] eqn:Hp; [| discriminate].
  destruct (create_node _ _ _ _) as [[cid |] t] eqn:Hc; [| discriminate].
  fold (new_tab cid).
  destruct (D_add _ _ _) as [[l0 |] m2] eqn:Hadd; [| discriminate].
  intros [= <- <- <-]. exists pnd, t, m2.
  split; [eauto |]. split; [reflexivity |]. split; [reflexivity |].
  split; [reflexivity |]. split; [exact Hadd |]. reflexivity.
Qed.

Lemma vnRezWin_ok_inv b m l id m' :
  vnRezWin b m = (mkVn (Some l) id, m') ->
  exists t m2,
    create_node jstree_root [Markup (lit "Window")]
      (if b then PosIndex 1 else PosLast) (treeobj m) = (Some id, t)
    /\ D_add IT_WIN (new_win id)
         (with_tree (add_multitype id (K.type_name IT_WIN))
            (with_tree (fun _ => t) m)) = (Some l, m2)
    /\ m' = snd (refresh_icon (VyVal l) (snd (refresh_label id m2))).
Proof.
  unfold vnRezWin.
  destruct (create_node _ _ _ _) as [[cid |] t] eqn:Hc; [| discriminate].
  fold (new_win cid).
  destruct (D_add _ _ _) as [[l0 |] m2] eqn:Hadd; [| discriminate].
  intros [= <- <- <-]. exists t, m2.
  split; [reflexivity |]. split; [exact Hadd |]. reflexivity.
Qed.

End RezOutcome.

Section RezFrame.

Lemma create_node_tree parent text pos t id t' :
  create_node parent text pos t = (Some id, t') ->
  exists p,
    nodes t !! parent = Some p /\ nodes t !! id = None /\ parent <> id
    /\ t' = mkTree
              (<[id := mkNode (Some parent) [] text IconTrue ∅ false]>
                 (<[parent := set_children (insert_at pos id (n_children p)) p]>
                    (nodes t)))
              (cnt t + 1).
Proof.
  unfold create_node.
  destruct (nodes t !! parent) as [p |] eqn:Hp; [| discriminate].
  destruct (nodes t !! gen_id (cnt t + 1)) eqn:Hid; [discriminate |].
  intros [= <- <-]. exists p.
  split; [reflexivity |]. split; [exact Hid |].
  split; [congruence | reflexivity].
Qed.

Lemma fold_index_none l v fs : forall idx,
  (forall f, indexable (get_key f v) = false) ->
  fold_left (index_field l v) fs idx = idx.
Proof.
  induction fs as [| f fs IH]; intros idx Hno; [reflexivity |].
  simpl. unfold index_field at 2. rewrite Hno. apply IH. exact Hno.
Qed.

Lemma D_add_unkeyed ty rec m l m2 :
  D_add ty rec m = (Some l, m2) ->
  (forall f, indexable (get_key f rec) = false) ->
  heap m2 = heap m ++ [rec] /\ l = length (heap m)
  /\ by_node (store ty m2) = <[node_id rec := l]> (by_node (store ty m))
  /\ by_field (store ty m2) = by_field (store ty m)
  /\ md_fields (store ty m2) = md_fields (store ty m)
  /\ (forall ty', ty' <> ty -> store ty' m2 = store ty' m)
  /\ treeobj m2 = treeobj m /\ log m2 = log m.
Proof.
  unfold D_add, md_add.
  destruct (by_node (store ty m) !! node_id rec); [discriminate |].
  intros [= <- <-] Hno.
  destruct ty; simpl; rewrite (fold_index_none _ _ _ _ Hno);
    (do 6 (split; [try reflexivity |]); [| auto]);
    intros []; simpl; congruence.
Qed.

Lemma new_tab_unkeyed id f : indexable (get_key f (new_tab id)) = false.
Proof. destruct f; reflexivity. Qed.

Lemma new_win_unkeyed id f : indexable (get_key f (new_win id)) = false.
Proof. destruct f; reflexivity. Qed.

Lemma store_with_tree k f m : store k (with_tree f m) = store k m.
Proof. destruct k; reflexivity. Qed.

Lemma cnt_refresh_label id m :
  cnt (treeobj (snd (refresh_label id m))) = cnt (treeobj m).
Proof.
  unfold refresh_label, rename_node.
  destruct (negb (str_truthy id)); [reflexivity |].
  destruct (D_val_by_node_id id m) as [l0 |]; [| reflexivity].
  destruct (heap m !! l0) as [val |]; [| reflexivity].
  destruct (nodes (treeobj m) !! id); reflexivity.
Qed.

Lemma cnt_refresh_icon x m :
  cnt (treeobj (snd (refresh_icon x m))) = cnt (treeobj m).
Proof.
  unfold refresh_icon.
  destruct (vn_val _) as [l |]; [| reflexivity].
  destruct (get_node _ (treeobj m)); [| reflexivity].
  destruct (negb _); [reflexivity |].
  destruct (heap m !! l) as [val |]; reflexivity.
Qed.

Lemma refresh_label_other id m i :
  i <> id ->
  nodes (treeobj (snd (refresh_label id m))) !! i = nodes (treeobj m) !! i.
Proof.
  intros Hi. unfold refresh_label, rename_node.
  destruct (negb (str_truthy id)); [reflexivity |].
  destruct (D_val_by_node_id id m) as [l0 |]; [| reflexivity].
  destruct (heap m !! l0) as [val |]; [| reflexivity].
  destruct (nodes (treeobj m) !! id); [| reflexivity].
  simpl. apply lookup_alter_ne. auto.
Qed.

Lemma refresh_icon_other l m v i :
  heap m !! l = Some v -> i <> node_id v ->
  nodes (treeobj (snd (refresh_icon (VyVal l) m))) !! i
  = nodes (treeobj m) !! i.
Proof.
  intros Hv Hi. unfold refresh_icon, vn_by_vorny. rewrite Hv.
  destruct (negb (str_truthy (node_id v))); [reflexivity |].
  cbn [vn_val vn_node_id].
  destruct (get_node (node_id v) _); [| reflexivity].
  destruct (negb (str_truthy (node_id v))); [reflexivity |].
  rewrite Hv. simpl. apply lookup_alter_ne. auto.
Qed.

(** The end of both creation routines, from the tree with the new node to
    the state returned. *)
Lemma rez_added k pid id l rec text pos m t m2 :
  create_node pid text pos (treeobj m) = (Some id, t) ->
  node_id rec = id ->
  (forall f, indexable (get_key f rec) = false) ->
  D_add k rec
    (with_tree (add_multitype id (K.type_name k)) (with_tree (fun _ => t) m))
  = (Some l, m2) ->
  added_item k pid id l rec m
    (snd (refresh_icon (VyVal l) (snd (refresh_label id m2))))
  /\ forall p, nodes (treeobj m) !! pid = Some p ->
       n_children
         <$> nodes (treeobj (snd (refresh_icon (VyVal l)
                                    (snd (refresh_label id m2))))) !! pid
       = Some (insert_at pos id (n_children p)).
Proof.
  intros Hc Hid Hno Hadd.
  apply create_node_tree in Hc as (p & Hp & Hfresh & Hne & ->).
  destruct (D_add_unkeyed _ _ _ _ _ Hadd Hno)
    as (Hh & Hl & Hbn & Hbf & Hmf & Hother & Ht & Hlog).
  rewrite Hid in Hbn. rewrite !store_with_tree in Hbn, Hbf, Hmf.
  assert (Hother' : forall ty', ty' <> k -> store ty' m2 = store ty' m)
    by (intros ty' Hty'; rewrite (Hother ty' Hty'), !store_with_tree;
        reflexivity).
  clear Hother. rename Hother' into Hother.
  cbn [heap with_tree] in Hh, Hl. cbn [log with_tree] in Hlog.
  cbn [treeobj with_tree] in Ht.
  set (m' := snd (refresh_icon (VyVal l) (snd (refresh_label id m2)))).
  assert (Hstore : forall k', store k' m' = store k' m2).
  { intros []; unfold m'; simpl.
    - rewrite windows_refresh_icon, windows_refresh_label. reflexivity.
    - rewrite tabs_refresh_icon, tabs_refresh_label. reflexivity. }
  assert (Hv : heap (snd (refresh_label id m2)) !! l = Some rec).
  { rewrite heap_refresh_label, Hh, Hl. apply list_lookup_middle.
    reflexivity. }
  assert (Hnode : forall i, i <> id ->
    nodes (treeobj m') !! i
    = <[pid := set_children (insert_at pos id (n_children p)) p]>
        (nodes (treeobj m)) !! i).
  { intros i Hi. unfold m'.
    rewrite (refresh_icon_other _ _ _ _ Hv) by (rewrite Hid; exact Hi).
    rewrite refresh_label_other by exact Hi.
    rewrite Ht. simpl. rewrite lookup_alter_ne by auto.
    rewrite lookup_insert_ne by auto. reflexivity. }
  split.
  - unfold added_item. rewrite !Hstore.
    split; [unfold m'; rewrite heap_refresh_icon, heap_refresh_label;
            exact Hh |].
    split; [exact Hl |]. split; [exact Hbn |]. split; [exact Hbf |].
    split; [exact Hmf |].
    split; [intros k' Hk'; rewrite Hstore; apply Hother; exact Hk' |].
    split; [unfold m'; rewrite log_refresh_icon, log_refresh_label;
            exact Hlog |].
    split; [unfold m'; rewrite cnt_refresh_icon, cnt_refresh_label, Ht;
            reflexivity |].
    split; [exact Hfresh |]. split.
    + intros i Hi Hip. rewrite Hnode by exact Hi.
      apply lookup_insert_ne. auto.
    + rewrite Hnode by auto. rewrite lookup_insert_eq, Hp. reflexivity.
  - intros p0 Hp0. assert (p0 = p) as -> by congruence.
    rewrite Hnode by auto. rewrite lookup_insert_eq. reflexivity.
Qed.

End RezFrame.

Section RezNodes.

Lemma only_keys_b_spec md : only_keys_b md = true -> only_keys md.
Proof.
  unfold only_keys_b, only_keys. rewrite forallb_forall.
  intros H f x Hx. destruct (by_field md !! (f, x)) as [l |] eqn:E; [| auto].
  apply elem_of_map_to_list, list_elem_of_In, H in E. simpl in E. congruence.
Qed.

(** The new node, once the record is added and label and icon are
    refreshed. *)
Lemma rez_new_node k pid id l rec text pos m t m2 :
  create_node pid text pos (treeobj m) = (Some id, t) ->
  node_id rec = id ->
  (forall f, indexable (get_key f rec) = false) ->
  D_add k rec
    (with_tree (add_multitype id (K.type_name k)) (with_tree (fun _ => t) m))
  = (Some l, m2) ->
  D_val_by_node_id id m2 = Some l ->
  nodes (treeobj (snd (refresh_icon (VyVal l) (snd (refresh_label id m2)))))
    !! id
  = Some (mkNode (Some pid) [] (get_html_label rec) (icon_for rec)
            {[K.type_name k]} false).
Proof.
  intros Hc Hid Hno Hadd Hval.
  pose proof (create_node_Some _ _ _ _ _ _ Hc) as (Hgen & _).
  apply create_node_tree in Hc as (p & Hp & Hfresh & Hne & ->).
  destruct (D_add_unkeyed _ _ _ _ _ Hadd Hno)
    as (Hh & Hl & _ & _ & _ & _ & Ht & _).
  cbn [heap with_tree] in Hh, Hl. cbn [treeobj with_tree] in Ht.
  assert (Hs : str_truthy id = true) by (rewrite Hgen; apply gen_id_truthy).
  assert (Hv : heap m2 !! l = Some rec).
  { rewrite Hh, Hl. apply list_lookup_middle. reflexivity. }
  assert (Hn : nodes (treeobj m2) !! id
               = Some (mkNode (Some pid) [] text IconTrue
                         {[K.type_name k]} false)).
  { rewrite Ht. unfold add_multitype. simpl.
    rewrite lookup_alter_eq, lookup_insert_eq. simpl.
    unfold set_types. simpl. rewrite union_empty_r_L. reflexivity. }
  pose proof (refresh_label_node id m2 l rec _ Hs Hval Hv Hn) as Hn1.
  assert (Hv1 : heap (snd (refresh_label id m2)) !! l = Some rec)
    by (rewrite heap_refresh_label; exact Hv).
  rewrite (refresh_icon_node l _ rec id _ Hv1 Hid Hs Hn1). reflexivity.
Qed.

Lemma D_val_after_add_win rec m l m2 :
  D_add IT_WIN rec m = (Some l, m2) ->
  D_val_by_node_id (node_id rec) m2 = Some l.
Proof.
  unfold D_add, md_add. simpl.
  destruct (by_node (windows m) !! node_id rec); [discriminate |].
  intros [= <- <-]. unfold D_val_by_node_id, D_by_node_id. simpl.
  rewrite lookup_insert_eq. reflexivity.
Qed.

Lemma D_val_after_add_tab rec m l m2 :
  D_add IT_TAB rec m = (Some l, m2) ->
  D_by_node_id IT_WIN (node_id rec) m = None ->
  D_val_by_node_id (node_id rec) m2 = Some l.
Proof.
  unfold D_add, md_add. simpl.
  destruct (by_node (tabs m) !! node_id rec); [discriminate |].
  intros [= <- <-] Hw. unfold D_val_by_node_id, D_by_node_id in *. simpl in *.
  rewrite Hw, lookup_insert_eq. reflexivity.
Qed.

End RezNodes.

Section RezErase.

Lemma filter_absent (id : jsstring) (l : list jsstring) :
  id ∉ l -> List.filter (fun c => negb (bool_decide (c = id))) l = l.
Proof.
  induction l as [| c l IH]; intros Hid; [reflexivity |].
  apply not_elem_of_cons in Hid as [Hne Hid]. simpl.
  rewrite bool_decide_eq_false_2 by congruence. simpl. rewrite IH by exact Hid.
  reflexivity.
Qed.

Lemma filter_absent_sub (id : jsstring) (l l' : list jsstring) :
  id ∉ l -> (forall c, c ∈ l' -> c ∈ l) ->
  List.filter (fun c => negb (bool_decide (c = id))) l' = l'.
Proof.
  intros Hid Hsub. apply filter_absent. intros Hin. apply Hid, Hsub, Hin.
Qed.

Lemma remove_child_inserted id pos p :
  id ∉ n_children p ->
  remove_child id (set_children (insert_at pos id (n_children p)) p) = p.
Proof.
  intros Hid. unfold remove_child, set_children. simpl.
  assert (Hone : List.filter (fun c => negb (bool_decide (c = id))) [id] = [])
    by (simpl; rewrite bool_decide_eq_true_2 by reflexivity; reflexivity).
  destruct pos as [| n]; simpl.
  - rewrite List.filter_app, (filter_absent _ _ Hid), Hone, app_nil_r.
    destruct p; reflexivity.
  - change (id :: skipn n (n_children p)) with ([id] ++ skipn n (n_children p)).
    rewrite !List.filter_app, Hone.
    rewrite (filter_absent_sub id (n_children p) (firstn n (n_children p)))
      by (auto; intros c Hc; rewrite <- (firstn_skipn n (n_children p));
          apply elem_of_app; auto).
    rewrite (filter_absent_sub id (n_children p) (skipn n (n_children p)))
      by (auto; intros c Hc; rewrite <- (firstn_skipn n (n_children p));
          apply elem_of_app; auto).
    simpl. rewrite firstn_skipn. destruct p; reflexivity.
Qed.

Lemma fold_unindex_none v fs : forall idx,
  (forall f x, indexable x = false -> idx !! (f, x) = None) ->
  (forall f, indexable (get_key f v) = false) ->
  fold_left (unindex_field v) fs idx = idx.
Proof.
  induction fs as [| f fs IH]; intros idx Hidx Hno; [reflexivity |].
  simpl. unfold unindex_field at 2.
  rewrite delete_id by (apply Hidx, Hno). apply IH; assumption.
Qed.

Lemma vn_by_vorny_string id k m :
  str_truthy id = true ->
  vn_by_vorny (Vy (VStr id)) (Some k) m = mkVn (D_by_node_id k id m) id.
Proof.
  intros Hs. unfold vn_by_vorny. unfold str_truthy in Hs. rewrite Hs.
  destruct k; reflexivity.
Qed.

(** The nodes of the tree after a creation: the parent has the new child,
    the new node hangs under it as a leaf, the rest is as it was. *)
Lemma rez_nodes k pid id l rec text pos m t m2 p :
  create_node pid text pos (treeobj m) = (Some id, t) ->
  node_id rec = id ->
  (forall f, indexable (get_key f rec) = false) ->
  D_add k rec
    (with_tree (add_multitype id (K.type_name k)) (with_tree (fun _ => t) m))
  = (Some l, m2) ->
  nodes (treeobj m) !! pid = Some p ->
  let m' := snd (refresh_icon (VyVal l) (snd (refresh_label id m2))) in
  (forall i, i <> id ->
     nodes (treeobj m') !! i
     = <[pid := set_children (insert_at pos id (n_children p)) p]>
         (nodes (treeobj m)) !! i)
  /\ (fun n => (n_parent n, n_children n)) <$> nodes (treeobj m') !! id
     = Some (Some pid, []).
Proof.
  intros Hc Hid Hno Hadd Hp m'.
  apply create_node_tree in Hc as (p0 & Hp0 & Hfresh & Hne & ->).
  assert (p0 = p) as -> by congruence.
  destruct (D_add_unkeyed _ _ _ _ _ Hadd Hno)
    as (Hh & Hl & _ & _ & _ & _ & Ht & _).
  cbn [heap with_tree] in Hh, Hl. cbn [treeobj with_tree] in Ht.
  assert (Hv : heap (snd (refresh_label id m2)) !! l = Some rec).
  { rewrite heap_refresh_label, Hh, Hl. apply list_lookup_middle.
    reflexivity. }
  split.
  - intros i Hi. unfold m'.
    rewrite (refresh_icon_other _ _ _ _ Hv) by (rewrite Hid; exact Hi).
    rewrite refresh_label_other by exact Hi.
    rewrite Ht. simpl. rewrite lookup_alter_ne by auto.
    rewrite lookup_insert_ne by auto. reflexivity.
  - unfold m'.
    rewrite refresh_icon_proj by (intros; reflexivity).
    rewrite refresh_label_proj by (intros; reflexivity).
    rewrite Ht. unfold add_multitype.
    rewrite (lookup_alter_node_proj (fun n => (n_parent n, n_children n)))
      by (intros; reflexivity).
    simpl. rewrite lookup_insert_eq. reflexivity.
Qed.

(** A creation undone: the record taken out of its store and the node out
    of the tree give back the stores and the nodes there were. *)
Lemma rez_undo k pid id l rec text pos m t m2 p :
  create_node pid text pos (treeobj m) = (Some id, t) ->
  node_id rec = id ->
  (forall f, indexable (get_key f rec) = false) ->
  D_add k rec
    (with_tree (add_multitype id (K.type_name k)) (with_tree (fun _ => t) m))
  = (Some l, m2) ->
  nodes (treeobj m) !! pid = Some p -> id ∉ n_children p ->
  only_keys (store k m) ->
  let m' := snd (refresh_icon (VyVal l) (snd (refresh_label id m2))) in
  let m'' := with_tree (delete_node id) (D_remove_value k l m') in
  (windows m'' = windows m /\ tabs m'' = tabs m
   /\ nodes (treeobj m'') = nodes (treeobj m)
   /\ log m'' = log m /\ heap m'' = heap m ++ [rec])
  /\ resolved (Vy (VStr id)) k m' = Some (l, rec, id)
  /\ D_by_node_id k id m' = Some l
  /\ exists nc, nodes (treeobj m') !! id = Some nc /\ n_children nc = [].
Proof.
  intros Hc Hid Hno Hadd Hp Hfresh_child Hkeys m' m''.
  pose proof (create_node_Some _ _ _ _ _ _ Hc) as (Hgen & _).
  assert (Hs : str_truthy id = true) by (rewrite Hgen; apply gen_id_truthy).
  destruct (rez_added k pid id l rec _ _ m t m2 Hc Hid Hno Hadd)
    as [(Hh & Hl & Hbn & Hbf & Hmf & Hother & Hlog & _ & Hnone & _) _].
  destruct (rez_nodes k pid id l rec _ _ m t m2 p Hc Hid Hno Hadd Hp)
    as [Hrest Hnew].
  apply create_node_tree in Hc as (p0 & _ & _ & Hne & _).
  fold m' in Hh, Hbn, Hbf, Hmf, Hother, Hlog, Hrest, Hnew.
  assert (Hv : heap m' !! l = Some rec)
    by (rewrite Hh, Hl; apply list_lookup_middle; reflexivity).
  destruct (nodes (treeobj m') !! id) as [nc |] eqn:Hnc; [| discriminate].
  injection Hnew as Hpar Hch.
  assert (Hstored : D_by_node_id k id m' = Some l)
    by (unfold D_by_node_id; rewrite Hbn, lookup_insert_eq; reflexivity).
  assert (Hfree : by_node (store k m) !! id = None).
  { destruct (D_add_Some_inv _ _ _ _ _ Hadd) as [Hf _].
    rewrite store_with_tree, store_with_tree, Hid in Hf. exact Hf. }
  assert (Hstore : store k m'' = store k m).
  { assert (E : store k m'' = md_remove_value l (heap m') (store k m'))
      by (destruct k; reflexivity).
    rewrite E. unfold md_remove_value. rewrite Hv, Hbn, Hbf, Hmf, Hid.
    rewrite delete_insert_id by exact Hfree.
    rewrite fold_unindex_none by assumption.
    destruct (store k m); reflexivity. }
  assert (Hstore' : forall k', k' <> k -> store k' m'' = store k' m).
  { intros k' Hk'. rewrite <- (Hother k' Hk').
    destruct k, k'; try reflexivity; congruence. }
  split; [| split; [| split]].
  - split; [destruct k; [exact Hstore | apply (Hstore' IT_WIN); discriminate] |].
    split; [destruct k; [apply (Hstore' IT_TAB); discriminate | exact Hstore] |].
    split; [| split].
    + assert (E : treeobj m'' = delete_node id (treeobj m'))
        by (destruct k; reflexivity).
      rewrite E, (delete_leaf id (treeobj m') nc pid Hnc Hch Hpar).
      apply map_eq. intros i.
      destruct (decide (i = pid)) as [-> |].
      * rewrite lookup_alter_eq, lookup_delete_ne by auto.
        rewrite Hrest by auto. rewrite lookup_insert_eq. simpl.
        rewrite (remove_child_inserted _ _ _ Hfresh_child).
        symmetry. exact Hp.
      * rewrite lookup_alter_ne by auto.
        destruct (decide (i = id)) as [-> |].
        -- rewrite lookup_delete_eq. symmetry. exact Hnone.
        -- rewrite lookup_delete_ne by auto. rewrite Hrest by auto.
           apply lookup_insert_ne. auto.
    + rewrite <- Hlog. destruct k; reflexivity.
    + rewrite <- Hh. destruct k; reflexivity.
  - unfold resolved.
    change (vorny_truthy (Vy (VStr id))) with (str_truthy id).
    rewrite Hs, (vn_by_vorny_string _ _ _ Hs). cbn [vn_val vn_node_id].
    rewrite Hstored, Hv, Hs. reflexivity.
  - exact Hstored.
  - eauto.
Qed.

End RezErase.

(** X18. A creation that succeeds adds one record and one node and touches
    nothing else: the records there were are as before and the new one is
    appended; the store of the kind gains the entry of the new node id in
    its primary index and none in its index by key field; the other store
    and the log are as before; and of the nodes there were, only the parent
    changed, in its children alone. *)
Theorem rez_adds_one_item :
  (forall b m l id m',
      vnRezWin b m = (mkVn (Some l) id, m') ->
      added_item IT_WIN jstree_root id l (new_win id) m m')
  /\ (forall x m l id m',
      vnRezTab x m = (mkVn (Some l) id, m') ->
      added_item IT_TAB (vn_node_id (vn_by_vorny x None m)) id l
        (new_tab id) m m').
Proof.
  split.
  - intros b m l id m' (t & m2 & Hc & Hadd & ->)%vnRezWin_ok_inv.
    apply (rez_added IT_WIN _ id l (new_win id) _ _ m t m2 Hc eq_refl
             (new_win_unkeyed id) Hadd).
  - intros x m l id m'
      (pnd & t & m2 & _ & _ & _ & Hc & Hadd & ->)%vnRezTab_ok_inv.
    apply (rez_added IT_TAB _ id l (new_tab id) _ _ m t m2 Hc eq_refl
             (new_tab_unkeyed id) Hadd).
Qed.

Lemma rez_adds_one_item_witness :
  added_item IT_WIN jstree_root Scenario.win1 0%nat (new_win Scenario.win1)
    empty_model Rezzing.one_win
  /\ added_item IT_TAB
       (vn_node_id (vn_by_vorny (Vy (VStr Scenario.win1)) None Rezzing.one_win))
       Scenario.tab1 1%nat (new_tab Scenario.tab1)
       Rezzing.one_win Scenario.rezzed.
Proof.
  destruct rez_adds_one_item as (Hw & Ht). split.
  - apply (Hw false). vm_compute. reflexivity.
  - apply (Ht (Vy (VStr Scenario.win1))). vm_compute. reflexivity.
Defined.

(** X19. A new node takes its place among the children of its parent without
    disturbing their order: [vnRezTab] puts the tab after the children the
    parent had; [vnRezWin] puts the window after the children the root had,
    or, when asked for the first place, after the first of them. *)
Theorem rez_keeps_order :
  (forall b m l id m' root,
      vnRezWin b m = (mkVn (Some l) id, m') ->
      get_node jstree_root (treeobj m) = Some root ->
      n_children <$> get_node jstree_root (treeobj m')
      = Some (if b
              then firstn 1 (n_children root) ++ id :: skipn 1 (n_children root)
              else n_children root ++ [id]))
  /\ (forall x m l id m' parent,
      vnRezTab x m = (mkVn (Some l) id, m') ->
      get_node (vn_node_id (vn_by_vorny x None m)) (treeobj m) = Some parent ->
      n_children <$> get_node (vn_node_id (vn_by_vorny x None m)) (treeobj m')
      = Some (n_children parent ++ [id])).
Proof.
  split.
  - intros b m l id m' root (t & m2 & Hc & Hadd & ->)%vnRezWin_ok_inv Hroot.
    destruct (rez_added IT_WIN _ id l (new_win id) _ _ m t m2 Hc eq_refl
                (new_win_unkeyed id) Hadd) as [_ Hch].
    unfold get_node in *. rewrite (Hch _ Hroot). destruct b; reflexivity.
  - intros x m l id m' parent
      (pnd & t & m2 & _ & _ & _ & Hc & Hadd & ->)%vnRezTab_ok_inv Hparent.
    destruct (rez_added IT_TAB _ id l (new_tab id) _ _ m t m2 Hc eq_refl
                (new_tab_unkeyed id) Hadd) as [_ Hch].
    unfold get_node in *. rewrite (Hch _ Hparent). reflexivity.
Qed.

Lemma rez_keeps_order_witness :
  n_children <$> get_node jstree_root (treeobj Rezzing.three_wins)
  = Some [SameTabs.w0; Rezzing.w2; SameTabs.w1]
  /\ n_children <$> get_node Scenario.win1 (treeobj Scenario.rezzed)
     = Some [Scenario.tab1].
Proof.
  destruct rez_keeps_order as (Hw & Ht). split.
  - assert (Hroot : exists root,
      get_node jstree_root (treeobj SameTabs.two) = Some root
      /\ n_children root = [SameTabs.w0; SameTabs.w1])
      by (eexists; split; vm_compute; reflexivity).
    destruct Hroot as (root & Hroot & Hch).
    rewrite (Hw true SameTabs.two 6%nat Rezzing.w2 Rezzing.three_wins root);
      [rewrite Hch; reflexivity | vm_compute; reflexivity | exact Hroot].
  - assert (Hp : exists p,
      get_node Scenario.win1 (treeobj Rezzing.one_win) = Some p
      /\ n_children p = [])
      by (eexists; split; vm_compute; reflexivity).
    destruct Hp as (p & Hp & Hch).
    change Scenario.win1 with
      (vn_node_id (vn_by_vorny (Vy (VStr Scenario.win1)) None Rezzing.one_win))
      at 1.
    rewrite (Ht (Vy (VStr Scenario.win1)) Rezzing.one_win 1%nat Scenario.tab1
               Scenario.rezzed p);
      [rewrite Hch; reflexivity | vm_compute; reflexivity | exact Hp].
Defined.

(** X20. What a new item looks like: the record is the one the routine hands
    to the store (closed, with [K.NONE] for its Chrome ids), and the node is
    a collapsed leaf under its parent, tagged with the kind of the item and
    nothing else, with the label and the icon of the record. For a tab this
    supposes that [D.windows] has no record under the new node id. *)
Theorem new_item_appearance :
  (forall b m l id m',
      vnRezWin b m = (mkVn (Some l) id, m') ->
      heap m' !! l = Some (new_win id)
      /\ get_node id (treeobj m')
         = Some (mkNode (Some jstree_root) [] (get_html_label (new_win id))
                   (icon_for (new_win id)) {[K.type_name IT_WIN]} false))
  /\ (forall x m l id m',
      vnRezTab x m = (mkVn (Some l) id, m') ->
      D_by_node_id IT_WIN id m = None ->
      heap m' !! l = Some (new_tab id)
      /\ get_node id (treeobj m')
         = Some (mkNode (Some (vn_node_id (vn_by_vorny x None m))) []
                   (get_html_label (new_tab id)) (icon_for (new_tab id))
                   {[K.type_name IT_TAB]} false)).
Proof.
  split.
  - intros b m l id m' (t & m2 & Hc & Hadd & ->)%vnRezWin_ok_inv.
    destruct (rez_added IT_WIN _ id l (new_win id) _ _ m t m2 Hc eq_refl
                (new_win_unkeyed id) Hadd) as [(Hh & Hl & _) _].
    split; [rewrite Hh, Hl; apply list_lookup_middle; reflexivity |].
    apply (rez_new_node IT_WIN _ id l (new_win id) _ _ m t m2 Hc eq_refl
             (new_win_unkeyed id) Hadd).
    apply (D_val_after_add_win (new_win id) _ _ _ Hadd).
  - intros x m l id m'
      (pnd & t & m2 & _ & _ & _ & Hc & Hadd & ->)%vnRezTab_ok_inv Hw.
    destruct (rez_added IT_TAB _ id l (new_tab id) _ _ m t m2 Hc eq_refl
                (new_tab_unkeyed id) Hadd) as [(Hh & Hl & _) _].
    split; [rewrite Hh, Hl; apply list_lookup_middle; reflexivity |].
    apply (rez_new_node IT_TAB _ id l (new_tab id) _ _ m t m2 Hc eq_refl
             (new_tab_unkeyed id) Hadd).
    apply (D_val_after_add_tab (new_tab id) _ _ _ Hadd). exact Hw.
Qed.

Lemma new_item_appearance_witness :
  (heap Rezzing.one_win !! 0%nat = Some (new_win Scenario.win1)
   /\ get_node Scenario.win1 (treeobj Rezzing.one_win)
      = Some (mkNode (Some jstree_root) []
                (get_html_label (new_win Scenario.win1))
                (icon_for (new_win Scenario.win1))
                {[K.type_name IT_WIN]} false))
  /\ (heap Scenario.rezzed !! 1%nat = Some (new_tab Scenario.tab1)
      /\ get_node Scenario.tab1 (treeobj Scenario.rezzed)
         = Some (mkNode
                   (Some (vn_node_id (vn_by_vorny (Vy (VStr Scenario.win1))
                                        None Rezzing.one_win))) []
                   (get_html_label (new_tab Scenario.tab1))
                   (icon_for (new_tab Scenario.tab1))
                   {[K.type_name IT_TAB]} false)).
Proof.
  destruct new_item_appearance as (Hw & Ht). split.
  - apply (Hw false empty_model). vm_compute. reflexivity.
  - apply (Ht (Vy (VStr Scenario.win1)) Rezzing.one_win).
    + vm_compute. reflexivity.
    + vm_compute. reflexivity.
Defined.

(** X21. A creation undone: erasing the item that [vnRezWin] or [vnRezTab]
    has just added succeeds and gives back both stores, the nodes of the
    tree and the log as they were before the creation. Only the record
    object stays behind, in no store, and the ids generated move on. This
    supposes that the store indexes records under keys only, and that the
    parent did not already list the new node id among its children. *)
Theorem rez_then_erase :
  (forall b m l id m',
      vnRezWin b m = (mkVn (Some l) id, m') ->
      only_keys (windows m) ->
      (forall root, get_node jstree_root (treeobj m) = Some root ->
                    id ∉ n_children root) ->
      exists m'',
        eraseWin (Vy (VStr id)) m' = (true, m'')
        /\ windows m'' = windows m /\ tabs m'' = tabs m
        /\ nodes (treeobj m'') = nodes (treeobj m)
        /\ log m'' = log m
        /\ heap m'' = heap m ++ [new_win id])
  /\ (forall x m l id m',
      vnRezTab x m = (mkVn (Some l) id, m') ->
      only_keys (tabs m) ->
      (forall p,
          get_node (vn_node_id (vn_by_vorny x None m)) (treeobj m) = Some p ->
          id ∉ n_children p) ->
      exists m'',
        eraseTab (Vy (VStr id)) m' = (true, m'')
        /\ windows m'' = windows m /\ tabs m'' = tabs m
        /\ nodes (treeobj m'') = nodes (treeobj m)
        /\ log m'' = log m
        /\ heap m'' = heap m ++ [new_tab id]).
Proof.
  split.
  - intros b m l id m' (t & m2 & Hc & Hadd & ->)%vnRezWin_ok_inv
      Hkeys Hfresh_child.
    pose proof Hc as Hc'.
    apply create_node_tree in Hc' as (root & Hroot & _).
    destruct (rez_undo IT_WIN _ id l (new_win id) _ _ m t m2 root Hc eq_refl
                (new_win_unkeyed id) Hadd Hroot (Hfresh_child _ Hroot) Hkeys)
      as (Hback & Hres & Hstored & nc & Hnc & Hch).
    assert (Hitem : window_item (Vy (VStr id))
              (snd (refresh_icon (VyVal l) (snd (refresh_label id m2))))
              l (new_win id) id nc)
      by (split; [exact Hres | split; [exact Hstored | exact Hnc]]).
    rewrite (eraseWin_run _ _ _ _ _ _ Hitem), Hch. simpl.
    eexists. split; [reflexivity | exact Hback].
  - intros x m l id m'
      (pnd & t & m2 & _ & _ & Hp & Hc & Hadd & ->)%vnRezTab_ok_inv
      Hkeys Hfresh_child.
    destruct (rez_undo IT_TAB _ id l (new_tab id) _ _ m t m2 pnd Hc eq_refl
                (new_tab_unkeyed id) Hadd Hp (Hfresh_child _ Hp) Hkeys)
      as (Hback & Hres & Hstored & nc & Hnc & Hch).
    rewrite (eraseTab_run _ _ _ _ _ Hres) by (unfold get_node; eauto).
    eexists. split; [reflexivity | exact Hback].
Qed.

Lemma rez_then_erase_witness :
  (exists m'',
      eraseWin (Vy (VStr Scenario.win1)) Rezzing.one_win = (true, m'')
      /\ windows m'' = windows empty_model /\ tabs m'' = tabs empty_model
      /\ nodes (treeobj m'') = nodes (treeobj empty_model)
      /\ log m'' = log empty_model
      /\ heap m'' = heap empty_model ++ [new_win Scenario.win1])
  /\ (exists m'',
      eraseTab (Vy (VStr Scenario.tab1)) Scenario.rezzed = (true, m'')
      /\ windows m'' = windows Rezzing.one_win
      /\ tabs m'' = tabs Rezzing.one_win
      /\ nodes (treeobj m'') = nodes (treeobj Rezzing.one_win)
      /\ log m'' = log Rezzing.one_win
      /\ heap m'' = heap Rezzing.one_win ++ [new_tab Scenario.tab1]).
Proof.
  destruct rez_then_erase as (Hw & Ht). split.
  - apply (Hw false empty_model 0%nat).
    + vm_compute. reflexivity.
    + apply only_keys_b_spec. vm_compute. reflexivity.
    + intros root Hroot. vm_compute in Hroot. injection Hroot as <-.
      simpl. apply not_elem_of_nil.
  - apply (Ht (Vy (VStr Scenario.win1)) Rezzing.one_win 1%nat).
    + vm_compute. reflexivity.
    + apply only_keys_b_spec. vm_compute. reflexivity.
    + intros p Hp. vm_compute in Hp. injection Hp as <-.
      simpl. apply not_elem_of_nil.
Defined.

(** ** Chrome ids and the index by key field *)

Section ChromeIds.

Lemma by_field_refresh k m l id :
  by_field (store k (snd (refresh_icon (VyVal l) (snd (refresh_label id m)))))
  = by_field (store k m).
Proof.
  destruct k; simpl.
  - rewrite windows_refresh_icon, windows_refresh_label. reflexivity.
  - rewrite tabs_refresh_icon, tabs_refresh_label. reflexivity.
Qed.

Lemma by_field_change_key k l f x m v :
  heap m !! l = Some v ->
  by_field (store k (D_change_key k l f x m))
  = index_field l (set_key f x v) (unindex_field v (by_field (store k m)) f) f.
Proof.
  intros Hv. rewrite (D_change_key_eq _ _ _ _ _ _ Hv). destruct k; reflexivity.
Qed.

Lemma get_set_key f x v : get_key f (set_key f x v) = x.
Proof. destruct f; reflexivity. Qed.

Lemma lookup_new_key k l f x m v :
  heap m !! l = Some v -> indexable x = true ->
  D_by_key k f x (D_change_key k l f x m) = Some l.
Proof.
  intros Hv Hx. unfold D_by_key. rewrite (by_field_change_key _ _ _ _ _ _ Hv).
  unfold index_field. rewrite get_set_key, Hx. apply lookup_insert_eq.
Qed.

Lemma lookup_old_key k l f x m v :
  heap m !! l = Some v -> indexable x = false ->
  D_by_key k f (get_key f v) (D_change_key k l f x m) = None.
Proof.
  intros Hv Hx. unfold D_by_key. rewrite (by_field_change_key _ _ _ _ _ _ Hv).
  unfold index_field, unindex_field. rewrite get_set_key, Hx.
  apply lookup_delete_eq.
Qed.

Lemma truthy_indexable x :
  truthy x = true -> x <> K.NONE -> indexable x = true.
Proof.
  intros Ht Hne. unfold indexable.
  destruct x; try discriminate;
    apply negb_true_iff, bool_decide_eq_false; exact Hne.
Qed.

End ChromeIds.

(** X22. An item is found under its Chrome id while it is marked open: after
    [markWinAsOpen] (or [markTabAsOpen]) returns true, the index of
    [D.windows] by window id (of [D.tabs] by tab id) leads from the id of the
    Chrome window (tab) to the record, unless that id is [K.NONE]; after
    [markWinAsClosed] (or [markTabAsClosed]) returns true, the index has no
    entry under the id the record had. *)
Theorem found_by_chrome_id_while_open :
  (forall x cwin m m',
      markWinAsOpen x cwin m = (true, m') ->
      exists cw l,
        cwin = Some cw
        /\ vn_val (vn_by_vorny x (Some IT_WIN) m) = Some l
        /\ (cw_id cw <> K.NONE ->
            D_by_key IT_WIN F_win_id (cw_id cw) m' = Some l))
  /\ (forall x ctab m m',
      markTabAsOpen x ctab m = (true, m') ->
      exists ct l,
        ctab = Some ct
        /\ vn_val (vn_by_vorny x (Some IT_TAB) m) = Some l
        /\ (ct_id ct <> K.NONE ->
            D_by_key IT_TAB F_tab_id (ct_id ct) m' = Some l))
  /\ (forall x m m',
      markWinAsClosed x m = (true, m') ->
      exists l v id,
        resolved x IT_WIN m = Some (l, v, id)
        /\ D_by_key IT_WIN F_win_id (win_id v) m' = None)
  /\ (forall x m m',
      markTabAsClosed x m = (true, m') ->
      exists l v id,
        resolved x IT_TAB m = Some (l, v, id)
        /\ D_by_key IT_TAB F_tab_id (tab_id v) m' = None).
Proof.
  split; [| split; [| split]].
  - intros x cwin m m'
      (cw & l & v & id & nd & -> & Hcw & Hres & _ & _ & _ & ->)
      %markWinAsOpen_true_inv.
    exists cw, l. split; [reflexivity |].
    pose proof Hres as Hres'. resolve_in Hres'. split; [assumption |].
    intros Hne. unfold D_by_key. rewrite by_field_refresh.
    apply (lookup_new_key IT_WIN l F_win_id (cw_id cw)
             (with_tree (open_node id) m) v);
      [exact Hv | apply truthy_indexable; assumption].
  - intros x ctab m m'
      (ct & l & v & id & nd & -> & Hct & Hres & _ & _ & _ & ->)
      %markTabAsOpen_true_inv.
    exists ct, l. split; [reflexivity |].
    pose proof Hres as Hres'. resolve_in Hres'. split; [assumption |].
    intros Hne. unfold D_by_key.
    assert (Hop : forall (p : option jsstring) m0,
      by_field (store IT_TAB
        ((match p with
          | Some p0 => with_tree (open_node p0)
          | None => fun m => m
          end) m0)) = by_field (store IT_TAB m0))
      by (intros [p0 |] m0; reflexivity).
    rewrite Hop, by_field_refresh.
    apply (lookup_new_key IT_TAB l F_tab_id (ct_id ct) m v);
      [exact Hv | apply truthy_indexable; assumption].
  - intros x m m' (l & v & id & cw & Hres & _ & _ & ->)%markWinAsClosed_true_inv.
    exists l, v, id. split; [exact Hres |].
    resolve_in Hres. unfold D_by_key. rewrite by_field_refresh.
    apply (lookup_old_key IT_WIN l F_win_id K.NONE m v Hv). reflexivity.
  - intros x m m'
      (l & v & id & nd & ct & Hres & _ & _ & _ & ->)%markTabAsClosed_true_inv.
    exists l, v, id. split; [exact Hres |].
    resolve_in Hres. unfold D_by_key. simpl. rewrite tabs_refresh_label.
    apply (lookup_old_key IT_TAB l F_tab_id K.NONE m v Hv). reflexivity.
Qed.

Lemma found_by_chrome_id_while_open_witness :
  (exists cw l,
      Some Scenario.live_win = Some cw
      /\ vn_val (vn_by_vorny (Vy (VStr Scenario.win1)) (Some IT_WIN)
                   Scenario.tab_open) = Some l
      /\ (cw_id cw <> K.NONE ->
          D_by_key IT_WIN F_win_id (cw_id cw) Scenario.both_open = Some l))
  /\ (exists ct l,
      Some Scenario.live_tab = Some ct
      /\ vn_val (vn_by_vorny (Vy (VStr Scenario.tab1)) (Some IT_TAB)
                   Scenario.rezzed) = Some l
      /\ (ct_id ct <> K.NONE ->
          D_by_key IT_TAB F_tab_id (ct_id ct) Scenario.tab_open = Some l))
  /\ (exists l v id,
      resolved (Vy (VStr Scenario.win1)) IT_WIN Scenario.both_open
      = Some (l, v, id)
      /\ D_by_key IT_WIN F_win_id (win_id v) Closing.win_closed = None)
  /\ (exists l v id,
      resolved (Vy (VStr Scenario.tab1)) IT_TAB Scenario.both_open
      = Some (l, v, id)
      /\ D_by_key IT_TAB F_tab_id (tab_id v) Closing.tab_closed = None).
Proof.
  destruct found_by_chrome_id_while_open as (Hwo & Hto & Hwc & Htc).
  split; [| split; [| split]].
  - apply Hwo. vm_compute. reflexivity.
  - apply Hto. vm_compute. reflexivity.
  - apply Hwc. vm_compute. reflexivity.
  - apply Htc. vm_compute. reflexivity.
Defined.

(** ** Expanding the node of an open window *)

Section Expansion.

Lemma opened_after_open_node id t :
  n_opened <$> nodes (open_node id t) !! id = expanded <$> nodes t !! id.
Proof.
  unfold open_node. rewrite lookup_alter_node.
  destruct (nodes t !! id) as [n |]; [| reflexivity]. simpl.
  unfold expanded. destruct (n_children n); reflexivity.
Qed.

End Expansion.

(** X23. Marking as open expands: after [markWinAsOpen] returns true the
    node of the window is expanded if it has children, and is as it was if
    it has none; after [markTabAsOpen] returns true the same holds of the
    node of the parent of the tab. *)
Theorem opening_expands :
  (forall x cwin m m' id nd,
      markWinAsOpen x cwin m = (true, m') ->
      vn_node_id (vn_by_vorny x None m) = id ->
      get_node id (treeobj m) = Some nd ->
      n_opened <$> get_node id (treeobj m') = Some (expanded nd))
  /\ (forall x ctab m m' id nd p pn,
      markTabAsOpen x ctab m = (true, m') ->
      vn_node_id (vn_by_vorny x None m) = id ->
      get_node id (treeobj m) = Some nd ->
      n_parent nd = Some p ->
      get_node p (treeobj m) = Some pn ->
      n_opened <$> get_node p (treeobj m') = Some (expanded pn)).
Proof.
  split.
  - intros x cwin m m' id nd
      (cw & l & v & id0 & nd0 & -> & _ & Hres & _ & _ & _ & ->)
      %markWinAsOpen_true_inv Hid Hnd.
    apply resolved_node_id in Hres as (_ & _ & Hid0).
    rewrite Hid in Hid0. subst id0.
    unfold get_node in *. tree_proj. unfold add_multitype.
    rewrite (lookup_alter_node_proj n_opened) by reflexivity.
    rewrite opened_after_open_node, Hnd. reflexivity.
  - intros x ctab m m' id nd p pn
      (ct & l & v & id0 & nd0 & -> & _ & Hres & _ & _ & Hnd0 & ->)
      %markTabAsOpen_true_inv Hid Hnd Hpar Hpn.
    apply resolved_node_id in Hres as (_ & _ & Hid0).
    rewrite Hid in Hid0. subst id0.
    assert (nd0 = nd) as -> by congruence. rewrite Hpar.
    unfold get_node in *. cbn [treeobj with_tree].
    rewrite opened_after_open_node.
    assert (Hch : forall t i (f : tnode -> tnode),
      (forall n, n_children (f n) = n_children n) ->
      (forall n, n_opened (f n) = n_opened n) ->
      expanded <$> nodes (alter_node f i t) !! p = expanded <$> nodes t !! p).
    { intros t i f Hc Ho. apply (lookup_alter_node_proj expanded).
      intros n. unfold expanded. rewrite Hc, Ho. reflexivity. }
    rewrite (refresh_icon_proj expanded) by reflexivity.
    rewrite (refresh_label_proj expanded) by reflexivity.
    cbn [treeobj with_tree assign with_heap].
    rewrite treeobj_D_change_key.
    unfold add_multitype. rewrite Hch by reflexivity.
    rewrite Hpn. reflexivity.
Qed.

Lemma opening_expands_witness :
  (exists nd,
      get_node Scenario.win1 (treeobj Scenario.tab_open) = Some nd
      /\ n_opened <$> get_node Scenario.win1 (treeobj Scenario.both_open)
         = Some (expanded nd))
  /\ (exists pn,
      get_node Scenario.win1 (treeobj Scenario.rezzed) = Some pn
      /\ n_opened <$> get_node Scenario.win1 (treeobj Scenario.tab_open)
         = Some (expanded pn)).
Proof.
  destruct opening_expands as (Hw & Ht). split.
  - eexists. split; [vm_compute; reflexivity |].
    eapply (Hw (Vy (VStr Scenario.win1)) (Some Scenario.live_win)
              Scenario.tab_open).
    + vm_compute. reflexivity.
    + vm_compute. reflexivity.
    + vm_compute. reflexivity.
  - eexists. split; [vm_compute; reflexivity |].
    eapply (Ht (Vy (VStr Scenario.tab1)) (Some Scenario.live_tab)
              Scenario.rezzed Scenario.tab_open Scenario.tab1).
    + vm_compute. reflexivity.
    + vm_compute. reflexivity.
    + vm_compute. reflexivity.
    + vm_compute. reflexivity.
    + vm_compute. reflexivity.
Defined.

(** ** Erasing one tab *)

(** X24. [eraseTab] on a tab item whose node is a leaf under [p] succeeds and
    takes away that item and nothing else: the record objects, [D.windows]
    and the log are as before, [D.tabs] loses the entry of the record in its
    primary index, and the tree loses the node; the other children of [p]
    keep their order. *)
Theorem eraseTab_removes_one_item m x l v id nd p :
  resolved x IT_TAB m = Some (l, v, id) ->
  get_node id (treeobj m) = Some nd ->
  n_children nd = [] -> n_parent nd = Some p ->
  exists m',
    eraseTab x m = (true, m')
    /\ removed_tab v id p m m'
    /\ forall pn,
         p <> id -> get_node p (treeobj m) = Some pn ->
         n_children <$> get_node p (treeobj m')
         = Some (List.filter (fun c => negb (bool_decide (c = id)))
                   (n_children pn)).
Proof.
  intros Hres Hnd Hleaf Hpar.
  rewrite (eraseTab_run _ _ _ _ _ Hres) by eauto.
  resolve_in Hres. eexists. split; [reflexivity |].
  unfold get_node in Hnd.
  assert (Hnodes :
    nodes (treeobj (with_tree (delete_node id) (D_remove_value IT_TAB l m)))
    = alter (remove_child id) p (delete id (nodes (treeobj m))))
    by (apply (delete_leaf id (treeobj m) nd p Hnd Hleaf Hpar)).
  split.
  - unfold removed_tab. do 3 (split; [reflexivity |]).
    split; [simpl; unfold md_remove_value; rewrite Hv; reflexivity |].
    split; [apply (remove_value_subseteq (heap m) (tabs m) l) |].
    split; [| exact Hnodes].
    simpl. unfold delete_node. rewrite Hnd, Hpar. reflexivity.
  - intros pn Hne Hpn. unfold get_node in *. rewrite Hnodes.
    rewrite lookup_alter_eq, lookup_delete_ne by auto. rewrite Hpn.
    reflexivity.
Qed.

Lemma eraseTab_removes_one_item_witness :
  exists v m',
    resolved (Vy (VStr Scenario.tab1)) IT_TAB Scenario.rezzed
    = Some (1%nat, v, Scenario.tab1)
    /\ eraseTab (Vy (VStr Scenario.tab1)) Scenario.rezzed = (true, m')
    /\ removed_tab v Scenario.tab1 Scenario.win1 Scenario.rezzed m'
    /\ forall pn,
         Scenario.win1 <> Scenario.tab1 ->
         get_node Scenario.win1 (treeobj Scenario.rezzed) = Some pn ->
         n_children <$> get_node Scenario.win1 (treeobj m')
         = Some (List.filter
                   (fun c => negb (bool_decide (c = Scenario.tab1)))
                   (n_children pn)).
Proof.
  assert (Hi : exists v nd,
    resolved (Vy (VStr Scenario.tab1)) IT_TAB Scenario.rezzed
    = Some (1%nat, v, Scenario.tab1)
    /\ get_node Scenario.tab1 (treeobj Scenario.rezzed) = Some nd
    /\ n_children nd = [] /\ n_parent nd = Some Scenario.win1).
  { do 2 eexists. split; [vm_compute; reflexivity |].
    split; [vm_compute; reflexivity |]. split; reflexivity. }
  destruct Hi as (v & nd & Hres & Hnd & Hleaf & Hpar).
  destruct (eraseTab_removes_one_item _ _ _ _ _ _ _ Hres Hnd Hleaf Hpar)
    as (m' & He & Hrem & Hch).
  exists v, m'. auto.
Defined.

(** ** Opening and closing a window *)

Section OpenClose.

Lemma windows_refresh k m l id :
  store k (snd (refresh_icon (VyVal l) (snd (refresh_label id m)))) = store k m.
Proof.
  destruct k; simpl.
  - rewrite windows_refresh_icon, windows_refresh_label. reflexivity.
  - rewrite tabs_refresh_icon, tabs_refresh_label. reflexivity.
Qed.

Lemma heap_refresh m l id :
  heap (snd (refresh_icon (VyVal l) (snd (refresh_label id m)))) = heap m.
Proof. rewrite heap_refresh_icon, heap_refresh_label. reflexivity. Qed.

Lemma log_refresh m l id :
  log (snd (refresh_icon (VyVal l) (snd (refresh_label id m)))) = log m.
Proof. rewrite log_refresh_icon, log_refresh_label. reflexivity. Qed.

Lemma multidex_eq md md' :
  md_fields md' = md_fields md -> by_node md' = by_node md ->
  by_field md' = by_field md -> md' = md.
Proof. destruct md, md'; simpl. intros -> -> ->. reflexivity. Qed.

(** The index by window id after the id of a closed window is set and then
    cleared again. *)
Lemma win_id_set_and_cleared (l : nat) (v : item_val) (x : jsval)
    (idx : gmap (key_field * jsval) nat) :
  win_id v = K.NONE ->
  (forall f y, indexable y = false -> idx !! (f, y) = None) ->
  idx !! (F_win_id, x) = None ->
  index_field l (set_key F_win_id K.NONE (set_key F_win_id x v))
    (unindex_field (set_key F_win_id x v)
       (index_field l (set_key F_win_id x v)
          (unindex_field v idx F_win_id) F_win_id) F_win_id) F_win_id
  = idx.
Proof.
  intros Hnone Hkeys Hfree. unfold index_field, unindex_field.
  rewrite !get_set_key. simpl get_key. rewrite Hnone.
  change (indexable K.NONE) with false. cbv iota.
  rewrite (delete_id idx (F_win_id, K.NONE)) by (apply Hkeys; reflexivity).
  destruct (indexable x).
  - apply delete_insert_id. exact Hfree.
  - apply delete_id. exact Hfree.
Qed.

End OpenClose.

(** X25. Opening and then closing a window restores its record and the
    stores: when [markWinAsOpen] returns true for a window whose [win_id] was
    [K.NONE], with the index holding keys only and none under the id of the
    Chrome window, [markWinAsClosed] then returns true and the record
    objects, both stores and the log are as before the two calls. *)
Theorem open_then_close_window x cw m m1 l v id :
  markWinAsOpen x (Some cw) m = (true, m1) ->
  resolved x IT_WIN m = Some (l, v, id) ->
  win_id v = K.NONE ->
  only_keys (windows m) ->
  D_by_key IT_WIN F_win_id (cw_id cw) m = None ->
  exists m2,
    markWinAsClosed x m1 = (true, m2)
    /\ heap m2 = heap m /\ windows m2 = windows m /\ tabs m2 = tabs m
    /\ log m2 = log m.
Proof.
  intros (cw0 & l0 & v0 & id0 & nd & [= <-] & Hcw & Hres0 & Ho & Hw & Hnd & ->)
    %markWinAsOpen_true_inv Hres Hnone Hkeys Hfree.
  rewrite Hres in Hres0. injection Hres0 as <- <- <-.
  pose proof Hres as Hres'. resolve_in Hres'.
  set (m1 := snd (refresh_icon (VyVal l) _)).
  set (v1 := set_isOpen true (set_win (Some cw) (set_key F_win_id (cw_id cw) v))).
  assert (Hsame : same_items m m1) by (unfold m1; same_items_steps).
  assert (Hv1 : heap m1 !! l = Some v1).
  { unfold m1. rewrite heap_refresh. simpl.
    rewrite (heap_D_change_key IT_WIN l F_win_id (cw_id cw)
               (with_tree (open_node id) m) v Hv).
    unfold v1. heap_lookup. }
  pose proof (resolved_same_items _ _ _ _ _ _ _ _ Hsame Hres Hv1) as Hres1.
  destruct (markWinAsClosed x m1) as [b m2] eqn:Hclose.
  destruct b.
  - apply markWinAsClosed_true_inv in Hclose
      as (l' & v' & id' & cw' & Hres' & _ & _ & ->).
    rewrite Hres1 in Hres'. injection Hres' as <- <- <-.
    eexists. split; [reflexivity |].
    assert (Hh1 : heap m1
                  = alter (set_isOpen true)
                      l (alter (set_win (Some cw)) l
                           (<[l := set_key F_win_id (cw_id cw) v]> (heap m)))).
    { unfold m1. rewrite heap_refresh. simpl.
      rewrite (heap_D_change_key IT_WIN l F_win_id (cw_id cw)
                 (with_tree (open_node id) m) v Hv). reflexivity. }
    split; [| split; [| split]].
    + rewrite heap_refresh. simpl.
      rewrite (heap_D_change_key IT_WIN l F_win_id K.NONE m1 v1 Hv1).
      apply list_eq. intros i. destruct (decide (i = l)) as [-> |].
      * rewrite !list_lookup_alter_eq.
        rewrite (heap_lookup_insert_same _ _ _ _ Hv1), Hv. simpl. f_equal.
        unfold v1. destruct v. simpl in *. subst. reflexivity.
      * rewrite !list_lookup_alter_ne by auto.
        rewrite list_lookup_insert_ne by auto.
        rewrite Hh1. rewrite !list_lookup_alter_ne by auto.
        rewrite list_lookup_insert_ne by auto. reflexivity.
    + rewrite (windows_refresh IT_WIN). simpl.
      rewrite (D_change_key_eq IT_WIN l F_win_id K.NONE m1 v1 Hv1). simpl.
      assert (Hw1 : windows m1
                = mkMultidex (md_fields (windows m)) (by_node (windows m))
                    (index_field l (set_key F_win_id (cw_id cw) v)
                       (unindex_field v (by_field (windows m)) F_win_id)
                       F_win_id)).
      { unfold m1. rewrite (windows_refresh IT_WIN). simpl.
        assert (Hv' : heap (with_tree (open_node id) m) !! l = Some v)
          by exact Hv.
        rewrite (D_change_key_eq _ _ _ _ _ _ Hv'). reflexivity. }
      rewrite Hw1. simpl. apply multidex_eq; simpl; try reflexivity.
      unfold v1.
      assert (Hu : forall a i, unindex_field
                (set_isOpen true (set_win (Some cw) a)) i F_win_id
              = unindex_field a i F_win_id) by reflexivity.
      assert (Hi : forall a i, index_field l
                (set_key F_win_id K.NONE
                   (set_isOpen true (set_win (Some cw) a))) i F_win_id
              = index_field l (set_key F_win_id K.NONE a) i F_win_id)
        by reflexivity.
      rewrite Hu, Hi.
      apply win_id_set_and_cleared; assumption.
    + rewrite (windows_refresh IT_TAB). simpl.
      rewrite (store_D_change_key_other IT_WIN IT_TAB) by discriminate.
      unfold m1. rewrite (windows_refresh IT_TAB). simpl.
      rewrite (store_D_change_key_other IT_WIN IT_TAB) by discriminate.
      reflexivity.
    + rewrite log_refresh. simpl. rewrite log_D_change_key.
      unfold m1. rewrite log_refresh. simpl. rewrite log_D_change_key.
      reflexivity.
  - exfalso.
    assert (Hopen : isOpen v1 = true) by reflexivity.
    assert (Hwin : win v1 = Some cw) by reflexivity.
    unfold markWinAsClosed in Hclose.
    resolve_in Hres1. rewrite Hx0 in Hclose. simpl in Hclose.
    rewrite Hl0, Hv0, Hid0, Hs0 in Hclose. simpl in Hclose.
    discriminate.
Qed.

Lemma open_then_close_window_witness :
  exists m2,
    markWinAsClosed (Vy (VStr Scenario.win1)) Opening.win_opened = (true, m2)
    /\ heap m2 = heap Scenario.rezzed /\ windows m2 = windows Scenario.rezzed
    /\ tabs m2 = tabs Scenario.rezzed /\ log m2 = log Scenario.rezzed.
Proof.
  assert (Hi : exists v,
    resolved (Vy (VStr Scenario.win1)) IT_WIN Scenario.rezzed
    = Some (0%nat, v, Scenario.win1) /\ win_id v = K.NONE)
    by (eexists; split; [vm_compute; reflexivity | reflexivity]).
  destruct Hi as (v & Hres & Hnone).
  apply (open_then_close_window (Vy (VStr Scenario.win1)) Scenario.live_win
           Scenario.rezzed Opening.win_opened 0%nat v Scenario.win1).
  - vm_compute. reflexivity.
  - exact Hres.
  - exact Hnone.
  - apply only_keys_b_spec. vm_compute. reflexivity.
  - vm_compute. reflexivity.
Defined.

(** * The stores stay in agreement with the records *)

Section Consistency.

Lemma consistent_ext m m' :
  heap m' = heap m -> windows m' = windows m -> tabs m' = tabs m ->
  consistent m -> consistent m'.
Proof.
  intros Hh Hw Ht Hc k. specialize (Hc k).
  assert (Hs : store k m' = store k m) by (destruct k; assumption).
  unfold store_ok in *. rewrite Hs, Hh. exact Hc.
Qed.

Lemma consistent_with_tree f m : consistent m -> consistent (with_tree f m).
Proof. apply consistent_ext; reflexivity. Qed.

Lemma consistent_log_info msg l m : consistent m -> consistent (log_info msg l m).
Proof. apply consistent_ext; reflexivity. Qed.

Lemma consistent_refresh_label id m :
  consistent m -> consistent (snd (refresh_label id m)).
Proof.
  apply consistent_ext;
    [apply heap_refresh_label | apply windows_refresh_label
     | apply tabs_refresh_label].
Qed.

Lemma consistent_refresh_icon x m :
  consistent m -> consistent (snd (refresh_icon x m)).
Proof.
  apply consistent_ext;
    [apply heap_refresh_icon | apply windows_refresh_icon
     | apply tabs_refresh_icon].
Qed.

Lemma stored_ext k l m m' :
  store k m' = store k m -> stored k l m -> stored k l m'.
Proof. unfold stored. intros ->. auto. Qed.

Lemma stored_record k l m :
  consistent m -> stored k l m -> exists v, heap m !! l = Some v /\ ty v = k.
Proof. intros Hc [id Hid]. destruct (Hc k) as (_ & _ & Hk & _). eauto. Qed.

(** A record is in one store at most. *)
Lemma stored_kind k k' l m :
  consistent m -> stored k l m -> stored k' l m -> k' = k.
Proof.
  intros Hc H H'.
  destruct (stored_record _ _ _ Hc H) as (v & Hv & Hty).
  destruct (stored_record _ _ _ Hc H') as (v' & Hv' & Hty'). congruence.
Qed.

Lemma store_assign k l g m : store k (assign l g m) = store k m.
Proof. destruct k; reflexivity. Qed.

(** Assigning to fields of the record at [l] that are no keys of its
    store. *)
Lemma consistent_assign k l g m :
  consistent m -> (forall k', stored k' l m -> k' = k) ->
  (forall v, node_id (g v) = node_id v /\ ty (g v) = ty v
             /\ forall f, f ∈ key_fields k -> get_key f (g v) = get_key f v) ->
  consistent (assign l g m).
Proof.
  intros Hc Hst Hg k'. destruct (Hc k') as (Hf & [Hbn Hbf] & Hkind & Hmem).
  unfold store_ok. rewrite store_assign. simpl.
  split; [exact Hf |]. split; [split |]; [| | split].
  - intros id l' Hl'. destruct (Hbn _ _ Hl') as (v & Hv & Hid).
    destruct (decide (l' = l)) as [-> |].
    + exists (g v). rewrite (heap_lookup_alter_same _ _ _ _ Hv).
      split; [reflexivity |]. rewrite (proj1 (Hg v)). exact Hid.
    + exists v. rewrite list_lookup_alter_ne by auto. auto.
  - intros f x l' Hl'. destruct (Hbf _ _ _ Hl') as (Hin & v & Hv & Hkey).
    split; [exact Hin |].
    destruct (decide (l' = l)) as [-> |].
    + exists (g v). rewrite (heap_lookup_alter_same _ _ _ _ Hv).
      split; [reflexivity |].
      assert (Hk : stored k' l m) by (apply Hmem in Hl'; exact Hl').
      assert (k' = k) as -> by (apply Hst; exact Hk).
      rewrite Hf in Hin. rewrite (proj2 (proj2 (Hg v)) f Hin). exact Hkey.
    + exists v. rewrite list_lookup_alter_ne by auto. auto.
  - intros id l' Hl'. destruct (Hkind _ _ Hl') as (v & Hv & Hty).
    destruct (decide (l' = l)) as [-> |].
    + exists (g v). rewrite (heap_lookup_alter_same _ _ _ _ Hv).
      split; [reflexivity |]. rewrite (proj1 (proj2 (Hg v))). exact Hty.
    + exists v. rewrite list_lookup_alter_ne by auto. auto.
  - exact Hmem.
Qed.

End Consistency.

Section Consistency2.

Lemma get_set_key_ne f f' x v : f' <> f -> get_key f' (set_key f x v) = get_key f' v.
Proof. destruct f, f'; try reflexivity; congruence. Qed.

Lemma set_key_ty f x v : ty (set_key f x v) = ty v.
Proof. destruct f; reflexivity. Qed.

Lemma store_with_store k h md m : store k (with_store k h md m) = md.
Proof. destruct k; reflexivity. Qed.

Lemma store_with_store_ne k k' h md m :
  k' <> k -> store k' (with_store k h md m) = store k' m.
Proof. destruct k, k'; try reflexivity; congruence. Qed.

Lemma heap_with_store k h md m : heap (with_store k h md m) = h.
Proof. destruct k; reflexivity. Qed.

(** Moving the record at [l], which is in the store of the kind [k], to a
    new key. *)
Lemma consistent_change_key k l f x m :
  consistent m -> stored k l m -> f ∈ key_fields k ->
  consistent (D_change_key k l f x m).
Proof.
  intros Hc Hst Hfk.
  destruct (stored_record _ _ _ Hc Hst) as (v & Hv & Hty).
  rewrite (D_change_key_eq _ _ _ _ _ _ Hv). intros k'.
  destruct (Hc k') as (Hf & [Hbn Hbf] & Hkind & Hmem).
  assert (Hrec : forall l', l' <> l ->
            <[l := set_key f x v]> (heap m) !! l' = heap m !! l')
    by (intros l' Hne; apply list_lookup_insert_ne; auto).
  assert (Hl : <[l := set_key f x v]> (heap m) !! l = Some (set_key f x v))
    by (apply (heap_lookup_insert_same _ _ _ _ Hv)).
  destruct (decide (k' = k)) as [-> | Hne].
  - unfold store_ok. rewrite store_with_store, heap_with_store. simpl.
    split; [exact Hf |]. split; [split |]; [| | split].
    + intros id l' Hl'. destruct (Hbn _ _ Hl') as (v' & Hv' & Hid).
      destruct (decide (l' = l)) as [-> |].
      * exists (set_key f x v). split; [exact Hl |].
        rewrite set_key_node_id. congruence.
      * exists v'. rewrite Hrec by auto. auto.
    + intros f' y l'. cbn [by_field].
      unfold index_field, unindex_field. rewrite get_set_key. intros Hl'.
      assert (Hcase : (f', y) = (f, x) /\ l' = l
                      \/ ((f', y) <> (f, get_key f v)
                          /\ by_field (store k m) !! (f', y) = Some l')).
      { revert Hl'. destruct (indexable x); intros Hl'.
        - destruct (decide ((f', y) = (f, x))) as [E | E].
          + rewrite E, lookup_insert_eq in Hl'. left. split; congruence.
          + rewrite lookup_insert_ne in Hl' by congruence.
            apply lookup_delete_Some in Hl' as [? ?]. right. split; congruence.
        - apply lookup_delete_Some in Hl' as [? ?]. right. split; congruence. }
      destruct Hcase as [[[= -> ->] ->] | [Hother Hold]].
      * split; [rewrite Hf; exact Hfk |].
        exists (set_key f x v). split; [exact Hl | apply get_set_key].
      * destruct (Hbf _ _ _ Hold) as (Hin & v' & Hv' & Hkey).
        split; [exact Hin |].
        destruct (decide (l' = l)) as [-> |].
        -- exists (set_key f x v). split; [exact Hl |].
           assert (v' = v) as -> by congruence.
           destruct (decide (f' = f)) as [-> |].
           ++ congruence.
           ++ rewrite get_set_key_ne by auto. exact Hkey.
        -- exists v'. rewrite Hrec by auto. auto.
    + intros id l' Hl'. destruct (Hkind _ _ Hl') as (v' & Hv' & Hty').
      destruct (decide (l' = l)) as [-> |].
      * exists (set_key f x v). split; [exact Hl |].
        rewrite set_key_ty. exact Hty.
      * exists v'. rewrite Hrec by auto. auto.
    + intros [f' y] l'. cbn [by_field by_node].
      unfold index_field, unindex_field. rewrite get_set_key.
      destruct (indexable x); intros Hl'.
      * destruct (decide ((f', y) = (f, x))) as [E | E].
        -- rewrite E, lookup_insert_eq in Hl'. injection Hl' as <-. exact Hst.
        -- rewrite lookup_insert_ne in Hl' by congruence.
           apply lookup_delete_Some in Hl' as [_ Hl']. eapply Hmem; eauto.
      * apply lookup_delete_Some in Hl' as [_ Hl']. eapply Hmem; eauto.
  - (* the other store does not know the record *)
    assert (Hnot : ~ stored k' l m).
    { intros H'. apply Hne. apply (stored_kind k k' l m); assumption. }
    unfold store_ok. rewrite store_with_store_ne, heap_with_store by auto.
    split; [exact Hf |]. split; [split |]; [| | split].
    + intros id l' Hl'. destruct (Hbn _ _ Hl') as (v' & Hv' & Hid).
      assert (l' <> l) by (intros ->; apply Hnot; exists id; exact Hl').
      exists v'. rewrite Hrec by auto. auto.
    + intros f' y l' Hl'. destruct (Hbf _ _ _ Hl') as (Hin & v' & Hv' & Hkey).
      split; [exact Hin |].
      assert (l' <> l) by (intros ->; apply Hnot; eapply Hmem; eauto).
      exists v'. rewrite Hrec by auto. auto.
    + intros id l' Hl'. destruct (Hkind _ _ Hl') as (v' & Hv' & Hty').
      assert (l' <> l) by (intros ->; apply Hnot; exists id; exact Hl').
      exists v'. rewrite Hrec by auto. auto.
    + exact Hmem.
Qed.

End Consistency2.

Section Consistency3.

(** Adding a record that has no key yet. *)
Lemma consistent_add k rec m :
  consistent m -> ty rec = k ->
  (forall f, indexable (get_key f rec) = false) ->
  consistent (snd (D_add k rec m)).
Proof.
  intros Hc Hty Hno. unfold D_add, md_add.
  destruct (by_node (store k m) !! node_id rec) eqn:Hfree.
  { simpl. destruct k; destruct m; exact Hc. }
  rewrite (fold_index_none _ _ _ _ Hno). cbn [snd]. intros k'.
  destruct (Hc k') as (Hf & [Hbn Hbf] & Hkind & Hmem).
  assert (Hold : forall l' v, heap m !! l' = Some v ->
            (heap m ++ [rec]) !! l' = Some v)
    by (intros l' v Hv; apply lookup_app_l_Some; exact Hv).
  destruct (decide (k' = k)) as [-> | Hne].
  - unfold store_ok, store_sound.
    rewrite store_with_store, heap_with_store.
    cbn [md_fields by_node by_field].
    split; [exact Hf |]. split; [split |]; [| | split].
    + intros id l' Hl'.
      destruct (decide (id = node_id rec)) as [-> |].
      * rewrite lookup_insert_eq in Hl'. injection Hl' as <-.
        exists rec. split; [apply list_lookup_middle |]; reflexivity.
      * rewrite lookup_insert_ne in Hl' by auto.
        destruct (Hbn _ _ Hl') as (v & Hv & Hid). eauto.
    + intros f x l' Hl'. destruct (Hbf _ _ _ Hl') as (Hin & v & Hv & Hkey).
      eauto.
    + intros id l' Hl'.
      destruct (decide (id = node_id rec)) as [-> |].
      * rewrite lookup_insert_eq in Hl'. injection Hl' as <-.
        exists rec. split; [apply list_lookup_middle; reflexivity | exact Hty].
      * rewrite lookup_insert_ne in Hl' by auto.
        destruct (Hkind _ _ Hl') as (v & Hv & Hty'). eauto.
    + intros key l' Hl'. destruct (Hmem _ _ Hl') as [id Hid].
      exists id. rewrite lookup_insert_ne by congruence. exact Hid.
  - unfold store_ok. rewrite store_with_store_ne, heap_with_store by auto.
    split; [exact Hf |]. split; [split |]; [| | split].
    + intros id l' Hl'. destruct (Hbn _ _ Hl') as (v & Hv & Hid). eauto.
    + intros f x l' Hl'. destruct (Hbf _ _ _ Hl') as (Hin & v & Hv & Hkey).
      eauto.
    + intros id l' Hl'. destruct (Hkind _ _ Hl') as (v & Hv & Hty'). eauto.
    + exact Hmem.
Qed.

(** Taking the record at [l] out of its store. *)
Lemma consistent_remove k l m :
  consistent m -> stored k l m -> consistent (D_remove_value k l m).
Proof.
  intros Hc Hst. pose proof Hst as [id0 Hid0].
  destruct (stored_record _ _ _ Hc Hst) as (v & Hv & Hty).
  unfold D_remove_value. intros k'.
  destruct (Hc k') as (Hf & Hsound & Hkind & Hmem).
  destruct (decide (k' = k)) as [-> | Hne].
  - destruct (remove_value_subseteq (heap m) (store k m) l)
      as (Hsn & Hsf & Hfields).
    unfold store_ok. rewrite store_with_store, heap_with_store.
    split; [rewrite Hfields; exact Hf |].
    split; [eapply store_sound_subseteq; eauto |]. split.
    + intros id l' Hl'. eapply Hkind, lookup_weaken; eauto.
    + intros key l' Hl'.
      destruct (Hmem key l' (lookup_weaken _ _ _ _ Hl' Hsf)) as [id Hid].
      exists id. unfold md_remove_value. rewrite Hv. cbn [by_node].
      rewrite lookup_delete_ne; [exact Hid |].
      intros <-.
      destruct (proj1 Hsound _ _ Hid0) as (v0 & Hv0 & Hn0).
      assert (v0 = v) as -> by congruence.
      assert (l' = l) as -> by congruence.
      apply (remove_value_not_in_store _ _ _ _ Hsound Hv).
      right. exists key. exact Hl'.
  - unfold store_ok. rewrite store_with_store_ne, heap_with_store by auto.
    auto.
Qed.

End Consistency3.

Section Consistency4.

Lemma at_with_tree k l f m :
  consistent_at k l m -> consistent_at k l (with_tree f m).
Proof.
  intros [Hc Hs]. split; [apply consistent_with_tree; exact Hc |].
  apply (stored_ext k l m); [apply store_with_tree | exact Hs].
Qed.

Lemma at_refresh_label k l id m :
  consistent_at k l m -> consistent_at k l (snd (refresh_label id m)).
Proof.
  intros [Hc Hs]. split; [apply consistent_refresh_label; exact Hc |].
  destruct (refresh_label_tree id m) as (t & -> & _).
  apply (stored_ext k l m); [apply store_with_tree | exact Hs].
Qed.

Lemma at_refresh_icon k l x m :
  consistent_at k l m -> consistent_at k l (snd (refresh_icon x m)).
Proof.
  intros [Hc Hs]. split; [apply consistent_refresh_icon; exact Hc |].
  destruct (refresh_icon_tree x m) as (t & -> & _).
  apply (stored_ext k l m); [apply store_with_tree | exact Hs].
Qed.

Lemma at_assign k l g m :
  (forall v, node_id (g v) = node_id v /\ ty (g v) = ty v
             /\ forall f, f ∈ key_fields k -> get_key f (g v) = get_key f v) ->
  consistent_at k l m -> consistent_at k l (assign l g m).
Proof.
  intros Hg [Hc Hs]. split.
  - apply (consistent_assign k); [exact Hc | | exact Hg].
    intros k' Hk'. apply (stored_kind k k' l m); assumption.
  - apply (stored_ext k l m); [apply store_assign | exact Hs].
Qed.

Lemma at_change_key k l f x m :
  f ∈ key_fields k ->
  consistent_at k l m -> consistent_at k l (D_change_key k l f x m).
Proof.
  intros Hf [Hc Hs]. split; [apply consistent_change_key; assumption |].
  destruct Hs as [id Hid]. exists id.
  rewrite (by_node_D_change_key k k). exact Hid.
Qed.

Lemma at_open_parent k l (p : option jsstring) m :
  consistent_at k l m ->
  consistent_at k l ((match p with
                      | Some p => with_tree (open_node p)
                      | None => fun m => m
                      end) m).
Proof. destruct p; [apply at_with_tree | auto]. Qed.

Lemma names_stored_at x k m l v id :
  consistent m -> names_stored x k m -> resolved x k m = Some (l, v, id) ->
  consistent_at k l m.
Proof.
  intros Hc Hn Hres. split; [exact Hc |]. resolve_in Hres.
  eexists. apply (Hn _ Hl).
Qed.

Lemma names_stored_node_id s k m : names_stored (Vy (VStr s)) k m.
Proof.
  intros l. unfold vn_by_vorny.
  destruct (negb (truthy (VStr s))); [discriminate |].
  destruct k; intros Hl; exact Hl.
Qed.

End Consistency4.

Ltac at_steps :=
  repeat first
    [ apply at_refresh_icon
    | apply at_refresh_label
    | apply at_open_parent
    | apply at_with_tree
    | apply at_change_key;
        [first [left | right; left | right; right; left] |]
    | apply at_assign;
        [intros ?; split; [reflexivity |]; split; [reflexivity |];
         intros f Hin; destruct f; try reflexivity; exfalso;
         cbv beta iota delta [key_fields] in Hin;
         repeat (apply elem_of_cons in Hin as [Hin | Hin];
                 [discriminate Hin |]);
         inversion Hin |] ].

Section Consistency5.

Lemma consistent_markWinAsOpen x cwin m :
  consistent m -> names_stored x IT_WIN m ->
  consistent (snd (markWinAsOpen x cwin m)).
Proof.
  intros Hc Hn. destruct (markWinAsOpen x cwin m) as [[|] m'] eqn:E.
  - apply markWinAsOpen_true_inv in E
      as (cw & l & v & id & nd & -> & _ & Hres & _ & _ & _ & ->).
    apply (names_stored_at _ _ _ _ _ _ Hc Hn) in Hres.
    refine (proj1 (_ : consistent_at IT_WIN l _)). at_steps. exact Hres.
  - apply markWinAsOpen_false in E as [-> | (msg & l & ->)];
      [| apply consistent_log_info]; exact Hc.
Qed.

Lemma consistent_markTabAsOpen x ctab m :
  consistent m -> names_stored x IT_TAB m ->
  consistent (snd (markTabAsOpen x ctab m)).
Proof.
  intros Hc Hn. destruct (markTabAsOpen x ctab m) as [[|] m'] eqn:E.
  - apply markTabAsOpen_true_inv in E
      as (ct & l & v & id & nd & -> & _ & Hres & _ & _ & _ & ->).
    apply (names_stored_at _ _ _ _ _ _ Hc Hn) in Hres.
    refine (proj1 (_ : consistent_at IT_TAB l _)). at_steps. exact Hres.
  - apply markTabAsOpen_false in E as [-> | (msg & l & ->)];
      [| apply consistent_log_info]; exact Hc.
Qed.

Lemma consistent_markWinAsClosed x m :
  consistent m -> names_stored x IT_WIN m ->
  consistent (snd (markWinAsClosed x m)).
Proof.
  intros Hc Hn. destruct (markWinAsClosed x m) as [[|] m'] eqn:E.
  - apply markWinAsClosed_true_inv in E
      as (l & v & id & cw & Hres & _ & _ & ->).
    apply (names_stored_at _ _ _ _ _ _ Hc Hn) in Hres.
    refine (proj1 (_ : consistent_at IT_WIN l _)). at_steps. exact Hres.
  - apply markWinAsClosed_false in E as [-> | (msg & l & ->)];
      [| apply consistent_log_info]; exact Hc.
Qed.

Lemma consistent_markTabAsClosed x m :
  consistent m -> names_stored x IT_TAB m ->
  consistent (snd (markTabAsClosed x m)).
Proof.
  intros Hc Hn. destruct (markTabAsClosed x m) as [[|] m'] eqn:E.
  - apply markTabAsClosed_true_inv in E
      as (l & v & id & nd & ct & Hres & _ & _ & _ & ->).
    apply (names_stored_at _ _ _ _ _ _ Hc Hn) in Hres.
    refine (proj1 (_ : consistent_at IT_TAB l _)). at_steps. exact Hres.
  - apply markTabAsClosed_false in E as [-> | (msg & l & ->)];
      [| apply consistent_log_info]; exact Hc.
Qed.

End Consistency5.

Section Consistency6.

Lemma consistent_empty_model : consistent empty_model.
Proof.
  assert (He : forall (K : Type) `{Countable K} (k : K) (l : loc),
            (∅ : gmap K loc) !! k = Some l -> False).
  { intros K ? ? k l H. rewrite lookup_empty in H. discriminate H. }
  intros k. unfold store_ok, store_sound.
  destruct k; cbn [store empty_model windows tabs by_node by_field md_fields];
    (split; [reflexivity |]);
    (split; [split; [intros id l H | intros f x l H] |
             split; [intros id l H | intros key l H]]);
    destruct (He _ _ _ _ _ H).
Qed.

Lemma consistent_vnRezWin b m : consistent m -> consistent (snd (vnRezWin b m)).
Proof.
  intros Hc. unfold vnRezWin.
  destruct (create_node _ _ _ _) as [[cid |] t]; [| exact Hc].
  fold (new_win cid).
  destruct (D_add _ _ _) as [[l |] m2] eqn:Hadd.
  - cbn [snd]. apply consistent_refresh_icon, consistent_refresh_label.
    change m2 with (snd (Some l, m2)). rewrite <- Hadd.
    apply consistent_add; [| reflexivity | apply new_win_unkeyed].
    apply consistent_with_tree, consistent_with_tree, Hc.
  - cbn [snd]. apply consistent_with_tree.
    change m2 with (snd (@None loc, m2)). rewrite <- Hadd.
    apply consistent_add; [| reflexivity | apply new_win_unkeyed].
    apply consistent_with_tree, consistent_with_tree, Hc.
Qed.

Lemma consistent_vnRezTab x m : consistent m -> consistent (snd (vnRezTab x m)).
Proof.
  intros Hc. unfold vnRezTab.
  destruct (vn_val _) as [lp |]; [| exact Hc].
  destruct (negb _); [exact Hc |].
  destruct (get_node _ (treeobj m)) as [pnd |]; [| exact Hc].
  destruct (create_node _ _ _ _) as [[cid |] t]; [| exact Hc].
  fold (new_tab cid).
  destruct (D_add _ _ _) as [[l |] m2] eqn:Hadd.
  - cbn [snd]. apply consistent_refresh_icon, consistent_refresh_label.
    change m2 with (snd (Some l, m2)). rewrite <- Hadd.
    apply consistent_add; [| reflexivity | apply new_tab_unkeyed].
    apply consistent_with_tree, consistent_with_tree, Hc.
  - cbn [snd]. apply consistent_with_tree.
    change m2 with (snd (@None loc, m2)). rewrite <- Hadd.
    apply consistent_add; [| reflexivity | apply new_tab_unkeyed].
    apply consistent_with_tree, consistent_with_tree, Hc.
Qed.

Lemma at_if k l (c : bool) (f : model -> model) m :
  (forall m, consistent_at k l m -> consistent_at k l (f m)) ->
  consistent_at k l m ->
  consistent_at k l ((if c then f else fun m => m) m).
Proof. destruct c; auto. Qed.

Lemma consistent_remember id c m :
  consistent m -> consistent (snd (remember id c m)).
Proof.
  intros Hc. destruct (remember id c m) as [[|] m'] eqn:E.
  - apply remember_true_inv in E as (l & _ & Hl & ->).
    refine (proj1 (_ : consistent_at IT_WIN l _)). at_steps.
    apply at_if; [intros m0 H0; at_steps; exact H0 |]. at_steps.
    split; [exact Hc |]. exists id. exact Hl.
  - revert E. unfold remember.
    destruct (negb _); [intros [= <-]; exact Hc |].
    destruct (D_by_node_id _ _ _); [discriminate | intros [= <-]; exact Hc].
Qed.

Lemma consistent_mark_win_as_unsaved val a m :
  consistent m -> consistent (snd (mark_win_as_unsaved val a m)).
Proof.
  intros Hc. unfold mark_win_as_unsaved.
  destruct val as [l |]; [| exact Hc].
  destruct (heap m !! l) as [v |] eqn:Hv; [| exact Hc].
  destruct (bool_decide (ty v = IT_WIN)) eqn:Hty; [| exact Hc].
  apply bool_decide_eq_true in Hty.
  destruct (str_truthy (node_id v)); [| exact Hc]. cbn [negb orb snd].
  apply consistent_refresh_icon, consistent_refresh_label.
  assert (Hstep : forall g m0,
            consistent m0 ->
            (exists v0, heap m0 !! l = Some v0 /\ ty v0 = IT_WIN) ->
            (forall v0, node_id (g v0) = node_id v0 /\ ty (g v0) = ty v0
               /\ forall f, get_key f (g v0) = get_key f v0) ->
            consistent (assign l g m0)
            /\ exists v0, heap (assign l g m0) !! l = Some v0 /\ ty v0 = IT_WIN).
  { intros g m0 H0 (v0 & Hv0 & Ht0) Hg. split.
    - apply (consistent_assign IT_WIN); [exact H0 | |].
      + intros k' (id' & Hid'). destruct (H0 k') as (_ & _ & Hn & _).
        destruct (Hn _ _ Hid') as (v1 & Hv1 & Ht1). congruence.
      + intros v1. destruct (Hg v1) as (? & ? & ?). auto.
    - exists (g v0). split; [| destruct (Hg v0) as (_ & -> & _); exact Ht0].
      unfold assign, with_heap. cbn [heap].
      rewrite list_lookup_alter_eq, Hv0. reflexivity. }
  assert (H1 : consistent (assign l (set_keep K.WIN_NOKEEP) m)
               /\ exists v0, heap (assign l (set_keep K.WIN_NOKEEP) m) !! l
                             = Some v0 /\ ty v0 = IT_WIN).
  { apply Hstep; [exact Hc | eauto |].
    intros v0. split; [reflexivity |]. split; [reflexivity |].
    intros f; destruct f; reflexivity. }
  destruct H1 as [H1 H1'].
  destruct (a && _).
  - apply Hstep; [apply consistent_with_tree; exact H1 | exact H1' |].
    intros v0. split; [reflexivity |]. split; [reflexivity |].
    intros f; destruct f; reflexivity.
  - apply consistent_with_tree; exact H1.
Qed.

Lemma consistent_updateOrderedURLHash x m :
  consistent m -> names_stored x IT_WIN m ->
  consistent (snd (updateOrderedURLHash x m)).
Proof.
  intros Hc Hn. unfold updateOrderedURLHash.
  destruct (vn_val _) as [l |] eqn:Hl; [| exact Hc].
  assert (Hs : stored IT_WIN l m) by (eexists; apply (Hn _ Hl)).
  assert (Hk : forall h, consistent
                 (D_change_key IT_WIN l F_ordered_url_hash h m)).
  { intros h. apply consistent_change_key; [exact Hc | exact Hs |].
    right; left. }
  destruct (get_node _ (treeobj m)) as [nd |]; [| exact Hc].
  destruct (negb _); [exact Hc |].
  destruct (child_urls _ m) as [urls |]; [| apply Hk].
  destruct (D_by_ordered_url_hash _ m) as [o |]; [| apply Hk].
  destruct (bool_decide _); [exact Hc | apply Hk].
Qed.

Lemma consistent_eraseTab x m :
  consistent m -> names_stored x IT_TAB m -> consistent (snd (eraseTab x m)).
Proof.
  intros Hc Hn. unfold eraseTab.
  destruct (vn_val _) as [l |] eqn:Hl; [| exact Hc].
  destruct (get_node _ (treeobj m)) as [nd |]; [| exact Hc].
  destruct (negb _); [exact Hc |]. cbn [snd].
  apply consistent_with_tree, consistent_remove; [exact Hc |].
  eexists; apply (Hn _ Hl).
Qed.

Lemma windows_eraseTab x m : windows (snd (eraseTab x m)) = windows m.
Proof.
  unfold eraseTab.
  destruct (vn_val _) as [l |]; [| reflexivity].
  destruct (get_node _ (treeobj m)) as [nd |]; [| reflexivity].
  destruct (negb _); reflexivity.
Qed.

Lemma erase_children_keeps fuel : forall id arr i m,
  consistent m ->
  consistent (snd (erase_children fuel id arr i m))
  /\ windows (snd (erase_children fuel id arr i m)) = windows m.
Proof.
  induction fuel as [| fuel IH]; intros id arr i m Hc; cbn [erase_children];
    (destruct (arr !! i) as [c |]; [| split; [exact Hc | reflexivity]]);
    [split; [exact Hc | reflexivity] |].
  pose proof (consistent_eraseTab (Vy (VStr c)) m Hc
                (names_stored_node_id c IT_TAB m)) as H1.
  pose proof (windows_eraseTab (Vy (VStr c)) m) as H2.
  destruct (eraseTab (Vy (VStr c)) m) as [[|] m1]; cbn [snd negb] in *.
  - destruct (IH id (live_children id arr m1) (S i) m1 H1) as [H3 H4].
    split; [exact H3 | congruence].
  - split; [exact H1 | exact H2].
Qed.

Lemma consistent_eraseWin x m :
  consistent m -> names_stored x IT_WIN m -> consistent (snd (eraseWin x m)).
Proof.
  intros Hc Hn. unfold eraseWin.
  destruct (vn_val _) as [l |] eqn:Hl; [| exact Hc].
  destruct (negb _); [exact Hc |].
  destruct (get_node _ (treeobj m)) as [nd |]; [| exact Hc].
  destruct (erase_children_keeps (length (n_children nd))
              (vn_node_id (vn_by_vorny x (Some IT_WIN) m)) (n_children nd)
              0%nat m Hc) as [H1 H2].
  destruct (erase_children _ _ _ _ m) as [[|] m1]; cbn [snd negb] in *;
    [| exact H1].
  apply consistent_with_tree, consistent_remove; [exact H1 |].
  eexists. unfold store. rewrite H2. apply (Hn _ Hl).
Qed.

End Consistency6.

Section Consistency7.

Lemma store_ok_b_spec k m : store_ok_b k m = true -> store_ok k m.
Proof.
  unfold store_ok_b, store_ok. intros H.
  apply andb_true_iff in H as [H H4]. apply andb_true_iff in H as [H H3].
  apply andb_true_iff in H as [H1 H2].
  apply bool_decide_eq_true in H1. apply store_sound_b_spec in H2.
  split; [exact H1 |]. split; [exact H2 |]. split.
  - intros id l Hl. rewrite forallb_forall in H3.
    specialize (H3 (id, l)). cbn [snd] in H3.
    assert (Hin : In (id, l) (map_to_list (by_node (store k m)))).
    { apply list_elem_of_In, elem_of_map_to_list. exact Hl. }
    specialize (H3 Hin). destruct (heap m !! l) as [v |]; [| discriminate].
    apply bool_decide_eq_true in H3. eauto.
  - intros key l Hl. rewrite forallb_forall in H4.
    specialize (H4 (key, l)). cbn [snd] in H4.
    assert (Hin : In (key, l) (map_to_list (by_field (store k m)))).
    { apply list_elem_of_In, elem_of_map_to_list. exact Hl. }
    specialize (H4 Hin). apply existsb_exists in H4 as ([id l'] & Hin' & He).
    apply bool_decide_eq_true in He. cbn [snd] in He. subst l'.
    exists id. apply elem_of_map_to_list, list_elem_of_In. exact Hin'.
Qed.

Lemma consistent_b_spec m : consistent_b m = true -> consistent m.
Proof.
  unfold consistent_b. intros H. apply andb_true_iff in H as [H1 H2].
  intros k. destruct k; apply store_ok_b_spec; assumption.
Qed.

Lemma names_stored_record k l m :
  consistent m -> stored k l m -> names_stored (VyVal l) k m.
Proof.
  intros Hc [id Hid] l'. destruct (Hc k) as (_ & [Hs _] & _).
  destruct (Hs _ _ Hid) as (v & Hv & Hn).
  unfold vn_by_vorny. rewrite Hv.
  destruct (negb _); [discriminate |]. cbn [vn_val vn_node_id].
  intros [= <-]. unfold D_by_node_id. rewrite Hn. exact Hid.
Qed.

Lemma names_stored_node k k' id p m :
  k' <> k -> D_by_node_id k' id m = None -> names_stored (VyNode id p) k m.
Proof.
  intros Hk Hnone l. unfold vn_by_vorny.
  destruct (_ && _); [| discriminate]. cbn [vn_val vn_node_id].
  unfold D_val_by_node_id. destruct k, k'; try congruence.
  - rewrite Hnone. destruct (D_by_node_id IT_WIN id m) as [lw |] eqn:Hw.
    + intros [= <-]. reflexivity.
    + discriminate.
  - rewrite Hnone. auto.
Qed.

End Consistency7.

Section StoreInvariant.

(** X26. The routines keep the stores in agreement with the records. From a
    state where they agree, they still agree after [vnRezWin], [vnRezTab],
    [remember] and [mark_win_as_unsaved] on any arguments, whether the call
    succeeds or not; and after [markWinAsOpen], [markWinAsClosed],
    [updateOrderedURLHash], [eraseWin] (resp. [markTabAsOpen],
    [markTabAsClosed], [eraseTab]) on an item that the window store (resp.
    the tab store) has under the node id the resolver finds. *)
Theorem operations_keep_stores_consistent m :
  consistent m ->
  (forall b, consistent (snd (vnRezWin b m)))
  /\ (forall x, consistent (snd (vnRezTab x m)))
  /\ (forall id c, consistent (snd (remember id c m)))
  /\ (forall val a, consistent (snd (mark_win_as_unsaved val a m)))
  /\ (forall x, names_stored x IT_WIN m ->
        (forall cwin, consistent (snd (markWinAsOpen x cwin m)))
        /\ consistent (snd (markWinAsClosed x m))
        /\ consistent (snd (updateOrderedURLHash x m))
        /\ consistent (snd (eraseWin x m)))
  /\ (forall x, names_stored x IT_TAB m ->
        (forall ctab, consistent (snd (markTabAsOpen x ctab m)))
        /\ consistent (snd (markTabAsClosed x m))
        /\ consistent (snd (eraseTab x m))).
Proof.
  intros Hc.
  split; [intros b; apply consistent_vnRezWin; exact Hc |].
  split; [intros x; apply consistent_vnRezTab; exact Hc |].
  split; [intros id c; apply consistent_remember; exact Hc |].
  split; [intros val a; apply consistent_mark_win_as_unsaved; exact Hc |].
  split; intros x Hn.
  - split; [intros cwin; apply consistent_markWinAsOpen; assumption |].
    split; [apply consistent_markWinAsClosed; assumption |].
    split; [apply consistent_updateOrderedURLHash; assumption |].
    apply consistent_eraseWin; assumption.
  - split; [intros ctab; apply consistent_markTabAsOpen; assumption |].
    split; [apply consistent_markTabAsClosed; assumption |].
    apply consistent_eraseTab; assumption.
Qed.

Lemma operations_keep_stores_consistent_witness :
  consistent Scenario.both_open
  /\ names_stored (Vy (VStr Scenario.win1)) IT_WIN Scenario.both_open
  /\ consistent
       (snd (markWinAsClosed (Vy (VStr Scenario.win1)) Scenario.both_open))
  /\ consistent (snd (eraseWin (Vy (VStr Scenario.win1)) Scenario.both_open)).
Proof.
  assert (Hc : consistent Scenario.both_open)
    by (apply consistent_b_spec; vm_compute; reflexivity).
  assert (Hn : names_stored (Vy (VStr Scenario.win1)) IT_WIN
                 Scenario.both_open)
    by (intros l; vm_compute; intros H; exact H).
  split; [exact Hc |]. split; [exact Hn |].
  destruct (operations_keep_stores_consistent Scenario.both_open Hc)
    as (_ & _ & _ & _ & Hw & _).
  destruct (Hw _ Hn) as (_ & H1 & _ & H2). split; [exact H1 | exact H2].
Defined.

(** X27. Which references name an item of a store: every node id does, for
    both kinds. When the stores agree with the records, so does every record
    of the store; and a jstree node record does for the one kind when the
    store of the other kind has nothing under its id. *)
Theorem references_that_name_stored_items m k :
  (forall s, names_stored (Vy (VStr s)) k m)
  /\ (consistent m ->
      (forall l, stored k l m -> names_stored (VyVal l) k m)
      /\ (forall id p k', k' <> k -> D_by_node_id k' id m = None ->
            names_stored (VyNode id p) k m)).
Proof.
  split; [intros s; apply names_stored_node_id |].
  intros Hc. split.
  - intros l Hs. apply names_stored_record; assumption.
  - intros id p k' Hk Hnone. apply (names_stored_node k k'); assumption.
Qed.

Lemma references_that_name_stored_items_witness :
  consistent Scenario.both_open
  /\ stored IT_TAB 1%nat Scenario.both_open
  /\ names_stored (VyVal 1%nat) IT_TAB Scenario.both_open
  /\ names_stored (VyNode Scenario.tab1 (Some Scenario.win1)) IT_TAB
       Scenario.both_open.
Proof.
  assert (Hc : consistent Scenario.both_open)
    by (apply consistent_b_spec; vm_compute; reflexivity).
  assert (Hs : stored IT_TAB 1%nat Scenario.both_open)
    by (exists Scenario.tab1; vm_compute; reflexivity).
  split; [exact Hc |]. split; [exact Hs |].
  destruct (references_that_name_stored_items Scenario.both_open IT_TAB)
    as [_ H]. destruct (H Hc) as [H1 H2].
  split; [apply H1; exact Hs |].
  apply (H2 _ _ IT_WIN); [discriminate | vm_compute; reflexivity].
Defined.

End StoreInvariant.

(** * The loop of [eraseWin] *)

(** X28. [eraseWin] on a window item whose children are distinct leaves and
    tab items, in a state whose stores agree with the records: the call
    returns true and the window is erased, but of the children only the
    first, the third and so on are erased. The second, the fourth and so on
    are passed over, because each erased child leaves the array that the
    loop is reading: their nodes leave the tree with the node of the window,
    and [D.tabs] holds their records as before. *)
Theorem eraseWin_erases_every_second_child m x l v id nd :
  window_item x m l v id nd ->
  store_sound (heap m) (windows m) ->
  store_sound (heap m) (tabs m) ->
  children_ok m id (n_children nd) ->
  is_Some (n_parent nd) ->
  tab_items m (n_children nd) ->
  exists m',
    eraseWin x m = (true, m')
    /\ erased IT_WIN m' id l
    /\ (forall c lc,
          c ∈ visited (n_children nd) ->
          D_by_node_id IT_TAB c m = Some lc -> erased IT_TAB m' c lc)
    /\ (forall c,
          c ∈ passed_over (n_children nd) ->
          D_by_node_id IT_TAB c m' = D_by_node_id IT_TAB c m
          /\ is_Some (D_by_node_id IT_TAB c m')
          /\ get_node c (treeobj m') = None).
Proof.
  intros Hitem Hsw Hst Hok Hnonroot Hall.
  pose proof (eraseWin_run _ _ _ _ _ _ Hitem) as Hrun.
  destruct (window_item_inv _ _ _ _ _ _ Hitem) as (_ & Hv & Hstored & Hnd).
  destruct (erase_children_alternates (n_children nd) true [] 
              (length (n_children nd)) m nd id Hnd eq_refl Hok Hst Hall
              (le_n _))
    as (Htrue & Hshr & (nd' & Hnd' & Hch') & Herased & Hkept).
  cbn [length app Nat.add negb] in Htrue, Hshr, Hnd', Hch', Herased, Hkept.
  set (mk := snd (erase_children (length (n_children nd)) id
                    (n_children nd) 0 m)) in *.
  assert (Hid : node_id v = id).
  { destruct (proj1 Hsw _ _ Hstored) as (v' & Hv' & Hid'). congruence. }
  rewrite Htrue in Hrun. eexists. split; [exact Hrun |].
  destruct (eraseWin_finish m mk l v id nd Hv Hid Hsw Hshr Hnd Hnonroot
              (ex_intro _ nd' Hnd')) as (Hwin & Htabs).
  split; [exact Hwin |]. split.
  - intros c lc Hin Hlc. apply Htabs. apply Herased; assumption.
  - intros c Hin.
    assert (Hsame : D_by_node_id IT_TAB c
                      (with_tree (delete_node id)
                         (D_remove_value IT_WIN l mk))
                    = D_by_node_id IT_TAB c m).
    { change (D_by_node_id IT_TAB c mk = D_by_node_id IT_TAB c m).
      apply Hkept. destruct Hok as (Hnodup & _).
      intros Hvis.
      apply (alternate_disjoint (n_children nd) true c Hnodup Hvis).
      exact Hin. }
    split; [exact Hsame |]. split.
    + rewrite Hsame. apply Hall. eapply alternate_subset. exact Hin.
    + unfold get_node in *. cbn [treeobj with_tree].
      change (treeobj (D_remove_value IT_WIN l mk)) with (treeobj mk).
      destruct Hnonroot as [p Hp].
      destruct Hshr as (_ & _ & _ & _ & _ & Ht).
      destruct (Ht _ _ Hnd') as (n0 & Hn0 & Hpk).
      rewrite Hnd in Hn0. injection Hn0 as <-.
      eapply delete_node_child; [exact Hnd' | rewrite Hpk; exact Hp |].
      rewrite Hch'. exact Hin.
Qed.

Lemma eraseWin_erases_every_second_child_witness :
  exists v nd m',
    window_item (Vy (VStr SameTabs.w0)) SameTabs.two 0%nat v SameTabs.w0 nd
    /\ n_children nd = [gen_id 2; gen_id 3]
    /\ eraseWin (Vy (VStr SameTabs.w0)) SameTabs.two = (true, m')
    /\ erased IT_TAB m' (gen_id 2) 1%nat
    /\ is_Some (D_by_node_id IT_TAB (gen_id 3) m')
    /\ get_node (gen_id 3) (treeobj m') = None.
Proof.
  assert (Hi : exists v nd,
    window_item (Vy (VStr SameTabs.w0)) SameTabs.two 0%nat v SameTabs.w0 nd
    /\ n_children nd = [gen_id 2; gen_id 3]
    /\ children_ok SameTabs.two SameTabs.w0 (n_children nd)
    /\ is_Some (n_parent nd)
    /\ tab_items SameTabs.two (n_children nd)).
  { do 2 eexists. unfold window_item.
    split; [split; [vm_compute; reflexivity |];
            split; vm_compute; reflexivity |].
    split; [reflexivity |].
    split; [apply children_ok_b_spec; vm_compute; reflexivity |].
    split; [simpl; eauto |].
    intros c Hc. simpl in Hc.
    apply elem_of_cons in Hc as [-> | Hc];
      [| apply elem_of_cons in Hc as [-> | Hc]; [| inversion Hc]];
      (split; [reflexivity |]; split; vm_compute; eauto). }
  destruct Hi as (v & nd & Hi & Hch & Hok & Hroot & Hall).
  assert (Hsw : store_sound (heap SameTabs.two) (windows SameTabs.two))
    by (apply store_sound_b_spec; vm_compute; reflexivity).
  assert (Hst : store_sound (heap SameTabs.two) (tabs SameTabs.two))
    by (apply store_sound_b_spec; vm_compute; reflexivity).
  destruct (eraseWin_erases_every_second_child _ _ _ _ _ _ Hi Hsw Hst Hok
              Hroot Hall) as (m' & Hrun & _ & Hvis & Hpass).
  exists v, nd, m'. split; [exact Hi |]. split; [exact Hch |].
  split; [exact Hrun |]. rewrite Hch in Hvis, Hpass. split.
  - apply Hvis; [left | vm_compute; reflexivity].
  - destruct (Hpass (gen_id 3)) as (_ & Hrec & Hnode); [left |].
    split; [exact Hrec | exact Hnode].
Defined.
